(** * SSHT: a static set-associative hashtable

    A shallow embedding of the lookup engine, the loader, the builder and
    the deriver of SSHT (include/ssht.h, include/utils.h, src/internal.h,
    src/ssht.cc, src/build.cc, src/search.cc) together with the properties
    stated about them.

    Conventions.
    - A [uintN_t] value is a [Z] in [0, 2^N); every operation that can
      leave the range is followed by the explicit wrap-around.
    - A byte buffer is a [list Z]; a pointer into the buffer is its offset.
    - [extern uint64_t Hash(...)] has no definition in the sources at hand;
      it is a section variable wherever it is used. *)

From Stdlib Require Import ZArith List Bool Lia Znumtheory Zpow_facts.
From Stdlib Require Import Permutation FinFun.
Import ListNotations.
Local Open Scope Z_scope.

(** ** Machine integers *)

Definition wrap8 (x : Z) : Z := x mod 2 ^ 8.
Definition wrap16 (x : Z) : Z := x mod 2 ^ 16.
Definition wrap32 (x : Z) : Z := x mod 2 ^ 32.
Definition wrap64 (x : Z) : Z := x mod 2 ^ 64.
Definition wrap128 (x : Z) : Z := x mod 2 ^ 128.

(** [~x] on a [uint64_t]. *)
Definition not64 (x : Z) : Z := Z.lxor x (2 ^ 64 - 1).

(** ** utils.h: [Divisor<uint64_t>] (Robison's division by an invariant) *)

Module Divisor.

Record t : Type := mk {
  m_val : Z;
  m_fac : Z;
  m_tip : Z;
  m_sft : Z
}.

Definition BITWIDTH : Z := 64.

(** [for (; m > n; m >>= 1U) m_sft--;]  The loop leaves after at most 64
    turns: sixty-four right shifts bring [m] to zero. *)
Fixpoint shrink (turns : nat) (m sft n : Z) : Z * Z :=
  match turns with
  | O => (m, sft)
  | S turns' =>
      if m >? n then shrink turns' (Z.shiftr m 1) (wrap32 (sft - 1)) n
      else (m, sft)
  end.

(** [Divisor operator=(Word n)] *)
Definition make (n : Z) : t :=
  if n =? 0 then mk n 0 0 0
  else
    let '(m, sft) := shrink 64 (wrap64 (Z.shiftl 1 (BITWIDTH - 1))) (BITWIDTH - 1) n in
    if m =? n then mk n (not64 0) (not64 0) sft
    else
      let fac := wrap64 (wrap128 (Z.shiftl m BITWIDTH) / n) in
      let r := wrap64 (fac * n + n) in
      if r <=? m then mk n (wrap64 (fac + 1)) 0 sft
      else mk n fac fac sft.

Definition value (d : t) : Z := m_val d.

(** [Word t = (m_fac * (DoubleWord)m + m_tip) >> BITWIDTH;] *)
Definition top (d : t) (m : Z) : Z :=
  wrap64 (Z.shiftr (wrap128 (m_fac d * m + m_tip d)) BITWIDTH).

Definition div (d : t) (m : Z) : Z := Z.shiftr (top d m) (m_sft d).

Definition mod_ (d : t) (m : Z) : Z :=
  wrap64 (m - wrap64 (m_val d * Z.shiftr (top d m) (m_sft d))).

End Divisor.


(** ** Bytes and little-endian words *)

(** The value of a little-endian byte sequence. *)
Fixpoint le_pack (bs : list Z) : Z :=
  match bs with
  | [] => 0
  | b :: bs' => b + 256 * le_pack bs'
  end.

(** Byte [j] of a word (byte 0 is the least significant one). *)
Definition byte_of (x j : Z) : Z := Z.land (Z.shiftr x (8 * j)) 255.

(** ** search.cc: the 8-slot metadata scan *)

Definition vone : Z := 0x0101010101010101.
Definition vsign : Z := 0x8080808080808080.

Definition CalcHint (vec mark : Z) : Z :=
  let vmark := not64 (wrap64 (vone * mark)) in
  let match_ :=
    Z.land (Z.land (Z.lxor vec vsign) vsign)
           (wrap64 (Z.land (Z.lxor vec vmark) (not64 vsign) + vone)) in
  let empty := Z.land vec vsign in
  Z.lor empty match_.

(** ** Buffers

    A buffer of [uint8_t] is a [list Z]; a pointer into it is an offset.
    Every read goes through [wrap8], every multi-byte access is
    little-endian (internal.h refuses other byte orders). *)

Definition rd (buf : list Z) (a : Z) : Z := wrap8 (nth (Z.to_nat a) buf 0).

(** The [n] bytes at offset [a]. *)
Definition bytes_at (buf : list Z) (a : Z) (n : nat) : list Z :=
  map (fun i => rd buf (a + Z.of_nat i)) (seq 0 n).

Definition load16 (buf : list Z) (a : Z) : Z := le_pack (bytes_at buf a 2).
Definition load32 (buf : list Z) (a : Z) : Z := le_pack (bytes_at buf a 4).
Definition load64 (buf : list Z) (a : Z) : Z := le_pack (bytes_at buf a 8).

(** [memcpy(buf + a, bs, |bs|)] *)
Definition store_bytes (buf : list Z) (a : Z) (bs : list Z) : list Z :=
  firstn (Z.to_nat a) buf ++ bs ++ skipn (Z.to_nat a + length bs) buf.

(** The [k] low bytes of [x], least significant first. *)
Fixpoint le_bytes (k : nat) (x : Z) : list Z :=
  match k with
  | O => []
  | S k' => x mod 256 :: le_bytes k' (x / 256)
  end.

Fixpoint list_eqb (a b : list Z) : bool :=
  match a, b with
  | [], [] => true
  | x :: a', y :: b' => (x =? y) && list_eqb a' b'
  | _, _ => false
  end.

(** ** utils.h: [Slice] and [Record]

    [P] is what a non-null pointer stands for: an offset into an artifact
    for the slices handed out by lookups, the bytes behind the pointer for
    the slices handed in by a reader. *)

Record Slice (P : Type) : Type := mkSlice {
  ptr : option P;
  len : Z
}.
Arguments mkSlice {P} _ _.
Arguments ptr {P} _.
Arguments len {P} _.

(** [Slice{}], also written [{nullptr, 0}]. *)
Definition null_slice {P : Type} : Slice P := mkSlice None 0.

Record Rec : Type := mkRec {
  key : Slice (list Z);
  val : Slice (list Z)
}.

(** ** ssht.h and internal.h: constants *)

Definition MAX_KEY_LEN : Z := 255.
Definition MAX_INLINE_VALUE_LEN : Z := 65535.
Definition MAX_VALUE_LEN_BIT : Z := 35.
Definition MAX_VALUE_LEN : Z := 2 ^ MAX_VALUE_LEN_BIT - 1.

Definition KEY_SET : Z := 0.
Definition KV_INLINE : Z := 1.
Definition KV_SEPARATED : Z := 2.
Definition ILLEGAL_TYPE : Z := 255.

Definition OFFSET_FIELD_SIZE : Z := 6.
Definition MAX_OFFSET : Z := 2 ^ (OFFSET_FIELD_SIZE * 8) - 1.
Definition RESERVE_FACTOR : Z := 16.
Definition SSHT_MAGIC : Z := 0x54485353.

Inductive BuildStatus : Type :=
  | BUILD_STATUS_OK
  | BUILD_STATUS_BAD_INPUT
  | BUILD_STATUS_FAIL_TO_OUTPUT.

(** [ReadOffsetField]: a 16-bit and a 32-bit load. *)
Definition ReadOffsetField (buf : list Z) (field : Z) : Z :=
  Z.lor (wrap64 (Z.shiftl (load16 buf (field + 4)) 32)) (load32 buf field).

(** [WriteOffsetField]: the six bytes stored at [field]. *)
Definition OffsetField (offset : Z) : list Z :=
  le_bytes 4 (wrap32 offset) ++ le_bytes 2 (wrap16 (Z.shiftr offset 32)).

Definition WriteOffsetField (buf : list Z) (field offset : Z) : list Z :=
  store_bytes buf field (OffsetField offset).

(** [Equal(a, b, len)] on the [len] bytes behind each pointer: one 64-bit
    or one 32-bit comparison for the common key sizes, [memcmp] otherwise. *)
Definition Equal (a b : list Z) (len : Z) : bool :=
  if len =? 8 then le_pack a =? le_pack b
  else if len =? 4 then le_pack a =? le_pack b
  else list_eqb a b.

(** [Assign(dest, src, len)] on the buffer that holds [dest]; [src] is the
    bytes behind the source pointer.  One 64-bit or one 32-bit store for
    the common key sizes, [memcpy] otherwise. *)
Definition Assign (buf : list Z) (dest : Z) (src : list Z) (len : Z) : list Z :=
  if len =? 8 then store_bytes buf dest (le_bytes 8 (load64 src 0))
  else if len =? 4 then store_bytes buf dest (le_bytes 4 (load32 src 0))
  else store_bytes buf dest (bytes_at src 0 (Z.to_nat len)).

(** ** search.cc: [SeparatedValue]

    The function returns the slice and, beside it, the offsets it has
    dereferenced, in order. *)

Fixpoint SeparatedValue_loop (turns : nat) (buf : list Z) (pt end_ sft len_ : Z)
    (reads : list Z) : Slice Z * list Z :=
  match turns with
  | O => (null_slice, reads)
  | S turns' =>
      if sft <? MAX_VALUE_LEN_BIT then
        if pt >=? end_ then (mkSlice None 0, reads)
        else
          let b := rd buf pt in
          let reads := reads ++ [pt] in
          let pt := pt + 1 in
          if negb (Z.land b 0x80 =? 0) then
            SeparatedValue_loop turns' buf pt end_ (sft + 7)
              (Z.lor len_ (wrap64 (Z.shiftl (Z.land b 0x7f) sft))) reads
          else
            let len_ := Z.lor len_ (wrap64 (Z.shiftl b sft)) in
            if pt + len_ >? end_ then (null_slice, reads)
            else (mkSlice (Some pt) len_, reads)
      else (null_slice, reads)
  end.

(** [sft] runs through 0, 7, 14, 21, 28 and leaves the loop at 35. *)
Definition SeparatedValue_reads (buf : list Z) (pt end_ : Z) : Slice Z * list Z :=
  SeparatedValue_loop 6 buf pt end_ 0 0 [].

Definition SeparatedValue (buf : list Z) (pt end_ : Z) : Slice Z :=
  fst (SeparatedValue_reads buf pt end_).

(** ** internal.h: [Header]; ssht.h: [Hashtable::View] *)

Record Header : Type := mkHeader {
  h_magic : Z;
  h_type : Z;
  h_key_len : Z;
  h_val_len : Z;
  h_seed : Z;
  h_item : Z;
  h_set_cnt : Z
}.

(** The 64 bytes of a header; the 32 trailing bytes are padding. *)
Definition Header_bytes (h : Header) : list Z :=
  le_bytes 4 (h_magic h) ++ [wrap8 (h_type h)] ++ [wrap8 (h_key_len h)]
  ++ le_bytes 2 (h_val_len h) ++ le_bytes 8 (h_seed h) ++ le_bytes 8 (h_item h)
  ++ le_bytes 8 (h_set_cnt h) ++ repeat 0 32.

(** [(const Header* )addr] *)
Definition Header_at (data : list Z) : Header :=
  mkHeader (load32 data 0) (rd data 4) (rd data 5) (load16 data 6)
           (load64 data 8) (load64 data 16) (load64 data 24).

Record View : Type := mkView {
  v_type : Z;
  v_key_len : Z;
  v_val_len : Z;
  v_line_size : Z;
  v_seed : Z;
  v_item : Z;
  v_set_cnt : Divisor.t;
  v_guide : Z;
  v_content : Z;
  v_extend : Z;
  v_space_end : Z
}.

(** The default-initialised view of a handle that failed to load. *)
Definition View_default : View :=
  mkView ILLEGAL_TYPE 0 0 0 0 0 (Divisor.mk 0 0 0 0) 0 0 0 0.

(** ** ssht.cc: the loader *)

(** The [switch] over the type falls through from KV_SEPARATED to
    KV_INLINE to KEY_SET; the result is [true] when no case returns. *)
Definition type_checks (h : Header) : bool :=
  let key_set := negb (h_key_len h =? 0) in
  let kv_inline := negb (h_val_len h =? 0) && key_set in
  let kv_separated := (h_val_len h =? OFFSET_FIELD_SIZE) && kv_inline in
  if h_type h =? KV_SEPARATED then kv_separated
  else if h_type h =? KV_INLINE then kv_inline
  else if h_type h =? KEY_SET then key_set
  else false.

Definition CreateView (data : list Z) : option View :=
  let size := Z.of_nat (length data) in
  let guide_off := 64 in
  if size <? guide_off then None
  else
    let header := Header_at data in
    if negb (h_magic header =? SSHT_MAGIC) || (h_set_cnt header =? 0) then None
    else
      let slot := wrap64 (Z.shiftl (h_set_cnt header) 6) in
      if negb (type_checks header) then None
      else
        let line_size := wrap32 (h_key_len header + h_val_len header) in
        let content_off := wrap64 (guide_off + slot) in
        let extend_off := wrap64 (content_off + wrap64 (slot * line_size)) in
        if size <? extend_off then None
        else if (h_type header =? KV_SEPARATED) && (size <? wrap64 (extend_off + slot))
        then None
        else
          Some (mkView (h_type header) (h_key_len header) (h_val_len header)
                       line_size (h_seed header) (h_item header)
                       (Divisor.make (h_set_cnt header))
                       guide_off content_off extend_off size).

(** A handle: the mapped (or copied) file, when the load went through, and
    the view.  [m_data] stands for whichever of [m_res] and [m_mem] the
    load policy fills. *)
Record Hashtable : Type := mkHashtable {
  m_data : option (list Z);
  m_view : View
}.

(** [operator!] *)
Definition Hashtable_not (h : Hashtable) : bool :=
  match m_data h with None => true | Some _ => false end.

(** The artifact bytes behind a handle (empty when it is null). *)
Definition Hashtable_mem (h : Hashtable) : list Z :=
  match m_data h with Some d => d | None => [] end.

(** [Hashtable::Hashtable(path, policy)]: [file] is the content of [path],
    [None] when it cannot be opened or mapped.  The policy only selects
    how the bytes are brought into memory. *)
Definition Hashtable_load (file : option (list Z)) : Hashtable :=
  match file with
  | None => mkHashtable None View_default
  | Some data =>
      match CreateView data with
      | None => mkHashtable None View_default
      | Some v => mkHashtable (Some data) v
      end
  end.

(** [type()], [key_len()], [val_len()] and [item()] *)
Definition Hashtable_type (h : Hashtable) : Z := v_type (m_view h).
Definition Hashtable_key_len (h : Hashtable) : Z := v_key_len (m_view h).
Definition Hashtable_val_len (h : Hashtable) : Z := v_val_len (m_view h).
Definition Hashtable_item (h : Hashtable) : Z := v_item (m_view h).

(** ** internal.h: hashing a key *)

Fixpoint pos_ctz (p : positive) : Z :=
  match p with
  | xO p' => 1 + pos_ctz p'
  | _ => 0
  end.

(** [__builtin_ctzll] (left at 64 for the argument 0, where the builtin is
    undefined; it is never called there). *)
Definition ctzll (x : Z) : Z :=
  match x with
  | Zpos p => pos_ctz p
  | _ => 64
  end.

(** [x[i] = v] on an array. *)
Fixpoint set_nth {A : Type} (i : nat) (v : A) (l : list A) : list A :=
  match l, i with
  | [], _ => []
  | _ :: t, O => v :: t
  | h :: t, S i' => h :: set_nth i' v t
  end.

(** An artifact in memory: a view and the bytes its pointers refer to. *)
Record Pack : Type := mkPack {
  pk_view : View;
  pk_mem : list Z
}.

Definition Hashtable_pack (h : Hashtable) : Pack :=
  mkPack (m_view h) (Hashtable_mem h).

Section Lookup.

(** [extern uint64_t Hash(const uint8_t* msg, uint8_t len, uint64_t seed)]:
    the bytes of the message, its length and the seed. *)
Variable Hash : list Z -> Z -> Z -> Z.

(** [HashKey]: the set, the 7-bit mark and the 6-bit start offset. *)
Definition HashKey (key : list Z) (len seed : Z) (set_cnt : Divisor.t) : Z * Z * Z :=
  let hash := wrap64 (Hash (bytes_at key 0 (Z.to_nat len)) len seed) in
  let set := Divisor.mod_ set_cnt hash in
  let mark := wrap8 (Z.land (Z.shiftr hash 51) 0x7f) in
  let sft := wrap8 (Z.shiftr hash 58) in
  (set, mark, sft).

(** ** search.cc: [Search] *)

(** [++set >= set_cnt.value() ? 0 : set] *)
Definition next_set (set : Z) (set_cnt : Divisor.t) : Z :=
  let set := wrap64 (set + 1) in
  if set >=? Divisor.value set_cnt then 0 else set.

(** The row of slot [pos] of set [set]. *)
Definition line_of (content set pos line_size : Z) : Z :=
  content + wrap64 ((wrap64 (Z.shiftl set 6) + pos) * line_size).

(** [HANDLE_SLOT(pos)]: [Some r] when the macro returns [r] from [Search],
    [None] when control falls through. *)
Definition HANDLE_SLOT (pack : View) (mem key : list Z) (set mark pos : Z)
    : option (option Z) :=
  let g := v_guide pack + wrap64 (Z.shiftl set 6) in
  if rd mem (g + pos) =? mark then
    let line := line_of (v_content pack) set pos (v_line_size pack) in
    if Equal (bytes_at key 0 (Z.to_nat (v_key_len pack)))
             (bytes_at mem line (Z.to_nat (v_key_len pack))) (v_key_len pack)
    then Some (Some (line + v_key_len pack))
    else None
  else if negb (Z.land (rd mem (g + pos)) 0x80 =? 0) then Some None
  else None.

(** [for (auto hint = ...; hint != 0; hint &= (hint-1))]: every turn clears
    one of the at most 64 bits, the 65th only meets [hint == 0]. *)
Fixpoint hint_loop (turns : nat) (pack : View) (mem key : list Z)
    (set mark off hint : Z) : option (option Z) :=
  match turns with
  | O => None
  | S turns' =>
      if hint =? 0 then None
      else
        let skip := wrap32 (wrap32 (Z.shiftr (wrap32 (ctzll hint + 1)) 3) - 1) in
        match HANDLE_SLOT pack mem key set mark (wrap32 (off + skip)) with
        | Some r => Some r
        | None =>
            hint_loop turns' pack mem key set mark off
                      (Z.land hint (wrap64 (hint - 1)))
        end
  end.

(** [for (unsigned j = sft; j < sft+64U;)]: [j] grows in every turn, the
    65th only meets the exit test.  [None]: the loop ran to its end. *)
Fixpoint set_loop (turns : nat) (pack : View) (mem key : list Z)
    (set mark sft j : Z) : option (option Z) :=
  match turns with
  | O => None
  | S turns' =>
      if j <? sft + 64 then
        let off := Z.land j 63 in
        if (j <=? sft + 56) && (off <=? 56) then
          let g := v_guide pack + wrap64 (Z.shiftl set 6) in
          match hint_loop 65 pack mem key set mark off
                          (CalcHint (load64 mem (g + off)) mark) with
          | Some r => Some r
          | None => set_loop turns' pack mem key set mark sft (j + 8)
          end
        else
          match HANDLE_SLOT pack mem key set mark off with
          | Some r => Some r
          | None => set_loop turns' pack mem key set mark sft (j + 1)
          end
      else None
  end.

(** [while (true)]: one unit of fuel for each set visited; [None] when the
    fuel runs out before a [return]. *)
Fixpoint Search_loop (fuel : nat) (pack : View) (mem key : list Z)
    (set mark sft : Z) : option (option Z) :=
  match fuel with
  | O => None
  | S fuel' =>
      match set_loop 65 pack mem key set mark sft sft with
      | Some r => Some r
      | None =>
          Search_loop fuel' pack mem key (next_set set (v_set_cnt pack)) mark sft
      end
  end.

(** [Search(pack, key)]: the value field of the row holding [key], or
    [nullptr] (here the inner [None]). *)
Definition Search (fuel : nat) (p : Pack) (key : list Z) : option (option Z) :=
  let pack := pk_view p in
  let '(set, mark, sft) := HashKey key (v_key_len pack) (v_seed pack) (v_set_cnt pack) in
  Search_loop fuel pack (pk_mem p) key set mark sft.

(** [Hashtable::search]; [key = None] is the null pointer. *)
Definition search (fuel : nat) (h : Hashtable) (key : option (list Z))
    : option (Slice Z) :=
  match key with
  | None => Some null_slice
  | Some key =>
      if Hashtable_not h then Some null_slice
      else
        match Search fuel (Hashtable_pack h) key with
        | None => None
        | Some None => Some null_slice
        | Some (Some field) =>
            if negb (v_type (m_view h) =? KV_SEPARATED) then
              Some (mkSlice (Some field) (v_val_len (m_view h)))
            else
              let off := ReadOffsetField (Hashtable_mem h) field in
              Some (SeparatedValue (Hashtable_mem h)
                                   (v_extend (m_view h) + off)
                                   (v_space_end (m_view h)))
        end
  end.

(** ** search.cc: [BatchProcess] *)

(** Which of the two views a pipeline is bound to. *)
Inductive Where : Type := InBase | InPatch.

(** A value pointer handed to [fill_val]: null, a position in the base or
    in the patch, or the caller's default value. *)
Inductive Ptr : Type :=
  | PNull
  | PIn (w : Where) (off : Z)
  | PExt (bytes : list Z).

(** The [patch] argument: [nullptr], the base itself, or another view. *)
Inductive PatchRef : Type :=
  | PatchNull
  | PatchSelf
  | PatchOther (p : Pack).

Definition WINDOW_SIZE : Z := 16.

Record State : Type := mkState {
  st_idx : Z;
  st_sft : Z;
  st_cur : Z;
  st_mark : Z;
  st_set : Z;
  st_line : option Z;
  st_pack : Where
}.

Definition State_default : State := mkState 0 0 0 0 0 None InBase.

(** What one visit of a pipeline leads to: the label [next] with the
    updated state, or the label [reload] after [fill_val] got [val]. *)
Inductive Visit : Type :=
  | GoNext (st : State)
  | GoReload (hit : bool) (val : Ptr).

Section Batch.

(** The output the caller's [fill_val] writes to. *)
Variable Out : Type.
Variable batch : Z.
Variable base : Pack.
(** [patch] after [if (patch == &base) patch = nullptr]. *)
Variable patch : option Pack.
Variable get_key : Z -> list Z.
Variable fill_val : Z -> Ptr -> Out -> Out.
Variable dft_val : Ptr.

Definition pack_at (w : Where) : Pack :=
  match w, patch with
  | InPatch, Some p => p
  | _, _ => base
  end.

Definition bind_pipeline (w : Where) (st : State) : State :=
  let pack := pk_view (pack_at w) in
  let '(set, mark, sft) :=
    HashKey (get_key (st_idx st)) (v_key_len pack) (v_seed pack) (v_set_cnt pack) in
  mkState (st_idx st) sft sft mark set None w.

Definition init_pipeline (st : State) (idx : Z) : State :=
  bind_pipeline (match patch with None => InBase | Some _ => InPatch end)
                (mkState idx (st_sft st) (st_cur st) (st_mark st) (st_set st)
                         (st_line st) (st_pack st)).

Definition with_cur (st : State) (cur : Z) : State :=
  mkState (st_idx st) (st_sft st) cur (st_mark st) (st_set st) (st_line st) (st_pack st).

Definition with_line (st : State) (line : option Z) : State :=
  mkState (st_idx st) (st_sft st) (st_cur st) (st_mark st) (st_set st) line (st_pack st).

(** [//miss in set] *)
Definition miss_in_set (st : State) : State :=
  mkState (st_idx st) (st_sft st) (st_sft st) (st_mark st)
          (next_set (st_set st) (v_set_cnt (pk_view (pack_at (st_pack st)))))
          (st_line st) (st_pack st).

(** [while (st.cur < st.sft+64U)]: [st.cur] grows in every turn, the 65th
    only meets the exit test. *)
Fixpoint scan (turns : nat) (st : State) : Visit :=
  match turns with
  | O => GoNext (miss_in_set st)
  | S turns' =>
      if st_cur st <? st_sft st + 64 then
        let pack := pack_at (st_pack st) in
        let g := v_guide (pk_view pack) + wrap64 (Z.shiftl (st_set st) 6) in
        let off := Z.land (st_cur st) 63 in
        let step8 := (st_cur st <=? st_sft st + 56) && (off <=? 56) in
        let hint := CalcHint (load64 (pk_mem pack) (g + off)) (st_mark st) in
        if step8 && (hint =? 0) then scan turns' (with_cur st (wrap8 (st_cur st + 8)))
        else
          let step := wrap32 (Z.shiftr (wrap32 (ctzll hint + 1)) 3) in
          let off := if step8 then wrap32 (off + wrap32 (step - 1)) else off in
          let st := with_cur st (wrap8 (st_cur st + (if step8 then step else 1))) in
          if rd (pk_mem pack) (g + off) =? st_mark st then
            GoNext (with_line st
                      (Some (line_of (v_content (pk_view pack)) (st_set st) off
                                     (v_line_size (pk_view base)))))
          else if negb (Z.land (rd (pk_mem pack) (g + off)) 0x80 =? 0) then
            match st_pack st, patch with
            | InPatch, Some _ => GoNext (bind_pipeline InBase st)
            | _, _ => GoReload false dft_val
            end
          else scan turns' st
      else GoNext (miss_in_set st)
  end.

(** The body of the [for] loop up to the labels [next] and [reload]. *)
Definition visit (st : State) : Visit :=
  match st_line st with
  | Some line =>
      let key_len := v_key_len (pk_view base) in
      if Equal (bytes_at (get_key (st_idx st)) 0 (Z.to_nat key_len))
               (bytes_at (pk_mem (pack_at (st_pack st))) line (Z.to_nat key_len))
               key_len
      then GoReload true (PIn (st_pack st) (line + key_len))
      else GoNext (with_line st None)
  | None => scan 65 st
  end.

Record Window : Type := mkWindow {
  w_window : Z;
  w_idx : Z;
  w_hit : Z;
  w_states : list State;
  w_out : Out
}.

(** [for (unsigned i = 0; i < window;)]: every turn moves [i] up or
    [window] down, so the turn after [WINDOW_SIZE] only meets the exit
    test. *)
Fixpoint sweep (turns : nat) (i : Z) (w : Window) : Window :=
  match turns with
  | O => w
  | S turns' =>
      if i <? w_window w then
        let st := nth (Z.to_nat i) (w_states w) State_default in
        match visit st with
        | GoNext st' =>
            sweep turns' (wrap32 (i + 1))
                  (mkWindow (w_window w) (w_idx w) (w_hit w)
                            (set_nth (Z.to_nat i) st' (w_states w)) (w_out w))
        | GoReload h v =>
            let hit := if h then wrap32 (w_hit w + 1) else w_hit w in
            let out := fill_val (st_idx st) v (w_out w) in
            if w_idx w <? batch then
              sweep turns' (wrap32 (i + 1))
                    (mkWindow (w_window w) (wrap32 (w_idx w + 1)) hit
                              (set_nth (Z.to_nat i) (init_pipeline st (w_idx w))
                                       (w_states w))
                              out)
            else
              let window := wrap32 (w_window w - 1) in
              sweep turns' i
                    (mkWindow window (w_idx w) hit
                              (set_nth (Z.to_nat i)
                                       (nth (Z.to_nat window) (w_states w) State_default)
                                       (w_states w))
                              out)
        end
      else w
  end.

(** [while (window > 0)]: one unit of fuel for each sweep. *)
Fixpoint sweeps (fuel : nat) (w : Window) : option Window :=
  match fuel with
  | O => None
  | S fuel' =>
      if w_window w >? 0 then sweeps fuel' (sweep (S (Z.to_nat WINDOW_SIZE)) 0 w)
      else Some w
  end.

(** [for (; idx < window; idx++) init_pipeline(states[idx], idx)] *)
Fixpoint init_states (turns : nat) (idx window : Z) (states : list State) : list State :=
  match turns with
  | O => states
  | S turns' =>
      if idx <? window then
        init_states turns' (wrap32 (idx + 1)) window
          (set_nth (Z.to_nat idx)
                   (init_pipeline (nth (Z.to_nat idx) states State_default) idx)
                   states)
      else states
  end.

(** The part of [BatchProcess] after the compatibility test. *)
Definition pipeline (fuel : nat) (out : Out) : option (Z * Out) :=
  let window := Z.min batch WINDOW_SIZE in
  let states :=
    init_states (S (Z.to_nat WINDOW_SIZE)) 0 window
                (repeat State_default (Z.to_nat WINDOW_SIZE)) in
  match sweeps fuel (mkWindow window window 0 states out) with
  | None => None
  | Some w => Some (w_hit w, w_out w)
  end.

End Batch.

Definition PatchRef_view (base : Pack) (patch : PatchRef) : option View :=
  match patch with
  | PatchNull => None
  | PatchSelf => Some (pk_view base)
  | PatchOther p => Some (pk_view p)
  end.

(** [BatchProcess]; [None] when the fuel runs out. *)
Definition BatchProcess {Out : Type} (fuel : nat) (batch : Z) (base : Pack)
    (patch : PatchRef) (get_key : Z -> list Z) (fill_val : Z -> Ptr -> Out -> Out)
    (dft_val : Ptr) (out : Out) : option (Z * Out) :=
  let b := pk_view base in
  if (v_type b =? KV_SEPARATED)
     || match PatchRef_view base patch with
        | None => false
        | Some p =>
            negb (v_type p =? v_type b) || negb (v_key_len p =? v_key_len b)
            || negb (v_val_len p =? v_val_len b)
        end
  then Some (0, out)
  else
    let patch := match patch with PatchOther p => Some p | _ => None end in
    pipeline Out batch base patch get_key fill_val dft_val fuel out.

(** The [patch] argument of the public calls: a null pointer, [this], or
    another handle. *)
Inductive PatchArg : Type :=
  | NoPatch
  | SelfPatch
  | OtherPatch (h : Hashtable).

Definition PatchArg_ref (patch : PatchArg) : PatchRef :=
  match patch with
  | NoPatch => PatchNull
  | SelfPatch => PatchSelf
  | OtherPatch h => PatchOther (Hashtable_pack h)
  end.

(** [Hashtable::batch_search]: the hit count and the [out] array.  [keys]
    and [out] are [None] for null pointers. *)
Definition batch_search (fuel : nat) (h : Hashtable) (batch : Z)
    (keys : option (list (list Z))) (out : option (list Ptr)) (patch : PatchArg)
    : option (Z * option (list Ptr)) :=
  match keys, out with
  | Some keys, Some out =>
      if Hashtable_not h then Some (0, Some out)
      else
        match BatchProcess fuel batch (Hashtable_pack h) (PatchArg_ref patch)
                (fun idx => nth (Z.to_nat idx) keys [])
                (fun idx val out => set_nth (Z.to_nat idx) val out)
                PNull out with
        | None => None
        | Some (hit, out) => Some (hit, Some out)
        end
  | _, _ => Some (0, out)
  end.

(** The bytes behind a value pointer. *)
Definition Ptr_bytes (base : Pack) (patch : PatchArg) (p : Ptr) (n : nat) : list Z :=
  match p with
  | PNull => []
  | PExt bytes => bytes_at bytes 0 n
  | PIn InBase off => bytes_at (pk_mem base) off n
  | PIn InPatch off =>
      match patch with
      | OtherPatch h => bytes_at (Hashtable_mem h) off n
      | _ => bytes_at (pk_mem base) off n
      end
  end.

(** [Hashtable::batch_fetch]: the hit count and the [data] array. *)
Definition batch_fetch (fuel : nat) (h : Hashtable) (batch : Z)
    (keys : option (list Z)) (data : option (list Z)) (dft_val : option (list Z))
    (patch : PatchArg) : option (Z * option (list Z)) :=
  match keys, data with
  | Some keys, Some data =>
      if Hashtable_not h || negb (v_type (m_view h) =? KV_INLINE) then Some (0, Some data)
      else
        let key_len := v_key_len (m_view h) in
        let val_len := v_val_len (m_view h) in
        match BatchProcess fuel batch (Hashtable_pack h) (PatchArg_ref patch)
                (fun idx => skipn (Z.to_nat (wrap32 (idx * key_len))) keys)
                (fun idx val data =>
                   match val with
                   | PNull => data
                   | _ =>
                       store_bytes data (wrap32 (idx * val_len))
                         (Ptr_bytes (Hashtable_pack h) patch val (Z.to_nat val_len))
                   end)
                (match dft_val with None => PNull | Some d => PExt d end)
                data with
        | None => None
        | Some (hit, data) => Some (hit, Some data)
        end
  | _, _ => Some (0, data)
  end.

End Lookup.

Arguments mkWindow {Out} _ _ _ _ _.
Arguments w_window {Out} _.
Arguments w_idx {Out} _.
Arguments w_hit {Out} _.
Arguments w_states {Out} _.
Arguments w_out {Out} _.

(** ** build.cc: exceptions, readers and writers *)

Inductive exn : Type := BuildException | InternalException.

(** The outcome of a builder routine: it returns, it throws, or it does
    not return (the fuel of a [while (true)] ran out, or a spin-wait has
    nobody to wait for). *)
Inductive res (A : Type) : Type :=
  | Done (a : A)
  | Throw (e : exn)
  | Hang.
Arguments Done {A} _.
Arguments Throw {A} _.
Arguments Hang {A}.

Definition bind {A B : Type} (m : res A) (k : A -> res B) : res B :=
  match m with
  | Done a => k a
  | Throw e => Throw e
  | Hang => Hang
  end.

Notation "x <- m ;; k" := (bind m (fun x => k))
  (at level 61, m at next level, right associativity).
Notation "' p <- m ;; k" := (bind m (fun x => let 'p := x in k))
  (at level 61, p pattern, m at next level, right associativity).

(** [Assert(condition)] *)
Definition Assert (condition : bool) : res unit :=
  if condition then Done tt else Throw InternalException.

(** [IDataReader]: [reset()], [total()], [read(key_only)] on a reader in
    state [R]. *)
Class IDataReader (R : Type) : Type := {
  reset : R -> R;
  total : R -> Z;
  read : bool -> R -> res (Rec * R)
}.

(** A reader over records held in memory; past the last record it returns
    a null key. *)
Record ListReader : Type := mkListReader {
  lr_items : list Rec;
  lr_pos : nat
}.

Definition null_rec : Rec := mkRec null_slice null_slice.

#[export] Instance ListReader_reader : IDataReader ListReader := {
  reset r := mkListReader (lr_items r) 0;
  total r := Z.of_nat (length (lr_items r));
  read _ r := Done (nth (lr_pos r) (lr_items r) null_rec,
                    mkListReader (lr_items r) (S (lr_pos r)))
}.

(** [IDataWriter::write] on a sink in state [W]. *)
Class IDataWriter (W : Type) : Type := {
  write : list Z -> W -> bool * W
}.

(** A sink that takes [sk_room] more bytes and then fails. *)
Record Sink : Type := mkSink {
  sk_data : list Z;
  sk_room : Z
}.

#[export] Instance Sink_writer : IDataWriter Sink := {
  write bs s :=
    if Z.of_nat (length bs) <=? sk_room s
    then (true, mkSink (sk_data s ++ bs) (sk_room s - Z.of_nat (length bs)))
    else (false, s)
}.

(** [VarIntSize]: a [size_t] loses all its bits in ten shifts by 7. *)
Fixpoint VarIntSize_loop (turns : nat) (n cnt : Z) : Z :=
  match turns with
  | O => cnt
  | S turns' =>
      if negb (Z.land n (not64 0x7f) =? 0)
      then VarIntSize_loop turns' (Z.shiftr n 7) (wrap32 (cnt + 1))
      else cnt
  end.

Definition VarIntSize (n : Z) : Z := VarIntSize_loop 10 n 1.

(** The bytes [WriteVarInt] hands to the writer. *)
Fixpoint VarInt_loop (turns : nat) (n : Z) : list Z :=
  match turns with
  | O => [wrap8 n]
  | S turns' =>
      if negb (Z.land n (not64 0x7f) =? 0)
      then wrap8 (Z.lor 0x80 (Z.land n 0x7f)) :: VarInt_loop turns' (Z.shiftr n 7)
      else [wrap8 n]
  end.

Definition VarInt (n : Z) : list Z := VarInt_loop 10 n.

Definition WriteVarInt {W : Type} `{IDataWriter W} (n : Z) (out : W) : bool * W :=
  write (VarInt n) out.

(** [KeyOffReader]: a reader whose values are the 6-byte offsets the
    values of [m_core] will have in the extend blob. *)
Record KeyOffReader (R : Type) : Type := mkKeyOffReader {
  m_core : R;
  m_base : Z;
  m_offset : Z;
  m_field : list Z
}.
Arguments mkKeyOffReader {R} _ _ _ _.
Arguments m_core {R} _.
Arguments m_base {R} _.
Arguments m_offset {R} _.
Arguments m_field {R} _.

Definition KeyOffReader_new {R : Type} (core : R) (off : Z) : KeyOffReader R :=
  mkKeyOffReader core off off (repeat 0 6).

Definition KeyOffReader_read {R : Type} `{IDataReader R} (r : KeyOffReader R)
    : res (Rec * KeyOffReader R) :=
  '(rec, core) <- read false (m_core r) ;;
  if (m_offset r >? MAX_OFFSET) || (len (val rec) >? MAX_VALUE_LEN)
     || (negb (len (val rec) =? 0) && match ptr (val rec) with None => true | Some _ => false end)
  then Throw BuildException
  else
    let field := OffsetField (m_offset r) in
    let offset := wrap64 (m_offset r + wrap64 (VarIntSize (len (val rec)) + len (val rec))) in
    Done (mkRec (key rec) (mkSlice (Some field) OFFSET_FIELD_SIZE),
          mkKeyOffReader core (m_base r) offset field).

#[export] Instance KeyOffReader_reader {R : Type} `{IDataReader R}
    : IDataReader (KeyOffReader R) := {
  reset r := mkKeyOffReader (reset (m_core r)) (m_base r) (m_base r) (m_field r);
  total r := total (m_core r);
  read _ r := KeyOffReader_read r
}.

(** [SumInputSize] *)
Fixpoint SumInputSize {R : Type} `{IDataReader R} (readers : list R) : Z :=
  match readers with
  | [] => 0
  | r :: readers' => wrap64 (total r + SumInputSize readers')
  end.

(** [CalcSetCnt] *)
Definition CalcSetCnt (item : Z) : Z :=
  let reserved := wrap64 (item + (RESERVE_FACTOR - 1)) / RESERVE_FACTOR in
  wrap64 (Z.land (wrap64 (item + reserved + 63) / 64) (not64 1) + 1).

(** The bytes behind a non-null pointer of a record. *)
Definition slice_bytes (s : Slice (list Z)) (n : Z) : list Z :=
  match ptr s with
  | Some bs => bytes_at bs 0 (Z.to_nat n)
  | None => []
  end.

Definition is_null {P : Type} (s : Slice P) : bool :=
  match ptr s with None => true | Some _ => false end.

(** ** build.cc: [Mapping]

    The embedding is the run of one builder thread with no other thread at
    work on the table: a compare-and-swap on an empty byte succeeds, and a
    byte found reserved (high bit set, not [0xFF]) stays reserved, so the
    spin-wait on it does not return. *)

Section Builder.

Variable Hash : list Z -> Z -> Z -> Z.

(** The callback [fill(line)]: it writes the row at [line] and may update
    a state of its own (the [offset] captured by reference in the derive
    pass). *)
Definition Fill (St : Type) : Type := Z -> list Z -> St -> res (list Z * St).

Section MappingKey.

Variable St : Type.
Variable header : Header.
Variable set_cnt : Divisor.t.
Variable key : list Z.
Variable fill : Fill St.

Definition line_size_of (h : Header) : Z := wrap32 (h_key_len h + wrap32 (h_val_len h)).

(** [for (unsigned j = sft; j < sft+64U; j++)]; [Done None] when the loop
    runs to its end. *)
Fixpoint Mapping_set (turns : nat) (guide space : list Z) (st : St)
    (set mark sft j : Z) : res (option (bool * list Z * list Z * St)) :=
  match turns with
  | O => Done None
  | S turns' =>
      if j <? wrap32 (sft + 64) then
        let g := wrap64 (Z.shiftl set 6) in
        let off := Z.land j 63 in
        let line := wrap64 ((wrap64 (Z.shiftl set 6) + off) * line_size_of header) in
        let m := rd guide (g + off) in
        if m =? 0xff then
          '(space, st) <- fill line space st ;;
          Done (Some (true, set_nth (Z.to_nat (g + off)) mark guide, space, st))
        else if negb (Z.land m 0x80 =? 0) then Hang
        else if (m =? mark)
                && Equal (bytes_at space line (Z.to_nat (h_key_len header)))
                         (bytes_at key 0 (Z.to_nat (h_key_len header)))
                         (h_key_len header)
        then Done (Some (false, guide, space, st))
        else Mapping_set turns' guide space st set mark sft (wrap32 (j + 1))
      else Done None
  end.

(** [while (true)]: one unit of fuel for each set visited. *)
Fixpoint Mapping_loop (fuel : nat) (guide space : list Z) (st : St)
    (set mark sft : Z) : res (bool * list Z * list Z * St) :=
  match fuel with
  | O => Hang
  | S fuel' =>
      r <- Mapping_set 65 guide space st set mark sft sft ;;
      match r with
      | Some x => Done x
      | None => Mapping_loop fuel' guide space st (next_set set set_cnt) mark sft
      end
  end.

(** [Mapping(guide, space, header, set_cnt, key, fill)]: [true] when the
    key was installed, [false] when it was found in the table. *)
Definition Mapping (fuel : nat) (guide space : list Z) (st : St)
    : res (bool * list Z * list Z * St) :=
  let '(set, mark, sft) := HashKey Hash key (h_key_len header) (h_seed header) set_cnt in
  Mapping_loop fuel guide space st set mark sft.

End MappingKey.

(** The callback of the reader pass: [Assign] the key, [memcpy] the value. *)
Definition fill_record (header : Header) (rec : Rec) : Fill unit :=
  fun line space st =>
    let space := store_bytes space line (slice_bytes (key rec) (h_key_len header)) in
    let space :=
      if negb (h_val_len header =? 0)
      then store_bytes space (line + h_key_len header)
                       (slice_bytes (val rec) (h_val_len header))
      else space in
    Done (space, st).

(** [for (size_t i = 0; i < total; i++)] of the reader pass. *)
Fixpoint Mapping_records {R : Type} `{IDataReader R} (fuel : nat) (header : Header)
    (set_cnt : Divisor.t) (turns : nat) (guide space : list Z) (reader : R) (cnt : Z)
    : res (Z * list Z * list Z * R) :=
  match turns with
  | O => Done (cnt, guide, space, reader)
  | S turns' =>
      '(rec, reader) <- read false reader ;;
      if is_null (key rec) || negb (len (key rec) =? h_key_len header)
         || (negb (h_val_len header =? 0)
             && (is_null (val rec) || negb (len (val rec) =? h_val_len header)))
      then Throw BuildException
      else
        '(installed, guide, space, _) <-
          Mapping unit header set_cnt (slice_bytes (key rec) (h_key_len header))
                  (fill_record header rec) fuel guide space tt ;;
        Mapping_records fuel header set_cnt turns' guide space reader
                        (if installed then cnt else wrap64 (cnt - 1))
  end.

(** [Mapping(guide, space, header, reader)]: the number of records
    installed. *)
Definition Mapping_reader {R : Type} `{IDataReader R} (fuel : nat) (header : Header)
    (guide space : list Z) (reader : R) : res (Z * list Z * list Z * R) :=
  let set_cnt := Divisor.make (h_set_cnt header) in
  Mapping_records fuel header set_cnt (Z.to_nat (total reader)) guide space reader
                  (total reader).

(** ** build.cc: the three builds *)

(** [DetectKeyValueLen]: the lengths of the first record, [None] for
    [false]. *)
Definition DetectKeyValueLen {R : Type} `{IDataReader R} (reader : R) (want_val : bool)
    : res (option (Z * Z) * R) :=
  '(rec, reader) <- read (negb want_val) reader ;;
  if is_null (key rec) || (len (key rec) =? 0) || (len (key rec) >? MAX_KEY_LEN)
  then Done (None, reader)
  else
    let key_len := wrap8 (len (key rec)) in
    if want_val then
      if is_null (val rec) || (len (val rec) =? 0) || (len (val rec) >? MAX_INLINE_VALUE_LEN)
      then Done (None, reader)
      else Done (Some (key_len, wrap16 (len (val rec))), reset reader)
    else Done (Some (key_len, 0), reset reader).

(** [out.write(&header, ...) && out.write(guide...) && out.write(space...)] *)
Definition write_table {W : Type} `{IDataWriter W} (header : Header)
    (guide space : list Z) (out : W) : bool * W :=
  let '(ok, out) := write (Header_bytes header) out in
  if negb ok then (false, out)
  else
    let '(ok, out) := write guide out in
    if negb ok then (false, out)
    else write space out.

(** The reader passes of [BuildWithFixedSizeValue] and of the derive, one
    thread per reader in the source, here one reader after the other.
    [fail] records a [BuildException]; the table a failed thread leaves
    behind is not looked at again. *)
Fixpoint Mapping_readers {R : Type} `{IDataReader R} (fuel : nat) (header : Header)
    (do_reset : bool) (readers : list R) (guide space : list Z) (item : Z) (fail : bool)
    : res (Z * list Z * list Z * bool * list R) :=
  match readers with
  | [] => Done (item, guide, space, fail, [])
  | reader :: readers' =>
      let reader := if do_reset then reset reader else reader in
      match Mapping_reader fuel header guide space reader with
      | Done (cnt, guide, space, reader) =>
          '(item, guide, space, fail, rest) <-
            Mapping_readers fuel header do_reset readers' guide space
                            (wrap64 (item + cnt)) fail ;;
          Done (item, guide, space, fail, reader :: rest)
      | Throw BuildException =>
          '(item, guide, space, _, rest) <-
            Mapping_readers fuel header do_reset readers' guide space item true ;;
          Done (item, guide, space, true, reader :: rest)
      | Throw e => Throw e
      | Hang => Hang
      end
  end.

Definition with_item (h : Header) (item : Z) : Header :=
  mkHeader (h_magic h) (h_type h) (h_key_len h) (h_val_len h) (h_seed h) item (h_set_cnt h).

(** [BuildWithFixedSizeValue]; [seed] is what [GetSeed()] returns.  A
    fresh [MemBlock] is taken to hold zeros. *)
Definition BuildWithFixedSizeValue {R W : Type} `{IDataReader R} `{IDataWriter W}
    (fuel : nat) (seed : Z) (type key_len val_len : Z) (readers : list R) (out : W)
    : res (BuildStatus * W) :=
  let total := SumInputSize readers in
  _ <- Assert (negb (match readers with [] => true | _ => false end)
               && negb (key_len =? 0) && negb (total =? 0)) ;;
  let set_cnt := CalcSetCnt total in
  let header := mkHeader SSHT_MAGIC type key_len val_len seed 0 set_cnt in
  let slot := wrap64 (Z.shiftl set_cnt 6) in
  let guide := repeat 0xff (Z.to_nat slot) in
  let line_size := wrap32 (key_len + val_len) in
  let space := repeat 0 (Z.to_nat (wrap64 (slot * line_size))) in
  '(item, guide, space, fail, _) <-
    Mapping_readers fuel header true readers guide space 0 false ;;
  if fail then Done (BUILD_STATUS_BAD_INPUT, out)
  else
    let '(ok, out) := write_table (with_item header item) guide space out in
    if negb ok then Done (BUILD_STATUS_FAIL_TO_OUTPUT, out)
    else Done (BUILD_STATUS_OK, out).

Definition BuildSet {R W : Type} `{IDataReader R} `{IDataWriter W}
    (fuel : nat) (seed : Z) (readers : list R) (out : W) : res (BuildStatus * W) :=
  match readers with
  | [] => Done (BUILD_STATUS_BAD_INPUT, out)
  | front :: rest =>
      '(lens, front) <- DetectKeyValueLen front false ;;
      match lens with
      | None => Done (BUILD_STATUS_BAD_INPUT, out)
      | Some (key_len, _) =>
          BuildWithFixedSizeValue fuel seed KEY_SET key_len 0 (front :: rest) out
      end
  end.

Definition BuildDict {R W : Type} `{IDataReader R} `{IDataWriter W}
    (fuel : nat) (seed : Z) (readers : list R) (out : W) : res (BuildStatus * W) :=
  match readers with
  | [] => Done (BUILD_STATUS_BAD_INPUT, out)
  | front :: rest =>
      '(lens, front) <- DetectKeyValueLen front true ;;
      match lens with
      | None => Done (BUILD_STATUS_BAD_INPUT, out)
      | Some (key_len, val_len) =>
          BuildWithFixedSizeValue fuel seed KV_INLINE key_len val_len (front :: rest) out
      end
  end.

(** [DumpVariedValue] of a value whose bytes are [payload]. *)
Definition DumpVariedValue {W : Type} `{IDataWriter W} (len_ : Z) (payload : list Z)
    (out : W) : bool * W :=
  let '(ok, out) := WriteVarInt len_ out in
  if negb ok then (false, out)
  else if len_ =? 0 then (true, out)
  else write payload out.

(** [for (size_t i = 0; i < cnt; i++) DumpVariedValue(reader->read(false).val, out)] *)
Fixpoint dump_records {R W : Type} `{IDataReader R} `{IDataWriter W}
    (turns : nat) (reader : R) (out : W) : res (bool * R * W) :=
  match turns with
  | O => Done (true, reader, out)
  | S turns' =>
      '(rec, reader) <- read false reader ;;
      let '(ok, out) :=
        DumpVariedValue (len (val rec)) (slice_bytes (val rec) (len (val rec))) out in
      if negb ok then Done (false, reader, out)
      else dump_records turns' reader out
  end.

(** The loop over the readers that writes the new values. *)
Fixpoint dump_readers {R W : Type} `{IDataReader R} `{IDataWriter W}
    (readers : list R) (out : W) : res (bool * W) :=
  match readers with
  | [] => Done (true, out)
  | reader :: readers' =>
      let reader := reset reader in
      '(ok, _, out) <- dump_records (Z.to_nat (total reader)) reader out ;;
      if negb ok then Done (false, out)
      else dump_readers readers' out
  end.

(** The loop of the varied-value passes that maps the readers one by one,
    each wrapped in a [KeyOffReader] starting at the running [offset];
    [None] stands for the [return BUILD_STATUS_BAD_INPUT] of the [catch]. *)
Fixpoint Mapping_offsets {R : Type} `{IDataReader R} (fuel : nat) (header : Header)
    (do_reset : bool) (readers : list R) (guide space : list Z) (item offset : Z)
    : res (option (Z * list Z * list Z * Z * list R)) :=
  match readers with
  | [] => Done (Some (item, guide, space, offset, []))
  | reader :: readers' =>
      let reader := if do_reset then reset reader else reader in
      let wrapped_reader := KeyOffReader_new reader offset in
      match Mapping_reader fuel header guide space wrapped_reader with
      | Done (cnt, guide, space, wrapped_reader) =>
          mapped <- Mapping_offsets fuel header do_reset readers' guide space
                                    (wrap64 (item + cnt)) (m_offset wrapped_reader) ;;
          match mapped with
          | None => Done None
          | Some (item, guide, space, offset, rest) =>
              Done (Some (item, guide, space, offset, m_core wrapped_reader :: rest))
          end
      | Throw BuildException => Done None
      | Throw e => Throw e
      | Hang => Hang
      end
  end.

(** [BuildDictWithVariedValue] *)
Definition BuildDictWithVariedValue {R W : Type} `{IDataReader R} `{IDataWriter W}
    (fuel : nat) (seed : Z) (readers : list R) (out : W) : res (BuildStatus * W) :=
  match readers with
  | [] => Done (BUILD_STATUS_BAD_INPUT, out)
  | front :: rest =>
      '(lens, front) <- DetectKeyValueLen front false ;;
      match lens with
      | None => Done (BUILD_STATUS_BAD_INPUT, out)
      | Some (key_len, _) =>
          let readers := front :: rest in
          let total := SumInputSize readers in
          let set_cnt := CalcSetCnt total in
          let header :=
            mkHeader SSHT_MAGIC KV_SEPARATED key_len OFFSET_FIELD_SIZE seed 0 set_cnt in
          let slot := wrap64 (Z.shiftl set_cnt 6) in
          let guide := repeat 0xff (Z.to_nat slot) in
          let line_size := wrap32 (key_len + OFFSET_FIELD_SIZE) in
          let space := repeat 0 (Z.to_nat (wrap64 (slot * line_size))) in
          mapped <- Mapping_offsets fuel header true readers guide space 0 0 ;;
          match mapped with
          | None => Done (BUILD_STATUS_BAD_INPUT, out)
          | Some (item, guide, space, _, readers) =>
              if negb (item =? total) then Done (BUILD_STATUS_BAD_INPUT, out)
              else
                let '(ok, out) := write_table (with_item header item) guide space out in
                if negb ok then Done (BUILD_STATUS_FAIL_TO_OUTPUT, out)
                else
                  '(ok, out) <- dump_readers readers out ;;
                  if negb ok then Done (BUILD_STATUS_FAIL_TO_OUTPUT, out)
                  else Done (BUILD_STATUS_OK, out)
          end
      end
  end.

End Builder.

(** ** build.cc: the deriver *)

Section Deriver.

Variable Hash : list Z -> Z -> Z -> Z.

(** [CountHit]: the records of [reader] whose key is in [base]. *)
Fixpoint CountHit_loop {R : Type} `{IDataReader R} (fuel : nat) (base : Pack)
    (turns : nat) (reader : R) (hit : Z) : res (Z * R) :=
  match turns with
  | O => Done (hit, reader)
  | S turns' =>
      '(rec, reader) <- read true reader ;;
      if is_null (key rec) || negb (len (key rec) =? v_key_len (pk_view base))
      then Throw BuildException
      else
        match Search Hash fuel base (slice_bytes (key rec) (v_key_len (pk_view base))) with
        | None => Hang
        | Some field =>
            CountHit_loop fuel base turns' reader
                          (match field with Some _ => wrap64 (hit + 1) | None => hit end)
        end
  end.

Definition CountHit {R : Type} `{IDataReader R} (fuel : nat) (base : Pack) (reader : R)
    : res (Z * R) :=
  '(hit, reader) <- CountHit_loop fuel base (Z.to_nat (total reader)) reader 0 ;;
  Done (hit, reset reader).

(** The first pass of the fixed-size derive, one thread per reader in the
    source, here one reader after the other. *)
Fixpoint CountHit_threads {R : Type} `{IDataReader R} (fuel : nat) (base : Pack)
    (readers : list R) (dirty : Z) (fail : bool) : res (Z * bool * list R) :=
  match readers with
  | [] => Done (dirty, fail, [])
  | reader :: readers' =>
      match CountHit fuel base (reset reader) with
      | Done (hit, reader) =>
          '(dirty, fail, rest) <-
            CountHit_threads fuel base readers' (wrap64 (dirty + hit)) fail ;;
          Done (dirty, fail, reader :: rest)
      | Throw BuildException =>
          '(dirty, _, rest) <- CountHit_threads fuel base readers' dirty true ;;
          Done (dirty, true, reset reader :: rest)
      | Throw e => Throw e
      | Hang => Hang
      end
  end.

(** The callback of the third pass: [memcpy(out, line, base.line_size)]. *)
Definition fill_row (base : Pack) (line : Z) : Fill unit :=
  fun out space st =>
    Done (store_bytes space out
            (bytes_at (pk_mem base) line (Z.to_nat (v_line_size (pk_view base)))), st).

(** The third pass: the occupied slots [i, i + turns) of the base.  The
    source splits the slots into one range per thread; the ranges are run
    here in ascending order. *)
Fixpoint Mapping_base (fuel : nat) (base : Pack) (header : Header) (set_cnt : Divisor.t)
    (turns : nat) (i : Z) (guide space : list Z) (cnt : Z) : res (Z * list Z * list Z) :=
  match turns with
  | O => Done (cnt, guide, space)
  | S turns' =>
      let b := pk_view base in
      let line := v_content b + wrap64 (i * v_line_size b) in
      if Z.land (rd (pk_mem base) (v_guide b + i)) 0x80 =? 0 then
        '(installed, guide, space, _) <-
          Mapping Hash unit header set_cnt (skipn (Z.to_nat line) (pk_mem base))
                  (fill_row base line) fuel guide space tt ;;
        Mapping_base fuel base header set_cnt turns' (i + 1) guide space
                     (if installed then wrap64 (cnt + 1) else cnt)
      else Mapping_base fuel base header set_cnt turns' (i + 1) guide space cnt
  end.

(** [RebuildWithFixedSizeValue] *)
Definition RebuildWithFixedSizeValue {R W : Type} `{IDataReader R} `{IDataWriter W}
    (fuel : nat) (seed : Z) (base : Pack) (readers : list R) (out : W)
    : res (BuildStatus * W) :=
  let b := pk_view base in
  _ <- Assert (negb (match readers with [] => true | _ => false end)
               && ((v_type b =? KEY_SET) || (v_type b =? KV_INLINE))) ;;
  '(dirty, fail, readers) <- CountHit_threads fuel base readers 0 false ;;
  if fail then Done (BUILD_STATUS_BAD_INPUT, out)
  else
    _ <- Assert (dirty <=? v_item b) ;;
    let total := wrap64 (wrap64 (SumInputSize readers + v_item b) - dirty) in
    let set_cnt := CalcSetCnt total in
    let header := mkHeader SSHT_MAGIC (v_type b) (v_key_len b) (v_val_len b) seed 0 set_cnt in
    let slot := wrap64 (Z.shiftl set_cnt 6) in
    let guide := repeat 0xff (Z.to_nat slot) in
    let space := repeat 0 (Z.to_nat (wrap64 (slot * v_line_size b))) in
    '(item, guide, space, fail, _) <-
      Mapping_readers Hash fuel header false readers guide space 0 false ;;
    if fail then Done (BUILD_STATUS_BAD_INPUT, out)
    else
      let base_slot := wrap64 (Z.shiftl (Divisor.value (v_set_cnt b)) 6) in
      '(cnt, guide, space) <-
        Mapping_base fuel base header (Divisor.make set_cnt) (Z.to_nat base_slot) 0
                     guide space 0 ;;
      let '(ok, out) := write_table (with_item header (wrap64 (item + cnt))) guide space out in
      if negb ok then Done (BUILD_STATUS_FAIL_TO_OUTPUT, out)
      else Done (BUILD_STATUS_OK, out).

(** [TestBit] and [SetBit] on a bitmap of bytes. *)
Definition TestBit (bitmap : list Z) (pos : Z) : bool :=
  negb (Z.land (rd bitmap (Z.shiftr pos 3)) (Z.shiftl 1 (Z.land pos 7)) =? 0).

Definition SetBit (bitmap : list Z) (pos : Z) : list Z :=
  set_nth (Z.to_nat (Z.shiftr pos 3))
          (wrap8 (Z.lor (rd bitmap (Z.shiftr pos 3)) (Z.shiftl 1 (Z.land pos 7))))
          bitmap.

(** [~x] on an [unsigned]. *)
Definition not32 (x : Z) : Z := Z.lxor x (2 ^ 32 - 1).

(** [ClearBit] *)
Definition ClearBit (bitmap : list Z) (pos : Z) : list Z :=
  set_nth (Z.to_nat (Z.shiftr pos 3))
          (wrap8 (Z.land (rd bitmap (Z.shiftr pos 3))
                         (not32 (Z.shiftl 1 (Z.land pos 7)))))
          bitmap.

(** [TestAndSetBit]: the result and the bitmap afterwards. *)
Definition TestAndSetBit (bitmap : list Z) (pos : Z) : bool * list Z :=
  let b := rd bitmap (Z.shiftr pos 3) in
  let m := wrap8 (Z.shiftl 1 (Z.land pos 7)) in
  if negb (Z.land b m =? 0) then (false, bitmap)
  else (true, set_nth (Z.to_nat (Z.shiftr pos 3)) (wrap8 (Z.lor b m)) bitmap).

(** The value a row of the base refers to. *)
Definition base_value (base : Pack) (field : Z) : Slice Z :=
  SeparatedValue (pk_mem base)
                 (v_extend (pk_view base) + ReadOffsetField (pk_mem base) field)
                 (v_space_end (pk_view base)).

(** The callback of the varied-value pass over the base; its state is the
    running [offset]. *)
Definition fill_base_value (base : Pack) (line : Z) : Fill Z :=
  fun out space offset =>
    let key_len := v_key_len (pk_view base) in
    let space := store_bytes space out (bytes_at (pk_mem base) line (Z.to_nat key_len)) in
    let val := base_value base (line + key_len) in
    _ <- Assert (negb (is_null val)) ;;
    let space := WriteOffsetField space (out + key_len) offset in
    Done (space, wrap64 (offset + wrap64 (VarIntSize (len val) + len val))).

(** The pass of the varied-value derive over the slots of the base. *)
Fixpoint Mapping_base_values (fuel : nat) (base : Pack) (header : Header)
    (set_cnt : Divisor.t) (turns : nat) (i : Z) (guide space : list Z)
    (item offset : Z) (bitmap : list Z) : res (Z * list Z * list Z * list Z) :=
  match turns with
  | O => Done (item, guide, space, bitmap)
  | S turns' =>
      let b := pk_view base in
      let line := v_content b + wrap64 (i * v_line_size b) in
      if Z.land (rd (pk_mem base) (v_guide b + i)) 0x80 =? 0 then
        '(installed, guide, space, offset) <-
          Mapping Hash Z header set_cnt (skipn (Z.to_nat line) (pk_mem base))
                  (fill_base_value base line) fuel guide space offset ;;
        if installed then
          Mapping_base_values fuel base header set_cnt turns' (i + 1) guide space
                              (wrap64 (item + 1)) offset (SetBit bitmap i)
        else
          Mapping_base_values fuel base header set_cnt turns' (i + 1) guide space
                              item offset bitmap
      else
        Mapping_base_values fuel base header set_cnt turns' (i + 1) guide space
                            item offset bitmap
  end.

(** The last loop of the varied-value derive: the values of the base rows
    that were carried over. *)
Fixpoint dump_base_values {W : Type} `{IDataWriter W} (base : Pack) (bitmap : list Z)
    (turns : nat) (i : Z) (out : W) : bool * W :=
  match turns with
  | O => (true, out)
  | S turns' =>
      let b := pk_view base in
      let field := v_content b + v_key_len b + wrap64 (i * v_line_size b) in
      if TestBit bitmap i then
        let val := base_value base field in
        let payload :=
          match ptr val with
          | Some p => bytes_at (pk_mem base) p (Z.to_nat (len val))
          | None => []
          end in
        let '(ok, out) := DumpVariedValue (len val) payload out in
        if negb ok then (false, out)
        else dump_base_values base bitmap turns' (i + 1) out
      else dump_base_values base bitmap turns' (i + 1) out
  end.

(** The first loop of the varied-value derive; [None] stands for the
    [return BUILD_STATUS_BAD_INPUT] of the [catch]. *)
Fixpoint CountHit_serial {R : Type} `{IDataReader R} (fuel : nat) (base : Pack)
    (readers : list R) (dirty : Z) : res (option (Z * list R)) :=
  match readers with
  | [] => Done (Some (dirty, []))
  | reader :: readers' =>
      match CountHit fuel base (reset reader) with
      | Done (hit, reader) =>
          counted <- CountHit_serial fuel base readers' (wrap64 (dirty + hit)) ;;
          match counted with
          | None => Done None
          | Some (dirty, rest) => Done (Some (dirty, reader :: rest))
          end
      | Throw BuildException => Done None
      | Throw e => Throw e
      | Hang => Hang
      end
  end.

(** [RebuildDictWithVariedValue] *)
Definition RebuildDictWithVariedValue {R W : Type} `{IDataReader R} `{IDataWriter W}
    (fuel : nat) (seed : Z) (base : Pack) (readers : list R) (out : W)
    : res (BuildStatus * W) :=
  let b := pk_view base in
  _ <- Assert (negb (match readers with [] => true | _ => false end)
               && (v_type b =? KV_SEPARATED)) ;;
  counted <- CountHit_serial fuel base readers 0 ;;
  match counted with
  | None => Done (BUILD_STATUS_BAD_INPUT, out)
  | Some (dirty, readers) =>
      _ <- Assert (dirty <=? v_item b) ;;
      let neo := SumInputSize readers in
      let total := wrap64 (wrap64 (v_item b + neo) - dirty) in
      let set_cnt := CalcSetCnt total in
      let header :=
        mkHeader SSHT_MAGIC (v_type b) (v_key_len b) (v_val_len b) seed 0 set_cnt in
      let slot := wrap64 (Z.shiftl set_cnt 6) in
      let guide := repeat 0xff (Z.to_nat slot) in
      let space := repeat 0 (Z.to_nat (wrap64 (slot * v_line_size b))) in
      mapped <- Mapping_offsets Hash fuel header false readers guide space 0 0 ;;
      match mapped with
      | None => Done (BUILD_STATUS_BAD_INPUT, out)
      | Some (item, guide, space, offset, readers) =>
          if negb (item =? neo) then Done (BUILD_STATUS_BAD_INPUT, out)
          else
            let base_slot := wrap64 (Z.shiftl (Divisor.value (v_set_cnt b)) 6) in
            let bitmap := repeat 0 (Z.to_nat (wrap64 (base_slot + 7) / 8)) in
            '(item, guide, space, bitmap) <-
              Mapping_base_values fuel base header (Divisor.make set_cnt)
                                  (Z.to_nat base_slot) 0 guide space item offset bitmap ;;
            let '(ok, out) := write_table (with_item header item) guide space out in
            if negb ok then Done (BUILD_STATUS_FAIL_TO_OUTPUT, out)
            else
              '(ok, out) <- dump_readers readers out ;;
              if negb ok then Done (BUILD_STATUS_FAIL_TO_OUTPUT, out)
              else
                let '(ok, out) := dump_base_values base bitmap (Z.to_nat base_slot) 0 out in
                if negb ok then Done (BUILD_STATUS_FAIL_TO_OUTPUT, out)
                else Done (BUILD_STATUS_OK, out)
      end
  end.

(** [Hashtable::derive] *)
Definition derive {R W : Type} `{IDataReader R} `{IDataWriter W}
    (fuel : nat) (seed : Z) (h : Hashtable) (readers : list R) (out : W)
    : res (BuildStatus * W) :=
  if Hashtable_not h || match readers with [] => true | _ => false end
  then Done (BUILD_STATUS_BAD_INPUT, out)
  else if (v_type (m_view h) =? KEY_SET) || (v_type (m_view h) =? KV_INLINE)
  then RebuildWithFixedSizeValue fuel seed (Hashtable_pack h) readers out
  else if v_type (m_view h) =? KV_SEPARATED
  then RebuildDictWithVariedValue fuel seed (Hashtable_pack h) readers out
  else Done (BUILD_STATUS_BAD_INPUT, out).

End Deriver.

(** * Properties *)

(** ** The software divisor is exact *)

Module DivisorFacts.
Import Divisor.

Lemma wrap64_small x : 0 <= x < 2 ^ 64 -> wrap64 x = x.
Proof. intros H. unfold wrap64. now apply Z.mod_small. Qed.

Lemma wrap128_small x : 0 <= x < 2 ^ 128 -> wrap128 x = x.
Proof. intros H. unfold wrap128. now apply Z.mod_small. Qed.

Lemma wrap32_small x : 0 <= x < 2 ^ 32 -> wrap32 x = x.
Proof. intros H. unfold wrap32. now apply Z.mod_small. Qed.

(** The shift loop stops at the greatest power of two not above [n]. *)
Lemma shrink_log2 n : 1 <= n ->
  forall turns s, 0 <= s < 64 -> (Z.to_nat s < turns)%nat -> n < 2 ^ (s + 1) ->
  shrink turns (2 ^ s) s n = (2 ^ Z.log2 n, Z.log2 n).
Proof.
  intros Hn. induction turns as [|turns IH]; intros s Hs Hlt Hub; [lia|].
  cbn [shrink]. destruct (Z.gtb_spec (2 ^ s) n) as [Hgt|Hle].
  - assert (1 <= s).
    { destruct (Z.eq_dec s 0) as [->|]; [cbn in Hgt; lia|lia]. }
    rewrite Z.shiftr_div_pow2 by lia.
    replace (2 ^ s / 2 ^ 1) with (2 ^ (s - 1)).
    2:{ replace s with (s - 1 + 1) at 2 by lia.
        rewrite Z.pow_add_r by lia. now rewrite Z.div_mul by lia. }
    rewrite wrap32_small by lia.
    apply IH; [lia|lia|]. replace (s - 1 + 1) with s by lia. lia.
  - assert (Z.log2 n = s) as ->; [|reflexivity].
    apply Z.log2_unique; [lia|]. replace (Z.succ s) with (s + 1) by lia. lia.
Qed.

Lemma shrink_make n : 1 <= n < 2 ^ 64 ->
  shrink 64 (wrap64 (Z.shiftl 1 (BITWIDTH - 1))) (BITWIDTH - 1) n
  = (2 ^ Z.log2 n, Z.log2 n).
Proof.
  intros Hn. change (wrap64 (Z.shiftl 1 (BITWIDTH - 1))) with (2 ^ 63).
  change (BITWIDTH - 1) with 63.
  apply shrink_log2; [lia|lia|cbn; lia|]. change (63 + 1) with 64. lia.
Qed.

(** The high word of [(2^64 - 1) * (x + 1)] is [x]. *)
Lemma top_all_ones x : 0 <= x < 2 ^ 64 ->
  ((2 ^ 64 - 1) * x + (2 ^ 64 - 1)) / 2 ^ 64 = x.
Proof.
  intros Hx. symmetry.
  apply (Z.div_unique_pos _ _ x (2 ^ 64 - x - 1)); lia.
Qed.

(** A number strictly between two consecutive powers of two divides no
    power of two. *)
Lemma between_pow2_not_divide n s k :
  0 <= s -> 0 <= k -> 2 ^ s < n < 2 ^ (s + 1) -> ~ (n | 2 ^ k).
Proof.
  intros Hs Hk Hn Hdiv.
  destruct (Zdivide_power_2 n 2 k Hk ltac:(lia) (proj1 (prime_alt 2) Z.prime_2) Hdiv) as [j Hj].
  subst n. destruct Hn as [H1 H2].
  assert (0 <= j).
  { destruct (Z.ltb_spec j 0); [|lia].
    rewrite (Z.pow_neg_r 2 j) in H1 by lia. pose proof (Z.pow_pos_nonneg 2 s). lia. }
  apply Z.pow_lt_mono_r_iff in H1; [|lia|lia].
  apply Z.pow_lt_mono_r_iff in H2; [|lia|lia]. lia.
Qed.

Section Reciprocal.
Variables (n P M F R : Z).
Hypothesis HP1 : 1 <= P.
Hypothesis HP2 : 2 * P <= M.
Hypothesis Hn : P < n < 2 * P.
Hypothesis HF : M * P = F * n + R.
Hypothesis HR : 0 < R < n.

Lemma F_bounds : 0 < F /\ F + 1 < M.
Proof.
  assert (HF0 : 0 < F).
  { destruct (Z.ltb_spec 0 F); [assumption|exfalso].
    assert (F * n <= 0) by (apply Z.mul_nonpos_nonneg; lia).
    assert (2 * P <= M * P) by (apply Z.mul_le_mono_nonneg_r; lia). lia. }
  split; [assumption|].
  destruct (Z.ltb_spec (F + 1) M); [assumption|exfalso].
  assert ((M - 1) * n <= F * n) by (apply Z.mul_le_mono_nonneg_r; lia).
  assert (M * 1 <= M * (n - P)) by (apply Z.mul_le_mono_nonneg_l; lia).
  lia.
Qed.

Lemma quot_bounds a b q : 0 < b -> b * q <= a < b * q + b -> a / b = q.
Proof.
  intros Hb H. symmetry. apply Z.div_unique_pos with (r := a - b * q); lia.
Qed.

Lemma scaled_bounds a b q : 0 < n -> 0 < b ->
  b * q * n <= a * n < (b * q + b) * n -> a / b = q.
Proof.
  intros Hn0 Hb [H1 H2]. apply quot_bounds; [assumption|]. split.
  - apply Z.mul_le_mono_pos_r with n; assumption.
  - apply Z.mul_lt_mono_pos_r with n; assumption.
Qed.

Lemma round_up_exact x : 0 <= x < M -> n - R <= P ->
  ((F + 1) * x + 0) / (M * P) = x / n.
Proof.
  intros Hx Hexc.
  pose proof (Z.div_mod x n ltac:(lia)) as Hdm.
  pose proof (Z.mod_pos_bound x n ltac:(lia)) as Hmod.
  assert (Hq : 0 <= x / n) by (apply Z.div_pos; lia).
  set (q := x / n) in *. set (t := x mod n) in *. clearbody q t.
  rewrite Z.add_0_r.
  assert (HA : 0 < M * P) by (apply Z.mul_pos_pos; lia).
  apply scaled_bounds; [lia|assumption|].
  replace ((F + 1) * x * n) with (M * P * x + (n - R) * x)
    by (transitivity ((F * n + R + (n - R)) * x); [rewrite <- HF|]; ring).
  assert (M * P * x = M * P * q * n + M * P * t) by (subst x; ring).
  assert (0 <= (n - R) * x) by (apply Z.mul_nonneg_nonneg; lia).
  assert (0 <= M * P * t) by (apply Z.mul_nonneg_nonneg; lia).
  assert ((n - R) * x <= P * x) by (apply Z.mul_le_mono_nonneg_r; lia).
  assert (P * x <= P * (M - 1)) by (apply Z.mul_le_mono_nonneg_l; lia).
  assert (M * P * t <= M * P * (n - 1)) by (apply Z.mul_le_mono_nonneg_l; lia).
  lia.
Qed.

Lemma round_down_exact x : 0 <= x < M -> P < n - R ->
  (F * x + F) / (M * P) = x / n.
Proof.
  intros Hx Hexc.
  pose proof (Z.div_mod x n ltac:(lia)) as Hdm.
  pose proof (Z.mod_pos_bound x n ltac:(lia)) as Hmod.
  assert (Hq : 0 <= x / n) by (apply Z.div_pos; lia).
  set (q := x / n) in *. set (t := x mod n) in *. clearbody q t.
  assert (HA : 0 < M * P) by (apply Z.mul_pos_pos; lia).
  apply scaled_bounds; [lia|assumption|].
  replace ((F * x + F) * n) with (M * P * (x + 1) - R * (x + 1))
    by (transitivity ((F * n + R) * (x + 1) - R * (x + 1)); [rewrite <- HF|]; ring).
  assert (M * P * (x + 1) = M * P * q * n + M * P * (t + 1)) by (subst x; ring).
  assert (R * (x + 1) <= P * (x + 1)) by (apply Z.mul_le_mono_nonneg_r; lia).
  assert (P * (x + 1) <= P * M) by (apply Z.mul_le_mono_nonneg_l; lia).
  assert (0 < R * (x + 1)) by (apply Z.mul_pos_pos; lia).
  assert (M * P * 1 <= M * P * (t + 1)) by (apply Z.mul_le_mono_nonneg_l; lia).
  assert (M * P * (t + 1) <= M * P * n) by (apply Z.mul_le_mono_nonneg_l; lia).
  lia.
Qed.
End Reciprocal.

Lemma shiftr_shiftr_div x s : 0 <= s ->
  Z.shiftr (Z.shiftr x 64) s = x / (2 ^ 64 * 2 ^ s).
Proof.
  intros Hs. rewrite !Z.shiftr_div_pow2 by lia.
  rewrite Z.div_div; [reflexivity|lia|]. apply Z.pow_pos_nonneg; lia.
Qed.

Lemma log2_bounds d : 1 <= d < 2 ^ 64 ->
  0 <= Z.log2 d < 64 /\ 2 ^ Z.log2 d <= d < 2 * 2 ^ Z.log2 d.
Proof.
  intros Hd. pose proof (Z.log2_spec d ltac:(lia)) as Hspec.
  rewrite Z.pow_succ_r in Hspec by apply Z.log2_nonneg.
  split; [|lia]. split; [apply Z.log2_nonneg|].
  apply Z.log2_lt_pow2; lia.
Qed.

(** The quotient computed by [div] and used by [mod_]. *)
Lemma quotient_exact d n : 1 <= d < 2 ^ 64 -> 0 <= n < 2 ^ 64 ->
  Z.shiftr (top (make d) n) (m_sft (make d)) = n / d /\ m_val (make d) = d.
Proof.
  intros Hd Hn. unfold make.
  destruct (Z.eqb_spec d 0) as [?|_]; [lia|].
  rewrite shrink_make by assumption.
  destruct (log2_bounds d Hd) as [Hs HP].
  set (s := Z.log2 d) in *. set (P := 2 ^ s) in *.
  assert (HP1 : 1 <= P) by (subst P; pose proof (Z.pow_pos_nonneg 2 s); lia).
  assert (HP2 : 2 * P <= 2 ^ 64).
  { subst P. change (2 * 2 ^ s) with (2 ^ 1 * 2 ^ s).
    rewrite <- Z.pow_add_r by lia. apply Z.pow_le_mono_r; lia. }
  destruct (Z.eqb_spec P d) as [HPd|HPd].
  - (* the divisor is a power of two *)
    cbn [m_val m_sft]. split; [|reflexivity]. unfold top. cbn [m_fac m_tip].
    change (not64 0) with (2 ^ 64 - 1).
    rewrite wrap128_small by nia.
    unfold BITWIDTH. rewrite (Z.shiftr_div_pow2 _ 64) by lia.
    rewrite top_all_ones by assumption. rewrite wrap64_small by assumption.
    rewrite Z.shiftr_div_pow2 by lia. now rewrite <- HPd.
  - (* the divisor lies strictly between [P] and [2 * P] *)
    unfold BITWIDTH. rewrite Z.shiftl_mul_pow2 by lia.
    rewrite wrap128_small by nia.
    assert (HdP : P < d < 2 * P) by lia.
    pose proof (Z.div_mod (P * 2 ^ 64) d ltac:(lia)) as Hdm.
    pose proof (Z.mod_pos_bound (P * 2 ^ 64) d ltac:(lia)) as Hmod.
    set (F := P * 2 ^ 64 / d) in *. set (R := (P * 2 ^ 64) mod d) in *.
    assert (HR : 0 < R < d).
    { destruct (Z.eq_dec R 0) as [HR0|]; [exfalso|lia].
      apply (between_pow2_not_divide d s (s + 64)); [lia|lia| |].
      - rewrite Z.pow_add_r, Z.pow_1_r by lia. fold P. lia.
      - rewrite Z.pow_add_r by lia. fold P. apply Z.mod_divide; [lia|exact HR0]. }
    assert (HF : 2 ^ 64 * P = F * d + R) by lia.
    destruct (F_bounds d P (2 ^ 64) F R HP1 HP2 HdP HF HR) as [HF0 HF1].
    rewrite (wrap64_small F) by lia.
    assert (Hr : wrap64 (F * d + d) = d - R).
    { unfold wrap64. replace (F * d + d) with (d - R + P * 2 ^ 64) by lia.
      rewrite Z.mod_add by lia. apply Z.mod_small. lia. }
    rewrite Hr.
    destruct (Z.leb_spec (d - R) P) as [Hexc|Hexc];
      cbn [m_val m_sft]; (split; [|reflexivity]); unfold top; cbn [m_fac m_tip].
    + rewrite (wrap64_small (F + 1)) by lia.
      rewrite wrap128_small by nia.
      rewrite wrap64_small.
      2:{ rewrite (Z.shiftr_div_pow2 _ 64) by lia. split; [apply Z.div_pos; nia|].
          apply Z.div_lt_upper_bound; nia. }
      rewrite shiftr_shiftr_div by lia. fold P.
      apply (round_up_exact d P (2 ^ 64) F R); assumption || lia.
    + rewrite wrap128_small by nia.
      rewrite wrap64_small.
      2:{ rewrite (Z.shiftr_div_pow2 _ 64) by lia. split; [apply Z.div_pos; nia|].
          apply Z.div_lt_upper_bound; nia. }
      rewrite shiftr_shiftr_div by lia. fold P.
      apply (round_down_exact d P (2 ^ 64) F R); assumption || lia.
Qed.

(** The quotient and remainder computed by the reciprocal are the true
    ones. *)
Lemma div_mod_exact d n :
  1 <= d <= 2 ^ 64 - 1 -> 0 <= n < 2 ^ 64 ->
  Divisor.div (Divisor.make d) n = n / d /\
  Divisor.mod_ (Divisor.make d) n = n mod d.
Proof.
  intros Hd Hn.
  destruct (quotient_exact d n ltac:(lia) Hn) as [Hq Hv].
  unfold Divisor.div, Divisor.mod_. rewrite Hq, Hv. split; [reflexivity|].
  pose proof (Z.div_mod n d ltac:(lia)) as Hdm.
  pose proof (Z.mod_pos_bound n d ltac:(lia)) as Hmod.
  pose proof (Z.mod_le n d ltac:(lia) ltac:(lia)) as Hle.
  rewrite (wrap64_small (d * (n / d))) by lia.
  rewrite wrap64_small by lia. lia.
Qed.

End DivisorFacts.

(** C7.  For every divisor [d] with [1 <= d <= 2^64 - 1] and every [n] in
    the [uint64_t] range, [Divisor<uint64_t>(d).div(n)] is the true quotient
    [n / d] and [Divisor<uint64_t>(d).mod(n)] is the true remainder
    [n mod d]. *)
Theorem Divisor_exact (d n : Z) :
  1 <= d <= 2 ^ 64 - 1 -> 0 <= n < 2 ^ 64 ->
  Divisor.div (Divisor.make d) n = n / d /\
  Divisor.mod_ (Divisor.make d) n = n mod d.
Proof. exact (DivisorFacts.div_mod_exact d n). Qed.

Lemma Divisor_exact_witness :
  Divisor.div (Divisor.make 192) 18446744073709551615 = 18446744073709551615 / 192 /\
  Divisor.mod_ (Divisor.make 192) 18446744073709551615 = 18446744073709551615 mod 192.
Proof. apply (Divisor_exact 192 18446744073709551615); lia. Defined.

(** ** The SWAR hint marks exactly the matching and the high-bit bytes *)

Module HintFacts.

Definition is_byte (b : Z) : Prop := 0 <= b < 256.

(** What [CalcHint] computes in each byte lane. *)
Definition hint_lane (mark b : Z) : Z :=
  Z.lor (Z.land b 128)
        (Z.land (Z.land (Z.lxor b 128) 128)
                (Z.land (Z.lxor b (Z.lxor mark 255)) 127 + 1)).

Fixpoint lanes2 (f : Z -> Z -> Z) (xs ys : list Z) : list Z :=
  match xs, ys with
  | x :: xs', y :: ys' => f x y :: lanes2 f xs' ys'
  | _, _ => []
  end.

Lemma testbit_cons a x n : is_byte a -> 0 <= n ->
  Z.testbit (a + 256 * x) n = if n <? 8 then Z.testbit a n else Z.testbit x (n - 8).
Proof.
  intros Ha Hn. unfold is_byte in Ha. destruct (Z.ltb_spec n 8) as [Hlt|Hge].
  - rewrite <- (Z.mod_pow2_bits_low (a + 256 * x) 8 n) by lia.
    replace ((a + 256 * x) mod 2 ^ 8) with a; [reflexivity|].
    apply (Z.mod_unique_pos _ _ x); lia.
  - replace n with (n - 8 + 8) at 1 by lia.
    rewrite <- Z.div_pow2_bits by lia.
    replace ((a + 256 * x) / 2 ^ 8) with x; [reflexivity|].
    apply (Z.div_unique_pos _ _ x a); lia.
Qed.

Lemma is_byte_bits b : 0 <= b -> (forall n, 8 <= n -> Z.testbit b n = false) -> is_byte b.
Proof.
  intros Hb Hhi. split; [assumption|].
  destruct (Z.ltb_spec b 256) as [|Hge]; [assumption|exfalso].
  assert (Hl : 8 <= Z.log2 b) by (apply (Z.log2_le_pow2 b 8); lia).
  pose proof (Z.bit_log2 b ltac:(lia)) as Hbit. rewrite Hhi in Hbit by assumption.
  discriminate.
Qed.

Lemma is_byte_high b n : is_byte b -> 8 <= n -> Z.testbit b n = false.
Proof.
  intros [H0 H1] Hn. destruct (Z.eq_dec b 0) as [->|]; [apply Z.bits_0|].
  apply Z.bits_above_log2; [lia|].
  assert (Z.log2 b < 8) by (apply Z.log2_lt_pow2; lia). lia.
Qed.

Section Bitwise.
(** A bitwise operation of the standard library, given by its truth table. *)
Variable op : Z -> Z -> Z.
Variable tt : bool -> bool -> bool.
Hypothesis op_spec : forall x y n, Z.testbit (op x y) n = tt (Z.testbit x n) (Z.testbit y n).
Hypothesis op_nonneg : forall x y, 0 <= x -> 0 <= y -> 0 <= op x y.
Hypothesis tt_false : tt false false = false.

Lemma op_byte a b : is_byte a -> is_byte b -> is_byte (op a b).
Proof.
  intros Ha Hb. apply is_byte_bits.
  - apply op_nonneg; [apply Ha|apply Hb].
  - intros n Hn. now rewrite op_spec, !is_byte_high.
Qed.

Lemma op_cons a b x y : is_byte a -> is_byte b ->
  op (a + 256 * x) (b + 256 * y) = op a b + 256 * op x y.
Proof.
  intros Ha Hb. apply Z.bits_inj'. intros n Hn.
  rewrite op_spec, !testbit_cons by (auto using op_byte).
  destruct (n <? 8); now rewrite op_spec.
Qed.

Lemma op_pack xs : forall ys, Forall is_byte xs -> Forall is_byte ys ->
  length xs = length ys ->
  op (le_pack xs) (le_pack ys) = le_pack (lanes2 op xs ys).
Proof.
  induction xs as [|x xs IH]; intros [|y ys] Hx Hy Hlen; try discriminate.
  - cbn. apply Z.bits_inj'. intros n _. now rewrite op_spec, Z.bits_0.
  - inversion Hx; inversion Hy; subst. cbn [le_pack lanes2].
    rewrite op_cons by assumption. rewrite IH; auto.
Qed.

End Bitwise.

Lemma land_pack xs ys : Forall is_byte xs -> Forall is_byte ys ->
  length xs = length ys ->
  Z.land (le_pack xs) (le_pack ys) = le_pack (lanes2 Z.land xs ys).
Proof.
  apply (op_pack Z.land andb); [apply Z.land_spec| |reflexivity].
  intros. now apply Z.land_nonneg; left.
Qed.

Lemma lor_pack xs ys : Forall is_byte xs -> Forall is_byte ys ->
  length xs = length ys ->
  Z.lor (le_pack xs) (le_pack ys) = le_pack (lanes2 Z.lor xs ys).
Proof.
  apply (op_pack Z.lor orb); [apply Z.lor_spec| |reflexivity].
  intros. now apply Z.lor_nonneg.
Qed.

Lemma lxor_pack xs ys : Forall is_byte xs -> Forall is_byte ys ->
  length xs = length ys ->
  Z.lxor (le_pack xs) (le_pack ys) = le_pack (lanes2 Z.lxor xs ys).
Proof.
  apply (op_pack Z.lxor xorb); [apply Z.lxor_spec| |reflexivity].
  intros. now apply Z.lxor_nonneg.
Qed.

Lemma land_byte a b : is_byte a -> is_byte b -> is_byte (Z.land a b).
Proof.
  apply (op_byte Z.land andb); [apply Z.land_spec| |reflexivity].
  intros. now apply Z.land_nonneg; left.
Qed.

Lemma lor_byte a b : is_byte a -> is_byte b -> is_byte (Z.lor a b).
Proof.
  apply (op_byte Z.lor orb); [apply Z.lor_spec| |reflexivity].
  intros. now apply Z.lor_nonneg.
Qed.

Lemma lxor_byte a b : is_byte a -> is_byte b -> is_byte (Z.lxor a b).
Proof.
  apply (op_byte Z.lxor xorb); [apply Z.lxor_spec| |reflexivity].
  intros. now apply Z.lxor_nonneg.
Qed.

Lemma add_pack xs : forall ys, length xs = length ys ->
  le_pack xs + le_pack ys = le_pack (lanes2 Z.add xs ys).
Proof.
  induction xs as [|x xs IH]; intros [|y ys] Hlen; try discriminate; [reflexivity|].
  cbn [le_pack lanes2]. rewrite <- IH by (cbn in Hlen; lia). ring.
Qed.

Lemma pack_bound bs : Forall is_byte bs ->
  0 <= le_pack bs < 256 ^ Z.of_nat (length bs).
Proof.
  induction 1 as [|b bs Hb _ IH]; [cbn; lia|].
  cbn [le_pack length]. rewrite Nat2Z.inj_succ, Z.pow_succ_r by lia.
  unfold is_byte in Hb. lia.
Qed.


Lemma unpack_bytes k : forall x, Forall is_byte (le_bytes k x).
Proof.
  induction k as [|k IH]; intros x; constructor; [|apply IH].
  apply Z.mod_pos_bound. lia.
Qed.

Lemma unpack_length k : forall x, length (le_bytes k x) = k.
Proof. induction k as [|k IH]; intros x; cbn; [reflexivity|now rewrite IH]. Qed.

Lemma pack_unpack k : forall x, 0 <= x < 256 ^ Z.of_nat k -> le_pack (le_bytes k x) = x.
Proof.
  induction k as [|k IH]; intros x Hx.
  - cbn in *. lia.
  - cbn [le_bytes le_pack]. rewrite Nat2Z.inj_succ, Z.pow_succ_r in Hx by lia.
    rewrite IH.
    + pose proof (Z.div_mod x 256 ltac:(lia)). lia.
    + split; [apply Z.div_pos; lia|apply Z.div_lt_upper_bound; lia].
Qed.

Lemma byte_of_cons_0 b x : is_byte b -> byte_of (b + 256 * x) 0 = b.
Proof.
  intros Hb. unfold byte_of. rewrite Z.shiftr_0_r.
  change 255 with (Z.ones 8). rewrite Z.land_ones by lia.
  symmetry. apply (Z.mod_unique_pos _ _ x); unfold is_byte in Hb; lia.
Qed.

Lemma byte_of_cons_S b x j : is_byte b -> 0 <= j ->
  byte_of (b + 256 * x) (j + 1) = byte_of x j.
Proof.
  intros Hb Hj. unfold byte_of. f_equal.
  replace (8 * (j + 1)) with (8 + 8 * j) by lia.
  rewrite <- Z.shiftr_shiftr by lia. f_equal.
  rewrite Z.shiftr_div_pow2 by lia. symmetry.
  apply (Z.div_unique_pos _ _ x b); unfold is_byte in Hb; lia.
Qed.

Lemma byte_of_pack bs : Forall is_byte bs ->
  forall j, (j < length bs)%nat -> byte_of (le_pack bs) (Z.of_nat j) = nth j bs 0.
Proof.
  induction 1 as [|b bs Hb _ IH]; intros j Hj; [cbn in Hj; lia|].
  cbn [le_pack]. destruct j as [|j].
  - now apply byte_of_cons_0.
  - rewrite Nat2Z.inj_succ. unfold Z.succ. rewrite byte_of_cons_S by (auto; lia).
    apply IH. cbn in Hj. lia.
Qed.

Lemma low7_succ_byte x : is_byte (Z.land x 127 + 1).
Proof.
  change 127 with (Z.ones 7). rewrite Z.land_ones by lia.
  pose proof (Z.mod_pos_bound x (2 ^ 7) ltac:(lia)). unfold is_byte. lia.
Qed.

Lemma pack8_wrap64 bs : Forall is_byte bs -> length bs = 8%nat ->
  wrap64 (le_pack bs) = le_pack bs.
Proof.
  intros Hb Hlen. apply DivisorFacts.wrap64_small.
  pose proof (pack_bound bs Hb) as H. rewrite Hlen in H. exact H.
Qed.

Ltac bytes :=
  repeat match goal with
         | |- Forall is_byte _ => constructor
         | |- is_byte (Z.land _ 127 + 1) => apply low7_succ_byte
         | |- is_byte (Z.land _ _) => apply land_byte
         | |- is_byte (Z.lor _ _) => apply lor_byte
         | |- is_byte (Z.lxor _ _) => apply lxor_byte
         | |- is_byte _ => assumption || (unfold is_byte in *; lia)
         end.

Ltac lanes := first [reflexivity | solve [bytes]].

(** [CalcHint] works lane by lane. *)
Lemma CalcHint_lanes b0 b1 b2 b3 b4 b5 b6 b7 mark :
  Forall is_byte [b0; b1; b2; b3; b4; b5; b6; b7] -> 0 <= mark < 128 ->
  CalcHint (le_pack [b0; b1; b2; b3; b4; b5; b6; b7]) mark
  = le_pack (map (hint_lane mark) [b0; b1; b2; b3; b4; b5; b6; b7]).
Proof.
  intros Hbs Hm.
  repeat match goal with
         | H : Forall _ (_ :: _) |- _ => inversion H; clear H; subst
         end.
  assert (Hmark : is_byte mark) by (unfold is_byte; lia).
  unfold CalcHint, not64.
  change (2 ^ 64 - 1) with (le_pack (repeat 255 8)).
  change vsign with (le_pack (repeat 128 8)).
  replace (vone * mark) with (le_pack (repeat mark 8)) by (unfold vone; cbn [le_pack repeat]; ring).
  change vone with (le_pack (repeat 1 8)).
  cbn [repeat].
  rewrite pack8_wrap64 by lanes.
  rewrite !lxor_pack by lanes. cbn [lanes2].
  rewrite !land_pack by lanes. cbn [lanes2].
  rewrite add_pack by reflexivity. cbn [lanes2].
  change (Z.lxor 128 255) with 127.
  rewrite pack8_wrap64 by lanes.
  rewrite land_pack by lanes. cbn [lanes2].
  rewrite lor_pack by lanes. reflexivity.
Qed.

Definition lane_values : list Z := map Z.of_nat (seq 0 256).
Definition mark_values : list Z := map Z.of_nat (seq 0 128).

Lemma in_lane_values b : is_byte b -> In b lane_values.
Proof.
  intros Hb. unfold lane_values. apply in_map_iff. exists (Z.to_nat b).
  unfold is_byte in Hb. split; [lia|]. apply in_seq. lia.
Qed.

Lemma in_mark_values m : 0 <= m < 128 -> In m mark_values.
Proof.
  intros Hm. unfold mark_values. apply in_map_iff. exists (Z.to_nat m).
  split; [lia|]. apply in_seq. lia.
Qed.

(** A lane of the hint is [0x80] when the guide byte equals the mark or has
    its high bit set, and [0] otherwise (checked on all 128 * 256 cases). *)
Lemma hint_lane_table :
  forallb (fun m => forallb (fun b =>
     hint_lane m b =? (if (b =? m) || (128 <=? b) then 128 else 0)) lane_values)
     mark_values = true.
Proof. vm_compute. reflexivity. Qed.

Lemma hint_lane_spec mark b : 0 <= mark < 128 -> is_byte b ->
  hint_lane mark b = if (b =? mark) || (128 <=? b) then 128 else 0.
Proof.
  intros Hm Hb. pose proof hint_lane_table as T.
  rewrite forallb_forall in T. specialize (T mark (in_mark_values mark Hm)).
  rewrite forallb_forall in T. specialize (T b (in_lane_values b Hb)).
  now apply Z.eqb_eq.
Qed.

Lemma testbit7_table :
  forallb (fun b => Bool.eqb (Z.testbit b 7) (128 <=? b)) lane_values = true.
Proof. vm_compute. reflexivity. Qed.

Lemma testbit7_byte b : is_byte b -> Z.testbit b 7 = (128 <=? b).
Proof.
  intros Hb. pose proof testbit7_table as T. rewrite forallb_forall in T.
  apply Bool.eqb_prop. apply T. now apply in_lane_values.
Qed.

Lemma word_bytes vec : 0 <= vec < 2 ^ 64 -> vec = le_pack (le_bytes 8 vec).
Proof. intros H. symmetry. apply pack_unpack. exact H. Qed.

Lemma byte_of_word vec j : 0 <= vec < 2 ^ 64 -> (j < 8)%nat ->
  byte_of vec (Z.of_nat j) = nth j (le_bytes 8 vec) 0.
Proof.
  intros Hv Hj. rewrite (word_bytes vec Hv) at 1.
  apply byte_of_pack; [apply unpack_bytes|now rewrite unpack_length].
Qed.

Lemma CalcHint_word vec mark : 0 <= vec < 2 ^ 64 -> 0 <= mark < 128 ->
  CalcHint vec mark = le_pack (map (hint_lane mark) (le_bytes 8 vec)).
Proof.
  intros Hv Hm. rewrite (word_bytes vec Hv) at 1.
  pose proof (unpack_bytes 8 vec) as Hb. cbn [le_bytes] in *.
  now apply CalcHint_lanes.
Qed.

Lemma hint_lane_byte mark b : 0 <= mark < 128 -> is_byte b -> is_byte (hint_lane mark b).
Proof.
  intros Hm Hb. rewrite hint_lane_spec by assumption.
  destruct ((b =? mark) || (128 <=? b)); unfold is_byte; lia.
Qed.

Lemma CalcHint_byte_value vec mark j :
  0 <= vec < 2 ^ 64 -> 0 <= mark < 128 -> (j < 8)%nat ->
  byte_of (CalcHint vec mark) (Z.of_nat j)
  = let b := byte_of vec (Z.of_nat j) in
    if (b =? mark) || (128 <=? b) then 128 else 0.
Proof.
  intros Hv Hm Hj. rewrite CalcHint_word by assumption.
  rewrite byte_of_pack.
  - rewrite (nth_indep _ 0 (hint_lane mark 0))
      by (now rewrite length_map, unpack_length).
    rewrite map_nth.
    rewrite byte_of_word by assumption.
    apply hint_lane_spec; [assumption|].
    pose proof (unpack_bytes 8 vec) as Hb. rewrite Forall_forall in Hb.
    apply Hb. apply nth_In. now rewrite unpack_length.
  - apply Forall_map. eapply Forall_impl; [|apply unpack_bytes].
    intros b Hb. now apply hint_lane_byte.
  - now rewrite length_map, unpack_length.
Qed.

End HintFacts.

(** C9.  For every 64-bit word [vec] of 8 guide bytes and every 7-bit
    [mark], byte [j] of [CalcHint vec mark] is non-zero if and only if
    byte [j] of [vec] equals [mark] or has its high bit set. *)
Theorem CalcHint_byte_nonzero (vec mark j : Z) :
  0 <= vec < 2 ^ 64 -> 0 <= mark < 128 -> 0 <= j < 8 ->
  byte_of (CalcHint vec mark) j <> 0 <->
  byte_of vec j = mark \/ Z.testbit (byte_of vec j) 7 = true.
Proof.
  intros Hv Hm Hj. rewrite <- (Z2Nat.id j) by lia.
  rewrite HintFacts.CalcHint_byte_value by (assumption || lia). cbv zeta.
  set (b := byte_of vec (Z.of_nat (Z.to_nat j))).
  assert (Hb : HintFacts.is_byte b).
  { subst b. rewrite HintFacts.byte_of_word by (assumption || lia).
    pose proof (HintFacts.unpack_bytes 8 vec) as H. rewrite Forall_forall in H.
    apply H. apply nth_In. rewrite HintFacts.unpack_length. lia. }
  rewrite HintFacts.testbit7_byte by assumption.
  destruct (Z.eqb_spec b mark), (Z.leb_spec 128 b); cbn; intuition (congruence || lia).
Qed.

Lemma CalcHint_byte_nonzero_witness :
  byte_of (CalcHint 0x0011FF33445533FF 0x33) 2 <> 0 <->
  byte_of 0x0011FF33445533FF 2 = 0x33 \/ Z.testbit (byte_of 0x0011FF33445533FF 2) 7 = true.
Proof. apply (CalcHint_byte_nonzero 0x0011FF33445533FF 0x33 2); lia. Defined.

(** ** [SeparatedValue] stays inside the buffer *)

Module VarintFacts.
Import HintFacts.

(** The value of a little-endian base-128 varint: seven payload bits in
    each byte. *)
Fixpoint varint_value (bs : list Z) : Z :=
  match bs with
  | [] => 0
  | b :: bs' => b mod 128 + 128 * varint_value bs'
  end.

(** The [k] bytes from [pt] on all carry the continuation bit. *)
Definition cont_prefix (buf : list Z) (pt k : Z) : Prop :=
  forall i, 0 <= i < k -> 128 <= rd buf (pt + i).

(** The buffer ends before the varint does. *)
Definition truncated (buf : list Z) (pt end_ : Z) : Prop :=
  exists k, 0 <= k <= 4 /\ end_ <= pt + k /\ cont_prefix buf pt k.

(** Five bytes in a row carry the continuation bit: the length would need
    more than [MAX_VALUE_LEN_BIT] bits. *)
Definition overlong (buf : list Z) (pt end_ : Z) : Prop :=
  pt + 5 <= end_ /\ cont_prefix buf pt 5.

(** A varint of [n] bytes is there, the payload it announces is not. *)
Definition overrun (buf : list Z) (pt end_ : Z) : Prop :=
  exists n, 1 <= n <= 5 /\ pt + n <= end_ /\ cont_prefix buf pt (n - 1) /\
    rd buf (pt + n - 1) < 128 /\
    end_ < pt + n + varint_value (bytes_at buf pt (Z.to_nat n)).

Lemma rd_byte buf a : is_byte (rd buf a).
Proof. unfold rd, wrap8, is_byte. apply Z.mod_pos_bound. lia. Qed.

Lemma land128_table :
  forallb (fun b => Bool.eqb (Z.land b 128 =? 0) (b <? 128)) lane_values = true.
Proof. vm_compute. reflexivity. Qed.

Lemma land128_byte b : is_byte b -> (Z.land b 128 =? 0) = (b <? 128).
Proof.
  intros Hb. pose proof land128_table as T. rewrite forallb_forall in T.
  apply Bool.eqb_prop. apply T. now apply in_lane_values.
Qed.

Lemma lor_shiftl_add a b n : 0 <= n -> 0 <= a < 2 ^ n -> 0 <= b ->
  Z.lor a (Z.shiftl b n) = a + b * 2 ^ n.
Proof.
  intros Hn Ha Hb. rewrite <- Z.shiftl_mul_pow2 by assumption.
  assert (Hdis : Z.land a (Z.shiftl b n) = 0).
  { apply Z.bits_inj'. intros m Hm. rewrite Z.land_spec, Z.bits_0.
    destruct (Z.ltb_spec m n) as [Hlt|Hge].
    - rewrite (Z.shiftl_spec_low b n m) by assumption. apply andb_false_r.
    - destruct (Z.eq_dec a 0) as [->|Hnz]; [now rewrite Z.bits_0|].
      rewrite (Z.bits_above_log2 a m); [reflexivity|lia|].
      assert (Z.log2 a < n) by (apply Z.log2_lt_pow2; lia). lia. }
  rewrite <- Z.lxor_lor by exact Hdis. symmetry. now apply Z.add_nocarry_lxor.
Qed.

Lemma varint_value_snoc bs b :
  varint_value (bs ++ [b]) = varint_value bs + (b mod 128) * 128 ^ Z.of_nat (length bs).
Proof.
  induction bs as [|c bs IH]; cbn [varint_value app length].
  - cbn. lia.
  - rewrite IH, Nat2Z.inj_succ, Z.pow_succ_r by lia. ring.
Qed.

Lemma varint_value_bound bs : 0 <= varint_value bs < 128 ^ Z.of_nat (length bs).
Proof.
  induction bs as [|c bs IH]; cbn [varint_value length]; [cbn; lia|].
  rewrite Nat2Z.inj_succ, Z.pow_succ_r by lia.
  pose proof (Z.mod_pos_bound c 128 ltac:(lia)). lia.
Qed.

Lemma bytes_at_length buf a n : length (bytes_at buf a n) = n.
Proof. unfold bytes_at. now rewrite length_map, length_seq. Qed.

Lemma bytes_at_snoc buf a n :
  bytes_at buf a (S n) = bytes_at buf a n ++ [rd buf (a + Z.of_nat n)].
Proof. unfold bytes_at. now rewrite seq_S, map_app. Qed.

(** The offsets [pt], [pt + 1], ... read so far. *)
Definition offsets (pt : Z) (k : nat) : list Z :=
  map (fun i => pt + Z.of_nat i) (seq 0 k).

Lemma offsets_snoc pt k : offsets pt (S k) = offsets pt k ++ [pt + Z.of_nat k].
Proof. unfold offsets. now rewrite seq_S, map_app. Qed.

Lemma offsets_in pt k a : In a (offsets pt k) -> pt <= a < pt + Z.of_nat k.
Proof.
  unfold offsets. rewrite in_map_iff. intros (i & <- & Hi). apply in_seq in Hi. lia.
Qed.

(** What [SeparatedValue] is expected to give in a buffer ending at [end_]. *)
Definition outcome_ok (buf : list Z) (pt end_ : Z) (r : Slice Z) : Prop :=
  match ptr r with
  | Some p =>
      exists n, 1 <= n <= 5 /\ p = pt + n /\ cont_prefix buf pt (n - 1) /\
        rd buf (pt + n - 1) < 128 /\
        len r = varint_value (bytes_at buf pt (Z.to_nat n)) /\
        0 <= len r < 2 ^ 35 /\ p + len r <= end_
  | None =>
      len r = 0 /\
      (truncated buf pt end_ \/ overlong buf pt end_ \/ overrun buf pt end_)
  end.

Lemma pow128 k : 0 <= k -> 128 ^ k = 2 ^ (7 * k).
Proof. intros Hk. change 128 with (2 ^ 7). now rewrite <- Z.pow_mul_r by lia. Qed.

(** The loop after [k] continuation bytes. *)
Lemma loop_spec buf pt end_ : forall turns k,
  (turns + k = 6)%nat -> (k <= 5)%nat ->
  pt + Z.of_nat k <= end_ \/ k = 0%nat ->
  cont_prefix buf pt (Z.of_nat k) ->
  let '(r, reads) :=
    SeparatedValue_loop turns buf (pt + Z.of_nat k) end_ (7 * Z.of_nat k)
      (varint_value (bytes_at buf pt k)) (offsets pt k) in
  (forall a, In a reads -> pt <= a < end_) /\ outcome_ok buf pt end_ r.
Proof.
  induction turns as [|turns IH]; intros k Hk Hk5 Hend Hpre.
  - exfalso. lia.
  - cbn [SeparatedValue_loop]. unfold MAX_VALUE_LEN_BIT.
    destruct (Z.ltb_spec (7 * Z.of_nat k) 35) as [Hsft|Hsft].
    + destruct (Z.geb_spec (pt + Z.of_nat k) end_) as [Hge|Hlt].
      * (* truncated *)
        split.
        { intros a Ha. apply offsets_in in Ha. destruct Hend; [lia|subst k; cbn in Ha; lia]. }
        unfold outcome_ok, null_slice; cbn [ptr len]. split; [reflexivity|]. left.
        exists (Z.of_nat k). repeat split; try lia. exact Hpre.
      * set (b := rd buf (pt + Z.of_nat k)).
        pose proof (rd_byte buf (pt + Z.of_nat k)) as Hb. fold b in Hb.
        pose proof (varint_value_bound (bytes_at buf pt k)) as Hv.
        rewrite bytes_at_length, pow128 in Hv by lia.
        rewrite land128_byte by exact Hb.
        destruct (Z.ltb_spec b 128) as [Hlow|Hhigh]; cbn [negb].
        -- (* the last byte of the varint *)
           rewrite DivisorFacts.wrap64_small.
           2:{ rewrite Z.shiftl_mul_pow2 by lia. unfold is_byte in Hb.
               assert (2 ^ (7 * Z.of_nat k) <= 2 ^ 28) by (apply Z.pow_le_mono_r; lia).
               nia. }
           rewrite lor_shiftl_add by (unfold is_byte in Hb; lia).
           assert (Hval : varint_value (bytes_at buf pt (S k))
                          = varint_value (bytes_at buf pt k) + b * 2 ^ (7 * Z.of_nat k)).
           { rewrite bytes_at_snoc, varint_value_snoc, bytes_at_length, pow128 by lia.
             fold b. rewrite (Z.mod_small b 128) by (unfold is_byte in Hb; lia).
             reflexivity. }
           rewrite <- Hval.
           pose proof (varint_value_bound (bytes_at buf pt (S k))) as Hv'.
           rewrite bytes_at_length, pow128 in Hv' by lia.
           assert (Hreads : forall a, In a (offsets pt k ++ [pt + Z.of_nat k]) ->
                                      pt <= a < end_).
           { intros a Ha. apply in_app_or in Ha. destruct Ha as [Ha|[<-|[]]]; [|lia].
             apply offsets_in in Ha. lia. }
           assert (Hn : Z.to_nat (Z.of_nat k + 1) = S k) by lia.
           destruct (Z.gtb_spec (pt + Z.of_nat k + 1 + varint_value (bytes_at buf pt (S k)))
                                end_) as [Hover|Hfit].
           ++ split; [exact Hreads|]. unfold outcome_ok, null_slice; cbn [ptr len].
              split; [reflexivity|]. right; right.
              exists (Z.of_nat k + 1). rewrite Hn.
              replace (Z.of_nat k + 1 - 1) with (Z.of_nat k) by lia.
              replace (pt + (Z.of_nat k + 1) - 1) with (pt + Z.of_nat k) by lia.
              repeat split; try lia; try exact Hpre.
           ++ split; [exact Hreads|]. unfold outcome_ok, null_slice; cbn [ptr len].
              exists (Z.of_nat k + 1). rewrite Hn.
              replace (Z.of_nat k + 1 - 1) with (Z.of_nat k) by lia.
              replace (pt + (Z.of_nat k + 1) - 1) with (pt + Z.of_nat k) by lia.
              assert (2 ^ (7 * Z.of_nat (S k)) <= 2 ^ 35) by (apply Z.pow_le_mono_r; lia).
              repeat split; try lia; try exact Hpre.
        -- (* a continuation byte *)
           rewrite DivisorFacts.wrap64_small.
           2:{ rewrite Z.shiftl_mul_pow2 by lia.
               change 127 with (Z.ones 7). rewrite Z.land_ones by lia.
               pose proof (Z.mod_pos_bound b (2 ^ 7) ltac:(lia)).
               assert (2 ^ (7 * Z.of_nat k) <= 2 ^ 28) by (apply Z.pow_le_mono_r; lia).
               nia. }
           change 127 with (Z.ones 7). rewrite Z.land_ones by lia.
           rewrite lor_shiftl_add
             by (try lia; apply Z.mod_pos_bound; lia).
           change (2 ^ 7) with 128.
           assert (Hval : varint_value (bytes_at buf pt (S k))
                          = varint_value (bytes_at buf pt k)
                            + b mod 128 * 2 ^ (7 * Z.of_nat k)).
           { rewrite bytes_at_snoc, varint_value_snoc, bytes_at_length, pow128 by lia.
             reflexivity. }
           rewrite <- Hval, <- offsets_snoc.
           replace (pt + Z.of_nat k + 1) with (pt + Z.of_nat (S k)) by lia.
           replace (7 * Z.of_nat k + 7) with (7 * Z.of_nat (S k)) by lia.
           apply IH; [lia|lia|left; lia|].
           intros i Hi. destruct (Z.eq_dec i (Z.of_nat k)) as [->|]; [exact Hhigh|].
           apply Hpre. lia.
    + (* [sft] reached [MAX_VALUE_LEN_BIT] *)
      assert (k = 5%nat) by lia. subst k. split.
      { intros a Ha. apply offsets_in in Ha. destruct Hend; lia. }
      unfold outcome_ok, null_slice; cbn [ptr len]. split; [reflexivity|]. right; left.
      split; [destruct Hend; lia|exact Hpre].
Qed.

End VarintFacts.

(** C10.  [SeparatedValue(pt, end)] never reads at or beyond [end]: every
    offset it dereferences lies in [pt, end), and it returns either a slice
    [{p, len}] behind a well-formed varint of at most 5 bytes, with
    [p + len <= end], or the null slice when the varint is truncated, runs
    over five continuation bytes (the 35-bit limit), or announces a payload
    reaching past [end].  The statement holds for every pointer pair, so in
    particular for those with [pt <= end]. *)
Theorem SeparatedValue_in_bounds (buf : list Z) (pt end_ : Z) :
  (forall a, In a (snd (SeparatedValue_reads buf pt end_)) -> pt <= a < end_) /\
  VarintFacts.outcome_ok buf pt end_ (SeparatedValue buf pt end_).
Proof.
  unfold SeparatedValue, SeparatedValue_reads.
  pose proof (VarintFacts.loop_spec buf pt end_ 6 0 eq_refl ltac:(lia) (or_intror eq_refl)) as H.
  cbn [Z.of_nat] in H. change (7 * 0) with 0 in H. rewrite Z.add_0_r in H.
  specialize (H ltac:(intros i Hi; lia)).
  change (VarintFacts.varint_value (bytes_at buf pt 0)) with 0 in H.
  change (VarintFacts.offsets pt 0) with (@nil Z) in H.
  destruct (SeparatedValue_loop 6 buf pt end_ 0 0 []) as [r reads]. exact H.
Qed.

Example SeparatedValue_two_byte_length :
  SeparatedValue_reads ([0x83; 0x01] ++ repeat 7 131) 0 133
  = (mkSlice (Some 2) 131, [0; 1]).
Proof. reflexivity. Qed.

Example SeparatedValue_payload_cut :
  SeparatedValue_reads ([0x83; 0x01] ++ repeat 7 130) 0 132 = (null_slice, [0; 1]).
Proof. reflexivity. Qed.

(** ** The loader *)

Module LoaderFacts.
Import HintFacts.

Lemma bytes_at_bytes buf a n : Forall is_byte (bytes_at buf a n).
Proof.
  unfold bytes_at. apply Forall_map. apply Forall_forall. intros i _.
  apply VarintFacts.rd_byte.
Qed.

Lemma load16_range buf a : 0 <= load16 buf a < 2 ^ 16.
Proof.
  pose proof (pack_bound _ (bytes_at_bytes buf a 2)) as H.
  now rewrite VarintFacts.bytes_at_length in H.
Qed.

Lemma load32_range buf a : 0 <= load32 buf a < 2 ^ 32.
Proof.
  pose proof (pack_bound _ (bytes_at_bytes buf a 4)) as H.
  now rewrite VarintFacts.bytes_at_length in H.
Qed.

Lemma load64_range buf a : 0 <= load64 buf a < 2 ^ 64.
Proof.
  pose proof (pack_bound _ (bytes_at_bytes buf a 8)) as H.
  now rewrite VarintFacts.bytes_at_length in H.
Qed.

(** What the loader requires of the type, the key length and the value
    length. *)
Definition lengths_fit_type (h : Header) : Prop :=
  (h_type h = KEY_SET /\ h_key_len h <> 0) \/
  (h_type h = KV_INLINE /\ h_key_len h <> 0 /\ 0 < h_val_len h) \/
  (h_type h = KV_SEPARATED /\ h_key_len h <> 0 /\ h_val_len h = 6).

(** The bytes an artifact with this header holds at least: header, guide,
    content and, for KV_SEPARATED, one byte of extend per slot. *)
Definition least_size (h : Header) : Z :=
  let slot := h_set_cnt h * 64 in
  64 + slot + slot * (h_key_len h + h_val_len h)
  + (if h_type h =? KV_SEPARATED then slot else 0).

Lemma type_checks_spec h : 0 <= h_val_len h ->
  (type_checks h = true <-> lengths_fit_type h).
Proof.
  destruct h as [mg ty kl vl sd it sc].
  unfold type_checks, lengths_fit_type, KV_SEPARATED, KV_INLINE, KEY_SET, OFFSET_FIELD_SIZE.
  cbn [h_type h_key_len h_val_len]. intros Hv.
  destruct (Z.eqb_spec ty 2), (Z.eqb_spec ty 1), (Z.eqb_spec ty 0),
    (Z.eqb_spec kl 0), (Z.eqb_spec vl 0), (Z.eqb_spec vl 6);
    cbn [negb andb]; intuition (try discriminate; try lia).
Qed.

(** The size arithmetic of [CreateView] does not wrap below 2^40 sets. *)
Lemma CreateView_some data :
  h_set_cnt (Header_at data) < 2 ^ 40 ->
  (CreateView data <> None <->
   64 <= Z.of_nat (length data) /\
   h_magic (Header_at data) = SSHT_MAGIC /\
   h_set_cnt (Header_at data) <> 0 /\
   lengths_fit_type (Header_at data) /\
   least_size (Header_at data) <= Z.of_nat (length data)).
Proof.
  intros Hcnt. unfold CreateView, least_size.
  pose proof (type_checks_spec (Header_at data) (proj1 (load16_range data 6))) as Htc.
  set (h := Header_at data) in *.
  assert (Hk : 0 <= h_key_len h < 256) by apply VarintFacts.rd_byte.
  assert (Hv : 0 <= h_val_len h < 2 ^ 16) by apply load16_range.
  assert (Hs : 0 <= h_set_cnt h < 2 ^ 64) by apply load64_range.
  set (size := Z.of_nat (length data)).
  rewrite Z.shiftl_mul_pow2 by lia. change (2 ^ 6) with 64.
  rewrite (DivisorFacts.wrap64_small (h_set_cnt h * 64)) by lia.
  rewrite (DivisorFacts.wrap32_small (h_key_len h + h_val_len h)) by lia.
  set (slot := h_set_cnt h * 64) in *.
  assert (Hprod : 0 <= slot * (h_key_len h + h_val_len h) < 2 ^ 63) by nia.
  rewrite (DivisorFacts.wrap64_small (64 + slot)) by lia.
  rewrite (DivisorFacts.wrap64_small (slot * _)) by lia.
  rewrite (DivisorFacts.wrap64_small (64 + slot + _)) by lia.
  rewrite (DivisorFacts.wrap64_small (64 + slot + _ + slot)) by lia.
  destruct (Z.ltb_spec size 64) as [Hsz|Hsz]; [split; [congruence|lia]|].
  destruct (Z.eqb_spec (h_magic h) SSHT_MAGIC) as [Hm|Hm]; cbn [negb orb];
    [|split; [congruence|tauto]].
  destruct (Z.eqb_spec (h_set_cnt h) 0) as [Hz|Hz]; [split; [congruence|tauto]|].
  destruct (type_checks h) eqn:Ht; cbn [negb].
  2:{ split; [congruence|]. intros (_ & _ & _ & Hl & _). apply Htc in Hl. discriminate. }
  assert (Hfit : lengths_fit_type h) by now apply Htc.
  destruct (Z.ltb_spec size (64 + slot + slot * (h_key_len h + h_val_len h))) as [Hc|Hc].
  { split; [congruence|]. intros (_ & _ & _ & _ & Hl).
    destruct (h_type h =? KV_SEPARATED); lia. }
  destruct (h_type h =? KV_SEPARATED); cbn [andb].
  - destruct (Z.ltb_spec size (64 + slot + slot * (h_key_len h + h_val_len h) + slot)).
    + split; [congruence|]. intros (_ & _ & _ & _ & Hl). lia.
    + split; [intros _; repeat split; auto; lia|congruence].
  - split; [intros _; repeat split; auto; lia|congruence].
Qed.





Section NullHandle.
Variable Hash : list Z -> Z -> Z -> Z.
Variable h : Hashtable.
Hypothesis Hnull : Hashtable_not h = true.

Lemma search_null fuel key : search Hash fuel h key = Some null_slice.
Proof. unfold search. destruct key; [|reflexivity]. now rewrite Hnull. Qed.



End NullHandle.

Lemma load_rejected data : CreateView data = None ->
  Hashtable_not (Hashtable_load (Some data)) = true.
Proof. intros H. unfold Hashtable_load. now rewrite H. Qed.

End LoaderFacts.

(** A KEY_SET artifact of one set whose header announces five value bytes
    per row: slot 0 holds the key [k] (mark 0 under the constant hash 0)
    followed by [abcde]. *)
Definition keyset_with_values : list Z :=
  Header_bytes (mkHeader SSHT_MAGIC KEY_SET 1 5 0 1 1)
  ++ (0 :: repeat 255 63)
  ++ ([107; 97; 98; 99; 100; 101] ++ repeat 0 378).





(** The artifact above cut short by one byte no longer loads. *)
Definition keyset_cut_short : list Z := removelast keyset_with_values.


Example keyset_cut_short_rejected :
  Hashtable_not (Hashtable_load (Some keyset_cut_short)) = true.
Proof. vm_compute. reflexivity. Qed.

(** ** The probe chain of [Mapping] *)

Module MappingFacts.

(** What [Mapping] finds in a slot. *)
Inductive Kind : Type := KEmpty | KReserved | KDup | KOther.

Section Chain.

Variable St : Type.
Variable header : Header.
Variable set_cnt : Divisor.t.
Variable key : list Z.
Variable fill : Fill St.

(** Index of the slot at offset [off] of [set] in the guide. *)
Definition slot_of (set off : Z) : Z := wrap64 (Z.shiftl set 6) + off.

(** The row of that slot in the content. *)
Definition row_of (set off : Z) : Z :=
  wrap64 ((wrap64 (Z.shiftl set 6) + off) * line_size_of header).

Definition probe (guide space : list Z) (mark set off : Z) : Kind :=
  let m := rd guide (slot_of set off) in
  if m =? 0xff then KEmpty
  else if negb (Z.land m 0x80 =? 0) then KReserved
  else if (m =? mark)
          && Equal (bytes_at space (row_of set off) (Z.to_nat (h_key_len header)))
                   (bytes_at key 0 (Z.to_nat (h_key_len header)))
                   (h_key_len header)
  then KDup
  else KOther.

(** What [Mapping] does when the probe of a slot ends the search. *)
Definition finish (guide space : list Z) (st : St) (mark set off : Z)
    : res (bool * list Z * list Z * St) :=
  match probe guide space mark set off with
  | KEmpty =>
      '(space, st) <- fill (row_of set off) space st ;;
      Done (true, set_nth (Z.to_nat (slot_of set off)) mark guide, space, st)
  | KReserved => Hang
  | KDup => Done (false, guide, space, st)
  | KOther => Hang
  end.

(** The offset probed in turn [k] of the [for] loop. *)
Definition off_of (sft : Z) (k : nat) : Z := Z.land (sft + Z.of_nat k) 63.

(** The set probed after [d] turns of the [while] loop. *)
Fixpoint set_after (d : nat) (set : Z) : Z :=
  match d with
  | O => set
  | S d' => set_after d' (next_set set set_cnt)
  end.

Lemma Mapping_set_step turns guide space st set mark sft j :
  j < wrap32 (sft + 64) ->
  Mapping_set St header key fill (S turns) guide space st set mark sft j
  = match probe guide space mark set (Z.land j 63) with
    | KEmpty =>
        '(space, st) <- fill (row_of set (Z.land j 63)) space st ;;
        Done (Some (true, set_nth (Z.to_nat (slot_of set (Z.land j 63))) mark guide,
                    space, st))
    | KReserved => Hang
    | KDup => Done (Some (false, guide, space, st))
    | KOther => Mapping_set St header key fill turns guide space st set mark sft
                            (wrap32 (j + 1))
    end.
Proof.
  intros Hj. cbn [Mapping_set]. destruct (Z.ltb_spec j (wrap32 (sft + 64))); [|lia].
  unfold probe, slot_of, row_of.
  destruct (rd guide (wrap64 (Z.shiftl set 6) + Z.land j 63) =? 255); [reflexivity|].
  destruct (negb (Z.land (rd guide (wrap64 (Z.shiftl set 6) + Z.land j 63)) 128 =? 0));
    [reflexivity|].
  destruct (_ && _); reflexivity.
Qed.

Section OneSet.

Variables (guide space : list Z) (st : St) (set mark sft : Z).
Hypothesis Hsft : 0 <= sft < 256.

(** The loop after [k] slots that held other keys. *)
Lemma Mapping_set_skip : forall k turns,
  (k <= 64)%nat ->
  (forall q, (q < k)%nat -> probe guide space mark set (off_of sft q) = KOther) ->
  Mapping_set St header key fill (k + turns) guide space st set mark sft sft
  = Mapping_set St header key fill turns guide space st set mark sft (sft + Z.of_nat k).
Proof.
  induction k as [|k IH]; intros turns Hk Hother.
  - cbn [Nat.add Z.of_nat]. now rewrite Z.add_0_r.
  - replace (S k + turns)%nat with (k + S turns)%nat by lia.
    rewrite IH by (try lia; intros q Hq; apply Hother; lia).
    rewrite Mapping_set_step by (rewrite DivisorFacts.wrap32_small; lia).
    fold (off_of sft k). rewrite Hother by lia.
    rewrite DivisorFacts.wrap32_small by lia. f_equal. lia.
Qed.

(** A set without a free slot and without the key is left behind. *)
Lemma Mapping_set_pass :
  (forall q, (q < 64)%nat -> probe guide space mark set (off_of sft q) = KOther) ->
  Mapping_set St header key fill 65 guide space st set mark sft sft = Done None.
Proof.
  intros Hother. change 65%nat with (64 + 1)%nat.
  rewrite Mapping_set_skip by (auto; lia). cbn [Mapping_set].
  rewrite DivisorFacts.wrap32_small by lia.
  destruct (Z.ltb_spec (sft + Z.of_nat 64) (sft + 64)); [lia|reflexivity].
Qed.

(** The first slot that does not hold another key ends the search. *)
Lemma Mapping_set_stop k :
  (k < 64)%nat ->
  (forall q, (q < k)%nat -> probe guide space mark set (off_of sft q) = KOther) ->
  probe guide space mark set (off_of sft k) <> KOther ->
  (r <- Mapping_set St header key fill 65 guide space st set mark sft sft ;;
   match r with
   | Some x => Done x
   | None => Mapping_loop St header set_cnt key fill 0 guide space st set mark sft
   end)
  = finish guide space st mark set (off_of sft k).
Proof.
  intros Hk Hother Hstop.
  replace 65%nat with (k + S (64 - k))%nat by lia.
  rewrite Mapping_set_skip by (auto; lia).
  rewrite Mapping_set_step by (rewrite DivisorFacts.wrap32_small; lia).
  fold (off_of sft k). unfold finish.
  destruct (probe guide space mark set (off_of sft k)); try reflexivity; [|congruence].
  cbn [bind]. destruct (fill _ _ _) as [[sp' st']| |]; reflexivity.
Qed.

(** In that case the [for] loop does not run to its end. *)
Lemma Mapping_set_stop_some k :
  (k < 64)%nat ->
  (forall q, (q < k)%nat -> probe guide space mark set (off_of sft q) = KOther) ->
  probe guide space mark set (off_of sft k) <> KOther ->
  Mapping_set St header key fill 65 guide space st set mark sft sft <> Done None.
Proof.
  intros Hk Hother Hstop.
  replace 65%nat with (k + S (64 - k))%nat by lia.
  rewrite Mapping_set_skip by (auto; lia).
  rewrite Mapping_set_step by (rewrite DivisorFacts.wrap32_small; lia).
  fold (off_of sft k).
  destruct (probe guide space mark set (off_of sft k)); try discriminate; [|congruence].
  destruct (fill _ _ _) as [[sp' st']| |]; discriminate.
Qed.

End OneSet.

(** The chain: [d] whole sets that hold other keys only, then [k] such
    slots of the next set. *)
Definition chain_clear (guide space : list Z) (mark set sft : Z) (d k : nat) : Prop :=
  (forall d' q, (d' < d)%nat -> (q < 64)%nat ->
     probe guide space mark (set_after d' set) (off_of sft q) = KOther) /\
  (forall q, (q < k)%nat ->
     probe guide space mark (set_after d set) (off_of sft q) = KOther).

Lemma Mapping_loop_skip guide space st mark sft : 0 <= sft < 256 ->
  forall d set fuel,
  (forall d' q, (d' < d)%nat -> (q < 64)%nat ->
     probe guide space mark (set_after d' set) (off_of sft q) = KOther) ->
  Mapping_loop St header set_cnt key fill (d + fuel) guide space st set mark sft
  = Mapping_loop St header set_cnt key fill fuel guide space st (set_after d set) mark sft.
Proof.
  intros Hsft. induction d as [|d IH]; intros set fuel Hother; [reflexivity|].
  cbn [Nat.add Mapping_loop set_after].
  rewrite Mapping_set_pass by (auto; intros q Hq; apply (Hother 0%nat q); lia).
  cbn [bind]. apply IH. intros d' q Hd Hq. apply (Hother (S d') q); lia.
Qed.

(** [Mapping] ends at the first slot of its chain that is free, reserved
    or holds the key. *)
Lemma Mapping_loop_stop guide space st mark set sft d k fuel :
  0 <= sft < 256 -> (k < 64)%nat -> (d < fuel)%nat ->
  chain_clear guide space mark set sft d k ->
  probe guide space mark (set_after d set) (off_of sft k) <> KOther ->
  Mapping_loop St header set_cnt key fill fuel guide space st set mark sft
  = finish guide space st mark (set_after d set) (off_of sft k).
Proof.
  intros Hsft Hk Hfuel [Hsets Hslots] Hstop.
  replace fuel with (d + S (fuel - d - 1))%nat by lia.
  rewrite Mapping_loop_skip by assumption.
  cbn [Mapping_loop].
  pose proof (Mapping_set_stop guide space st (set_after d set) mark sft Hsft k Hk Hslots Hstop)
    as H.
  pose proof (Mapping_set_stop_some guide space st (set_after d set) mark sft Hsft k Hk
                Hslots Hstop) as Hsome.
  destruct (Mapping_set St header key fill 65 guide space st (set_after d set) mark sft sft)
    as [[x|]| |]; cbn [bind] in *; try exact H. congruence.
Qed.

End Chain.

End MappingFacts.

Lemma next_set_mod set n : 0 <= set < n -> n < 2 ^ 64 ->
  next_set set (Divisor.make n) = (set + 1) mod n.
Proof.
  intros Hset Hn. unfold next_set, Divisor.value.
  rewrite (proj2 (DivisorFacts.quotient_exact n 0 ltac:(lia) ltac:(lia))).
  rewrite DivisorFacts.wrap64_small by lia.
  destruct (Z.geb_spec (set + 1) n) as [Hge|Hlt].
  - replace (set + 1) with n by lia. now rewrite Z.mod_same by lia.
  - now rewrite Z.mod_small by lia.
Qed.

Lemma HashKey_sft Hash key len_ seed set_cnt :
  0 <= snd (HashKey Hash key len_ seed set_cnt) < 64.
Proof.
  unfold HashKey. cbn [snd].
  set (hash := wrap64 (Hash (bytes_at key 0 (Z.to_nat len_)) len_ seed)).
  assert (Hh : 0 <= hash < 2 ^ 64) by (apply Z.mod_pos_bound; lia).
  rewrite Z.shiftr_div_pow2 by lia.
  assert (0 <= hash / 2 ^ 58 < 64).
  { split; [apply Z.div_pos; lia|apply Z.div_lt_upper_bound; lia]. }
  unfold wrap8. rewrite Z.mod_small; lia.
Qed.

Definition hash_offset_5 : list Z -> Z -> Z -> Z := fun _ _ _ => 5 * 2 ^ 58 + 1.




(** ** Termination of [Mapping] *)

Module TerminationFacts.
Import MappingFacts.

Lemma Kind_eq_dec (a b : Kind) : {a = b} + {a <> b}.
Proof. decide equality. Qed.

(** The first number up to [m] with a decidable property. *)
Lemma first_such (P : nat -> Prop) (dec : forall p, {P p} + {~ P p}) :
  forall m, P m -> exists p, (p <= m)%nat /\ P p /\ forall q, (q < p)%nat -> ~ P q.
Proof.
  induction m as [m IH] using lt_wf_ind. intros Hm.
  assert (Hcase : (exists q, (q < m)%nat /\ P q) \/ (forall q, (q < m)%nat -> ~ P q)).
  { clear IH Hm. induction m as [|m IHm]; [right; intros; lia|].
    destruct IHm as [(q & Hq & HP)|Hnone]; [left; exists q; split; [lia|exact HP]|].
    destruct (dec m) as [HP|HP]; [left; exists m; split; [lia|exact HP]|].
    right. intros q Hq. destruct (Nat.eq_dec q m) as [->|]; [exact HP|apply Hnone; lia]. }
  destruct Hcase as [(q & Hq & HP)|Hnone].
  - destruct (IH q Hq HP) as (p & Hp & HPp & Hmin). exists p. repeat split; auto. lia.
  - exists m. repeat split; auto.
Qed.

Lemma pos_div d k : (k < 64)%nat -> ((64 * d + k) / 64)%nat = d.
Proof. intros Hk. symmetry. apply (Nat.div_unique _ 64 d k); lia. Qed.

Lemma pos_mod d k : (k < 64)%nat -> ((64 * d + k) mod 64)%nat = k.
Proof. intros Hk. symmetry. apply (Nat.mod_unique _ 64 d k); lia. Qed.

Section Cover.

Variable n : Z.
Hypothesis Hn : 1 <= n < 2 ^ 40.

Lemma set_after_mod d : forall set, 0 <= set < n ->
  set_after (Divisor.make n) d set = (set + Z.of_nat d) mod n.
Proof.
  induction d as [|d IH]; intros set Hset.
  - cbn [set_after Z.of_nat]. rewrite Z.add_0_r. symmetry. apply Z.mod_small. lia.
  - cbn [set_after]. rewrite next_set_mod by lia.
    rewrite IH by (apply Z.mod_pos_bound; lia).
    rewrite Zplus_mod_idemp_l. f_equal. lia.
Qed.

Lemma set_after_range d set : 0 <= set < n ->
  0 <= set_after (Divisor.make n) d set < n.
Proof. intros Hset. rewrite set_after_mod by assumption. apply Z.mod_pos_bound. lia. Qed.

Lemma slot_of_small set off : 0 <= set < n -> slot_of set off = 64 * set + off.
Proof.
  intros Hset. unfold slot_of. rewrite Z.shiftl_mul_pow2 by lia.
  rewrite DivisorFacts.wrap64_small by lia. lia.
Qed.

Lemma off_of_mod sft k : off_of sft k = (sft + Z.of_nat k) mod 64.
Proof. unfold off_of. change 63 with (Z.ones 6). now rewrite Z.land_ones by lia. Qed.

(** Every slot of the table lies on the chain of every key. *)
Lemma chain_covers set sft i : 0 <= set < n -> 0 <= sft < 64 -> 0 <= i < 64 * n ->
  exists d k, (d < Z.to_nat n)%nat /\ (k < 64)%nat /\
    slot_of (set_after (Divisor.make n) d set) (off_of sft k) = i.
Proof.
  intros Hset Hsft Hi.
  pose proof (Z.mod_pos_bound (i / 64 - set) n ltac:(lia)) as Hd.
  pose proof (Z.mod_pos_bound (i mod 64 - sft) 64 ltac:(lia)) as Hk.
  exists (Z.to_nat ((i / 64 - set) mod n)), (Z.to_nat ((i mod 64 - sft) mod 64)).
  split; [lia|]. split; [lia|].
  rewrite slot_of_small by (apply set_after_range; assumption).
  rewrite set_after_mod, off_of_mod by assumption.
  rewrite !Z2Nat.id by lia.
  rewrite Zplus_mod_idemp_r, Zplus_mod_idemp_r.
  replace (set + (i / 64 - set)) with (i / 64) by lia.
  replace (sft + (i mod 64 - sft)) with (i mod 64) by lia.
  rewrite Z.mod_mod by lia.
  rewrite (Z.mod_small (i / 64)).
  - pose proof (Z.div_mod i 64 ltac:(lia)). lia.
  - split; [apply Z.div_pos; lia|apply Z.div_lt_upper_bound; lia].
Qed.

(** No slot is in the middle of a reservation: every guide byte is free
    ([0xFF]) or holds a mark. *)
Definition quiescent (guide : list Z) : Prop :=
  forall i, 0 <= i < 64 * n -> rd guide i = 0xff \/ rd guide i < 0x80.

Definition has_free_slot (guide : list Z) : Prop :=
  exists i, 0 <= i < 64 * n /\ rd guide i = 0xff.

Section Stop.

Variable header : Header.
Variable key : list Z.
Variables (guide space : list Z) (mark set sft : Z).
Hypothesis Hquiet : quiescent guide.
Hypothesis Hset : 0 <= set < n.
Hypothesis Hsft : 0 <= sft < 64.

Lemma probe_quiescent d k : (k < 64)%nat ->
  probe header key guide space mark (set_after (Divisor.make n) d set) (off_of sft k)
  <> KReserved.
Proof.
  intros Hk. unfold probe.
  pose proof (set_after_range d set Hset) as Hd.
  rewrite slot_of_small by assumption.
  pose proof (Z.mod_pos_bound (sft + Z.of_nat k) 64 ltac:(lia)) as Hoff.
  rewrite off_of_mod.
  set (i := 64 * _ + _).
  destruct (Hquiet i ltac:(subst i; lia)) as [He|Hm].
  - rewrite He. cbn. discriminate.
  - destruct (rd guide i =? 255); [discriminate|].
    rewrite VarintFacts.land128_byte by apply VarintFacts.rd_byte.
    destruct (Z.ltb_spec (rd guide i) 128) as [_|?]; [|lia]. cbn [negb].
    destruct (_ && _); discriminate.
Qed.

(** With a free slot somewhere in the table, the chain of the key reaches
    a free slot or the key itself within [n] sets. *)
Lemma stop_exists : has_free_slot guide ->
  exists d k, (d < Z.to_nat n)%nat /\ (k < 64)%nat /\
    chain_clear header (Divisor.make n) key guide space mark set sft d k /\
    (probe header key guide space mark (set_after (Divisor.make n) d set) (off_of sft k)
     = KEmpty \/
     probe header key guide space mark (set_after (Divisor.make n) d set) (off_of sft k)
     = KDup).
Proof.
  intros (i & Hi & Hfree).
  destruct (chain_covers set sft i Hset Hsft Hi) as (de & ke & Hde & Hke & Hslot).
  set (P := fun p : nat =>
    probe header key guide space mark
          (set_after (Divisor.make n) (p / 64) set) (off_of sft (p mod 64)) <> KOther).
  assert (Hdec : forall p, {P p} + {~ P p}).
  { intros p. unfold P.
    destruct (Kind_eq_dec
      (probe header key guide space mark
             (set_after (Divisor.make n) (p / 64) set) (off_of sft (p mod 64))) KOther)
      as [E|E]; [right; intros H; now apply H|left; exact E]. }
  assert (Hm : P (64 * de + ke)%nat).
  { unfold P.
    rewrite pos_div, pos_mod by assumption.
    unfold probe. rewrite Hslot, Hfree. cbn. discriminate. }
  destruct (first_such P Hdec _ Hm) as (p & Hp & HPp & Hmin).
  pose proof (Nat.div_mod_eq p 64) as Hdm.
  pose proof (Nat.mod_upper_bound p 64 ltac:(lia)) as Hmod.
  exists (p / 64)%nat, (p mod 64)%nat.
  split; [lia|]. split; [lia|]. split.
  - split.
    + intros d' q Hd Hq.
      destruct (Kind_eq_dec
        (probe header key guide space mark
               (set_after (Divisor.make n) d' set) (off_of sft q)) KOther) as [E|E];
        [exact E|exfalso].
      apply (Hmin (64 * d' + q)%nat); [lia|]. unfold P.
      rewrite pos_div, pos_mod by assumption.
      exact E.
    + intros q Hq.
      destruct (Kind_eq_dec
        (probe header key guide space mark
               (set_after (Divisor.make n) (p / 64) set) (off_of sft q)) KOther) as [E|E];
        [exact E|exfalso].
      apply (Hmin (64 * (p / 64) + q)%nat); [lia|]. unfold P.
      rewrite pos_div, pos_mod by lia.
      exact E.
  - pose proof (probe_quiescent (p / 64) (p mod 64) Hmod) as Hres.
    unfold P in HPp.
    destruct (probe header key guide space mark
                (set_after (Divisor.make n) (p / 64) set) (off_of sft (p mod 64)));
      auto; congruence.
Qed.

End Stop.

End Cover.

(** The number of occupied slots of a guide. *)
Definition occupied (guide : list Z) : Z :=
  Z.of_nat (length (filter (fun b => wrap8 b <? 0x80) guide)).

Lemma rd_cons_0 b g : rd (b :: g) 0 = wrap8 b.
Proof. reflexivity. Qed.

Lemma rd_cons_succ b g i : 0 <= i -> rd (b :: g) (i + 1) = rd g i.
Proof.
  intros Hi. unfold rd. replace (Z.to_nat (i + 1)) with (S (Z.to_nat i)) by lia.
  reflexivity.
Qed.

(** A guide without reserved bytes that is not full has a free slot. *)
Lemma free_slot_by_count guide :
  (forall i, 0 <= i < Z.of_nat (length guide) -> rd guide i = 0xff \/ rd guide i < 0x80) ->
  occupied guide < Z.of_nat (length guide) ->
  exists i, 0 <= i < Z.of_nat (length guide) /\ rd guide i = 0xff.
Proof.
  unfold occupied. induction guide as [|b g IH]; intros Hq Hcnt; [cbn in Hcnt; lia|].
  destruct (Hq 0 ltac:(cbn [length]; lia)) as [Hb|Hb]; rewrite rd_cons_0 in Hb.
  - exists 0. split; [cbn [length]; lia|now rewrite rd_cons_0].
  - cbn [filter length] in Hcnt.
    destruct (Z.ltb_spec (wrap8 b) 128) as [_|?]; [|lia]. cbn [length] in Hcnt.
    destruct IH as (i & Hi & Hfree).
    + intros i Hi. specialize (Hq (i + 1) ltac:(cbn [length]; lia)).
      now rewrite rd_cons_succ in Hq by lia.
    + lia.
    + exists (i + 1). split; [cbn [length]; lia|]. now rewrite rd_cons_succ by lia.
Qed.

(** Clearing the lowest bit of a [uint64_t]. *)
Lemma clear_low_bit x : 0 <= x < 2 ^ 64 -> Z.land x (not64 1) = 2 * (x / 2).
Proof.
  intros Hx. change (not64 1) with (2 * Z.ones 63).
  apply Z.bits_inj'. intros i Hi.
  rewrite Z.land_spec.
  destruct (Z.eq_dec i 0) as [->|Hi0].
  - rewrite !Z.testbit_even_0. apply andb_false_r.
  - replace i with (Z.succ (i - 1)) by lia.
    rewrite !Z.testbit_even_succ by lia.
    rewrite <- (Z.div2_div x), Z.div2_spec, Z.shiftr_spec by lia.
    replace (i - 1 + 1) with (Z.succ (i - 1)) by lia.
    destruct (Z.ltb_spec (i - 1) 63) as [Hlt|Hge].
    + rewrite Z.ones_spec_low by lia. apply andb_true_r.
    + rewrite Z.ones_spec_high by lia. rewrite andb_false_r.
      destruct (Z.eq_dec x 0) as [->|Hx0]; [now rewrite Z.bits_0|].
      symmetry. apply Z.bits_above_log2; [lia|].
      assert (Z.log2 x < 64) by (apply Z.log2_lt_pow2; lia). lia.
Qed.

(** [CalcSetCnt] leaves more than 6.25% of the slots free. *)
Lemma CalcSetCnt_slack item : 0 <= item < 2 ^ 57 ->
  17 * item <= 16 * (64 * CalcSetCnt item) /\ item < 64 * CalcSetCnt item /\
  CalcSetCnt item mod 2 = 1.
Proof.
  intros Hi. unfold CalcSetCnt, RESERVE_FACTOR.
  rewrite (DivisorFacts.wrap64_small (item + (16 - 1))) by lia.
  set (reserved := (item + (16 - 1)) / 16).
  assert (Hres : item <= 16 * reserved < item + 16).
  { subst reserved. pose proof (Z.div_mod (item + (16 - 1)) 16 ltac:(lia)).
    pose proof (Z.mod_pos_bound (item + (16 - 1)) 16 ltac:(lia)). lia. }
  rewrite (DivisorFacts.wrap64_small (item + reserved + 63)) by lia.
  set (x := (item + reserved + 63) / 64).
  assert (Hx : item + reserved <= 64 * x < item + reserved + 64).
  { subst x. pose proof (Z.div_mod (item + reserved + 63) 64 ltac:(lia)).
    pose proof (Z.mod_pos_bound (item + reserved + 63) 64 ltac:(lia)). lia. }
  rewrite clear_low_bit by lia.
  pose proof (Z.div_mod x 2 ltac:(lia)) as Hx2.
  pose proof (Z.mod_pos_bound x 2 ltac:(lia)) as Hx2'.
  rewrite DivisorFacts.wrap64_small by lia.
  repeat split; try lia.
  rewrite Z.add_comm, Z.mul_comm, Z.mod_add by lia. reflexivity.
Qed.

End TerminationFacts.

Lemma HashKey_set Hash key len_ seed n : 1 <= n < 2 ^ 64 ->
  0 <= fst (fst (HashKey Hash key len_ seed (Divisor.make n))) < n.
Proof.
  intros Hn. unfold HashKey. cbn [fst]. set (hash := wrap64 _).
  assert (Hh : 0 <= hash < 2 ^ 64) by (apply Z.mod_pos_bound; lia).
  rewrite (proj2 (DivisorFacts.div_mod_exact n hash ltac:(lia) Hh)).
  apply Z.mod_pos_bound. lia.
Qed.

Lemma Mapping_unfold Hash St header set_cnt key fill fuel guide space st :
  Mapping Hash St header set_cnt key fill fuel guide space st
  = Mapping_loop St header set_cnt key fill fuel guide space st
      (fst (fst (HashKey Hash key (h_key_len header) (h_seed header) set_cnt)))
      (snd (fst (HashKey Hash key (h_key_len header) (h_seed header) set_cnt)))
      (snd (HashKey Hash key (h_key_len header) (h_seed header) set_cnt)).
Proof.
  unfold Mapping.
  destruct (HashKey Hash key (h_key_len header) (h_seed header) set_cnt) as [[a b] c].
  reflexivity.
Qed.





(** ** Buffers under stores *)

Module BufferFacts.

Lemma wrap8_idem x : wrap8 (wrap8 x) = wrap8 x.
Proof. unfold wrap8. apply Z.mod_mod. lia. Qed.

Lemma wrap8_small x : 0 <= x < 256 -> wrap8 x = x.
Proof. intros H. unfold wrap8. now apply Z.mod_small. Qed.

Lemma set_nth_length {A : Type} (v : A) : forall l i, length (set_nth i v l) = length l.
Proof.
  induction l as [|h t IH]; intros [|i]; cbn [set_nth length]; auto.
Qed.

Lemma nth_set_nth_same {A : Type} (v d : A) : forall l i,
  (i < length l)%nat -> nth i (set_nth i v l) d = v.
Proof.
  induction l as [|h t IH]; intros [|i] Hi; cbn [set_nth nth length] in *; try lia; auto.
  apply IH. lia.
Qed.

Lemma nth_set_nth_other {A : Type} (v d : A) : forall l i j,
  i <> j -> nth j (set_nth i v l) d = nth j l d.
Proof.
  induction l as [|h t IH]; intros [|i] [|j] Hij; cbn [set_nth nth]; try reflexivity;
    try congruence.
  apply IH. congruence.
Qed.

Lemma rd_set_nth_same g i v : 0 <= i < Z.of_nat (length g) ->
  rd (set_nth (Z.to_nat i) v g) i = wrap8 v.
Proof. intros Hi. unfold rd. rewrite nth_set_nth_same by lia. reflexivity. Qed.

Lemma rd_set_nth_other g i j v : 0 <= i -> 0 <= j -> i <> j ->
  rd (set_nth (Z.to_nat i) v g) j = rd g j.
Proof. intros Hi Hj Hij. unfold rd. rewrite nth_set_nth_other by lia. reflexivity. Qed.

Lemma store_bytes_length buf a bs :
  0 <= a -> a + Z.of_nat (length bs) <= Z.of_nat (length buf) ->
  length (store_bytes buf a bs) = length buf.
Proof.
  intros Ha Hfit. unfold store_bytes.
  rewrite !length_app, length_firstn, length_skipn. lia.
Qed.

Lemma rd_store_bytes_out buf a bs i :
  0 <= a -> a + Z.of_nat (length bs) <= Z.of_nat (length buf) -> 0 <= i ->
  i < a \/ a + Z.of_nat (length bs) <= i ->
  rd (store_bytes buf a bs) i = rd buf i.
Proof.
  intros Ha Hfit Hi Hout. unfold rd, store_bytes. f_equal.
  destruct Hout as [Hlt|Hge].
  - rewrite app_nth1 by (rewrite length_firstn; lia).
    rewrite nth_firstn. destruct (Nat.ltb_spec (Z.to_nat i) (Z.to_nat a)); [reflexivity|lia].
  - rewrite app_nth2 by (rewrite length_firstn; lia).
    rewrite length_firstn, app_nth2 by lia.
    rewrite nth_skipn. f_equal. lia.
Qed.

Lemma rd_store_bytes_in buf a bs i :
  0 <= a -> a + Z.of_nat (length bs) <= Z.of_nat (length buf) ->
  a <= i < a + Z.of_nat (length bs) ->
  rd (store_bytes buf a bs) i = wrap8 (nth (Z.to_nat (i - a)) bs 0).
Proof.
  intros Ha Hfit Hi. unfold rd, store_bytes. f_equal.
  rewrite app_nth2 by (rewrite length_firstn; lia).
  rewrite length_firstn, app_nth1 by lia. f_equal. lia.
Qed.

Lemma bytes_at_ext b1 a1 b2 a2 n :
  (forall i, 0 <= i < Z.of_nat n -> rd b1 (a1 + i) = rd b2 (a2 + i)) ->
  bytes_at b1 a1 n = bytes_at b2 a2 n.
Proof.
  intros H. unfold bytes_at. apply map_ext_in. intros i Hi. apply in_seq in Hi.
  apply H. lia.
Qed.

Lemma nth_bytes_at buf a n i : (i < n)%nat ->
  nth i (bytes_at buf a n) 0 = rd buf (a + Z.of_nat i).
Proof.
  intros Hi. unfold bytes_at.
  rewrite (nth_indep _ 0 (rd buf (a + Z.of_nat 0)))
    by (rewrite length_map, length_seq; lia).
  rewrite (map_nth (fun i => rd buf (a + Z.of_nat i))), seq_nth by lia. reflexivity.
Qed.

Lemma rd_bytes_at buf a n i : 0 <= i < Z.of_nat n ->
  rd (bytes_at buf a n) i = rd buf (a + i).
Proof.
  intros Hi. unfold rd at 1. rewrite nth_bytes_at by lia.
  unfold rd. rewrite wrap8_idem. do 3 f_equal. lia.
Qed.

(** Reading the bytes of a key twice gives the same bytes. *)
Lemma bytes_at_idem buf n : bytes_at (bytes_at buf 0 n) 0 n = bytes_at buf 0 n.
Proof. apply bytes_at_ext. intros i Hi. cbn. now apply rd_bytes_at. Qed.

(** The bytes just stored are read back. *)
Lemma bytes_at_store_bytes buf a src n :
  0 <= a -> a + Z.of_nat n <= Z.of_nat (length buf) ->
  bytes_at (store_bytes buf a (bytes_at src 0 n)) a n = bytes_at src 0 n.
Proof.
  intros Ha Hfit. apply bytes_at_ext. intros i Hi.
  rewrite rd_store_bytes_in by (rewrite ?VarintFacts.bytes_at_length; lia).
  replace (a + i - a) with i by lia. rewrite nth_bytes_at by lia.
  unfold rd. rewrite wrap8_idem. do 3 f_equal. lia.
Qed.

Lemma list_eqb_refl a : list_eqb a a = true.
Proof. induction a as [|x a IH]; cbn; [reflexivity|]. now rewrite Z.eqb_refl, IH. Qed.

Lemma Equal_refl a len_ : Equal a a len_ = true.
Proof.
  unfold Equal. destruct (len_ =? 8); [apply Z.eqb_refl|].
  destruct (len_ =? 4); [apply Z.eqb_refl|apply list_eqb_refl].
Qed.

Lemma filter_set_nth_count (f : Z -> bool) v : forall g i,
  (i < length g)%nat -> f (nth i g 0) = false -> f v = true ->
  length (filter f (set_nth i v g)) = S (length (filter f g)).
Proof.
  induction g as [|h t IH]; intros [|i] Hi Hold Hnew; cbn [length] in Hi; try lia.
  - cbn [set_nth filter nth] in *. rewrite Hold, Hnew. reflexivity.
  - cbn [set_nth filter nth] in *. destruct (f h); cbn [length]; rewrite IH; auto; lia.
Qed.

End BufferFacts.

(** ** The table under construction *)

Module BuildFacts.
Import MappingFacts TerminationFacts BufferFacts.

Section Table.

Variable Hash : list Z -> Z -> Z -> Z.
Variable header : Header.
Variable n : Z.
Hypothesis Hn : 1 <= n < 2 ^ 40.
Hypothesis Hkl : 1 <= h_key_len header <= 255.
Hypothesis Hvl : 0 <= h_val_len header < 2 ^ 16.

Let kl := h_key_len header.
Let ls := h_key_len header + h_val_len header.

Definition set_of (key : list Z) : Z :=
  fst (fst (HashKey Hash key (h_key_len header) (h_seed header) (Divisor.make n))).
Definition mark_of (key : list Z) : Z :=
  snd (fst (HashKey Hash key (h_key_len header) (h_seed header) (Divisor.make n))).
Definition sft_of (key : list Z) : Z :=
  snd (HashKey Hash key (h_key_len header) (h_seed header) (Divisor.make n)).

Lemma set_of_range key : 0 <= set_of key < n.
Proof. apply HashKey_set. lia. Qed.

Lemma sft_of_range key : 0 <= sft_of key < 64.
Proof. apply HashKey_sft. Qed.

Lemma mark_of_range key : 0 <= mark_of key < 128.
Proof.
  unfold mark_of, HashKey. cbn [fst snd].
  change 127 with (Z.ones 7). rewrite Z.land_ones by lia.
  pose proof (Z.mod_pos_bound
    (Z.shiftr (wrap64 (Hash (bytes_at key 0 (Z.to_nat (h_key_len header)))
                            (h_key_len header) (h_seed header))) 51) (2 ^ 7) ltac:(lia)) as H.
  rewrite wrap8_small; lia.
Qed.

Lemma line_size_small : line_size_of header = ls.
Proof.
  unfold line_size_of. rewrite (DivisorFacts.wrap32_small (h_val_len header)) by lia.
  apply DivisorFacts.wrap32_small. lia.
Qed.

Lemma row_of_small set off : 0 <= set < n -> 0 <= off < 64 ->
  row_of header set off = (64 * set + off) * ls.
Proof.
  intros Hset Hoff. unfold row_of. rewrite line_size_small.
  rewrite Z.shiftl_mul_pow2 by lia. rewrite (DivisorFacts.wrap64_small (set * 2 ^ 6)) by lia.
  rewrite DivisorFacts.wrap64_small; [f_equal; lia|].
  assert (0 <= ls < 2 ^ 17) by (subst ls; lia). nia.
Qed.

(** The key is found on its chain: only other keys lie before it. *)
Definition detects (key guide space : list Z) : Prop :=
  exists d k, (d < Z.to_nat n)%nat /\ (k < 64)%nat /\
    chain_clear header (Divisor.make n) key guide space (mark_of key) (set_of key)
                (sft_of key) d k /\
    probe header key guide space (mark_of key)
          (set_after (Divisor.make n) d (set_of key)) (off_of (sft_of key) k) = KDup.

(** The table after some keys were mapped. *)
Record Inv (guide space : list Z) (seen : list (list Z)) : Prop := mkInv {
  inv_guide_len : Z.of_nat (length guide) = 64 * n;
  inv_space_len : Z.of_nat (length space) = 64 * n * ls;
  inv_quiet : quiescent n guide;
  inv_occupied : occupied guide <= Z.of_nat (length seen);
  inv_seen : forall key, In key seen -> detects key guide space
}.

(** A slot other than [e] looks the same after slot [e] was filled. *)
Section Frame.

Variables (guide space space' : list Z) (e mark' : Z).
Hypothesis He : 0 <= e < 64 * n.
Hypothesis Hrows : forall i, 0 <= i -> i < e * ls \/ e * ls + ls <= i ->
  rd space' i = rd space i.

Lemma probe_frame key mark set off :
  0 <= set < n -> 0 <= off < 64 -> 64 * set + off <> e ->
  probe header key (set_nth (Z.to_nat e) mark' guide) space' mark set off
  = probe header key guide space mark set off.
Proof.
  intros Hset Hoff Hne. unfold probe.
  rewrite (slot_of_small n Hn) by assumption.
  rewrite rd_set_nth_other by lia.
  rewrite row_of_small by assumption.
  replace (bytes_at space' ((64 * set + off) * ls) (Z.to_nat (h_key_len header)))
    with (bytes_at space ((64 * set + off) * ls) (Z.to_nat (h_key_len header)));
    [reflexivity|].
  apply bytes_at_ext. intros i Hi. symmetry. apply Hrows; [nia|].
  assert (Hls : h_key_len header <= ls) by (subst ls; lia).
  assert (64 * set + off <= e - 1 \/ e + 1 <= 64 * set + off) as [Hlo|Hhi] by lia.
  - left. nia.
  - right. nia.
Qed.

Lemma probe_at_free key mark set off :
  0 <= set < n -> rd guide (64 * set + off) = 0xff ->
  probe header key guide space mark set off = KEmpty.
Proof.
  intros Hset Hfree. unfold probe. rewrite (slot_of_small n Hn) by assumption.
  now rewrite Hfree.
Qed.

Hypothesis Hfree : rd guide e = 0xff.

Lemma chain_frame key d k :
  (forall d' q, (d' < d)%nat -> (q < 64)%nat ->
     probe header key guide space (mark_of key)
           (set_after (Divisor.make n) d' (set_of key)) (off_of (sft_of key) q) <> KEmpty) ->
  (forall q, (q < k)%nat -> (q < 64)%nat ->
     probe header key guide space (mark_of key)
           (set_after (Divisor.make n) d (set_of key)) (off_of (sft_of key) q) <> KEmpty) ->
  forall d' q, ((d' < d)%nat \/ (d' = d /\ (q < k)%nat)) -> (q < 64)%nat ->
  probe header key (set_nth (Z.to_nat e) mark' guide) space' (mark_of key)
        (set_after (Divisor.make n) d' (set_of key)) (off_of (sft_of key) q)
  = probe header key guide space (mark_of key)
        (set_after (Divisor.make n) d' (set_of key)) (off_of (sft_of key) q).
Proof.
  intros Hsets Hslots d' q Hpos Hq.
  pose proof (set_after_range n Hn d' (set_of key) (set_of_range key)) as Hsd.
  pose proof (Z.mod_pos_bound (sft_of key + Z.of_nat q) 64 ltac:(lia)) as Hoff.
  rewrite <- off_of_mod in Hoff.
  apply probe_frame; try assumption.
  intros Heq.
  assert (Hne : probe header key guide space (mark_of key)
                  (set_after (Divisor.make n) d' (set_of key)) (off_of (sft_of key) q)
                <> KEmpty).
  { destruct Hpos as [Hlt|[-> Hle]]; [now apply Hsets|now apply Hslots]. }
  apply Hne. apply probe_at_free; [assumption|]. now rewrite Heq.
Qed.

Lemma chain_clear_free key d k :
  chain_clear header (Divisor.make n) key guide space (mark_of key) (set_of key)
              (sft_of key) d k ->
  (forall d' q, (d' < d)%nat -> (q < 64)%nat ->
     probe header key guide space (mark_of key)
           (set_after (Divisor.make n) d' (set_of key)) (off_of (sft_of key) q) <> KEmpty) /\
  (forall q, (q < k)%nat -> (q < 64)%nat ->
     probe header key guide space (mark_of key)
           (set_after (Divisor.make n) d (set_of key)) (off_of (sft_of key) q) <> KEmpty).
Proof.
  intros [Hsets Hslots]. split.
  - intros d' q Hd' Hq. rewrite Hsets by assumption. discriminate.
  - intros q Hq _. rewrite Hslots by assumption. discriminate.
Qed.

(** The slots of a chain before slot [e] look the same afterwards. *)
Lemma chain_clear_frame key d k :
  chain_clear header (Divisor.make n) key guide space (mark_of key) (set_of key)
              (sft_of key) d k ->
  (k <= 64)%nat ->
  chain_clear header (Divisor.make n) key (set_nth (Z.to_nat e) mark' guide) space'
              (mark_of key) (set_of key) (sft_of key) d k.
Proof.
  intros Hclear Hk. destruct (chain_clear_free key d k Hclear) as [H1 H2].
  destruct Hclear as [Hsets Hslots]. split.
  - intros d' q Hd' Hq. rewrite (chain_frame key d k H1 H2) by lia. now apply Hsets.
  - intros q Hq. rewrite (chain_frame key d k H1 H2) by lia. now apply Hslots.
Qed.

(** A key found before slot [e] was filled is still found. *)
Lemma detects_frame key :
  detects key guide space -> detects key (set_nth (Z.to_nat e) mark' guide) space'.
Proof.
  intros (d & k & Hd & Hk & Hclear & Hdup).
  destruct (chain_clear_free key d k Hclear) as [H1 H2].
  assert (H3 : forall q, (q < S k)%nat -> (q < 64)%nat ->
     probe header key guide space (mark_of key)
           (set_after (Divisor.make n) d (set_of key)) (off_of (sft_of key) q) <> KEmpty).
  { intros q Hq Hq'. destruct (Nat.eq_dec q k) as [->|Hne].
    - rewrite Hdup. discriminate.
    - apply H2; lia. }
  exists d, k. split; [assumption|]. split; [assumption|].
  split; [apply chain_clear_frame; [assumption|lia]|].
  rewrite (chain_frame key d (S k) H1 H3) by lia. exact Hdup.
Qed.

End Frame.

Lemma probe_free_inv key guide space mark set off :
  0 <= set < n -> probe header key guide space mark set off = KEmpty ->
  rd guide (64 * set + off) = 0xff.
Proof.
  intros Hset. unfold probe. rewrite (slot_of_small n Hn) by assumption.
  destruct (Z.eqb_spec (rd guide (64 * set + off)) 255) as [E|E]; [intros _; exact E|].
  destruct (negb _); [discriminate|]. destruct (_ && _); discriminate.
Qed.

(** Mapping one record of a reader. *)
Section Step.

Variable rec : Rec.
Variable b : list Z.
Hypothesis Hkey : ptr (key rec) = Some b.

Let key_ := slice_bytes (key rec) (h_key_len header).

Lemma key_bytes : key_ = bytes_at b 0 (Z.to_nat (h_key_len header)).
Proof. subst key_. unfold slice_bytes. now rewrite Hkey. Qed.

Lemma fill_record_spec space set off :
  0 <= set < n -> 0 <= off < 64 -> Z.of_nat (length space) = 64 * n * ls ->
  exists space',
    fill_record header rec (row_of header set off) space tt = Done (space', tt) /\
    length space' = length space /\
    (forall i, 0 <= i ->
       i < (64 * set + off) * ls \/ (64 * set + off) * ls + ls <= i ->
       rd space' i = rd space i) /\
    bytes_at space' ((64 * set + off) * ls) (Z.to_nat (h_key_len header)) = key_.
Proof.
  intros Hset Hoff Hlen. rewrite row_of_small by assumption.
  set (row := (64 * set + off) * ls).
  assert (Hls : 0 <= ls < 2 ^ 17) by (subst ls; lia).
  assert (Hrow : 0 <= row /\ row + ls <= 64 * n * ls) by (subst row; nia).
  unfold fill_record. eexists. split; [reflexivity|].
  fold key_. rewrite key_bytes.
  set (space1 := store_bytes space row (bytes_at b 0 (Z.to_nat (h_key_len header)))).
  assert (Hlen1 : length space1 = length space).
  { subst space1. apply store_bytes_length; [lia|].
    rewrite VarintFacts.bytes_at_length. subst ls. lia. }
  assert (Hvlen : Z.of_nat (length (slice_bytes (val rec) (h_val_len header)))
                  <= h_val_len header).
  { unfold slice_bytes. destruct (ptr (val rec)); cbn [length]; [|lia].
    rewrite VarintFacts.bytes_at_length. lia. }
  destruct (h_val_len header =? 0) eqn:Evl; cbn [negb].
  - split; [exact Hlen1|]. split.
    + intros i Hi Hout. subst space1. apply rd_store_bytes_out; try lia.
      * rewrite VarintFacts.bytes_at_length. subst ls. lia.
      * rewrite VarintFacts.bytes_at_length. subst ls. lia.
    + subst space1. apply bytes_at_store_bytes; [lia|]. subst ls. lia.
  - split; [rewrite store_bytes_length; [exact Hlen1|subst ls; lia|subst ls; lia]|]. split.
    + intros i Hi Hout.
      rewrite rd_store_bytes_out by (subst ls; lia).
      subst space1. apply rd_store_bytes_out; try lia.
      * rewrite VarintFacts.bytes_at_length. subst ls. lia.
      * rewrite VarintFacts.bytes_at_length. subst ls. lia.
    + transitivity (bytes_at space1 row (Z.to_nat (h_key_len header))).
      * apply bytes_at_ext. intros i Hi. apply rd_store_bytes_out; subst ls; lia.
      * subst space1. apply bytes_at_store_bytes; [lia|]. subst ls. lia.
Qed.

Lemma HashKey_key_ :
  HashKey Hash key_ (h_key_len header) (h_seed header) (Divisor.make n)
  = HashKey Hash b (h_key_len header) (h_seed header) (Divisor.make n).
Proof. unfold HashKey. rewrite key_bytes, bytes_at_idem. reflexivity. Qed.

Lemma Mapping_step guide space seen fuel :
  Inv guide space seen -> Z.of_nat (length seen) < 64 * n -> (Z.to_nat n <= fuel)%nat ->
  exists inst guide' space',
    Mapping Hash unit header (Divisor.make n) key_ (fill_record header rec) fuel
            guide space tt = Done (inst, guide', space', tt) /\
    Inv guide' space' (key_ :: seen) /\
    (In key_ seen -> inst = false).
Proof.
  intros HI Hroom Hfuel. destruct HI as [Hgl Hsl Hq Hocc Hseen].
  rewrite Mapping_unfold. fold (set_of key_) (mark_of key_) (sft_of key_).
  pose proof (set_of_range key_) as Hset. pose proof (sft_of_range key_) as Hsft.
  pose proof (mark_of_range key_) as Hmark.
  (* a key that is found stays out *)
  assert (Hfound : detects key_ guide space ->
    exists inst guide' space',
      Mapping_loop unit header (Divisor.make n) key_ (fill_record header rec) fuel
                   guide space tt (set_of key_) (mark_of key_) (sft_of key_)
      = Done (inst, guide', space', tt) /\
      Inv guide' space' (key_ :: seen) /\ (In key_ seen -> inst = false)).
  { intros Hdet. destruct Hdet as (d & k & Hd & Hk & Hclear & Hdup).
    exists false, guide, space. split; [|split; [|reflexivity]].
    - rewrite (Mapping_loop_stop unit header (Divisor.make n) key_ (fill_record header rec)
                 guide space tt (mark_of key_) (set_of key_) (sft_of key_) d k fuel);
        try lia; try assumption.
      + unfold finish. now rewrite Hdup.
      + rewrite Hdup. discriminate.
    - constructor; try assumption.
      + cbn [length]. lia.
      + intros key' [<-|Hin]; [exists d, k; auto|now apply Hseen]. }
  destruct (in_dec (list_eq_dec Z.eq_dec) key_ seen) as [Hin|Hnin];
    [apply Hfound; now apply Hseen|].
  assert (Hfree : has_free_slot n guide).
  { destruct (free_slot_by_count guide) as (i & Hi & Hf).
    - intros i Hi. apply Hq. lia.
    - lia.
    - exists i. split; [lia|exact Hf]. }
  destruct (stop_exists n Hn header key_ guide space (mark_of key_) (set_of key_)
              (sft_of key_) Hq Hset Hsft Hfree) as (d & k & Hd & Hk & Hclear & Hstop).
  destruct Hstop as [Hempty|Hdup]; [|apply Hfound; exists d, k; auto].
  pose proof (set_after_range n Hn d (set_of key_) Hset) as Hsd.
  pose proof (Z.mod_pos_bound (sft_of key_ + Z.of_nat k) 64 ltac:(lia)) as Hoff.
  rewrite <- off_of_mod in Hoff.
  set (set_d := set_after (Divisor.make n) d (set_of key_)) in *.
  set (off_k := off_of (sft_of key_) k) in *.
  set (e := 64 * set_d + off_k).
  assert (He : 0 <= e < 64 * n) by (subst e; lia).
  assert (Hfe : rd guide e = 0xff) by (apply (probe_free_inv key_ guide space (mark_of key_)); assumption).
  destruct (fill_record_spec space set_d off_k Hsd Hoff Hsl)
    as (space' & Hfill & Hlen' & Hrows & Hback).
  fold e in Hrows, Hback.
  exists true, (set_nth (Z.to_nat e) (mark_of key_) guide), space'.
  split; [|split; [|intros Hin; contradiction]].
  - rewrite (Mapping_loop_stop unit header (Divisor.make n) key_ (fill_record header rec)
               guide space tt (mark_of key_) (set_of key_) (sft_of key_) d k fuel);
      try lia; try assumption.
    + unfold finish. fold set_d off_k. rewrite Hempty, Hfill. cbn [bind].
      rewrite (slot_of_small n Hn) by assumption. reflexivity.
    + fold set_d off_k. rewrite Hempty. discriminate.
  - constructor.
    + now rewrite set_nth_length.
    + now rewrite Hlen'.
    + intros i Hi. destruct (Z.eq_dec i e) as [->|Hne].
      * right. rewrite rd_set_nth_same by lia. rewrite wrap8_small; lia.
      * rewrite rd_set_nth_other by lia. now apply Hq.
    + unfold occupied in *. cbn [length].
      rewrite (filter_set_nth_count (fun b => wrap8 b <? 128)).
      * lia.
      * lia.
      * fold (rd guide e) in Hfe. unfold rd in Hfe. rewrite Hfe. reflexivity.
      * rewrite wrap8_small by lia. apply Z.ltb_lt. lia.
    + intros key' [<-|Hin].
      * exists d, k. split; [assumption|]. split; [assumption|]. split.
        -- apply (chain_clear_frame guide space space' e (mark_of key_) He Hrows Hfe);
             [assumption|lia].
        -- fold set_d off_k. unfold probe.
           rewrite (slot_of_small n Hn) by assumption. fold e.
           rewrite rd_set_nth_same by lia. rewrite wrap8_small by lia.
           destruct (Z.eqb_spec (mark_of key_) 255) as [?|_]; [lia|].
           rewrite VarintFacts.land128_byte by (unfold HintFacts.is_byte; lia).
           destruct (Z.ltb_spec (mark_of key_) 128) as [_|?]; [|lia]. cbn [negb].
           rewrite Z.eqb_refl. rewrite row_of_small by assumption. fold e.
           rewrite Hback. rewrite key_bytes at 2. rewrite bytes_at_idem, <- key_bytes.
           now rewrite Equal_refl.
      * apply (detects_frame guide space space' e (mark_of key_) He Hrows Hfe).
        now apply Hseen.
Qed.

End Step.

(** The pass over the records of one reader, wrapped in a
    [KeyOffReader]. *)
Section Records.

Hypothesis Hsep : h_val_len header = OFFSET_FIELD_SIZE.

(** A record [Mapping] accepts: a key of the right length. *)
Definition valid (rec : Rec) : Prop :=
  (exists b, ptr (key rec) = Some b) /\ len (key rec) = h_key_len header.

Definition key_of (rec : Rec) : list Z := slice_bytes (key rec) (h_key_len header).

(** A record of [recs] whose key was mapped before it: it is in [seen] or
    belongs to an earlier record of [recs]. *)
Definition later_dup (seen : list (list Z)) (recs : list Rec) : Prop :=
  exists l1 r2 l2, recs = l1 ++ r2 :: l2 /\ In (key_of r2) (rev (map key_of l1) ++ seen).

Lemma Mapping_records_spec fuel : (Z.to_nat n <= fuel)%nat ->
  forall turns items p base off field guide space seen cnt,
  (turns + p = length items)%nat ->
  Inv guide space seen ->
  Z.of_nat (length seen) + Z.of_nat turns < 64 * n ->
  Z.of_nat turns <= cnt < 2 ^ 64 ->
  match Mapping_records Hash fuel header (Divisor.make n) turns guide space
          (mkKeyOffReader (mkListReader items p) base off field) cnt with
  | Done (cnt', guide', space', r') =>
      Forall valid (skipn p items) /\
      Inv guide' space' (rev (map key_of (skipn p items)) ++ seen) /\
      cnt - Z.of_nat turns <= cnt' <= cnt /\
      (later_dup seen (skipn p items) -> cnt' < cnt) /\
      m_core r' = mkListReader items (length items)
  | Throw BuildException => True
  | _ => False
  end.
Proof.
  intros Hfuel. induction turns as [|turns IH];
    intros items p base off field guide space seen cnt Hp HI Hroom Hcnt.
  - cbn [Mapping_records]. assert (p = length items) by lia. subst p.
    rewrite skipn_all. cbn [map rev app].
    split; [constructor|]. split; [exact HI|]. split; [lia|]. split; [|reflexivity].
    intros (l1 & r2 & l2 & Habs & _). destruct l1; discriminate.
  - cbn [Mapping_records read KeyOffReader_reader KeyOffReader_read m_core m_offset m_base
         ListReader_reader bind lr_items lr_pos].
    set (rec := nth p items null_rec). cbn [val key len ptr].
    destruct (_ || _ || _); [exact I|]. cbn [bind key val len ptr].
    rewrite Hsep. unfold is_null at 2. cbn [ptr len]. unfold OFFSET_FIELD_SIZE.
    cbn [Z.eqb negb orb andb]. rewrite orb_false_r.
    destruct (is_null (key rec)) eqn:Enull; [exact I|]. cbn [orb].
    destruct (Z.eqb_spec (len (key rec)) (h_key_len header)) as [Elen|Elen];
      cbn [negb]; [|exact I].
    assert (Hb : exists b, ptr (key rec) = Some b).
    { unfold is_null in Enull. destruct (ptr (key rec)) as [b|]; [now exists b|discriminate]. }
    destruct Hb as [b Hb].
    set (rec' := mkRec (key rec) (mkSlice (Some (OffsetField off)) 6)).
    destruct (Mapping_step rec' b Hb guide space seen fuel HI ltac:(lia) Hfuel)
      as (inst & guide' & space' & Hmap & HI' & Hdup).
    change (slice_bytes (key rec') (h_key_len header)) with (key_of rec) in Hmap, HI', Hdup.
    change (slice_bytes (key rec) (h_key_len header)) with (key_of rec).
    rewrite Hmap. cbn [bind].
    assert (Hskip : skipn p items = rec :: skipn (S p) items).
    { subst rec. clear -Hp. revert p Hp. induction items as [|x items IHi]; intros p Hp.
      - cbn in Hp. lia.
      - destruct p as [|p]; [reflexivity|]. cbn [skipn nth]. apply IHi. cbn in Hp. lia. }
    set (cnt1 := if inst then cnt else wrap64 (cnt - 1)).
    assert (Hcnt1 : cnt - 1 <= cnt1 <= cnt /\ (inst = false -> cnt1 = cnt - 1)).
    { subst cnt1. destruct inst; [split; [lia|discriminate]|].
      rewrite DivisorFacts.wrap64_small by lia. split; [lia|reflexivity]. }
    specialize (IH items (S p) base
                  (wrap64 (off + wrap64 (VarIntSize (len (val rec)) + len (val rec))))
                  (OffsetField off) guide' space' (key_of rec :: seen) cnt1
                  ltac:(lia) HI' ltac:(cbn [length]; lia) ltac:(lia)).
    destruct (Mapping_records Hash fuel header (Divisor.make n) turns guide' space' _ cnt1)
      as [[[[cnt' g''] sp''] r'']|[]|]; try exact IH; try contradiction.
    destruct IH as (Hvalid & HI'' & Hb1 & Hlater & Hcore).
    rewrite Hskip. cbn [map rev]. rewrite <- app_assoc. cbn [app].
    split; [|split; [exact HI''|split; [lia|split; [|exact Hcore]]]].
    + constructor; [|exact Hvalid]. split; [now exists b|exact Elen].
    + intros (l1 & r2 & l2 & Heq & Hin). destruct l1 as [|x l1].
      * cbn [app] in Heq. injection Heq as <- _. cbn [map rev app] in Hin.
        specialize (Hdup Hin). destruct Hcnt1 as [_ Hc]. specialize (Hc Hdup). lia.
      * cbn [app] in Heq. injection Heq as <- Heq.
        assert (cnt' < cnt1); [|lia]. apply Hlater. exists l1, r2, l2. split; [exact Heq|].
        cbn [map rev] in Hin. rewrite <- app_assoc in Hin. exact Hin.
Qed.

(** All the records of a list of readers, in the order of the passes. *)
Definition all_items (readers : list ListReader) : list Rec := flat_map lr_items readers.

Lemma later_dup_app seen l1 l2 :
  later_dup seen (l1 ++ l2) ->
  later_dup seen l1 \/ later_dup (rev (map key_of l1) ++ seen) l2.
Proof.
  intros (a & r & c & Heq & Hin).
  apply app_eq_app in Heq. destruct Heq as (l & [[-> Hr]|[-> ->]]).
  - destruct l as [|x l].
    + cbn [app] in Hr. subst l2. right. exists [], r, c. split; [reflexivity|].
      cbn [map rev app]. now rewrite app_nil_r.
    + cbn [app] in Hr. injection Hr as <- ->. left. exists a, r, l. split; [|exact Hin].
      reflexivity.
  - right. exists l, r, c. split; [reflexivity|].
    rewrite map_app, rev_app_distr, <- app_assoc in Hin. exact Hin.
Qed.

Hypothesis Hcnt : h_set_cnt header = n.

Lemma Mapping_offsets_spec fuel : (Z.to_nat n <= fuel)%nat ->
  forall readers guide space item offset seen,
  Inv guide space seen ->
  Z.of_nat (length seen) + Z.of_nat (length (all_items readers)) < 64 * n ->
  0 <= item -> item + Z.of_nat (length (all_items readers)) < 2 ^ 64 ->
  match Mapping_offsets Hash fuel header true readers guide space item offset with
  | Done None => True
  | Done (Some (item', guide', space', offset', readers')) =>
      Forall valid (all_items readers) /\
      0 <= item' <= item + Z.of_nat (length (all_items readers)) /\
      (later_dup seen (all_items readers) ->
       item' < item + Z.of_nat (length (all_items readers))) /\
      (exists seen', Inv guide' space' seen') /\
      map lr_items readers' = map lr_items readers
  | _ => False
  end.
Proof.
  intros Hfuel. induction readers as [|reader readers IH];
    intros guide space item offset seen HI Hroom Hitem Hsum.
  - cbn [Mapping_offsets all_items flat_map length]. split; [constructor|]. split; [lia|].
    split; [|split; [exists seen; exact HI|reflexivity]].
    intros (l1 & r2 & l2 & Habs & _). destruct l1; discriminate.
  - unfold all_items in *. cbn [Mapping_offsets flat_map] in *. rewrite length_app in *.
    unfold Mapping_reader, KeyOffReader_new. rewrite Hcnt.
    cbn [total KeyOffReader_reader ListReader_reader reset m_core lr_items].
    rewrite Nat2Z.id.
    pose proof (Mapping_records_spec fuel Hfuel (length (lr_items reader)) (lr_items reader)
                  0 offset offset (repeat 0 6) guide space seen
                  (Z.of_nat (length (lr_items reader)))
                  ltac:(lia) HI ltac:(lia) ltac:(lia)) as Hrec.
    destruct (Mapping_records Hash fuel header (Divisor.make n) (length (lr_items reader))
                guide space _ (Z.of_nat (length (lr_items reader))))
      as [[[[cnt g'] sp'] r']|[]|]; try exact I; try contradiction.
    cbn [skipn] in Hrec. destruct Hrec as (Hvalid & HI' & Hb & Hlater & Hcore).
    rewrite DivisorFacts.wrap64_small by lia.
    specialize (IH g' sp' (item + cnt) (m_offset r')
                  (rev (map key_of (lr_items reader)) ++ seen) HI').
    rewrite length_app, length_rev, length_map in IH.
    specialize (IH ltac:(lia) ltac:(lia) ltac:(lia)).
    destruct (Mapping_offsets Hash fuel header true readers g' sp' (item + cnt) (m_offset r'))
      as [[[[[[item' g''] sp''] off''] rs'']|]|[]|]; cbn [bind]; try exact I;
      try contradiction.
    destruct IH as (Hvalid' & Hb' & Hlater' & Hinv' & Hitems').
    split; [apply Forall_app; split; assumption|]. split; [lia|].
    split; [|split; [exact Hinv'|cbn [map]; rewrite Hcore, Hitems'; reflexivity]].
    intros Hdup. apply later_dup_app in Hdup. destruct Hdup as [Hdup|Hdup].
    + specialize (Hlater Hdup). lia.
    + specialize (Hlater' Hdup). lia.
Qed.

End Records.

Lemma rd_repeat v m i : 0 <= i < Z.of_nat m -> rd (repeat v m) i = wrap8 v.
Proof.
  intros Hi. unfold rd. f_equal. rewrite (nth_indep _ 0 v) by (rewrite repeat_length; lia).
  apply nth_repeat.
Qed.

Lemma occupied_repeat_free m : occupied (repeat 0xff m) = 0.
Proof.
  unfold occupied. induction m as [|m IH]; [reflexivity|]. cbn [repeat filter].
  change (wrap8 255 <? 128) with false. exact IH.
Qed.

(** The table every build starts from. *)
Lemma Inv_initial :
  Inv (repeat 0xff (Z.to_nat (64 * n))) (repeat 0 (Z.to_nat (64 * n * ls))) [].
Proof.
  constructor.
  - rewrite repeat_length. lia.
  - rewrite repeat_length. subst ls. nia.
  - intros i Hi. left. rewrite rd_repeat by lia. reflexivity.
  - rewrite occupied_repeat_free. cbn. lia.
  - intros key_ [].
Qed.

End Table.

Lemma CalcSetCnt_range item : 0 <= item < 2 ^ 40 -> 1 <= CalcSetCnt item < 2 ^ 40.
Proof.
  intros Hi. unfold CalcSetCnt, RESERVE_FACTOR.
  rewrite (DivisorFacts.wrap64_small (item + (16 - 1))) by lia.
  set (reserved := (item + (16 - 1)) / 16).
  assert (Hres : item <= 16 * reserved < item + 16).
  { subst reserved. pose proof (Z.div_mod (item + (16 - 1)) 16 ltac:(lia)).
    pose proof (Z.mod_pos_bound (item + (16 - 1)) 16 ltac:(lia)). lia. }
  rewrite (DivisorFacts.wrap64_small (item + reserved + 63)) by lia.
  set (x := (item + reserved + 63) / 64).
  assert (Hx : item + reserved <= 64 * x < item + reserved + 64).
  { subst x. pose proof (Z.div_mod (item + reserved + 63) 64 ltac:(lia)).
    pose proof (Z.mod_pos_bound (item + reserved + 63) 64 ltac:(lia)). lia. }
  rewrite clear_low_bit by lia.
  pose proof (Z.div_mod x 2 ltac:(lia)) as Hx2.
  pose proof (Z.mod_pos_bound x 2 ltac:(lia)) as Hx2'.
  rewrite DivisorFacts.wrap64_small by lia. lia.
Qed.

Lemma SumInputSize_items readers :
  Z.of_nat (length (all_items readers)) < 2 ^ 64 ->
  SumInputSize readers = Z.of_nat (length (all_items readers)).
Proof.
  unfold all_items. induction readers as [|r readers IH]; intros Hlen; [reflexivity|].
  cbn [SumInputSize flat_map total ListReader_reader] in *. rewrite length_app in *.
  rewrite IH by lia. rewrite DivisorFacts.wrap64_small by lia. lia.
Qed.

End BuildFacts.

(** Two records carry the same key. *)
Definition same_key (r1 r2 : Rec) : Prop :=
  len (key r1) = len (key r2) /\
  slice_bytes (key r1) (len (key r1)) = slice_bytes (key r2) (len (key r2)).

(** A later record of the input repeats the key of an earlier one. *)
Definition has_dup_keys (items : list Rec) : Prop :=
  exists l1 r1 l2 r2 l3, items = l1 ++ r1 :: l2 ++ r2 :: l3 /\ same_key r1 r2.

Definition rec_of (k v : list Z) : Rec :=
  mkRec (mkSlice (Some k) (Z.of_nat (length k))) (mkSlice (Some v) (Z.of_nat (length v))).

(** C4, as stated, fails: a stream holding the key [k] twice does not
    build; the call returns [BUILD_STATUS_BAD_INPUT] and writes nothing. *)
Lemma BuildDictWithVariedValue_two_equal_keys :
  BuildDictWithVariedValue hash_offset_5 1 0
    [mkListReader [rec_of [107] [1]; rec_of [107] [2]] 0] (mkSink [] 4096)
  = Done (BUILD_STATUS_BAD_INPUT, mkSink [] 4096).
Proof. vm_compute. reflexivity. Qed.

(** C4 (amended).  If the input streams of a single
    [BuildDictWithVariedValue] call contain two records with the same key,
    the build does not succeed: the earlier record keeps its slot, the
    mapping of the later one returns "not installed", the item count stays
    below the number of records, and the call returns
    [BUILD_STATUS_BAD_INPUT] (as it does for every malformed record). *)
Theorem BuildDictWithVariedValue_duplicate_keys (Hash : list Z -> Z -> Z -> Z)
    (W : Type) (writer : IDataWriter W) (seed : Z) (readers : list ListReader)
    (out : W) (fuel : nat) :
  Z.of_nat (length (BuildFacts.all_items readers)) < 2 ^ 40 ->
  Forall (fun r => 0 <= len (key r)) (BuildFacts.all_items readers) ->
  has_dup_keys (BuildFacts.all_items readers) ->
  (Z.to_nat (CalcSetCnt (Z.of_nat (length (BuildFacts.all_items readers)))) <= fuel)%nat ->
  BuildDictWithVariedValue Hash fuel seed readers out
  = Done (BUILD_STATUS_BAD_INPUT, out).
Proof.
  intros Hlen Hsize Hdup Hfuel.
  destruct readers as [|front rest]; [reflexivity|].
  unfold BuildDictWithVariedValue.
  set (rec0 := nth (lr_pos front) (lr_items front) null_rec).
  assert (Hdet : DetectKeyValueLen front false
    = Done (if is_null (key rec0) || (len (key rec0) =? 0) || (len (key rec0) >? MAX_KEY_LEN)
            then None else Some (wrap8 (len (key rec0)), 0),
            if is_null (key rec0) || (len (key rec0) =? 0) || (len (key rec0) >? MAX_KEY_LEN)
            then mkListReader (lr_items front) (S (lr_pos front))
            else mkListReader (lr_items front) 0)).
  { unfold DetectKeyValueLen. cbn [read ListReader_reader bind negb]. fold rec0.
    destruct (_ || _ || _); reflexivity. }
  rewrite Hdet. cbn [bind].
  destruct (is_null (key rec0)) eqn:Enull; [reflexivity|]. cbn [orb].
  destruct (Z.eqb_spec (len (key rec0)) 0) as [E0|E0]; [reflexivity|]. cbn [orb].
  destruct (Z.gtb_spec (len (key rec0)) MAX_KEY_LEN) as [Emax|Emax]; [reflexivity|].
  assert (Hrec0 : In rec0 (lr_items front)).
  { subst rec0. destruct (Nat.ltb_spec (lr_pos front) (length (lr_items front))) as [Hp|Hp].
    - now apply nth_In.
    - rewrite nth_overflow in Enull by lia. discriminate. }
  assert (Hlen0 : 0 <= len (key rec0)).
  { rewrite Forall_forall in Hsize. apply Hsize. unfold BuildFacts.all_items.
    cbn [flat_map]. apply in_or_app. now left. }
  unfold MAX_KEY_LEN in Emax.
  rewrite (BufferFacts.wrap8_small (len (key rec0))) by lia.
  set (kl := len (key rec0)) in *.
  set (readers := mkListReader (lr_items front) 0 :: rest).
  assert (Hitems : BuildFacts.all_items readers = BuildFacts.all_items (front :: rest))
    by reflexivity.
  rewrite <- Hitems in *. clearbody readers.
  rewrite BuildFacts.SumInputSize_items by lia.
  set (total := Z.of_nat (length (BuildFacts.all_items readers))) in *.
  pose proof (BuildFacts.CalcSetCnt_range total ltac:(lia)) as Hn.
  destruct (TerminationFacts.CalcSetCnt_slack total ltac:(lia)) as (_ & Hroom & _).
  set (n := CalcSetCnt total) in *.
  set (header := mkHeader SSHT_MAGIC KV_SEPARATED kl OFFSET_FIELD_SIZE seed 0 n).
  rewrite Z.shiftl_mul_pow2 by lia. change (2 ^ 6) with 64.
  rewrite (DivisorFacts.wrap64_small (n * 64)) by lia.
  change (kl + OFFSET_FIELD_SIZE) with (kl + 6).
  rewrite (DivisorFacts.wrap32_small (kl + 6)) by lia.
  rewrite (DivisorFacts.wrap64_small (n * 64 * (kl + 6))) by nia.
  assert (Hkl : 1 <= h_key_len header <= 255) by (unfold header; cbn [h_key_len]; lia).
  assert (Hvl : 0 <= h_val_len header < 2 ^ 16)
    by (unfold header, OFFSET_FIELD_SIZE; cbn [h_val_len]; lia).
  pose proof (BuildFacts.Inv_initial Hash header n Hn Hkl Hvl) as HI.
  unfold header in HI at 1 2. cbn [h_key_len h_val_len] in HI.
  unfold OFFSET_FIELD_SIZE in HI.
  replace (64 * n) with (n * 64) in HI at 1 2 by lia.
  pose proof (BuildFacts.Mapping_offsets_spec Hash header n Hn Hkl Hvl
                eq_refl eq_refl fuel Hfuel readers _ _ 0 0 [] HI
                ltac:(cbn [length]; lia) ltac:(lia) ltac:(lia)) as Hmap.
  destruct (Mapping_offsets Hash fuel header true readers _ _ 0 0)
    as [[[[[[item g] sp] off] rs]|]|[]|]; cbn [bind]; try reflexivity; try contradiction.
  destruct Hmap as (Hvalid & Hitem & Hlater & _).
  assert (Hlt : item < total); [|destruct (Z.eqb_spec item total); [lia|reflexivity]].
  rewrite Z.add_0_l in Hlater. apply Hlater.
  destruct Hdup as (l1 & r1 & l2 & r2 & l3 & Heq & Hlen12 & Hkey12).
  exists (l1 ++ r1 :: l2), r2, l3. split; [rewrite Heq, <- app_assoc; reflexivity|].
  rewrite app_nil_r, <- in_rev. apply in_map_iff. exists r1. split.
  - rewrite Forall_forall in Hvalid.
    destruct (Hvalid r1 ltac:(rewrite Heq; apply in_or_app; right; now left)) as [_ Hv1].
    destruct (Hvalid r2 ltac:(rewrite Heq; apply in_or_app; right; right;
                               apply in_or_app; right; now left)) as [_ Hv2].
    unfold BuildFacts.key_of. cbn [h_key_len header] in *.
    rewrite <- Hv1 at 1. rewrite <- Hv2. exact Hkey12.
  - apply in_or_app. right. now left.
Qed.

Lemma BuildDictWithVariedValue_duplicate_keys_witness :
  BuildDictWithVariedValue (fun bs _ seed => le_pack bs + seed) 3 7
    [mkListReader [rec_of [1; 2] [10]; rec_of [3; 4] [20; 21]] 0;
     mkListReader [rec_of [1; 2] []] 0] (mkSink [] 65536)
  = Done (BUILD_STATUS_BAD_INPUT, mkSink [] 65536).
Proof.
  apply (BuildDictWithVariedValue_duplicate_keys (fun bs _ seed => le_pack bs + seed)
           Sink Sink_writer 7).
  - cbn. lia.
  - repeat constructor; cbn; lia.
  - exists [], (rec_of [1; 2] [10]), [rec_of [3; 4] [20; 21]], (rec_of [1; 2] []), [].
    split; [reflexivity|]. split; reflexivity.
  - vm_compute. lia.
Defined.

(** ** What a build writes *)

Module ArtifactFacts.

Import HintFacts.

(** *** The sink *)

Lemma write_Sink bs s s' : write bs s = (true, s') -> sk_data s' = sk_data s ++ bs.
Proof.
  cbn [write Sink_writer]. destruct (Z.of_nat (length bs) <=? sk_room s); [|discriminate].
  intros H. injection H as <-. reflexivity.
Qed.

Lemma write_table_Sink h guide space s s' :
  write_table h guide space s = (true, s') ->
  sk_data s' = sk_data s ++ Header_bytes h ++ guide ++ space.
Proof.
  unfold write_table.
  destruct (write (Header_bytes h) s) as [[|] s1] eqn:H1; cbn [negb]; [|discriminate].
  destruct (write guide s1) as [[|] s2] eqn:H2; cbn [negb]; [|discriminate].
  intros H3. apply write_Sink in H1, H2, H3. rewrite H3, H2, H1, <- !app_assoc. reflexivity.
Qed.

(** [WriteVarInt] writes as many bytes as [VarIntSize] counts. *)
Lemma VarInt_loop_length : forall turns n c,
  0 <= c -> c + Z.of_nat turns < 2 ^ 32 ->
  Z.of_nat (length (VarInt_loop turns n)) = VarIntSize_loop turns n c - c + 1.
Proof.
  induction turns as [|turns IH]; intros n c Hc Hlt; cbn [VarInt_loop VarIntSize_loop].
  - cbn [length]. lia.
  - destruct (negb (Z.land n (not64 127) =? 0)); [|cbn [length]; lia].
    cbn [length]. rewrite Nat2Z.inj_succ.
    rewrite (DivisorFacts.wrap32_small (c + 1)) by lia.
    rewrite (IH (Z.shiftr n 7) (c + 1)) by lia. lia.
Qed.

Lemma VarInt_length n : Z.of_nat (length (VarInt n)) = VarIntSize n.
Proof.
  unfold VarInt, VarIntSize. rewrite (VarInt_loop_length 10 n 1) by (cbn; lia). lia.
Qed.

(** The bytes the values of some records take in the extend blob. *)
Fixpoint extend_size (items : list Rec) : Z :=
  match items with
  | [] => 0
  | r :: items' => VarIntSize (len (val r)) + len (val r) + extend_size items'
  end.

Lemma extend_size_app a b : extend_size (a ++ b) = extend_size a + extend_size b.
Proof. induction a as [|r a IH]; cbn [app extend_size]; lia. Qed.

Lemma slice_bytes_length s n : 0 <= n -> Z.of_nat (length (slice_bytes s n)) <= n.
Proof.
  intros Hn. unfold slice_bytes. destruct (ptr s); [|cbn; lia].
  rewrite VarintFacts.bytes_at_length. lia.
Qed.

Lemma DumpVariedValue_Sink len_ payload s s' :
  DumpVariedValue len_ payload s = (true, s') ->
  exists ext, sk_data s' = sk_data s ++ ext /\
              Z.of_nat (length ext) <= VarIntSize len_ + Z.of_nat (length payload).
Proof.
  unfold DumpVariedValue, WriteVarInt.
  destruct (write (VarInt len_) s) as [[|] s1] eqn:H1; cbn [negb]; [|discriminate].
  apply write_Sink in H1. destruct (len_ =? 0).
  - intros H. injection H as <-. exists (VarInt len_). split; [exact H1|].
    rewrite VarInt_length. lia.
  - intros H2. apply write_Sink in H2. exists (VarInt len_ ++ payload).
    split; [rewrite H2, H1, <- app_assoc; reflexivity|].
    rewrite length_app, Nat2Z.inj_add, VarInt_length. lia.
Qed.

Lemma skipn_nth {A : Type} (d : A) : forall l p, (p < length l)%nat ->
  skipn p l = nth p l d :: skipn (S p) l.
Proof.
  induction l as [|a l IH]; intros [|p] Hp; cbn [length] in Hp; try lia; [reflexivity|].
  cbn [skipn nth]. apply IH. lia.
Qed.

Lemma dump_records_Sink : forall turns items p s r' s',
  (p + turns <= length items)%nat ->
  Forall (fun r => 0 <= len (val r)) items ->
  dump_records turns (mkListReader items p) s = Done (true, r', s') ->
  exists ext, sk_data s' = sk_data s ++ ext /\
              Z.of_nat (length ext) <= extend_size (firstn turns (skipn p items)).
Proof.
  induction turns as [|turns IH]; intros items p s r' s' Hp Hpos; cbn [dump_records].
  - intros H. injection H as _ <-. exists []. split; [now rewrite app_nil_r|].
    cbn. lia.
  - cbn [read ListReader_reader bind lr_items lr_pos].
    set (rec := nth p items null_rec).
    destruct (DumpVariedValue (len (val rec)) (slice_bytes (val rec) (len (val rec))) s)
      as [[|] s1] eqn:Hd; cbn [negb]; [|discriminate].
    intros Hrest. apply DumpVariedValue_Sink in Hd. destruct Hd as [e1 [He1 Hl1]].
    apply IH in Hrest; [|lia|assumption]. destruct Hrest as [e2 [He2 Hl2]].
    exists (e1 ++ e2). split; [rewrite He2, He1, <- app_assoc; reflexivity|].
    rewrite (skipn_nth null_rec items p) by lia. fold rec.
    cbn [firstn extend_size]. rewrite length_app, Nat2Z.inj_add.
    assert (Hrec : 0 <= len (val rec)).
    { rewrite Forall_forall in Hpos. apply Hpos. apply nth_In. lia. }
    pose proof (slice_bytes_length (val rec) (len (val rec)) Hrec). lia.
Qed.

Lemma dump_readers_Sink : forall (readers : list ListReader) s s',
  Forall (fun r => 0 <= len (val r)) (BuildFacts.all_items readers) ->
  dump_readers readers s = Done (true, s') ->
  exists ext, sk_data s' = sk_data s ++ ext /\
              Z.of_nat (length ext) <= extend_size (BuildFacts.all_items readers).
Proof.
  induction readers as [|reader readers IH]; intros s s' Hpos; cbn [dump_readers].
  - intros H. injection H as <-. exists []. split; [now rewrite app_nil_r|]. cbn. lia.
  - unfold BuildFacts.all_items in *. cbn [flat_map] in *.
    apply Forall_app in Hpos. destruct Hpos as [Hpos1 Hpos2].
    cbn [reset total ListReader_reader lr_items]. rewrite Nat2Z.id.
    destruct (dump_records (length (lr_items reader)) (mkListReader (lr_items reader) 0) s)
      as [[[ok r1] s1]|e|] eqn:Hd; cbn [bind]; try discriminate.
    destruct ok; cbn [negb]; [|discriminate].
    intros Hrest. apply dump_records_Sink in Hd; [|lia|assumption].
    destruct Hd as [e1 [He1 Hl1]].
    apply IH in Hrest; [|assumption]. destruct Hrest as [e2 [He2 Hl2]].
    exists (e1 ++ e2). split; [rewrite He2, He1, <- app_assoc; reflexivity|].
    cbn [skipn] in Hl1. rewrite firstn_all in Hl1.
    rewrite length_app, Nat2Z.inj_add, extend_size_app. lia.
Qed.

(** *** The header at the front of an artifact *)

Lemma rd_app2 pre l a : Z.of_nat (length pre) <= a ->
  rd (pre ++ l) a = rd l (a - Z.of_nat (length pre)).
Proof.
  intros Ha. unfold rd. rewrite app_nth2 by lia. do 2 f_equal. lia.
Qed.

Lemma bytes_at_app2 pre l a n : Z.of_nat (length pre) <= a ->
  bytes_at (pre ++ l) a n = bytes_at l (a - Z.of_nat (length pre)) n.
Proof.
  intros Ha. apply BufferFacts.bytes_at_ext. intros i Hi.
  rewrite rd_app2 by lia. f_equal. lia.
Qed.

Lemma bytes_at_app1 bs post n : n = length bs -> Forall is_byte bs ->
  bytes_at (bs ++ post) 0 n = bs.
Proof.
  intros -> Hb. apply (nth_ext _ _ 0 0); [apply VarintFacts.bytes_at_length|].
  intros i Hi. rewrite VarintFacts.bytes_at_length in Hi.
  rewrite BufferFacts.nth_bytes_at by exact Hi. unfold rd. cbn [Z.add].
  rewrite Nat2Z.id, app_nth1 by exact Hi.
  apply BufferFacts.wrap8_small. rewrite Forall_forall in Hb. apply Hb. now apply nth_In.
Qed.

(** The loader reads back the fields the builder wrote. *)
Lemma Header_at_bytes h rest :
  0 <= h_magic h < 2 ^ 32 -> 0 <= h_val_len h < 2 ^ 16 -> 0 <= h_set_cnt h < 2 ^ 64 ->
  h_magic (Header_at (Header_bytes h ++ rest)) = h_magic h /\
  h_type (Header_at (Header_bytes h ++ rest)) = wrap8 (h_type h) /\
  h_key_len (Header_at (Header_bytes h ++ rest)) = wrap8 (h_key_len h) /\
  h_val_len (Header_at (Header_bytes h ++ rest)) = h_val_len h /\
  h_set_cnt (Header_at (Header_bytes h ++ rest)) = h_set_cnt h.
Proof.
  intros Hmg Hvl Hsc. unfold Header_at, Header_bytes.
  cbn [h_magic h_type h_key_len h_val_len h_set_cnt].
  unfold load32, load16, load64. rewrite <- !app_assoc.
  repeat split.
  - rewrite bytes_at_app1 by (rewrite ?unpack_length; auto using unpack_bytes).
    now apply pack_unpack.
  - rewrite rd_app2 by (rewrite unpack_length; cbn; lia). rewrite unpack_length.
    change (4 - Z.of_nat 4) with 0. cbn [app].
    unfold rd. cbn [Z.to_nat nth]. now rewrite BufferFacts.wrap8_idem.
  - rewrite rd_app2 by (rewrite unpack_length; cbn; lia). rewrite unpack_length.
    change (5 - Z.of_nat 4) with 1. cbn [app].
    unfold rd. change (Z.to_nat 1) with 1%nat. cbn [nth].
    now rewrite BufferFacts.wrap8_idem.
  - rewrite bytes_at_app2 by (rewrite unpack_length; cbn; lia). rewrite unpack_length.
    change (6 - Z.of_nat 4) with 2.
    rewrite bytes_at_app2 by (cbn; lia). change (2 - Z.of_nat (length [wrap8 (h_type h)])) with 1.
    rewrite bytes_at_app2 by (cbn; lia).
    change (1 - Z.of_nat (length [wrap8 (h_key_len h)])) with 0.
    rewrite bytes_at_app1 by (rewrite ?unpack_length; auto using unpack_bytes).
    now apply pack_unpack.
  - rewrite bytes_at_app2 by (rewrite unpack_length; cbn; lia). rewrite unpack_length.
    change (24 - Z.of_nat 4) with 20.
    rewrite bytes_at_app2 by (cbn; lia).
    change (20 - Z.of_nat (length [wrap8 (h_type h)])) with 19.
    rewrite bytes_at_app2 by (cbn; lia).
    change (19 - Z.of_nat (length [wrap8 (h_key_len h)])) with 18.
    rewrite bytes_at_app2 by (rewrite unpack_length; cbn; lia). rewrite unpack_length.
    change (18 - Z.of_nat 2) with 16.
    rewrite bytes_at_app2 by (rewrite unpack_length; cbn; lia). rewrite unpack_length.
    change (16 - Z.of_nat 8) with 8.
    rewrite bytes_at_app2 by (rewrite unpack_length; cbn; lia). rewrite unpack_length.
    change (8 - Z.of_nat 8) with 0.
    rewrite bytes_at_app1 by (rewrite ?unpack_length; auto using unpack_bytes).
    now apply pack_unpack.
Qed.

(** An artifact whose header announces KV_SEPARATED and that holds fewer
    bytes than header, guide, content and one byte of extend per slot is
    rejected. *)
Lemma short_extend_rejected data :
  h_type (Header_at data) = KV_SEPARATED ->
  0 <= h_set_cnt (Header_at data) < 2 ^ 40 ->
  Z.of_nat (length data)
  < 64 + h_set_cnt (Header_at data) * 64
       * (1 + h_key_len (Header_at data) + h_val_len (Header_at data))
    + h_set_cnt (Header_at data) * 64 ->
  CreateView data = None.
Proof.
  intros Hty Hcnt Hshort. destruct (CreateView data) as [v|] eqn:Hv; [exfalso|reflexivity].
  assert (Hsome : CreateView data <> None) by (rewrite Hv; discriminate).
  apply LoaderFacts.CreateView_some in Hsome; [|lia].
  destruct Hsome as (_ & _ & _ & _ & Hleast).
  unfold LoaderFacts.least_size in Hleast. rewrite Hty, Z.eqb_refl in Hleast. lia.
Qed.

End ArtifactFacts.

(** ** Round trips through the loader *)

(** The bytes of the artifact a build wrote, when it returned OK. *)
Definition built (r : res (BuildStatus * Sink)) : option (list Z) :=
  match r with
  | Done (BUILD_STATUS_OK, out) => Some (sk_data out)
  | _ => None
  end.

(** The same bytes as a plain list, empty when the build did not return
    OK. *)
Definition file_of (r : res (BuildStatus * Sink)) : list Z :=
  match built r with Some data => data | None => [] end.

(** A toy hash for the examples: the key bytes as a number plus the seed,
    spread over the 64 bits by an odd multiplier. *)
Definition toy_hash (bs : list Z) (len_ seed : Z) : Z :=
  (le_pack bs + seed) * 0x9E3779B97F4A7C15.

(** One record, key [k], value [v]. *)
Definition one_small_record : list ListReader := [mkListReader [rec_of [107] [118]] 0].

(** C1, the defect in general: whatever the hash and the seed, when
    [BuildDictWithVariedValue] returns OK and the values of the input take
    fewer bytes in the extend blob than the table has slots, the artifact
    it wrote is rejected by the loader: the handle is null and every
    search misses, also for the keys of the input. *)
Theorem varied_build_below_loader_minimum (Hash : list Z -> Z -> Z -> Z) (seed : Z)
    (readers : list ListReader) (fuel : nat) (room : Z) (out : Sink) :
  let items := BuildFacts.all_items readers in
  Z.of_nat (length items) < 2 ^ 40 ->
  Forall (fun r => 0 <= len (key r) /\ 0 <= len (val r)) items ->
  (Z.to_nat (CalcSetCnt (Z.of_nat (length items))) <= fuel)%nat ->
  BuildDictWithVariedValue Hash fuel seed readers (mkSink [] room)
  = Done (BUILD_STATUS_OK, out) ->
  ArtifactFacts.extend_size items < 64 * CalcSetCnt (Z.of_nat (length items)) ->
  Hashtable_not (Hashtable_load (Some (sk_data out))) = true /\
  forall fuel' key,
    search Hash fuel' (Hashtable_load (Some (sk_data out))) key = Some null_slice.
Proof.
  intros items Hlen Hsize Hfuel Hbuild Hshort.
  assert (Hnull : Hashtable_not (Hashtable_load (Some (sk_data out))) = true);
    [|split; [exact Hnull|intros fuel' key_; now apply LoaderFacts.search_null]].
  apply LoaderFacts.load_rejected.
  subst items. revert Hbuild.
  destruct readers as [|front rest]; [discriminate|].
  unfold BuildDictWithVariedValue.
  set (rec0 := nth (lr_pos front) (lr_items front) null_rec).
  assert (Hdet : DetectKeyValueLen front false
    = Done (if is_null (key rec0) || (len (key rec0) =? 0) || (len (key rec0) >? MAX_KEY_LEN)
            then None else Some (wrap8 (len (key rec0)), 0),
            if is_null (key rec0) || (len (key rec0) =? 0) || (len (key rec0) >? MAX_KEY_LEN)
            then mkListReader (lr_items front) (S (lr_pos front))
            else mkListReader (lr_items front) 0)).
  { unfold DetectKeyValueLen. cbn [read ListReader_reader bind negb]. fold rec0.
    destruct (_ || _ || _); reflexivity. }
  rewrite Hdet. cbn [bind].
  destruct (is_null (key rec0)) eqn:Enull; [discriminate|]. cbn [orb].
  destruct (Z.eqb_spec (len (key rec0)) 0) as [E0|E0]; [discriminate|]. cbn [orb].
  destruct (Z.gtb_spec (len (key rec0)) MAX_KEY_LEN) as [Emax|Emax]; [discriminate|].
  assert (Hrec0 : In rec0 (lr_items front)).
  { subst rec0. destruct (Nat.ltb_spec (lr_pos front) (length (lr_items front))) as [Hp|Hp].
    - now apply nth_In.
    - rewrite nth_overflow in Enull by lia. discriminate. }
  assert (Hlen0 : 0 <= len (key rec0)).
  { rewrite Forall_forall in Hsize. apply Hsize. unfold BuildFacts.all_items.
    cbn [flat_map]. apply in_or_app. now left. }
  unfold MAX_KEY_LEN in Emax.
  rewrite (BufferFacts.wrap8_small (len (key rec0))) by lia.
  set (kl := len (key rec0)) in *.
  set (readers := mkListReader (lr_items front) 0 :: rest).
  assert (Hitems : BuildFacts.all_items readers = BuildFacts.all_items (front :: rest))
    by reflexivity.
  rewrite <- Hitems in *. clearbody readers.
  rewrite BuildFacts.SumInputSize_items by lia.
  set (total := Z.of_nat (length (BuildFacts.all_items readers))) in *.
  pose proof (BuildFacts.CalcSetCnt_range total ltac:(lia)) as Hn.
  destruct (TerminationFacts.CalcSetCnt_slack total ltac:(lia)) as (_ & Hroom & _).
  set (n := CalcSetCnt total) in *.
  set (header := mkHeader SSHT_MAGIC KV_SEPARATED kl OFFSET_FIELD_SIZE seed 0 n).
  rewrite Z.shiftl_mul_pow2 by lia. change (2 ^ 6) with 64.
  rewrite (DivisorFacts.wrap64_small (n * 64)) by lia.
  change (kl + OFFSET_FIELD_SIZE) with (kl + 6).
  rewrite (DivisorFacts.wrap32_small (kl + 6)) by lia.
  rewrite (DivisorFacts.wrap64_small (n * 64 * (kl + 6))) by nia.
  assert (Hkl : 1 <= h_key_len header <= 255) by (unfold header; cbn [h_key_len]; lia).
  assert (Hvl : 0 <= h_val_len header < 2 ^ 16)
    by (unfold header, OFFSET_FIELD_SIZE; cbn [h_val_len]; lia).
  pose proof (BuildFacts.Inv_initial Hash header n Hn Hkl Hvl) as HI.
  unfold header in HI at 1 2. cbn [h_key_len h_val_len] in HI.
  unfold OFFSET_FIELD_SIZE in HI.
  replace (64 * n) with (n * 64) in HI at 1 2 by lia.
  pose proof (BuildFacts.Mapping_offsets_spec Hash header n Hn Hkl Hvl
                eq_refl eq_refl fuel Hfuel readers _ _ 0 0 [] HI
                ltac:(cbn [length]; lia) ltac:(lia) ltac:(lia)) as Hmap.
  destruct (Mapping_offsets Hash fuel header true readers _ _ 0 0)
    as [[[[[[item g] sp] off] rs]|]|[]|]; cbn [bind]; try discriminate;
    try contradiction.
  destruct Hmap as (_ & _ & _ & [seen' HI'] & Hrs).
  destruct (negb (item =? total)); [discriminate|].
  destruct (write_table (with_item header item) g sp (mkSink [] room))
    as [[|] out1] eqn:Hwt; cbn [negb]; [|discriminate].
  apply ArtifactFacts.write_table_Sink in Hwt. cbn [sk_data app] in Hwt.
  destruct (dump_readers rs out1) as [[ok out2]|e|] eqn:Hdump; cbn [bind];
    try discriminate.
  destruct ok; cbn [negb]; [|discriminate].
  intros Hout. injection Hout as <-.
  assert (Hall : BuildFacts.all_items rs = BuildFacts.all_items readers).
  { unfold BuildFacts.all_items. rewrite !flat_map_concat_map. now rewrite Hrs. }
  apply ArtifactFacts.dump_readers_Sink in Hdump.
  2:{ rewrite Hall. eapply Forall_impl; [|exact Hsize]. intros r [_ Hr]. exact Hr. }
  destruct Hdump as [ext [Hdata Hext]]. rewrite Hall in Hext.
  pose proof (BuildFacts.inv_guide_len _ _ _ _ _ _ HI') as Hgl.
  pose proof (BuildFacts.inv_space_len _ _ _ _ _ _ HI') as Hsl.
  unfold header, OFFSET_FIELD_SIZE in Hsl. cbn [h_key_len h_val_len] in Hsl.
  set (h1 := with_item header item) in *.
  assert (Hh1 : h_magic h1 = SSHT_MAGIC /\ h_type h1 = KV_SEPARATED /\ h_key_len h1 = kl /\
                h_val_len h1 = 6 /\ h_set_cnt h1 = n) by (repeat split; reflexivity).
  destruct Hh1 as (H1m & H1t & H1k & H1v & H1c). clearbody h1.
  assert (Hhl : Z.of_nat (length (Header_bytes h1)) = 64).
  { unfold Header_bytes. rewrite !length_app, !HintFacts.unpack_length, repeat_length.
    reflexivity. }
  rewrite Hdata, Hwt, <- !app_assoc.
  destruct (ArtifactFacts.Header_at_bytes h1 (g ++ sp ++ ext)) as (Hmg & Hty & Hk & Hv & Hc);
    try (rewrite ?H1m, ?H1v, ?H1c; unfold SSHT_MAGIC; lia).
  rewrite H1t in Hty. rewrite H1k in Hk. rewrite H1v in Hv. rewrite H1c in Hc.
  rewrite (BufferFacts.wrap8_small kl) in Hk by lia.
  change (wrap8 KV_SEPARATED) with KV_SEPARATED in Hty.
  apply ArtifactFacts.short_extend_rejected.
  - exact Hty.
  - rewrite Hc. lia.
  - rewrite Hc, Hk, Hv. rewrite !length_app, !Nat2Z.inj_add. lia.
Qed.

Lemma varied_build_below_loader_minimum_witness :
  exists out,
    BuildDictWithVariedValue toy_hash 1 42 one_small_record (mkSink [] 4096)
    = Done (BUILD_STATUS_OK, out) /\
    Hashtable_not (Hashtable_load (Some (sk_data out))) = true /\
    forall fuel' key,
      search toy_hash fuel' (Hashtable_load (Some (sk_data out))) key = Some null_slice.
Proof.
  eexists. split; [vm_compute; reflexivity|].
  apply (varied_build_below_loader_minimum toy_hash 42 one_small_record 1 4096).
  - cbn. lia.
  - repeat constructor; cbn; lia.
  - vm_compute. lia.
  - vm_compute. reflexivity.
  - vm_compute. reflexivity.
Defined.

(** The build of one record with a one-byte value returns OK and writes
    64 + 64 + 64 * 7 + 2 bytes; the loader wants 64 bytes of extend,
    rejects the artifact, and the search for the key misses. *)
Example small_separated_build_does_not_load :
  let r := BuildDictWithVariedValue toy_hash 1 42 one_small_record (mkSink [] 4096) in
  (exists out, r = Done (BUILD_STATUS_OK, out) /\ length (sk_data out) = 578%nat) /\
  Hashtable_not (Hashtable_load (built r)) = true /\
  search toy_hash 1 (Hashtable_load (built r)) (Some [107]) = Some null_slice.
Proof.
  cbv zeta. split; [|split].
  - eexists. split; [vm_compute; reflexivity|reflexivity].
  - vm_compute. reflexivity.
  - vm_compute. reflexivity.
Qed.

(** The same record with a value of 63 bytes: 64 bytes of extend, the
    artifact loads and the key is found. *)
Definition one_large_record : list ListReader :=
  [mkListReader [rec_of [107] (repeat 118 63)] 0].

Example large_separated_build_loads :
  let h := Hashtable_load
             (built (BuildDictWithVariedValue toy_hash 1 42 one_large_record
                                              (mkSink [] 4096))) in
  Hashtable_not h = false /\
  search toy_hash 1 h (Some [107]) = Some (mkSlice (Some 577) 63).
Proof. vm_compute. split; reflexivity. Qed.

(** C3 at the failing input: the base holds [k] with a value of 63 bytes;
    the new stream gives [k] the empty value.  The derive returns OK, the
    derived artifact has one byte of extend and does not load, so the
    search for [k] in it misses. *)
Theorem small_separated_derive_does_not_load :
  let base := Hashtable_load
                (built (BuildDictWithVariedValue toy_hash 1 42 one_large_record
                                                 (mkSink [] 4096))) in
  let r := derive toy_hash 1 43 base [mkListReader [rec_of [107] []] 0] (mkSink [] 4096) in
  Hashtable_not base = false /\
  (exists out, r = Done (BUILD_STATUS_OK, out) /\ length (sk_data out) = 577%nat) /\
  Hashtable_not (Hashtable_load (built r)) = true /\
  search toy_hash 1 (Hashtable_load (built r)) (Some [107]) = Some null_slice.
Proof.
  cbv zeta. split; [|split; [|split]].
  - vm_compute. reflexivity.
  - eexists. split; [vm_compute; reflexivity|reflexivity].
  - vm_compute. reflexivity.
  - vm_compute. reflexivity.
Qed.

(** ** Batch lookups follow the single lookup *)

Module ScanFacts.

Import HintFacts.

(** *** Counting trailing zeros and clearing the lowest set bit *)

Lemma ctzll_double x : 0 < x -> ctzll (2 * x) = 1 + ctzll x.
Proof. destruct x as [|p|p]; intros H; try lia. reflexivity. Qed.

Lemma ctzll_odd x : 0 <= x -> ctzll (1 + 2 * x) = 0.
Proof. destruct x as [|p|p]; intros H; try lia; reflexivity. Qed.

Lemma ctzll_shift (k : nat) x : 0 < x -> ctzll (2 ^ Z.of_nat k * x) = Z.of_nat k + ctzll x.
Proof.
  intros Hx. induction k as [|k IH]; [now rewrite Z.mul_1_l|].
  rewrite Nat2Z.inj_succ, Z.pow_succ_r, <- Z.mul_assoc by lia.
  rewrite ctzll_double by (apply Z.mul_pos_pos; [apply Z.pow_pos_nonneg|]; lia).
  lia.
Qed.

(** The lowest set bit of a hint whose lowest non-zero lane is lane [pre]. *)
Lemma ctzll_lane (pre : nat) x : 0 <= x ->
  ctzll (256 ^ Z.of_nat pre * (128 + 256 * x)) = 8 * Z.of_nat pre + 7.
Proof.
  intros Hx.
  replace (256 ^ Z.of_nat pre * (128 + 256 * x))
    with (2 ^ Z.of_nat (8 * pre + 7) * (1 + 2 * x)).
  - rewrite ctzll_shift, ctzll_odd by lia. lia.
  - rewrite Nat2Z.inj_add, Nat2Z.inj_mul, Z.pow_add_r, Z.pow_mul_r by lia.
    change (2 ^ Z.of_nat 8) with 256. change (2 ^ Z.of_nat 7) with 128. ring.
Qed.

Lemma land_cons a b x y : is_byte a -> is_byte b ->
  Z.land (a + 256 * x) (b + 256 * y) = Z.land a b + 256 * Z.land x y.
Proof.
  apply (op_cons Z.land andb); [apply Z.land_spec| |reflexivity].
  intros. now apply Z.land_nonneg; left.
Qed.

(** [hint &= hint - 1] clears lane [pre]. *)
Lemma clear_lane (pre : nat) x : 0 <= x ->
  let hint := 256 ^ Z.of_nat pre * (128 + 256 * x) in
  Z.land hint (hint - 1) = 256 ^ Z.of_nat (S pre) * x.
Proof.
  intros Hx. induction pre as [|pre IH]; cbv zeta in *.
  - change (256 ^ Z.of_nat 0) with 1. change (256 ^ Z.of_nat 1) with 256.
    rewrite !Z.mul_1_l.
    replace (128 + 256 * x - 1) with (127 + 256 * x) by lia.
    rewrite land_cons by (unfold is_byte; lia).
    rewrite Z.land_diag. reflexivity.
  - set (h := 256 ^ Z.of_nat pre * (128 + 256 * x)) in *.
    assert (Hh : 0 < h) by (apply Z.mul_pos_pos; [apply Z.pow_pos_nonneg|]; lia).
    replace (256 ^ Z.of_nat (S pre) * (128 + 256 * x)) with (0 + 256 * h)
      by (subst h; rewrite Nat2Z.inj_succ, Z.pow_succ_r by lia; ring).
    replace (0 + 256 * h - 1) with (255 + 256 * (h - 1)) by lia.
    rewrite land_cons by (unfold is_byte; lia).
    rewrite IH. rewrite (Nat2Z.inj_succ (S pre)), Z.pow_succ_r by lia.
    change (Z.land 0 255) with 0. ring.
Qed.

(** The number of slots up to and including the lowest hinted one. *)
Lemma step_of_lane (pre : nat) x : (pre < 8)%nat -> 0 <= x ->
  wrap32 (Z.shiftr (wrap32 (ctzll (256 ^ Z.of_nat pre * (128 + 256 * x)) + 1)) 3)
  = Z.of_nat pre + 1.
Proof.
  intros Hpre Hx. rewrite ctzll_lane by lia.
  replace (8 * Z.of_nat pre + 7 + 1) with ((Z.of_nat pre + 1) * 2 ^ 3) by lia.
  rewrite (DivisorFacts.wrap32_small ((Z.of_nat pre + 1) * 2 ^ 3)) by lia.
  rewrite Z.shiftr_div_pow2, Z.div_mul by lia.
  apply DivisorFacts.wrap32_small. lia.
Qed.

(** *** One set, slot by slot *)

Section OneSet.

Variable pack : View.
Variables mem key : list Z.
Variables set mark sft : Z.
Hypothesis Hmark : 0 <= mark < 128.

Definition guide_at (pos : Z) : Z :=
  rd mem (v_guide pack + wrap64 (Z.shiftl set 6) + pos).

(** The slots [j], [j + 1], ... of the set, [n] of them, one at a time. *)
Fixpoint walk (n : nat) (j : Z) : option (option Z) :=
  match n with
  | O => None
  | S n' =>
      match HANDLE_SLOT pack mem key set mark (Z.land j 63) with
      | Some r => Some r
      | None => walk n' (j + 1)
      end
  end.

Lemma walk_app n m : forall j,
  walk (n + m) j
  = match walk n j with Some r => Some r | None => walk m (j + Z.of_nat n) end.
Proof.
  induction n as [|n IH]; intros j.
  - cbn. now rewrite Z.add_0_r.
  - cbn [walk Nat.add]. destruct (HANDLE_SLOT _ _ _ _ _ _); [reflexivity|].
    rewrite IH. destruct (walk n (j + 1)); [reflexivity|]. f_equal. lia.
Qed.

(** A guide byte whose lane of the hint is zero is neither the mark nor a
    terminator; one whose lane is set is one of the two. *)
Lemma unhinted_byte b : is_byte b -> hint_lane mark b = 0 ->
  (b =? mark) = false /\ (Z.land b 128 =? 0) = true.
Proof.
  intros Hb Hl. rewrite hint_lane_spec in Hl by assumption.
  rewrite VarintFacts.land128_byte by assumption.
  destruct (Z.eqb_spec b mark); [discriminate|]. cbn [orb] in Hl.
  destruct (Z.leb_spec 128 b); [discriminate|].
  split; [reflexivity|]. apply Z.ltb_lt. assumption.
Qed.

Lemma hinted_byte b : is_byte b -> hint_lane mark b = 128 ->
  (b =? mark) = true \/ (Z.land b 128 =? 0) = false.
Proof.
  intros Hb Hl. rewrite hint_lane_spec in Hl by assumption.
  rewrite VarintFacts.land128_byte by assumption.
  destruct (Z.eqb_spec b mark); [now left|]. cbn [orb] in Hl.
  destruct (Z.leb_spec 128 b); [|discriminate].
  right. apply Z.ltb_ge. assumption.
Qed.

(** A slot whose lane of the hint is zero lets the search pass. *)
Lemma HANDLE_SLOT_unhinted pos :
  hint_lane mark (guide_at pos) = 0 -> HANDLE_SLOT pack mem key set mark pos = None.
Proof.
  unfold guide_at, HANDLE_SLOT. intros Hl.
  destruct (unhinted_byte _ (VarintFacts.rd_byte _ _) Hl) as [-> ->]. reflexivity.
Qed.

Lemma hint_lane_01 b : is_byte b -> hint_lane mark b = 0 \/ hint_lane mark b = 128.
Proof.
  intros Hb. rewrite hint_lane_spec by assumption.
  destruct ((b =? mark) || (128 <=? b)); auto.
Qed.

(** The hint of a group, lane by lane. *)
Lemma CalcHint_group a :
  CalcHint (load64 mem a) mark = le_pack (map (hint_lane mark) (bytes_at mem a 8)).
Proof.
  unfold load64, bytes_at. cbn [seq map]. apply CalcHint_lanes; [|exact Hmark].
  repeat constructor; apply VarintFacts.rd_byte.
Qed.

Lemma land63_add j i : 0 <= i -> Z.land j 63 + i < 64 ->
  Z.land (j + i) 63 = Z.land j 63 + i.
Proof.
  change 63 with (Z.ones 6). rewrite !Z.land_ones by lia. intros Hi Hlt.
  pose proof (Z.mod_pos_bound j (2 ^ 6) ltac:(lia)).
  rewrite <- Z.add_mod_idemp_l by lia. apply Z.mod_small. lia.
Qed.

Lemma land63_range j : 0 <= Z.land j 63 < 64.
Proof.
  change 63 with (Z.ones 6). rewrite Z.land_ones by lia.
  apply Z.mod_pos_bound. lia.
Qed.

(** The lowest non-zero lane of a hint, if there is one. *)
Lemma first_lane (f : nat -> Z) : (forall i, f i = 0 \/ f i = 128) ->
  forall n s,
  ((forall i, (s <= i < s + n)%nat -> f i = 0) /\ le_pack (map f (seq s n)) = 0)
  \/ exists (pre : nat) (x : Z),
       (pre < n)%nat /\ (forall i, (s <= i < s + pre)%nat -> f i = 0) /\
       f (s + pre)%nat = 128 /\ 0 <= x /\
       le_pack (map f (seq s n)) = 256 ^ Z.of_nat pre * (128 + 256 * x).
Proof.
  intros Hf. induction n as [|n IH]; intros s.
  - left. split; [intros i Hi; lia|reflexivity].
  - cbn [seq map le_pack]. destruct (Hf s) as [H0|H128].
    + destruct (IH (S s)) as [[Hz Hp]|[pre [x [Hpre [Hz [Hl [Hx Hp]]]]]]].
      * left. split; [|rewrite H0, Hp; reflexivity].
        intros i Hi. destruct (Nat.eq_dec i s) as [->|]; [exact H0|apply Hz; lia].
      * right. exists (S pre), x. split; [lia|]. split; [|split; [|split; [lia|]]].
        -- intros i Hi. destruct (Nat.eq_dec i s) as [->|]; [exact H0|apply Hz; lia].
        -- rewrite <- Hl. f_equal. lia.
        -- rewrite H0, Hp, Nat2Z.inj_succ, Z.pow_succ_r by lia. ring.
    + right. exists 0%nat, (le_pack (map f (seq (S s) n))).
      split; [lia|]. split; [intros i Hi; lia|].
      split; [rewrite <- H128; f_equal; lia|]. split.
      * apply pack_bound. apply Forall_forall. intros l Hl.
        apply in_map_iff in Hl. destruct Hl as [i [<- _]].
        destruct (Hf i) as [->| ->]; unfold is_byte; lia.
      * rewrite H128. change (256 ^ Z.of_nat 0) with 1. ring.
Qed.

Section Group.

Variable off : Z.
Hypothesis Hoff : 0 <= off <= 56.

(** The slots of a group whose lane of the hint is set, in rising order. *)
Fixpoint hinted (lanes : list Z) (i : Z) : option (option Z) :=
  match lanes with
  | [] => None
  | l :: ls =>
      if l =? 0 then hinted ls (i + 1)
      else
        match HANDLE_SLOT pack mem key set mark (off + i) with
        | Some r => Some r
        | None => hinted ls (i + 1)
        end
  end.

Lemma hint_loop_hinted : forall ls (pre turns : nat),
  Forall (fun l => l = 0 \/ l = 128) ls ->
  (pre + length ls <= 8)%nat -> (length ls < turns)%nat ->
  hint_loop turns pack mem key set mark off (256 ^ Z.of_nat pre * le_pack ls)
  = hinted ls (Z.of_nat pre).
Proof.
  induction ls as [|l ls IH]; intros pre turns Hls Hlen Hturns.
  - cbn [le_pack hinted]. rewrite Z.mul_0_r. destruct turns; [cbn in Hturns; lia|].
    reflexivity.
  - inversion Hls as [|? ? Hl Hls']; subst. cbn [length] in *.
    assert (Hx : 0 <= le_pack ls < 256 ^ Z.of_nat (length ls)).
    { apply pack_bound. eapply Forall_impl; [|exact Hls'].
      intros a [->| ->]; unfold is_byte; lia. }
    cbn [le_pack hinted]. destruct Hl as [->| ->].
    + change (0 =? 0) with true. cbv iota.
      replace (256 ^ Z.of_nat pre * (0 + 256 * le_pack ls))
        with (256 ^ Z.of_nat (S pre) * le_pack ls)
        by (rewrite Nat2Z.inj_succ, Z.pow_succ_r by lia; ring).
      rewrite IH by (assumption || lia). f_equal. lia.
    + change (128 =? 0) with false. cbv iota.
      destruct turns as [|turns]; [lia|]. cbn [hint_loop].
      set (hint := 256 ^ Z.of_nat pre * (128 + 256 * le_pack ls)).
      assert (Hpow : 0 < 256 ^ Z.of_nat pre) by (apply Z.pow_pos_nonneg; lia).
      assert (Hpos : 0 < hint) by (subst hint; apply Z.mul_pos_pos; lia).
      assert (Hlt : hint < 2 ^ 64).
      { subst hint. change (2 ^ 64) with (256 ^ Z.of_nat 8).
        replace 8%nat with (pre + (1 + (8 - pre - 1)))%nat by lia.
        rewrite Nat2Z.inj_add, Z.pow_add_r by lia.
        apply Z.mul_lt_mono_pos_l; [lia|].
        rewrite Nat2Z.inj_add, Z.pow_add_r by lia. change (256 ^ Z.of_nat 1) with 256.
        assert (256 ^ Z.of_nat (length ls) <= 256 ^ Z.of_nat (8 - pre - 1))
          by (apply Z.pow_le_mono_r; lia).
        lia. }
      destruct (Z.eqb_spec hint 0) as [|_]; [lia|].
      unfold hint at 1. rewrite ctzll_lane by lia.
      replace (8 * Z.of_nat pre + 7 + 1) with ((Z.of_nat pre + 1) * 2 ^ 3) by lia.
      rewrite (DivisorFacts.wrap32_small ((Z.of_nat pre + 1) * 2 ^ 3)) by lia.
      rewrite Z.shiftr_div_pow2, Z.div_mul by lia.
      rewrite (DivisorFacts.wrap32_small (Z.of_nat pre + 1)) by lia.
      replace (Z.of_nat pre + 1 - 1) with (Z.of_nat pre) by lia.
      rewrite (DivisorFacts.wrap32_small (Z.of_nat pre)) by lia.
      rewrite (DivisorFacts.wrap32_small (off + Z.of_nat pre)) by lia.
      destruct (HANDLE_SLOT pack mem key set mark (off + Z.of_nat pre)); [reflexivity|].
      rewrite (DivisorFacts.wrap64_small (hint - 1)) by lia.
      subst hint. rewrite (clear_lane pre (le_pack ls)) by lia.
      rewrite IH by (assumption || lia). f_equal. lia.
Qed.


Lemma hinted_walk j : Z.land j 63 = off -> forall n s, (s + n <= 8)%nat ->
  hinted (map (hint_lane mark)
              (map (fun i => rd mem (v_guide pack + wrap64 (Z.shiftl set 6) + off
                                     + Z.of_nat i))
                   (seq s n)))
         (Z.of_nat s)
  = walk n (j + Z.of_nat s).
Proof.
  intros Hj. induction n as [|n IH]; intros s Hs; [reflexivity|].
  cbn [seq map hinted walk].
  rewrite land63_add by lia. rewrite Hj.
  destruct (hint_lane_01 (rd mem (v_guide pack + wrap64 (Z.shiftl set 6) + off
                                  + Z.of_nat s)) (VarintFacts.rd_byte _ _)) as [H0|H128].
  - rewrite H0. change (0 =? 0) with true. cbv iota.
    rewrite HANDLE_SLOT_unhinted by (unfold guide_at; rewrite Z.add_assoc; exact H0).
    replace (Z.of_nat s + 1) with (Z.of_nat (S s)) by lia.
    rewrite IH by lia. f_equal. lia.
  - rewrite H128. change (128 =? 0) with false. cbv iota.
    destruct (HANDLE_SLOT pack mem key set mark (off + Z.of_nat s)); [reflexivity|].
    replace (Z.of_nat s + 1) with (Z.of_nat (S s)) by lia.
    rewrite IH by lia. f_equal. lia.
Qed.

(** The hint loop over a group handles its eight slots in order. *)
Lemma hint_loop_walk j : Z.land j 63 = off ->
  hint_loop 65 pack mem key set mark off
            (CalcHint (load64 mem (v_guide pack + wrap64 (Z.shiftl set 6) + off)) mark)
  = walk 8 j.
Proof.
  intros Hj. rewrite CalcHint_group.
  rewrite <- (Z.mul_1_l (le_pack _)). change 1 with (256 ^ Z.of_nat 0) at 1.
  rewrite hint_loop_hinted.
  - unfold bytes_at. rewrite (hinted_walk j Hj 8 0) by lia. f_equal. cbn. lia.
  - apply Forall_forall. intros l Hl. apply in_map_iff in Hl.
    destruct Hl as [b [<- Hb]]. apply hint_lane_01.
    unfold bytes_at in Hb. apply in_map_iff in Hb. destruct Hb as [i [<- _]].
    apply VarintFacts.rd_byte.
  - rewrite length_map, VarintFacts.bytes_at_length. lia.
  - rewrite length_map, VarintFacts.bytes_at_length. lia.
Qed.

End Group.

(** The [for] loop of [Search] over a set handles its slots one by one,
    from the start offset on. *)
Lemma set_loop_walk : forall (n turns : nat) (j : Z),
  sft <= j -> j + Z.of_nat n = sft + 64 -> (n < turns)%nat ->
  set_loop turns pack mem key set mark sft j = walk n j.
Proof.
  induction n as [n IH] using lt_wf_ind. intros turns j Hj Hn Hturns.
  destruct turns as [|turns]; [lia|]. cbn [set_loop].
  destruct (Z.ltb_spec j (sft + 64)) as [Hlt|Hge].
  2:{ destruct n; [reflexivity|lia]. }
  pose proof (land63_range j) as Hoff.
  destruct ((j <=? sft + 56) && (Z.land j 63 <=? 56)) eqn:Hstep.
  - apply andb_prop in Hstep. destruct Hstep as [H1 H2].
    apply Z.leb_le in H1, H2.
    rewrite (hint_loop_walk (Z.land j 63)) with (j := j) by (lia || reflexivity).
    replace n with (8 + (n - 8))%nat by lia. rewrite walk_app.
    destruct (walk 8 j); [reflexivity|].
    apply IH; lia.
  - destruct n as [|n]; [lia|]. cbn [walk].
    destruct (HANDLE_SLOT pack mem key set mark (Z.land j 63)); [reflexivity|].
    apply IH; lia.
Qed.

End OneSet.

(** [Search], set after set. *)
Fixpoint walk_sets (fuel : nat) (pack : View) (mem key : list Z) (set mark sft : Z)
    : option (option Z) :=
  match fuel with
  | O => None
  | S fuel' =>
      match walk pack mem key set mark 64 sft with
      | Some r => Some r
      | None => walk_sets fuel' pack mem key (next_set set (v_set_cnt pack)) mark sft
      end
  end.

Lemma Search_loop_walk pack mem key mark sft :
  0 <= mark < 128 ->
  forall fuel set,
  Search_loop fuel pack mem key set mark sft = walk_sets fuel pack mem key set mark sft.
Proof.
  intros Hmark. induction fuel as [|fuel IH]; intros set; [reflexivity|].
  cbn [Search_loop walk_sets].
  rewrite (set_loop_walk pack mem key set mark sft Hmark 64) by lia.
  destruct (walk pack mem key set mark 64 sft); [reflexivity|]. apply IH.
Qed.

Lemma HashKey_mark Hash key len_ seed set_cnt :
  0 <= snd (fst (HashKey Hash key len_ seed set_cnt)) < 128.
Proof.
  unfold HashKey. cbn [fst snd].
  change 127 with (Z.ones 7). rewrite Z.land_ones by lia.
  pose proof (Z.mod_pos_bound
    (Z.shiftr (wrap64 (Hash (bytes_at key 0 (Z.to_nat len_)) len_ seed)) 51) (2 ^ 7)
    ltac:(lia)) as H.
  rewrite BufferFacts.wrap8_small; lia.
Qed.

(** *** One pipeline of [BatchProcess] *)

Section Pipeline.

Variable Hash : list Z -> Z -> Z -> Z.
Variable base : Pack.
Variable patch : option Pack.
Variable get_key : Z -> list Z.
Variable dft_val : Ptr.

(** The patch has the key length and the row size of the base. *)
Hypothesis Hkey_len :
  forall w, v_key_len (pk_view (pack_at base patch w)) = v_key_len (pk_view base).
Hypothesis Hline_size :
  forall w, v_line_size (pk_view (pack_at base patch w)) = v_line_size (pk_view base).

(** [leads st v]: the visits of the pipeline [st] end at [next] until one
    of them has the result [v]. *)
Inductive leads : State -> Visit -> Prop :=
  | leads_now st : leads st (visit Hash base patch get_key dft_val st)
  | leads_later st st' v :
      visit Hash base patch get_key dft_val st = GoNext st' -> leads st' v -> leads st v.

Lemma leads_same_visit st st' v :
  visit Hash base patch get_key dft_val st = visit Hash base patch get_key dft_val st' ->
  leads st' v -> leads st v.
Proof.
  intros Hv Hl. inversion Hl as [st0|st0 st1 v0 Hnext Hrest]; subst.
  - rewrite <- Hv. apply leads_now.
  - apply (leads_later st st1); [congruence|assumption].
Qed.

Section Task.

Variable idx : Z.
Variable w : Where.
Variables mark sft : Z.
Hypothesis Hmark : 0 <= mark < 128.
Hypothesis Hsft : 0 <= sft < 64.

Local Abbreviation pack := (pk_view (pack_at base patch w)).
Local Abbreviation mem := (pk_mem (pack_at base patch w)).

(** The pipeline of query [idx] at slot [cur] of set [set]. *)
Definition at_ (set cur : Z) (line : option Z) : State :=
  mkState idx sft cur mark set line w.

(** What a visit does at a terminator. *)
Definition at_stop : Visit :=
  match w, patch with
  | InPatch, Some _ =>
      GoNext (bind_pipeline Hash base patch get_key InBase (mkState idx 0 0 0 0 None InBase))
  | _, _ => GoReload false dft_val
  end.

(** A visit of a pipeline without a staged row, slot by slot. *)
Fixpoint slotwise (n : nat) (set cur : Z) : Visit :=
  match n with
  | O => GoNext (at_ (next_set set (v_set_cnt pack)) sft None)
  | S n' =>
      let b := guide_at pack mem set (Z.land cur 63) in
      if b =? mark then
        GoNext (at_ set (cur + 1)
                    (Some (line_of (v_content pack) set (Z.land cur 63)
                                   (v_line_size (pk_view base)))))
      else if negb (Z.land b 0x80 =? 0) then at_stop
      else slotwise n' set (cur + 1)
  end.

Lemma slotwise_skip set : forall (p n : nat) cur,
  (forall i, (i < p)%nat ->
     hint_lane mark (guide_at pack mem set (Z.land (cur + Z.of_nat i) 63)) = 0) ->
  slotwise (p + n) set cur = slotwise n set (cur + Z.of_nat p).
Proof.
  induction p as [|p IH]; intros n cur Hskip.
  - cbn. now rewrite Z.add_0_r.
  - cbn [Nat.add slotwise].
    pose proof (Hskip 0%nat ltac:(lia)) as H0.
    change (Z.of_nat 0) with 0 in H0. rewrite Z.add_0_r in H0.
    unfold guide_at in *.
    destruct (unhinted_byte mark Hmark _ (VarintFacts.rd_byte _ _) H0) as [-> ->].
    cbn [negb]. rewrite IH.
    + f_equal. lia.
    + intros i Hi. specialize (Hskip (S i) ltac:(lia)).
      replace (cur + 1 + Z.of_nat i) with (cur + Z.of_nat (S i)) by lia. exact Hskip.
Qed.

Lemma scan_slotwise set : forall (n turns : nat) cur,
  sft <= cur -> cur + Z.of_nat n = sft + 64 -> (n < turns)%nat ->
  scan Hash base patch get_key dft_val turns (at_ set cur None) = slotwise n set cur.
Proof.
  induction n as [n IH] using lt_wf_ind. intros turns cur Hcur Hn Hturns.
  destruct turns as [|turns]; [lia|].
  unfold at_ at 1. cbn [scan st_cur st_sft st_pack st_set st_mark].
  destruct (Z.ltb_spec cur (sft + 64)) as [Hlt|Hge].
  2:{ destruct n; [reflexivity|lia]. }
  pose proof (land63_range cur) as Hoff.
  unfold with_cur, with_line.
  cbn [st_cur st_sft st_pack st_set st_mark st_idx st_line].
  set (off := Z.land cur 63) in *.
  set (g := v_guide pack + wrap64 (Z.shiftl set 6)) in *.
  destruct ((cur <=? sft + 56) && (off <=? 56)) eqn:Hstep.
  - apply andb_prop in Hstep. destruct Hstep as [H1 H2]. apply Z.leb_le in H1, H2.
    rewrite CalcHint_group by exact Hmark.
    unfold bytes_at. rewrite map_map.
    destruct (first_lane (fun i => hint_lane mark (rd mem (g + off + Z.of_nat i)))
                (fun i => hint_lane_01 mark Hmark _ (VarintFacts.rd_byte _ _)) 8 0)
      as [[Hz Hp]|[pre [x [Hpre [Hz [Hl [Hx Hp]]]]]]]; rewrite Hp.
    + cbn [andb Z.eqb]. rewrite BufferFacts.wrap8_small by lia.
      fold (at_ set (cur + 8) None). rewrite (IH (n - 8)%nat) by lia.
      replace n with (8 + (n - 8))%nat at 2 by lia. rewrite slotwise_skip; [reflexivity|].
      intros i Hi. rewrite land63_add by (fold off; lia). fold off.
      unfold guide_at. fold g. rewrite Z.add_assoc. apply Hz. lia.
    + assert (Hne : (256 ^ Z.of_nat pre * (128 + 256 * x) =? 0) = false).
      { apply Z.eqb_neq. apply Z.neq_sym, Z.lt_neq.
        apply Z.mul_pos_pos; [apply Z.pow_pos_nonneg|]; lia. }
      rewrite Hne. cbn [andb]. rewrite step_of_lane by lia.
      replace (Z.of_nat pre + 1 - 1) with (Z.of_nat pre) by lia.
      rewrite (DivisorFacts.wrap32_small (Z.of_nat pre)) by lia.
      rewrite (DivisorFacts.wrap32_small (off + Z.of_nat pre)) by lia.
      rewrite BufferFacts.wrap8_small by lia.
      replace n with (pre + S (n - pre - 1))%nat at 1 by lia.
      rewrite slotwise_skip.
      2:{ intros i Hi. rewrite land63_add by (fold off; lia). fold off.
          unfold guide_at. fold g. rewrite Z.add_assoc. apply Hz. lia. }
      cbn [slotwise]. rewrite land63_add by (fold off; lia). fold off.
      unfold guide_at. fold g. rewrite (Z.add_assoc g off).
      cbn [Nat.add] in Hl.
      replace (cur + (Z.of_nat pre + 1)) with (cur + Z.of_nat pre + 1) by lia.
      destruct (hinted_byte mark Hmark _ (VarintFacts.rd_byte _ _) Hl) as [Hb|Hb].
      * rewrite Hb. reflexivity.
      * destruct (rd mem (g + off + Z.of_nat pre) =? mark); [reflexivity|].
        rewrite Hb. cbn [negb]. unfold at_stop.
        destruct w; [reflexivity|]. destruct patch; reflexivity.
  - cbn [andb]. rewrite BufferFacts.wrap8_small by lia.
    destruct n as [|n]; [lia|]. cbn [slotwise]. fold off. unfold guide_at. fold g.
    destruct (rd mem (g + off) =? mark); [reflexivity|].
    destruct (negb (Z.land (rd mem (g + off)) 128 =? 0)).
    + unfold at_stop. destruct w; [reflexivity|]. destruct patch; reflexivity.
    + fold (at_ set (cur + 1) None). apply IH; lia.
Qed.

(** A visit of a pipeline with a staged row. *)
Lemma visit_staged set cur line :
  visit Hash base patch get_key dft_val (at_ set cur (Some line))
  = if Equal (bytes_at (get_key idx) 0 (Z.to_nat (v_key_len pack)))
             (bytes_at mem line (Z.to_nat (v_key_len pack))) (v_key_len pack)
    then GoReload true (PIn w (line + v_key_len pack))
    else GoNext (at_ set cur None).
Proof. unfold visit, at_. cbn [st_line st_idx st_pack]. rewrite Hkey_len. reflexivity. Qed.

Lemma visit_scanning set cur (n : nat) :
  sft <= cur -> cur + Z.of_nat n = sft + 64 -> (n <= 64)%nat ->
  visit Hash base patch get_key dft_val (at_ set cur None) = slotwise n set cur.
Proof.
  intros Hcur Hn Hle. unfold visit. cbn [at_ st_line].
  apply (scan_slotwise set n 65 cur); lia.
Qed.

(** What the result of a lookup means for the pipeline. *)
Definition target (r : option Z) : Visit :=
  match r with
  | Some field => GoReload true (PIn w field)
  | None => at_stop
  end.

Lemma leads_to st v : visit Hash base patch get_key dft_val st = v -> leads st v.
Proof. intros <-. apply leads_now. Qed.

Lemma leads_slot (rest : option (option Z)) set cur (n : nat) r :
  sft <= cur -> cur + Z.of_nat (S n) = sft + 64 -> (S n <= 64)%nat ->
  (forall r',
     match walk pack mem (get_key idx) set mark n (cur + 1) with
     | Some r0 => Some r0
     | None => rest
     end = Some r' -> leads (at_ set (cur + 1) None) (target r')) ->
  match walk pack mem (get_key idx) set mark (S n) cur with
  | Some r0 => Some r0
  | None => rest
  end = Some r ->
  leads (at_ set cur None) (target r).
Proof.
  intros Hcur Hn Hle IH Hw.
  pose proof (visit_scanning set cur (S n) Hcur Hn Hle) as Hv.
  pose proof (visit_scanning set (cur + 1) n ltac:(lia) ltac:(lia) ltac:(lia)) as Hv'.
  cbn [walk slotwise] in Hw, Hv. unfold HANDLE_SLOT, guide_at in Hw, Hv.
  rewrite Hline_size in Hw.
  destruct (rd mem (v_guide pack + wrap64 (Z.shiftl set 6) + Z.land cur 63) =? mark).
  - apply (leads_later _ _ _ Hv).
    pose proof (visit_staged set (cur + 1)
                  (line_of (v_content pack) set (Z.land cur 63)
                           (v_line_size (pk_view base)))) as Hs.
    destruct (Equal _ _ _).
    + injection Hw as <-. apply leads_to. exact Hs.
    + apply (leads_later _ _ _ Hs). apply IH. exact Hw.
  - destruct (negb (Z.land (rd mem (v_guide pack + wrap64 (Z.shiftl set 6)
                                    + Z.land cur 63)) 128 =? 0)).
    + injection Hw as <-. apply leads_to. exact Hv.
    + apply (leads_same_visit _ (at_ set (cur + 1) None)); [congruence|].
      apply IH. exact Hw.
Qed.

Lemma leads_walk : forall fuel (n : nat) set cur r,
  sft <= cur -> cur + Z.of_nat n = sft + 64 -> (n <= 64)%nat ->
  match walk pack mem (get_key idx) set mark n cur with
  | Some r0 => Some r0
  | None =>
      walk_sets fuel pack mem (get_key idx) (next_set set (v_set_cnt pack)) mark sft
  end = Some r ->
  leads (at_ set cur None) (target r).
Proof.
  induction fuel as [|fuel IHf]; induction n as [|n IHn];
    intros set cur r Hcur Hn Hle Hw.
  - discriminate.
  - eapply leads_slot; eauto. intros r' Hr'. apply IHn; [lia|lia|lia|exact Hr'].
  - cbn [walk walk_sets] in Hw.
    apply (leads_later _ (at_ (next_set set (v_set_cnt pack)) sft None)).
    + rewrite (visit_scanning set cur 0) by lia. reflexivity.
    + apply (IHf 64%nat); [lia|lia|lia|exact Hw].
  - eapply leads_slot; eauto. intros r' Hr'. apply IHn; [lia|lia|lia|exact Hr'].
Qed.

End Task.

(** The pipeline of a query, bound to one of the views, leads to what
    [Search] finds in that view. *)
Lemma leads_Search w st fuel r :
  Search Hash fuel (pack_at base patch w) (get_key (st_idx st)) = Some r ->
  leads (bind_pipeline Hash base patch get_key w st) (target (st_idx st) w r).
Proof.
  unfold Search, bind_pipeline.
  pose proof (HashKey_mark Hash (get_key (st_idx st))
                (v_key_len (pk_view (pack_at base patch w)))
                (v_seed (pk_view (pack_at base patch w)))
                (v_set_cnt (pk_view (pack_at base patch w)))) as Hmark.
  pose proof (HashKey_sft Hash (get_key (st_idx st))
                (v_key_len (pk_view (pack_at base patch w)))
                (v_seed (pk_view (pack_at base patch w)))
                (v_set_cnt (pk_view (pack_at base patch w)))) as Hsft.
  destruct (HashKey Hash _ _ _ _) as [[set mark] sft]. cbn [fst snd] in Hmark, Hsft.
  rewrite Search_loop_walk by assumption.
  destruct fuel as [|fuel]; [discriminate|]. cbn [walk_sets]. intros Hw.
  apply (leads_walk (st_idx st) w mark sft Hmark Hsft fuel 64 set sft r);
    [lia|lia|lia|exact Hw].
Qed.

(** The visits of a pipeline up to its [reload]. *)
Fixpoint run (m : nat) (st : State) : option (bool * Ptr) :=
  match m with
  | O => None
  | S m' =>
      match visit Hash base patch get_key dft_val st with
      | GoReload h v => Some (h, v)
      | GoNext st' => run m' st'
      end
  end.

Lemma leads_run st v : leads st v ->
  forall h p, v = GoReload h p -> exists m, run m st = Some (h, p).
Proof.
  induction 1 as [st|st st' v Hv _ IH]; intros h p Hr.
  - exists 1%nat. cbn [run]. now rewrite Hr.
  - destruct (IH h p Hr) as [m Hm]. exists (S m). cbn [run]. now rewrite Hv.
Qed.

Lemma leads_run_next st v : leads st v ->
  forall st' r, v = GoNext st' -> (exists m, run m st' = Some r) ->
  exists m, run m st = Some r.
Proof.
  induction 1 as [st|st st1 v Hv _ IH]; intros st' r Hn [m Hm].
  - exists (S m). cbn [run]. now rewrite Hn.
  - destruct (IH st' r Hn (ex_intro _ m Hm)) as [m' Hm'].
    exists (S m'). cbn [run]. now rewrite Hv.
Qed.

(** What the single lookups find for query [idx]: the hit flag and the
    value pointer, the patch going first. *)
Definition in_base (idx : Z) (hv : bool * Ptr) : Prop :=
  exists fuel r,
    Search Hash fuel base (get_key idx) = Some r /\
    hv = match r with Some field => (true, PIn InBase field) | None => (false, dft_val) end.

Definition found (idx : Z) (hv : bool * Ptr) : Prop :=
  match patch with
  | None => in_base idx hv
  | Some p =>
      (exists fuel field,
         Search Hash fuel p (get_key idx) = Some (Some field) /\
         hv = (true, PIn InPatch field))
      \/ ((exists fuel, Search Hash fuel p (get_key idx) = Some None) /\ in_base idx hv)
  end.

Lemma in_base_runs st hv : in_base (st_idx st) hv ->
  exists m, run m (bind_pipeline Hash base patch get_key InBase st) = Some hv.
Proof.
  intros [fuel [r [Hs ->]]].
  pose proof (leads_Search InBase st fuel r) as Hl.
  cbn [pack_at] in Hl. specialize (Hl Hs).
  destruct r as [field|]; cbn [target] in Hl.
  - exact (leads_run _ _ Hl _ _ eq_refl).
  - exact (leads_run _ _ Hl _ _ eq_refl).
Qed.

End Pipeline.

(** The pipeline of a query reaches [reload] with what the single lookups
    find. *)
Lemma found_runs Hash base patch get_key dft_val :
  (forall w, v_key_len (pk_view (pack_at base patch w)) = v_key_len (pk_view base)) ->
  (forall w, v_line_size (pk_view (pack_at base patch w)) = v_line_size (pk_view base)) ->
  forall st idx hv,
  found Hash base patch get_key dft_val idx hv ->
  exists m,
    run Hash base patch get_key dft_val m (init_pipeline Hash base patch get_key st idx)
    = Some hv.
Proof.
  intros Hkl Hls st idx hv. unfold found, init_pipeline.
  set (st0 := mkState idx (st_sft st) (st_cur st) (st_mark st) (st_set st)
                      (st_line st) (st_pack st)).
  destruct patch as [p|].
  - intros [[fuel [field [Hs ->]]]|[[fuel Hs] Hb]].
    + pose proof (leads_Search Hash base (Some p) get_key dft_val Hkl Hls
                    InPatch st0 fuel (Some field) Hs) as Hl.
      exact (leads_run _ _ _ _ _ _ _ Hl _ _ eq_refl).
    + pose proof (leads_Search Hash base (Some p) get_key dft_val Hkl Hls
                    InPatch st0 fuel None Hs) as Hl.
      refine (leads_run_next _ _ _ _ _ _ _ Hl _ hv eq_refl _).
      apply (in_base_runs Hash base (Some p) get_key dft_val Hkl Hls
               (mkState idx 0 0 0 0 None InBase)).
      exact Hb.
  - intros Hb.
    apply (in_base_runs Hash base None get_key dft_val Hkl Hls st0). exact Hb.
Qed.

(** *** The window of pipelines *)

Section Scheduler.

Variable Hash : list Z -> Z -> Z -> Z.
Variable Out : Type.
Variable batch : Z.
Variable base : Pack.
Variable patch : option Pack.
Variable get_key : Z -> list Z.
Variable fill_val : Z -> Ptr -> Out -> Out.
Variable dft_val : Ptr.
Variable out0 : Out.

(** What the pipeline of each query leads to: the hit flag and the value. *)
Variable res : Z -> bool * Ptr.

Hypothesis Hbatch : 0 <= batch < 2 ^ 32.

Lemma init_pipeline_any st st' idx :
  init_pipeline Hash base patch get_key st idx
  = init_pipeline Hash base patch get_key st' idx.
Proof. reflexivity. Qed.

Lemma init_pipeline_idx st idx :
  st_idx (init_pipeline Hash base patch get_key st idx) = idx.
Proof.
  unfold init_pipeline, bind_pipeline. cbn [st_idx].
  now destruct (HashKey Hash _ _ _ _) as [[? ?] ?].
Qed.

Lemma scan_idx : forall turns st st',
  scan Hash base patch get_key dft_val turns st = GoNext st' -> st_idx st' = st_idx st.
Proof.
  induction turns as [|turns IH]; intros st st' H; cbn [scan] in H.
  - injection H as <-. reflexivity.
  - destruct (st_cur st <? st_sft st + 64); [|injection H as <-; reflexivity].
    match type of H with (if ?c then _ else _) = _ => destruct c end.
    + apply IH in H. exact H.
    + match type of H with (if ?c then _ else _) = _ => destruct c end.
      * injection H as <-. reflexivity.
      * match type of H with (if ?c then _ else _) = _ => destruct c end.
        -- unfold with_cur in H. cbn [st_pack] in H.
           destruct (st_pack st) eqn:Hw; [discriminate|].
           destruct patch as [p|] eqn:Hp; [|discriminate].
           injection H as <-. unfold bind_pipeline.
           now destruct (HashKey Hash _ _ _ _) as [[? ?] ?].
        -- apply IH in H. exact H.
Qed.

Lemma visit_idx st st' :
  visit Hash base patch get_key dft_val st = GoNext st' -> st_idx st' = st_idx st.
Proof.
  unfold visit. destruct (st_line st).
  - destruct (Equal _ _ _); [discriminate|]. intros H. injection H as <-. reflexivity.
  - apply scan_idx.
Qed.

Local Abbreviation VISIT := (visit Hash base patch get_key dft_val).
Local Abbreviation RUN := (run Hash base patch get_key dft_val).
Local Abbreviation INIT := (init_pipeline Hash base patch get_key State_default).
Local Abbreviation SWEEP := (sweep Hash Out batch base patch get_key fill_val dft_val).

(** The pipeline in position [j] of the window. *)
Definition slot (states : list State) (j : Z) : State :=
  nth (Z.to_nat j) states State_default.

Lemma slot_set_same states i st : 0 <= i < Z.of_nat (length states) ->
  slot (set_nth (Z.to_nat i) st states) i = st.
Proof. intros Hi. unfold slot. apply BufferFacts.nth_set_nth_same. lia. Qed.

Lemma slot_set_other states i j st : 0 <= i -> 0 <= j -> i <> j ->
  slot (set_nth (Z.to_nat i) st states) j = slot states j.
Proof. intros Hi Hj Hij. unfold slot. apply BufferFacts.nth_set_nth_other. lia. Qed.

(** The queries of the batch. *)
Definition queries : list Z := map Z.of_nat (seq 0 (Z.to_nat batch)).

Lemma in_queries x : In x queries <-> 0 <= x < batch.
Proof.
  unfold queries. rewrite in_map_iff. split.
  - intros [i [<- Hi]]. apply in_seq in Hi. lia.
  - intros Hx. exists (Z.to_nat x). split; [lia|]. apply in_seq. lia.
Qed.

(** The visits a query still needs, and their number over the batch. *)
Definition upd (rem : Z -> nat) (x : Z) (v : nat) : Z -> nat :=
  fun y => if y =? x then v else rem y.

Definition visits_left (rem : Z -> nat) : nat := list_sum (map rem queries).

Lemma list_sum_upd rem x v : (v < rem x)%nat -> forall l,
  (list_sum (map (upd rem x v) l) <= list_sum (map rem l))%nat /\
  (In x l -> (list_sum (map (upd rem x v) l) < list_sum (map rem l))%nat).
Proof.
  intros Hv. induction l as [|y l [IHle IHlt]]; [split; [reflexivity|intros []]|].
  cbn [map In]. unfold upd at 1 3.
  assert (Hcons : forall a k, list_sum (a :: k) = (a + list_sum k)%nat) by reflexivity.
  destruct (Z.eqb_spec y x) as [->|Hne]; rewrite !Hcons.
  - split; [lia|intros _; lia].
  - split; [lia|]. intros [Heq|Hin]; [congruence|]. specialize (IHlt Hin). lia.
Qed.

Lemma visits_left_upd rem x v : 0 <= x < batch -> (v < rem x)%nat ->
  (visits_left (upd rem x v) < visits_left rem)%nat.
Proof.
  intros Hx Hv. apply (list_sum_upd rem x v Hv queries). now apply in_queries.
Qed.

(** The window between two visits: [done] lists the queries that reached
    [reload], in that order, [rem] bounds the visits of the others. *)
Record WI (w : Window Out) (done : list Z) (rem : Z -> nat) : Prop := {
  wi_window : 0 <= w_window w <= 16;
  wi_idx : w_window w <= w_idx w <= batch;
  wi_full : w_idx w < batch -> w_window w = 16;
  wi_states : length (w_states w) = 16%nat;
  wi_flight : forall j, 0 <= j < w_window w ->
    0 <= st_idx (slot (w_states w) j) < w_idx w /\
    ~ In (st_idx (slot (w_states w) j)) done /\
    RUN (rem (st_idx (slot (w_states w) j))) (slot (w_states w) j)
    = Some (res (st_idx (slot (w_states w) j)));
  wi_distinct : forall j j', 0 <= j < w_window w -> 0 <= j' < w_window w ->
    st_idx (slot (w_states w) j) = st_idx (slot (w_states w) j') -> j = j';
  wi_waiting : forall idx, w_idx w <= idx < batch -> RUN (rem idx) (INIT idx) = Some (res idx);
  wi_nodup : NoDup done;
  wi_done : forall x, In x done -> 0 <= x < w_idx w;
  wi_cover : forall x, 0 <= x < w_idx w ->
    In x done \/ exists j, 0 <= j < w_window w /\ st_idx (slot (w_states w) j) = x;
  wi_hit : w_hit w = Z.of_nat (length (filter (fun x => fst (res x)) done));
  wi_out : w_out w = fold_left (fun o x => fill_val x (snd (res x)) o) done out0
}.

Lemma done_length done n : NoDup done -> (forall x, In x done -> 0 <= x < n) ->
  Z.of_nat (length done) <= Z.max 0 n.
Proof.
  intros Hnd Hin.
  assert (Hincl : incl done (map Z.of_nat (seq 0 (Z.to_nat n)))).
  { intros x Hx. apply in_map_iff. exists (Z.to_nat x). specialize (Hin x Hx).
    split; [lia|]. apply in_seq. lia. }
  pose proof (NoDup_incl_length Hnd Hincl) as Hlen.
  rewrite length_map, length_seq in Hlen. lia.
Qed.

Lemma filter_length_le {A : Type} (f : A -> bool) l :
  (length (filter f l) <= length l)%nat.
Proof.
  induction l as [|a l IH]; [reflexivity|]. cbn [filter]. destruct (f a); cbn [length]; lia.
Qed.

(** A visit that ends at [next]. *)
Lemma WI_next w done rem i st' m :
  WI w done rem -> 0 <= i < w_window w ->
  VISIT (slot (w_states w) i) = GoNext st' ->
  rem (st_idx (slot (w_states w) i)) = S m ->
  WI (mkWindow (w_window w) (w_idx w) (w_hit w)
               (set_nth (Z.to_nat i) st' (w_states w)) (w_out w))
     done (upd rem (st_idx (slot (w_states w) i)) m).
Proof.
  intros [Hwin Hidx Hfull Hlen Hfl Hdist Hwait Hnd Hdone Hcov Hhit Hout] Hi Hv Hrem.
  pose proof (visit_idx _ _ Hv) as Hsame.
  assert (Hsl : forall j, 0 <= j < w_window w ->
            st_idx (slot (set_nth (Z.to_nat i) st' (w_states w)) j)
            = st_idx (slot (w_states w) j)).
  { intros j Hj. destruct (Z.eq_dec i j) as [<-|Hne].
    - rewrite slot_set_same by lia. exact Hsame.
    - rewrite slot_set_other by lia. reflexivity. }
  split; cbn [w_window w_idx w_hit w_states w_out]; try assumption.
  - now rewrite BufferFacts.set_nth_length.
  - intros j Hj. rewrite (Hsl j Hj). destruct (Hfl j Hj) as [Hr [Hnin Hrun]].
    split; [exact Hr|]. split; [exact Hnin|].
    unfold upd. destruct (Z.eq_dec i j) as [<-|Hne].
    + rewrite Z.eqb_refl, slot_set_same by lia.
      rewrite Hrem in Hrun. cbn [run] in Hrun. rewrite Hv in Hrun. exact Hrun.
    + rewrite slot_set_other by lia.
      destruct (Z.eqb_spec (st_idx (slot (w_states w) j)) (st_idx (slot (w_states w) i)))
        as [Heq|_]; [|exact Hrun].
      exfalso. apply Hne. symmetry. apply Hdist; assumption.
  - intros j j' Hj Hj'. rewrite !Hsl by assumption. now apply Hdist.
  - intros idx Hx. unfold upd.
    destruct (Z.eqb_spec idx (st_idx (slot (w_states w) i))) as [->|_]; [|now apply Hwait].
    destruct (Hfl i Hi) as [Hr _]. lia.
  - intros x Hx. destruct (Hcov x Hx) as [Hin|[j [Hj Hjx]]]; [now left|].
    right. exists j. split; [exact Hj|]. now rewrite Hsl.
Qed.

(** A visit that ends at [reload]: what is logged. *)
Lemma reload_log w done rem i h v :
  WI w done rem -> 0 <= i < w_window w ->
  VISIT (slot (w_states w) i) = GoReload h v ->
  res (st_idx (slot (w_states w) i)) = (h, v) /\
  (0 < rem (st_idx (slot (w_states w) i)))%nat /\
  NoDup (done ++ [st_idx (slot (w_states w) i)]) /\
  (if h then wrap32 (w_hit w + 1) else w_hit w)
  = Z.of_nat (length (filter (fun x => fst (res x))
                             (done ++ [st_idx (slot (w_states w) i)]))) /\
  fill_val (st_idx (slot (w_states w) i)) v (w_out w)
  = fold_left (fun o x => fill_val x (snd (res x)) o)
              (done ++ [st_idx (slot (w_states w) i)]) out0.
Proof.
  intros [Hwin Hidx Hfull Hlen Hfl Hdist Hwait Hnd Hdone Hcov Hhit Hout] Hi Hv.
  destruct (Hfl i Hi) as [Hr [Hnin Hrun]].
  set (idx := st_idx (slot (w_states w) i)) in *.
  destruct (rem idx) as [|m] eqn:Hrem; [discriminate|].
  cbn [run] in Hrun. rewrite Hv in Hrun. injection Hrun as Hres.
  assert (Hnd' : NoDup (done ++ [idx])).
  { apply NoDup_app; [exact Hnd|repeat constructor; intros []|].
    intros x Hx [<-|[]]. exact (Hnin Hx). }
  split; [now symmetry|]. split; [lia|]. split; [exact Hnd'|]. split.
  - rewrite filter_app, length_app, Nat2Z.inj_add, <- Hhit. cbn [filter].
    rewrite <- Hres. cbn [fst].
    assert (Hb : Z.of_nat (length (done ++ [idx])) <= Z.max 0 batch).
    { apply done_length; [exact Hnd'|]. intros x Hx. apply in_app_iff in Hx.
      destruct Hx as [Hx|[<-|[]]]; [specialize (Hdone x Hx)|]; lia. }
    rewrite length_app, Nat2Z.inj_add in Hb. cbn [length] in Hb.
    pose proof (filter_length_le (fun x => fst (res x)) done) as Hf.
    destruct h; cbn [length]; [|lia].
    apply DivisorFacts.wrap32_small. lia.
  - rewrite fold_left_app, <- Hout. cbn [fold_left]. now rewrite <- Hres.
Qed.

(** [reload] with a query left to start. *)
Lemma WI_reload_more w done rem i h v :
  WI w done rem -> 0 <= i < w_window w ->
  VISIT (slot (w_states w) i) = GoReload h v ->
  w_idx w < batch ->
  WI (mkWindow (w_window w) (w_idx w + 1)
               (if h then wrap32 (w_hit w + 1) else w_hit w)
               (set_nth (Z.to_nat i)
                        (init_pipeline Hash base patch get_key (slot (w_states w) i)
                                       (w_idx w))
                        (w_states w))
               (fill_val (st_idx (slot (w_states w) i)) v (w_out w)))
     (done ++ [st_idx (slot (w_states w) i)])
     (upd rem (st_idx (slot (w_states w) i)) 0).
Proof.
  intros HWI Hi Hv Hmore.
  destruct (reload_log w done rem i h v HWI Hi Hv) as [Hres [Hpos [Hnd' [Hhit' Hout']]]].
  destruct HWI as [Hwin Hidx Hfull Hlen Hfl Hdist Hwait Hnd Hdone Hcov Hhit Hout].
  destruct (Hfl i Hi) as [Hr [Hnin Hrun]].
  set (idx := st_idx (slot (w_states w) i)) in *.
  set (st1 := init_pipeline Hash base patch get_key (slot (w_states w) i) (w_idx w)).
  assert (Hst1 : st_idx st1 = w_idx w) by apply init_pipeline_idx.
  split; cbn [w_window w_idx w_hit w_states w_out]; try assumption; try lia.
  - now rewrite BufferFacts.set_nth_length.
  - intros j Hj. destruct (Z.eq_dec i j) as [<-|Hne].
    + rewrite slot_set_same by lia. rewrite Hst1. split; [lia|]. split.
      * rewrite in_app_iff. intros [Hin|[Heq|[]]]; [specialize (Hdone _ Hin)|]; lia.
      * unfold upd. destruct (Z.eqb_spec (w_idx w) idx) as [Heq|_]; [lia|].
        unfold st1. rewrite (init_pipeline_any _ State_default). apply Hwait. lia.
    + rewrite slot_set_other by lia. destruct (Hfl j Hj) as [Hrj [Hninj Hrunj]].
      assert (Hidx_ne : st_idx (slot (w_states w) j) <> idx).
      { intros Heq. apply Hne. symmetry. apply Hdist; assumption. }
      split; [lia|]. split.
      * rewrite in_app_iff. intros [Hin|[Heq|[]]]; [exact (Hninj Hin)|congruence].
      * unfold upd. destruct (Z.eqb_spec (st_idx (slot (w_states w) j)) idx); [congruence|].
        exact Hrunj.
  - intros j j' Hj Hj' Heq.
    destruct (Z.eq_dec i j) as [<-|Hne]; destruct (Z.eq_dec i j') as [<-|Hne'];
      try reflexivity.
    + rewrite slot_set_same, slot_set_other in Heq by lia.
      destruct (Hfl j' Hj') as [Hrj _]. lia.
    + rewrite slot_set_same, slot_set_other in Heq by lia.
      destruct (Hfl j Hj) as [Hrj _]. lia.
    + rewrite !slot_set_other in Heq by lia. now apply Hdist.
  - intros x Hx. unfold upd. destruct (Z.eqb_spec x idx) as [Heq|_]; [lia|].
    apply Hwait. lia.
  - intros x Hx. apply in_app_iff in Hx.
    destruct Hx as [Hx|[<-|[]]]; [specialize (Hdone x Hx)|]; lia.
  - intros x Hx. destruct (Z.eq_dec x (w_idx w)) as [->|Hne].
    + right. exists i. split; [exact Hi|]. now rewrite slot_set_same by lia.
    + destruct (Hcov x ltac:(lia)) as [Hin|[j [Hj Hjx]]].
      * left. apply in_app_iff. now left.
      * destruct (Z.eq_dec i j) as [<-|Hij].
        -- left. apply in_app_iff. right. left. exact Hjx.
        -- right. exists j. split; [exact Hj|]. now rewrite slot_set_other by lia.
Qed.

(** [reload] with no query left: the last pipeline of the window moves
    into the free position. *)
Lemma WI_reload_last w done rem i h v :
  WI w done rem -> 0 <= i < w_window w ->
  VISIT (slot (w_states w) i) = GoReload h v ->
  batch <= w_idx w ->
  WI (mkWindow (w_window w - 1) (w_idx w)
               (if h then wrap32 (w_hit w + 1) else w_hit w)
               (set_nth (Z.to_nat i) (slot (w_states w) (w_window w - 1)) (w_states w))
               (fill_val (st_idx (slot (w_states w) i)) v (w_out w)))
     (done ++ [st_idx (slot (w_states w) i)])
     (upd rem (st_idx (slot (w_states w) i)) 0).
Proof.
  intros HWI Hi Hv Hlast.
  destruct (reload_log w done rem i h v HWI Hi Hv) as [Hres [Hpos [Hnd' [Hhit' Hout']]]].
  destruct HWI as [Hwin Hidx Hfull Hlen Hfl Hdist Hwait Hnd Hdone Hcov Hhit Hout].
  destruct (Hfl i Hi) as [Hr [Hnin Hrun]].
  set (idx := st_idx (slot (w_states w) i)) in *.
  set (last := w_window w - 1) in *.
  (* where the pipeline in position [j] of the new window was before *)
  assert (Hfrom : forall j, 0 <= j < last ->
            exists j0, 0 <= j0 < w_window w /\ j0 <> i /\
              slot (set_nth (Z.to_nat i) (slot (w_states w) last) (w_states w)) j
              = slot (w_states w) j0 /\
              ((j = i /\ j0 = last) \/ (j <> i /\ j0 = j))).
  { intros j Hj. destruct (Z.eq_dec i j) as [<-|Hne].
    - exists last. rewrite slot_set_same by lia. repeat split; lia.
    - exists j. rewrite slot_set_other by lia. repeat split; lia. }
  split; cbn [w_window w_idx w_hit w_states w_out]; try assumption; try lia.
  - now rewrite BufferFacts.set_nth_length.
  - intros j Hj. destruct (Hfrom j Hj) as [j0 [Hj0 [Hne [-> _]]]].
    destruct (Hfl j0 Hj0) as [Hrj [Hninj Hrunj]].
    assert (Hidx_ne : st_idx (slot (w_states w) j0) <> idx).
    { intros Heq. apply Hne. apply Hdist; assumption. }
    split; [lia|]. split.
    + rewrite in_app_iff. intros [Hin|[Heq|[]]]; [exact (Hninj Hin)|congruence].
    + unfold upd. destruct (Z.eqb_spec (st_idx (slot (w_states w) j0)) idx); [congruence|].
      exact Hrunj.
  - intros j j' Hj Hj' Heq.
    destruct (Hfrom j Hj) as [j0 [Hj0 [Hne [E0 Hl0]]]].
    destruct (Hfrom j' Hj') as [j1 [Hj1 [Hne' [E1 Hl1]]]].
    rewrite E0, E1 in Heq. pose proof (Hdist j0 j1 Hj0 Hj1 Heq) as H01. lia.
  - intros x Hx. apply in_app_iff in Hx.
    destruct Hx as [Hx|[<-|[]]]; [specialize (Hdone x Hx)|]; lia.
  - intros x Hx. destruct (Hcov x Hx) as [Hin|[j [Hj Hjx]]].
    + left. apply in_app_iff. now left.
    + destruct (Z.eq_dec j i) as [->|Hji].
      * left. apply in_app_iff. right. left. exact Hjx.
      * right. destruct (Z.eq_dec j last) as [->|Hjl].
        -- exists i. split; [lia|]. now rewrite slot_set_same by lia.
        -- exists j. split; [lia|]. now rewrite slot_set_other by lia.
Qed.

(** One sweep over the window keeps the invariant and, unless the window
    is empty, uses up at least one of the visits that are left. *)
Lemma sweep_inv : forall turns i w done rem,
  WI w done rem -> 0 <= i <= w_window w -> (Z.to_nat (w_window w - i) < turns)%nat ->
  exists done' rem',
    WI (SWEEP turns i w) done' rem' /\
    (visits_left rem' <= visits_left rem)%nat /\
    (i < w_window w -> (visits_left rem' < visits_left rem)%nat).
Proof.
  induction turns as [|turns IH]; intros i w done rem HWI Hi Hturns; [lia|].
  cbn [sweep]. destruct (Z.ltb_spec i (w_window w)) as [Hlt|Hge].
  2:{ exists done, rem. split; [exact HWI|]. split; lia. }
  change (nth (Z.to_nat i) (w_states w) State_default) with (slot (w_states w) i).
  pose proof (wi_window _ _ _ HWI) as Hwin.
  pose proof (wi_idx _ _ _ HWI) as Hidx.
  destruct (wi_flight _ _ _ HWI i ltac:(lia)) as [Hr [Hnin Hrun]].
  destruct (VISIT (slot (w_states w) i)) as [st'|h v] eqn:Hv.
  - destruct (rem (st_idx (slot (w_states w) i))) as [|m] eqn:Hrem; [discriminate|].
    rewrite DivisorFacts.wrap32_small by lia.
    pose proof (WI_next w done rem i st' m HWI ltac:(lia) Hv Hrem) as HWI1.
    destruct (IH (i + 1) _ _ _ HWI1) as [done' [rem' [HWI' [Hle _]]]];
      cbn [w_window]; try lia.
    exists done', rem'. split; [exact HWI'|].
    pose proof (visits_left_upd rem (st_idx (slot (w_states w) i)) m ltac:(lia) ltac:(lia)).
    split; lia.
  - destruct (reload_log w done rem i h v HWI ltac:(lia) Hv) as [_ [Hpos _]].
    pose proof (visits_left_upd rem (st_idx (slot (w_states w) i)) 0 ltac:(lia) Hpos).
    destruct (Z.ltb_spec (w_idx w) batch) as [Hmore|Hlast].
    + rewrite (DivisorFacts.wrap32_small (i + 1)) by lia.
      rewrite (DivisorFacts.wrap32_small (w_idx w + 1)) by lia.
      pose proof (WI_reload_more w done rem i h v HWI ltac:(lia) Hv Hmore) as HWI1.
      destruct (IH (i + 1) _ _ _ HWI1) as [done' [rem' [HWI' [Hle _]]]];
        cbn [w_window]; try lia.
      exists done', rem'. split; [exact HWI'|]. split; lia.
    + rewrite (DivisorFacts.wrap32_small (w_window w - 1)) by lia.
      change (nth (Z.to_nat (w_window w - 1)) (w_states w) State_default)
        with (slot (w_states w) (w_window w - 1)).
      pose proof (WI_reload_last w done rem i h v HWI ltac:(lia) Hv Hlast) as HWI1.
      destruct (IH i _ _ _ HWI1) as [done' [rem' [HWI' [Hle _]]]];
        cbn [w_window]; try lia.
      exists done', rem'. split; [exact HWI'|]. split; lia.
Qed.

(** With more fuel than visits left, the sweeps end with an empty window. *)
Lemma sweeps_inv : forall n fuel w done rem,
  WI w done rem -> (visits_left rem <= n)%nat -> (n < fuel)%nat ->
  exists w' done' rem',
    sweeps Hash Out batch base patch get_key fill_val dft_val fuel w = Some w' /\
    WI w' done' rem' /\ w_window w' = 0.
Proof.
  induction n as [|n IH]; intros fuel w done rem HWI Hn Hfuel;
    (destruct fuel as [|fuel]; [lia|]); cbn [sweeps];
    pose proof (wi_window _ _ _ HWI) as Hwin;
    (destruct (Z.gtb_spec (w_window w) 0) as [Hpos|Hzero];
     [|exists w, done, rem; split; [reflexivity|split; [exact HWI|lia]]]);
    (destruct (sweep_inv (S (Z.to_nat WINDOW_SIZE)) 0 w done rem HWI ltac:(lia))
      as [done' [rem' [HWI' [_ Hlt]]]]; [unfold WINDOW_SIZE; lia|]);
    specialize (Hlt Hpos).
  - exfalso. lia.
  - apply (IH fuel _ done' rem' HWI'); lia.
Qed.

Lemma init_states_spec : forall turns idx window states,
  0 <= idx <= window -> window <= 16 -> length states = 16%nat ->
  (Z.to_nat (window - idx) < turns)%nat ->
  length (init_states Hash base patch get_key turns idx window states) = 16%nat /\
  forall j, 0 <= j < window ->
    slot (init_states Hash base patch get_key turns idx window states) j
    = if j <? idx then slot states j else INIT j.
Proof.
  induction turns as [|turns IH]; intros idx window states Hidx Hwin Hlen Hturns; [lia|].
  cbn [init_states]. destruct (Z.ltb_spec idx window) as [Hlt|Hge].
  - rewrite DivisorFacts.wrap32_small by lia.
    destruct (IH (idx + 1) window
                (set_nth (Z.to_nat idx)
                   (init_pipeline Hash base patch get_key
                      (nth (Z.to_nat idx) states State_default) idx) states))
      as [Hl Hs]; try lia.
    { now rewrite BufferFacts.set_nth_length. }
    split; [exact Hl|]. intros j Hj. rewrite (Hs j Hj).
    destruct (Z.ltb_spec j (idx + 1)) as [H1|H1]; destruct (Z.ltb_spec j idx) as [H2|H2];
      try lia; try reflexivity.
    + rewrite slot_set_other by lia. reflexivity.
    + replace j with idx by lia. rewrite slot_set_same by lia. reflexivity.
  - split; [exact Hlen|]. intros j Hj. destruct (Z.ltb_spec j idx); [reflexivity|lia].
Qed.

(** The part of [BatchProcess] after the compatibility test: when every
    pipeline reaches its [reload], the sweeps end, every query is answered
    once, and the hits are counted. *)
Lemma pipeline_spec (need : Z -> nat) :
  (forall idx, 0 <= idx < batch -> RUN (need idx) (INIT idx) = Some (res idx)) ->
  exists n, forall fuel, (n < fuel)%nat ->
    exists done,
      NoDup done /\ (forall x, In x done <-> 0 <= x < batch) /\
      pipeline Hash Out batch base patch get_key fill_val dft_val fuel out0
      = Some (Z.of_nat (length (filter (fun x => fst (res x)) done)),
              fold_left (fun o x => fill_val x (snd (res x)) o) done out0).
Proof.
  intros Hneed. exists (visits_left need). intros fuel Hfuel. unfold pipeline.
  set (window := Z.min batch WINDOW_SIZE).
  assert (Hwindow : 0 <= window <= 16 /\ window <= batch /\ (window < batch -> window = 16))
    by (unfold window, WINDOW_SIZE; lia).
  destruct (init_states_spec (S (Z.to_nat WINDOW_SIZE)) 0 window
              (repeat State_default (Z.to_nat WINDOW_SIZE)))
    as [Hlen Hslots]; try (unfold WINDOW_SIZE; lia).
  { now rewrite repeat_length. }
  set (states := init_states Hash base patch get_key (S (Z.to_nat WINDOW_SIZE)) 0 window
                             (repeat State_default (Z.to_nat WINDOW_SIZE))) in *.
  assert (Hslot : forall j, 0 <= j < window -> slot states j = INIT j).
  { intros j Hj. rewrite (Hslots j Hj). destruct (Z.ltb_spec j 0); [lia|reflexivity]. }
  assert (HWI : WI (mkWindow window window 0 states out0) [] need).
  { split; cbn [w_window w_idx w_hit w_states w_out];
      try exact Hlen; try lia; try reflexivity.
    - intros j Hj. rewrite (Hslot j Hj), init_pipeline_idx.
      split; [lia|]. split; [intros []|]. apply Hneed. lia.
    - intros j j' Hj Hj'. rewrite (Hslot j Hj), (Hslot j' Hj'), !init_pipeline_idx. auto.
    - intros idx Hidx. apply Hneed. lia.
    - constructor.
    - intros x [].
    - intros x Hx. right. exists x. split; [lia|].
      rewrite (Hslot x) by lia. apply init_pipeline_idx. }
  destruct (sweeps_inv (visits_left need) fuel _ [] need HWI (le_n _) Hfuel)
    as [w' [done [rem [-> [HWI' Hzero]]]]].
  destruct HWI' as [Hwin Hidx Hfull Hl Hfl Hdist Hwait Hnd Hdone Hcov Hhit Hout].
  assert (Hend : w_idx w' = batch) by lia.
  exists done. split; [exact Hnd|]. split.
  - intros x. split.
    + intros Hx. specialize (Hdone x Hx). lia.
    + intros Hx. destruct (Hcov x ltac:(lia)) as [Hin|[j [Hj _]]]; [exact Hin|lia].
  - now rewrite Hhit, Hout.
Qed.

End Scheduler.

(** *** The [out] array and the hit count *)

Lemma finite_choice (P : Z -> nat -> Prop) : forall n : nat,
  (forall x, 0 <= x < Z.of_nat n -> exists m, P x m) ->
  exists f, forall x, 0 <= x < Z.of_nat n -> P x (f x).
Proof.
  induction n as [|n IH]; intros H.
  - exists (fun _ => O). intros x Hx. lia.
  - destruct IH as [f Hf]; [intros x Hx; apply H; lia|].
    destruct (H (Z.of_nat n) ltac:(lia)) as [m Hm].
    exists (fun x => if x =? Z.of_nat n then m else f x). intros x Hx.
    destruct (Z.eqb_spec x (Z.of_nat n)) as [->|Hne]; [exact Hm|apply Hf; lia].
Qed.

Lemma filter_length_perm {A : Type} (f : A -> bool) l l' :
  Permutation l l' -> length (filter f l) = length (filter f l').
Proof.
  induction 1 as [|a l l' _ IH|a b l|l l' l'' _ IH1 _ IH2]; cbn [filter].
  - reflexivity.
  - destruct (f a); cbn [length]; congruence.
  - destruct (f a), (f b); reflexivity.
  - congruence.
Qed.

Lemma filter_length_map {A B : Type} (f : B -> bool) (g : A -> B) l :
  length (filter f (map g l)) = length (filter (fun x => f (g x)) l).
Proof.
  induction l as [|a l IH]; [reflexivity|]. cbn [map filter].
  destruct (f (g a)); cbn [length]; congruence.
Qed.

Lemma map_nth_seq {A : Type} (d : A) l :
  map (fun x => nth (Z.to_nat x) l d) (map Z.of_nat (seq 0 (length l))) = l.
Proof.
  apply (nth_ext _ _ d d).
  - now rewrite !length_map, length_seq.
  - intros i Hi. rewrite !length_map, length_seq in Hi.
    rewrite map_map.
    rewrite (nth_indep _ d ((fun x => nth (Z.to_nat (Z.of_nat x)) l d) O))
      by (rewrite length_map, length_seq; exact Hi).
    rewrite (map_nth (fun x => nth (Z.to_nat (Z.of_nat x)) l d)), seq_nth by exact Hi.
    now rewrite Nat2Z.id.
Qed.

(** The queries that hit, counted in any order of completion. *)
Lemma hits_counted {A : Type} (hit : A -> bool) (d : A) (expected : list A) done :
  NoDup done -> (forall x, In x done <-> 0 <= x < Z.of_nat (length expected)) ->
  length (filter (fun x => hit (nth (Z.to_nat x) expected d)) done)
  = length (filter hit expected).
Proof.
  intros Hnd Hin.
  assert (Hperm : Permutation done (map Z.of_nat (seq 0 (length expected)))).
  { apply NoDup_Permutation; [exact Hnd| |].
    - apply Injective_map_NoDup; [|apply seq_NoDup]. intros a b Hab. lia.
    - intros x. rewrite Hin, in_map_iff. split.
      + intros Hx. exists (Z.to_nat x). split; [lia|]. apply in_seq. lia.
      + intros [i [<- Hi]]. apply in_seq in Hi. lia. }
  rewrite (filter_length_perm _ _ _ Hperm).
  rewrite <- (filter_length_map hit (fun x => nth (Z.to_nat x) expected d)).
  now rewrite map_nth_seq.
Qed.

(** The writes to [out], in any order of completion. *)
Lemma writes_stored {A : Type} (V : Z -> A) (d : A) : forall done out,
  (forall x, In x done -> 0 <= x < Z.of_nat (length out)) ->
  let r := fold_left (fun o x => set_nth (Z.to_nat x) (V x) o) done out in
  length r = length out /\
  forall i : nat,
    (In (Z.of_nat i) done -> nth i r d = V (Z.of_nat i)) /\
    (~ In (Z.of_nat i) done -> nth i r d = nth i out d).
Proof.
  induction done as [|x done IH]; intros out Hin; cbn [fold_left].
  - split; [reflexivity|]. intros i. split; [intros []|reflexivity].
  - pose proof (Hin x (or_introl eq_refl)) as Hx.
    destruct (IH (set_nth (Z.to_nat x) (V x) out)) as [Hlen Hnth].
    { intros y Hy. rewrite BufferFacts.set_nth_length. apply Hin. now right. }
    rewrite BufferFacts.set_nth_length in Hlen. split; [exact Hlen|].
    intros i. destruct (Hnth i) as [Hin' Hout']. split.
    + intros [Heq|Hi].
      * destruct (in_dec Z.eq_dec (Z.of_nat i) done) as [Hd|Hd]; [exact (Hin' Hd)|].
        rewrite (Hout' Hd). subst x. rewrite Nat2Z.id.
        apply BufferFacts.nth_set_nth_same. lia.
      * exact (Hin' Hi).
    + intros Hni. rewrite Hout' by (intros Hd; apply Hni; now right).
      apply BufferFacts.nth_set_nth_other. intros Heq. apply Hni. left. lia.
Qed.

Lemma out_filled (expected out : list Ptr) done :
  (length expected <= length out)%nat ->
  (forall x, In x done <-> 0 <= x < Z.of_nat (length expected)) ->
  fold_left (fun o x => set_nth (Z.to_nat x) (nth (Z.to_nat x) expected PNull) o) done out
  = expected ++ skipn (length expected) out.
Proof.
  intros Hlen Hin.
  destruct (writes_stored (fun x => nth (Z.to_nat x) expected PNull) PNull done out)
    as [Hl Hnth].
  { intros x Hx. apply Hin in Hx. lia. }
  apply (nth_ext _ _ PNull PNull).
  - rewrite Hl, length_app, length_skipn. lia.
  - intros i Hi. destruct (Hnth i) as [Hin' Hout'].
    destruct (Nat.lt_ge_cases i (length expected)) as [Hlt|Hge].
    + rewrite Hin' by (apply Hin; lia). rewrite Nat2Z.id. now rewrite app_nth1.
    + rewrite Hout' by (intros Hd; apply Hin in Hd; lia).
      rewrite app_nth2 by lia. rewrite nth_skipn. f_equal. lia.
Qed.

(** *** Handles *)

Lemma CreateView_line_size data v : CreateView data = Some v ->
  v_line_size v = wrap32 (v_key_len v + v_val_len v) /\ v_type v <> ILLEGAL_TYPE.
Proof.
  unfold CreateView. generalize (Header_at data). intros hd H.
  repeat match type of H with
         | (if ?c then _ else _) = _ => destruct c eqn:?; [discriminate|]
         end.
  injection H as <-. cbn [v_line_size v_key_len v_val_len v_type]. split; [reflexivity|].
  match goal with Ht : negb (type_checks _) = false |- _ => rename Ht into Hty end.
  unfold type_checks in Hty. intros Heq. rewrite Heq in Hty. discriminate.
Qed.

(** A loaded handle is null or has a view made by the loader. *)
Lemma Hashtable_load_view file :
  let t := Hashtable_load file in
  (Hashtable_not t = true /\ m_view t = View_default) \/
  (Hashtable_not t = false /\
   v_line_size (m_view t) = wrap32 (v_key_len (m_view t) + v_val_len (m_view t)) /\
   v_type (m_view t) <> ILLEGAL_TYPE).
Proof.
  unfold Hashtable_load. destruct file as [data|]; [|left; split; reflexivity].
  destruct (CreateView data) as [v|] eqn:Hv; [|left; split; reflexivity].
  right. split; [reflexivity|]. exact (CreateView_line_size data v Hv).
Qed.

(** [search] through a handle that is not null and not KV_SEPARATED hands
    out what [Search] finds. *)
Lemma search_Search Hash fuel t key s :
  Hashtable_not t = false -> v_type (m_view t) <> KV_SEPARATED ->
  search Hash fuel t (Some key) = Some s ->
  Search Hash fuel (Hashtable_pack t) key = Some (ptr s).
Proof.
  intros Hnot Hty. unfold search. rewrite Hnot.
  destruct (Z.eqb_spec (v_type (m_view t)) KV_SEPARATED) as [|_]; [contradiction|].
  cbn [negb].
  destruct (Search Hash fuel (Hashtable_pack t) key) as [[field|]|];
    intros H; [| |discriminate]; injection H as <-; reflexivity.
Qed.

End ScanFacts.

(** A value pointer of [out] that counts as a hit. *)
Definition non_null (p : Ptr) : bool :=
  match p with PNull => false | _ => true end.

(** [search(key)] through the handle [t] returns the slice [s]. *)
Definition returns (Hash : list Z -> Z -> Z -> Z) (t : Hashtable) (key : list Z)
    (s : Slice Z) : Prop :=
  exists fuel, search Hash fuel t (Some key) = Some s.

(** The pointer of a slice, the way [batch_search] stores it in [out]. *)
Definition stored (w : Where) (s : Slice Z) : Ptr :=
  match ptr s with Some field => PIn w field | None => PNull end.

(** What the single lookups give for a key: the hit in the patch if there
    is one, what the base gives otherwise. *)
Definition overlay (Hash : list Z -> Z -> Z -> Z) (h : Hashtable) (patch : PatchArg)
    (key : list Z) (p : Ptr) : Prop :=
  match patch with
  | OtherPatch t =>
      exists s, returns Hash t key s /\
        match ptr s with
        | Some field => p = PIn InPatch field
        | None => exists s', returns Hash h key s' /\ p = stored InBase s'
        end
  | _ => exists s, returns Hash h key s /\ p = stored InBase s
  end.

(** A patch that [BatchProcess] accepts: no patch, the base itself, or a
    loaded handle of the same type, key length and value length. *)
Definition compatible (h : Hashtable) (patch : PatchArg) : Prop :=
  match patch with
  | OtherPatch t =>
      (exists file, t = Hashtable_load file) /\
      v_type (m_view t) = v_type (m_view h) /\
      v_key_len (m_view t) = v_key_len (m_view h) /\
      v_val_len (m_view t) = v_val_len (m_view h)
  | _ => True
  end.

(** C2.  For a loaded artifact that is not KV_SEPARATED, a patch that is
    absent, the handle itself or a compatible loaded handle, and a batch of
    keys whose single lookups return: [batch_search] returns with enough
    fuel, [out[i]] is the pointer the single lookups give for [keys[i]]
    (the hit in the patch first, the base otherwise, null on a miss), the
    rest of [out] is untouched, and the count is the number of non-null
    [out[i]]. *)
Theorem batch_search_agrees (Hash : list Z -> Z -> Z -> Z) (file : list Z)
    (patch : PatchArg) (batch : Z) (keys : list (list Z)) (out expected : list Ptr) :
  let h := Hashtable_load (Some file) in
  Hashtable_not h = false ->
  v_type (m_view h) <> KV_SEPARATED ->
  compatible h patch ->
  0 <= batch < 2 ^ 32 ->
  batch <= Z.of_nat (length keys) ->
  batch <= Z.of_nat (length out) ->
  Z.of_nat (length expected) = batch ->
  (forall i, (i < length expected)%nat ->
     overlay Hash h patch (nth i keys []) (nth i expected PNull)) ->
  exists n, forall fuel, (n < fuel)%nat ->
    batch_search Hash fuel h batch (Some keys) (Some out) patch
    = Some (Z.of_nat (length (filter non_null expected)),
            Some (expected ++ skipn (length expected) out)).
Proof.
  intros h Hnot Hty Hcompat Hbatch Hkeys Hout Hexp Hov.
  set (base := Hashtable_pack h).
  set (patch' := match PatchArg_ref patch with PatchOther p => Some p | _ => None end).
  set (get_key := fun idx => nth (Z.to_nat idx) keys []).
  set (res := fun x => (non_null (nth (Z.to_nat x) expected PNull),
                        nth (Z.to_nat x) expected PNull)).
  destruct (ScanFacts.Hashtable_load_view (Some file)) as [[Hnull _]|[_ [Hline Hlegal]]];
    [fold h in Hnull; congruence|]. fold h in Hline, Hlegal.
  (* the patch has the key length and the row size of the base *)
  assert (Hshape : forall w,
            v_key_len (pk_view (pack_at base patch' w)) = v_key_len (pk_view base) /\
            v_line_size (pk_view (pack_at base patch' w)) = v_line_size (pk_view base)).
  { intros w. unfold pack_at, patch'. destruct w; [split; reflexivity|].
    destruct patch as [| |t]; cbn [PatchArg_ref]; try (split; reflexivity).
    destruct Hcompat as [[tfile ->] [Ht [Hk Hv]]].
    destruct (ScanFacts.Hashtable_load_view tfile) as [[_ Hdft]|[_ [Htl _]]].
    - rewrite Hdft in Ht. cbn [v_type View_default] in Ht. congruence.
    - cbn [Hashtable_pack pk_view]. unfold base. cbn [Hashtable_pack pk_view].
      split; [exact Hk|]. rewrite Htl, Hline, Hk, Hv. reflexivity. }
  assert (Hbase : forall key p,
            (exists s, returns Hash h key s /\ p = stored InBase s) ->
            exists fuel r,
              Search Hash fuel base key = Some r /\
              (non_null p, p)
              = match r with Some field => (true, PIn InBase field) | None => (false, PNull) end).
  { intros key p [s [[fuel Hs] ->]]. exists fuel, (ptr s).
    split; [exact (ScanFacts.search_Search Hash fuel h key s Hnot Hty Hs)|].
    unfold stored. destruct (ptr s); reflexivity. }
  assert (Hfound : forall idx, 0 <= idx < batch ->
            ScanFacts.found Hash base patch' get_key PNull idx (res idx)).
  { intros idx Hidx. specialize (Hov (Z.to_nat idx) ltac:(lia)).
    unfold ScanFacts.found, ScanFacts.in_base, patch', res, get_key.
    unfold overlay in Hov.
    destruct patch as [| |t]; cbn [PatchArg_ref]; try (apply Hbase; exact Hov).
    destruct Hcompat as [[tfile ->] [Ht [Hk Hv]]].
    destruct (ScanFacts.Hashtable_load_view tfile) as [[_ Hdft]|[Htnot _]].
    { rewrite Hdft in Ht. cbn [v_type View_default] in Ht. congruence. }
    destruct Hov as [s [[fuel Hs] Hp]].
    pose proof (ScanFacts.search_Search Hash fuel _ _ s Htnot ltac:(congruence) Hs) as HS.
    destruct (ptr s) as [field|].
    - left. exists fuel, field. split; [exact HS|]. now rewrite Hp.
    - right. split; [exists fuel; exact HS|]. apply Hbase. exact Hp. }
  destruct (ScanFacts.finite_choice
              (fun x m => ScanFacts.run Hash base patch' get_key PNull m
                            (init_pipeline Hash base patch' get_key State_default x)
                          = Some (res x)) (Z.to_nat batch)) as [need Hneed].
  { intros x Hx. apply ScanFacts.found_runs; try (intros w; apply Hshape).
    apply Hfound. lia. }
  destruct (ScanFacts.pipeline_spec Hash (list Ptr) batch base patch' get_key
              (fun idx val o => set_nth (Z.to_nat idx) val o) PNull out res Hbatch need)
    as [n Hn].
  { intros idx Hidx. apply Hneed. lia. }
  exists n. intros fuel Hfuel. destruct (Hn fuel Hfuel) as [done [Hnd [Hin Hpipe]]].
  unfold batch_search. rewrite Hnot. unfold BatchProcess. fold base.
  assert (Hcheck :
    (v_type (pk_view base) =? KV_SEPARATED)
    || match PatchRef_view base (PatchArg_ref patch) with
       | None => false
       | Some p =>
           negb (v_type p =? v_type (pk_view base))
           || negb (v_key_len p =? v_key_len (pk_view base))
           || negb (v_val_len p =? v_val_len (pk_view base))
       end = false).
  { destruct (Z.eqb_spec (v_type (pk_view base)) KV_SEPARATED) as [He|_];
      [exfalso; exact (Hty He)|].
    cbn [orb]. destruct patch as [| |t]; cbn [PatchArg_ref PatchRef_view].
    - reflexivity.
    - now rewrite !Z.eqb_refl.
    - destruct Hcompat as [_ [Ht [Hk Hv]]]. unfold base. cbn [Hashtable_pack pk_view].
      rewrite Ht, Hk, Hv, !Z.eqb_refl. reflexivity. }
  rewrite Hcheck. fold patch'. fold get_key. rewrite Hpipe.
  rewrite <- Hexp in Hin.
  f_equal. f_equal.
  - f_equal. unfold res. cbn [fst]. apply ScanFacts.hits_counted; assumption.
  - f_equal. unfold res. cbn [snd]. apply ScanFacts.out_filled; [lia|assumption].
Qed.

(** A patch handle that failed to load is not a null pointer: its type is
    ILLEGAL_TYPE, the compatibility test fails, and the call returns 0
    without touching [out]. *)
Example batch_search_unloaded_patch (Hash : list Z -> Z -> Z -> Z) (file : list Z)
    (fuel : nat) (batch : Z) (keys : list (list Z)) (out : list Ptr) :
  Hashtable_not (Hashtable_load (Some file)) = false ->
  batch_search Hash fuel (Hashtable_load (Some file)) batch (Some keys) (Some out)
               (OtherPatch (Hashtable_load None))
  = Some (0, Some out).
Proof.
  intros Hnot.
  destruct (ScanFacts.Hashtable_load_view (Some file)) as [[Hnull _]|[_ [_ Hlegal]]];
    [congruence|].
  cbv zeta in Hlegal. revert Hnot Hlegal. generalize (Hashtable_load (Some file)).
  intros h Hnot Hlegal. unfold batch_search. rewrite Hnot. unfold BatchProcess.
  cbn [PatchArg_ref PatchRef_view Hashtable_load Hashtable_pack pk_view m_view
       View_default v_type].
  destruct (Z.eqb_spec ILLEGAL_TYPE (v_type (m_view h))) as [Heq|_]; [congruence|].
  cbn [negb orb]. now rewrite orb_true_r.
Qed.

(** A base of two keys with their values and a patch that overrides the
    second key. *)
Definition two_values : list Z :=
  file_of (BuildDict toy_hash 1 42
             [mkListReader [rec_of [107] [1]; rec_of [108] [2]] 0] (mkSink [] 4096)).

Definition one_patched : list Z :=
  file_of (BuildDict toy_hash 1 43 [mkListReader [rec_of [108] [9]] 0] (mkSink [] 4096)).

Lemma batch_search_agrees_witness :
  exists n, forall fuel, (n < fuel)%nat ->
    batch_search toy_hash fuel (Hashtable_load (Some two_values)) 3
                 (Some [[107]; [108]; [109]]) (Some [PNull; PNull; PNull; PExt [7]])
                 (OtherPatch (Hashtable_load (Some one_patched)))
    = Some (2, Some [PIn InBase 139; PIn InPatch 169; PNull; PExt [7]]).
Proof.
  apply (batch_search_agrees toy_hash two_values
           (OtherPatch (Hashtable_load (Some one_patched))) 3
           [[107]; [108]; [109]] [PNull; PNull; PNull; PExt [7]]
           [PIn InBase 139; PIn InPatch 169; PNull]).
  - vm_compute. reflexivity.
  - vm_compute. discriminate.
  - split; [exists (Some one_patched); reflexivity|]. vm_compute. auto.
  - lia.
  - cbn. lia.
  - cbn. lia.
  - reflexivity.
  - intros i Hi. unfold overlay, returns.
    destruct i as [|[|[|i]]]; cbn [nth]; [| | |cbn in Hi; lia].
    + exists null_slice. split; [exists 1%nat; vm_compute; reflexivity|]. cbn [ptr null_slice].
      exists (mkSlice (Some 139) 1). split; [exists 1%nat; vm_compute; reflexivity|reflexivity].
    + exists (mkSlice (Some 169) 1). split; [exists 1%nat; vm_compute; reflexivity|reflexivity].
    + exists null_slice. split; [exists 1%nat; vm_compute; reflexivity|]. cbn [ptr null_slice].
      exists null_slice. split; [exists 1%nat; vm_compute; reflexivity|reflexivity].
Defined.

(** * Further properties of the code *)

(** ** Bytes, fields and bitmaps *)

Module CodecFacts.
Import HintFacts.

Lemma unpack_pack : forall bs, Forall is_byte bs -> le_bytes (length bs) (le_pack bs) = bs.
Proof.
  induction bs as [|b bs IH]; intros Hb; [reflexivity|].
  inversion Hb as [|? ? Hb0 Hbs]; subst. cbn [length le_bytes le_pack].
  unfold is_byte in Hb0.
  replace (b + 256 * le_pack bs) with (b + le_pack bs * 256) by lia.
  rewrite Z.mod_add, Z.div_add, (Z.mod_small b 256), (Z.div_small b 256) by lia.
  cbn [Z.add].
  now rewrite IH.
Qed.

(** Two byte sequences of one length with the same little-endian value
    are the same. *)
Lemma le_pack_inj a b : Forall is_byte a -> Forall is_byte b -> length a = length b ->
  le_pack a = le_pack b -> a = b.
Proof.
  intros Ha Hb Hlen Heq. rewrite <- (unpack_pack a Ha), <- (unpack_pack b Hb).
  now rewrite Hlen, Heq.
Qed.

Lemma list_eqb_eq : forall a b, list_eqb a b = true <-> a = b.
Proof.
  induction a as [|x a IH]; intros [|y b]; cbn [list_eqb]; split; intros H;
    try reflexivity; try discriminate.
  - apply andb_prop in H. destruct H as [Hx Hr]. apply Z.eqb_eq in Hx. apply IH in Hr.
    now subst.
  - injection H as -> ->. rewrite Z.eqb_refl. now apply IH.
Qed.

(** [Equal] decides the equality of the bytes. *)
Lemma Equal_eq a b pa pb len_ :
  Equal (bytes_at a pa (Z.to_nat len_)) (bytes_at b pb (Z.to_nat len_)) len_ = true
  <-> bytes_at a pa (Z.to_nat len_) = bytes_at b pb (Z.to_nat len_).
Proof.
  unfold Equal.
  assert (Hword : (le_pack (bytes_at a pa (Z.to_nat len_))
                   =? le_pack (bytes_at b pb (Z.to_nat len_))) = true
                  <-> bytes_at a pa (Z.to_nat len_) = bytes_at b pb (Z.to_nat len_)).
  { rewrite Z.eqb_eq. split; [|now intros ->].
    apply le_pack_inj; try apply LoaderFacts.bytes_at_bytes.
    now rewrite !VarintFacts.bytes_at_length. }
  destruct (len_ =? 8); [exact Hword|]. destruct (len_ =? 4); [exact Hword|].
  apply list_eqb_eq.
Qed.

(** The bytes stored are the bytes read back. *)
Lemma bytes_at_store_same buf a bs :
  0 <= a -> a + Z.of_nat (length bs) <= Z.of_nat (length buf) -> Forall is_byte bs ->
  bytes_at (store_bytes buf a bs) a (length bs) = bs.
Proof.
  intros Ha Hfit Hb. apply (nth_ext _ _ 0 0); [apply VarintFacts.bytes_at_length|].
  intros i Hi. rewrite VarintFacts.bytes_at_length in Hi.
  rewrite BufferFacts.nth_bytes_at by exact Hi.
  rewrite BufferFacts.rd_store_bytes_in by lia.
  replace (a + Z.of_nat i - a) with (Z.of_nat i) by lia. rewrite Nat2Z.id.
  apply BufferFacts.wrap8_small. rewrite Forall_forall in Hb. apply Hb. now apply nth_In.
Qed.

Lemma app_inj_length {A : Type} : forall (a c b d : list A),
  length a = length c -> a ++ b = c ++ d -> a = c /\ b = d.
Proof.
  induction a as [|x a IH]; intros [|y c] b d Hlen Heq; cbn [length] in Hlen;
    try discriminate; cbn [app] in Heq.
  - now split.
  - injection Heq as -> Heq. destruct (IH c b d ltac:(lia) Heq) as [-> ->]. now split.
Qed.

Lemma bytes_at_split buf a n m :
  bytes_at buf a (n + m) = bytes_at buf a n ++ bytes_at buf (a + Z.of_nat n) m.
Proof.
  induction m as [|m IH].
  - rewrite Nat.add_0_r. cbn. now rewrite app_nil_r.
  - replace (n + S m)%nat with (S (n + m)) by lia.
    rewrite !VarintFacts.bytes_at_snoc, IH, <- app_assoc. do 4 f_equal. lia.
Qed.

Lemma bytes_at_all bs : Forall is_byte bs -> bytes_at bs 0 (length bs) = bs.
Proof.
  intros Hb. rewrite <- (app_nil_r bs) at 1. now apply ArtifactFacts.bytes_at_app1.
Qed.

Lemma rd_app1 l post a : 0 <= a < Z.of_nat (length l) -> rd (l ++ post) a = rd l a.
Proof. intros Ha. unfold rd. rewrite app_nth1 by lia. reflexivity. Qed.

Lemma shiftl1_byte k : 0 <= k < 8 -> 0 < Z.shiftl 1 k < 256.
Proof.
  intros Hk. rewrite Z.shiftl_mul_pow2, Z.mul_1_l by lia.
  assert (k = 0 \/ k = 1 \/ k = 2 \/ k = 3 \/ k = 4 \/ k = 5 \/ k = 6 \/ k = 7) as H by lia.
  destruct H as [->|[->|[->|[->|[->|[->|[->| ->]]]]]]]; cbn; lia.
Qed.

Lemma land7_range pos : 0 <= Z.land pos 7 < 8.
Proof.
  change 7 with (Z.ones 3). rewrite Z.land_ones by lia. apply Z.mod_pos_bound. lia.
Qed.

(** Bit [k] of byte [b], the way [TestBit] looks at it. *)
Lemma testbit_mask b k : 0 <= k ->
  negb (Z.land b (Z.shiftl 1 k) =? 0) = Z.testbit b k.
Proof.
  intros Hk. destruct (Z.testbit b k) eqn:Hb.
  - destruct (Z.eqb_spec (Z.land b (Z.shiftl 1 k)) 0) as [E|E]; [|reflexivity].
    assert (Hbit : Z.testbit (Z.land b (Z.shiftl 1 k)) k = true).
    { rewrite Z.land_spec, Hb, Z.shiftl_spec, Z.sub_diag by lia. reflexivity. }
    rewrite E, Z.bits_0 in Hbit. discriminate.
  - replace (Z.land b (Z.shiftl 1 k)) with 0; [reflexivity|].
    symmetry. apply Z.bits_inj'. intros n Hn. rewrite Z.land_spec, Z.bits_0.
    destruct (Z.eq_dec n k) as [->|Hne]; [now rewrite Hb|].
    rewrite Z.shiftl_spec by lia.
    destruct (Z.ltb_spec n k); [rewrite (Z.testbit_neg_r 1) by lia; apply andb_false_r|].
    replace (Z.testbit 1 (n - k)) with false; [apply andb_false_r|].
    symmetry. change 1 with (Z.ones 1). apply Z.ones_spec_high. lia.
Qed.

Lemma testbit_shiftl1 k n : 0 <= k -> 0 <= n -> Z.testbit (Z.shiftl 1 k) n = (n =? k).
Proof.
  intros Hk Hn. rewrite Z.shiftl_spec by lia.
  destruct (Z.eqb_spec n k) as [->|Hne]; [now rewrite Z.sub_diag|].
  destruct (Z.ltb_spec n k); [apply Z.testbit_neg_r; lia|].
  change 1 with (Z.ones 1). apply Z.ones_spec_high. lia.
Qed.

Lemma testbit_wrap8 x n : 0 <= n < 8 -> Z.testbit (wrap8 x) n = Z.testbit x n.
Proof. intros Hn. unfold wrap8. apply Z.mod_pow2_bits_low. lia. Qed.

Lemma pos_split pos : 0 <= pos -> pos = 8 * Z.shiftr pos 3 + Z.land pos 7.
Proof.
  intros Hp. rewrite Z.shiftr_div_pow2 by lia. change 7 with (Z.ones 3).
  rewrite Z.land_ones by lia. change (2 ^ 3) with 8. apply Z.div_mod. lia.
Qed.

Section Bitmap.

Variables (bitmap : list Z) (pos pos' : Z).
Hypothesis Hpos : 0 <= pos < 8 * Z.of_nat (length bitmap).
Hypothesis Hpos' : 0 <= pos'.

Lemma byte_index : 0 <= Z.shiftr pos 3 < Z.of_nat (length bitmap).
Proof.
  rewrite Z.shiftr_div_pow2 by lia. change (2 ^ 3) with 8.
  split; [apply Z.div_pos; lia|apply Z.div_lt_upper_bound; lia].
Qed.

(** [TestBit] after the byte of [pos] was replaced by one whose bits are
    given by [f]. *)
Lemma TestBit_update v (f : bool -> bool) :
  (forall n, 0 <= n < 8 ->
     Z.testbit v n = if n =? Z.land pos 7 then f (Z.testbit (rd bitmap (Z.shiftr pos 3)) n)
                     else Z.testbit (rd bitmap (Z.shiftr pos 3)) n) ->
  TestBit (set_nth (Z.to_nat (Z.shiftr pos 3)) (wrap8 v) bitmap) pos'
  = if pos' =? pos then f (TestBit bitmap pos) else TestBit bitmap pos'.
Proof.
  intros Hv. pose proof byte_index as Hi.
  pose proof (land7_range pos) as Hk. pose proof (land7_range pos') as Hk'.
  unfold TestBit. rewrite !testbit_mask by lia.
  assert (Hq' : 0 <= Z.shiftr pos' 3) by (apply Z.shiftr_nonneg; lia).
  destruct (Z.eq_dec (Z.shiftr pos' 3) (Z.shiftr pos 3)) as [Hq|Hq].
  - rewrite Hq, BufferFacts.rd_set_nth_same by lia.
    rewrite BufferFacts.wrap8_idem, testbit_wrap8, Hv by lia.
    destruct (Z.eqb_spec (Z.land pos' 7) (Z.land pos 7)) as [Hr|Hr].
    + assert (pos' = pos)
        by (rewrite (pos_split pos'), (pos_split pos) by lia; lia).
      subst pos'. now rewrite Z.eqb_refl.
    + destruct (Z.eqb_spec pos' pos) as [->|_]; [congruence|reflexivity].
  - rewrite BufferFacts.rd_set_nth_other by lia.
    destruct (Z.eqb_spec pos' pos) as [->|_]; [congruence|reflexivity].
Qed.

End Bitmap.

End CodecFacts.

(** X1.  A 48-bit offset written by [WriteOffsetField] is read back by
    [ReadOffsetField]; of a larger [size_t] the low 48 bits come back.  The
    write changes the six bytes of the field and nothing else. *)
Theorem OffsetField_round_trip (buf : list Z) (field offset : Z) :
  0 <= field -> field + OFFSET_FIELD_SIZE <= Z.of_nat (length buf) ->
  0 <= offset < 2 ^ 64 ->
  ReadOffsetField (WriteOffsetField buf field offset) field = offset mod 2 ^ 48 /\
  (offset <= MAX_OFFSET -> ReadOffsetField (WriteOffsetField buf field offset) field = offset) /\
  length (WriteOffsetField buf field offset) = length buf /\
  (forall i, 0 <= i -> i < field \/ field + OFFSET_FIELD_SIZE <= i ->
     rd (WriteOffsetField buf field offset) i = rd buf i).
Proof.
  unfold OFFSET_FIELD_SIZE, MAX_OFFSET. intros Hf Hfit Hoff.
  set (lo := le_bytes 4 (wrap32 offset)).
  set (hi := le_bytes 2 (wrap16 (Z.shiftr offset 32))).
  assert (Hlen : length (OffsetField offset) = 6%nat)
    by (unfold OffsetField; rewrite length_app, !HintFacts.unpack_length; reflexivity).
  assert (Hbytes : Forall HintFacts.is_byte (OffsetField offset))
    by (unfold OffsetField; apply Forall_app; split; apply HintFacts.unpack_bytes).
  pose proof (CodecFacts.bytes_at_store_same buf field (OffsetField offset) Hf
                ltac:(rewrite Hlen; lia) Hbytes) as Hback.
  rewrite Hlen in Hback. fold (WriteOffsetField buf field offset) in Hback.
  change 6%nat with (4 + 2)%nat in Hback. rewrite CodecFacts.bytes_at_split in Hback.
  unfold OffsetField in Hback. fold lo hi in Hback.
  apply CodecFacts.app_inj_length in Hback;
    [|unfold lo; now rewrite VarintFacts.bytes_at_length, HintFacts.unpack_length].
  change (Z.of_nat 4) with 4 in Hback.
  destruct Hback as [Hlo Hhi].
  assert (Hw32 : 0 <= wrap32 offset < 2 ^ 32) by (apply Z.mod_pos_bound; lia).
  assert (Hw16 : 0 <= wrap16 (Z.shiftr offset 32) < 2 ^ 16) by (apply Z.mod_pos_bound; lia).
  assert (Hread : ReadOffsetField (WriteOffsetField buf field offset) field
                  = offset mod 2 ^ 48).
  { unfold ReadOffsetField, load16, load32. rewrite Hlo, Hhi. unfold lo, hi.
    rewrite !HintFacts.pack_unpack by (cbn [Z.of_nat]; lia).
    rewrite Z.shiftl_mul_pow2 by lia.
    rewrite DivisorFacts.wrap64_small by lia.
    rewrite Z.lor_comm, <- (Z.shiftl_mul_pow2 _ 32) by lia.
    rewrite VarintFacts.lor_shiftl_add by lia.
    unfold wrap32, wrap16. rewrite Z.shiftr_div_pow2 by lia.
    change (2 ^ 48) with (2 ^ 32 * 2 ^ 16).
    rewrite Z.rem_mul_r by lia. lia. }
  split; [exact Hread|]. split; [|split].
  - intros Hmax. rewrite Hread. apply Z.mod_small. unfold OFFSET_FIELD_SIZE in Hmax. lia.
  - unfold WriteOffsetField. apply BufferFacts.store_bytes_length; [lia|]. rewrite Hlen. lia.
  - intros i Hi Hout. unfold WriteOffsetField.
    apply BufferFacts.rd_store_bytes_out; try lia; rewrite Hlen; lia.
Qed.

Lemma OffsetField_round_trip_witness :
  ReadOffsetField (WriteOffsetField (repeat 0 8) 1 0x123456789abc) 1 = 0x123456789abc.
Proof.
  refine (proj1 (proj2 (OffsetField_round_trip (repeat 0 8) 1 0x123456789abc _ _ _)) _).
  - lia.
  - cbn. lia.
  - lia.
  - unfold MAX_OFFSET. cbn. lia.
Defined.

(** X2.  [Equal] is the comparison of the [len] bytes behind its two
    pointers for every [len]: the one-word fast paths for 8 and 4 bytes
    decide the same as [memcmp]. *)
Theorem Equal_bytewise (a b : list Z) (pa pb len_ : Z) :
  Equal (bytes_at a pa (Z.to_nat len_)) (bytes_at b pb (Z.to_nat len_)) len_ = true
  <-> bytes_at a pa (Z.to_nat len_) = bytes_at b pb (Z.to_nat len_).
Proof. apply CodecFacts.Equal_eq. Qed.

(** X3.  [Assign] copies the [len] bytes behind [src] to [dest] for every
    [len]: the one-word stores for 8 and 4 bytes write what [memcpy]
    writes, the rest of the buffer keeps its bytes, and [Equal] holds of
    destination and source afterwards. *)
Theorem Assign_copies (buf src : list Z) (dest len_ : Z) :
  0 <= dest -> 0 <= len_ -> dest + len_ <= Z.of_nat (length buf) ->
  Assign buf dest src len_ = store_bytes buf dest (bytes_at src 0 (Z.to_nat len_)) /\
  length (Assign buf dest src len_) = length buf /\
  (forall i, 0 <= i -> i < dest \/ dest + len_ <= i ->
     rd (Assign buf dest src len_) i = rd buf i) /\
  Equal (bytes_at (Assign buf dest src len_) dest (Z.to_nat len_))
        (bytes_at src 0 (Z.to_nat len_)) len_ = true.
Proof.
  intros Hd Hl Hfit.
  assert (Hcopy : Assign buf dest src len_
                  = store_bytes buf dest (bytes_at src 0 (Z.to_nat len_))).
  { unfold Assign, load64, load32.
    destruct (Z.eqb_spec len_ 8) as [->|_].
    - change (Z.to_nat 8) with 8%nat.
      rewrite <- (VarintFacts.bytes_at_length src 0 8) at 1.
      now rewrite CodecFacts.unpack_pack by apply LoaderFacts.bytes_at_bytes.
    - destruct (Z.eqb_spec len_ 4) as [->|_]; [|reflexivity].
      change (Z.to_nat 4) with 4%nat.
      rewrite <- (VarintFacts.bytes_at_length src 0 4) at 1.
      now rewrite CodecFacts.unpack_pack by apply LoaderFacts.bytes_at_bytes. }
  split; [exact Hcopy|]. rewrite Hcopy. split; [|split].
  - apply BufferFacts.store_bytes_length; [lia|]. rewrite VarintFacts.bytes_at_length. lia.
  - intros i Hi Hout. apply BufferFacts.rd_store_bytes_out; try lia;
      rewrite VarintFacts.bytes_at_length; lia.
  - rewrite BufferFacts.bytes_at_store_bytes by lia. apply BufferFacts.Equal_refl.
Qed.

Lemma Assign_copies_witness :
  Assign (repeat 0 10) 1 [1; 2; 3; 4; 5; 6; 7; 8; 9] 8
  = store_bytes (repeat 0 10) 1 (bytes_at [1; 2; 3; 4; 5; 6; 7; 8; 9] 0 (Z.to_nat 8)).
Proof.
  refine (proj1 (Assign_copies (repeat 0 10) [1; 2; 3; 4; 5; 6; 7; 8; 9] 1 8 _ _ _)).
  - lia.
  - lia.
  - cbn. lia.
Defined.

(** X4.  The bitmap helpers treat a byte array as a set of positions:
    after [SetBit(pos)] the bit at [pos] tests as set, after [ClearBit(pos)]
    as clear, and every other position tests as before; neither changes
    the size of the array. *)
Theorem Bitmap_set_clear (bitmap : list Z) (pos pos' : Z) :
  0 <= pos < 8 * Z.of_nat (length bitmap) -> 0 <= pos' ->
  TestBit (SetBit bitmap pos) pos' = (pos' =? pos) || TestBit bitmap pos' /\
  TestBit (ClearBit bitmap pos) pos' = negb (pos' =? pos) && TestBit bitmap pos' /\
  length (SetBit bitmap pos) = length bitmap /\
  length (ClearBit bitmap pos) = length bitmap.
Proof.
  intros Hpos Hpos'. pose proof (CodecFacts.land7_range pos) as Hk.
  split; [|split; [|split; apply BufferFacts.set_nth_length]].
  - unfold SetBit.
    rewrite (CodecFacts.TestBit_update bitmap pos pos' Hpos Hpos' _ (fun _ => true)).
    + destruct (pos' =? pos); reflexivity.
    + intros n Hn. rewrite Z.lor_spec, CodecFacts.testbit_shiftl1 by lia.
      destruct (n =? Z.land pos 7); [apply orb_true_r|apply orb_false_r].
  - unfold ClearBit.
    rewrite (CodecFacts.TestBit_update bitmap pos pos' Hpos Hpos' _ (fun _ => false)).
    + destruct (pos' =? pos); reflexivity.
    + intros n Hn. unfold not32. rewrite Z.land_spec, Z.lxor_spec.
      rewrite CodecFacts.testbit_shiftl1 by lia.
      change (2 ^ 32 - 1) with (Z.ones 32). rewrite Z.ones_spec_low by lia.
      destruct (n =? Z.land pos 7); cbn [xorb negb]; [apply andb_false_r|apply andb_true_r].
Qed.

Lemma Bitmap_set_clear_witness :
  TestBit (SetBit [0; 0] 11) 11 = (11 =? 11) || TestBit [0; 0] 11.
Proof.
  refine (proj1 (Bitmap_set_clear [0; 0] 11 11 _ _)).
  - cbn. lia.
  - lia.
Defined.

(** X5.  [TestAndSetBit(pos)] returns [true] exactly when the bit was
    clear; afterwards the bit tests as set and every other position tests
    as before. *)
Theorem TestAndSetBit_spec (bitmap : list Z) (pos pos' : Z) :
  0 <= pos < 8 * Z.of_nat (length bitmap) -> 0 <= pos' ->
  fst (TestAndSetBit bitmap pos) = negb (TestBit bitmap pos) /\
  TestBit (snd (TestAndSetBit bitmap pos)) pos' = (pos' =? pos) || TestBit bitmap pos' /\
  length (snd (TestAndSetBit bitmap pos)) = length bitmap.
Proof.
  intros Hpos Hpos'. pose proof (CodecFacts.land7_range pos) as Hk.
  pose proof (CodecFacts.shiftl1_byte _ Hk) as Hm.
  unfold TestAndSetBit. rewrite (BufferFacts.wrap8_small (Z.shiftl 1 _)) by lia.
  fold (TestBit bitmap pos).
  destruct (TestBit bitmap pos) eqn:Hbit; cbn [fst snd negb].
  - split; [reflexivity|]. split; [|reflexivity].
    destruct (Z.eqb_spec pos' pos) as [->|_]; [now rewrite Hbit|reflexivity].
  - split; [reflexivity|]. split; [|apply BufferFacts.set_nth_length].
    rewrite (CodecFacts.TestBit_update bitmap pos pos' Hpos Hpos' _ (fun _ => true)).
    + destruct (pos' =? pos); reflexivity.
    + intros n Hn. rewrite Z.lor_spec, CodecFacts.testbit_shiftl1 by lia.
      destruct (n =? Z.land pos 7); [apply orb_true_r|apply orb_false_r].
Qed.

Lemma TestAndSetBit_spec_witness :
  fst (TestAndSetBit [0; 4] 10) = negb (TestBit [0; 4] 10).
Proof.
  refine (proj1 (TestAndSetBit_spec [0; 4] 10 10 _ _)).
  - cbn. lia.
  - lia.
Defined.

(** ** Separated values: the length prefix *)

Module PrefixFacts.
Import HintFacts.

(** [(n & ~0x7fULL) != 0] *)
Lemma more_groups n : 0 <= n < 2 ^ 64 ->
  negb (Z.land n (not64 0x7f) =? 0) = (128 <=? n).
Proof.
  intros Hn. change (not64 127) with (Z.shiftl (Z.ones 57) 7).
  assert (Hland : Z.land n (Z.shiftl (Z.ones 57) 7) = Z.shiftl (Z.shiftr n 7) 7).
  { apply Z.bits_inj'. intros i Hi. rewrite Z.land_spec.
    destruct (Z.ltb_spec i 7) as [Hlt|Hge].
    - rewrite !Z.shiftl_spec_low by lia. apply andb_false_r.
    - rewrite !Z.shiftl_spec, Z.shiftr_spec by lia.
      replace (i - 7 + 7) with i by lia.
      destruct (Z.ltb_spec (i - 7) 57) as [Hlow|Hhigh].
      + rewrite Z.ones_spec_low by lia. apply andb_true_r.
      + rewrite Z.ones_spec_high by lia. rewrite andb_false_r.
        destruct (Z.eq_dec n 0) as [->|Hnz]; [now rewrite Z.bits_0|].
        symmetry. apply Z.bits_above_log2; [lia|].
        assert (Z.log2 n < 64) by (apply Z.log2_lt_pow2; lia). lia. }
  rewrite Hland, Z.shiftl_mul_pow2, Z.shiftr_div_pow2 by lia. change (2 ^ 7) with 128.
  pose proof (Z.div_mod n 128 ltac:(lia)) as Hdm.
  pose proof (Z.mod_pos_bound n 128 ltac:(lia)) as Hm.
  destruct (Z.leb_spec 128 n) as [Hge|Hlt].
  - assert (1 <= n / 128) by (apply Z.div_le_lower_bound; lia).
    destruct (Z.eqb_spec (n / 128 * 128) 0); [lia|reflexivity].
  - rewrite Z.div_small by lia. reflexivity.
Qed.

(** The bytes of a length in [j] groups of seven bits. *)
Lemma VarInt_loop_groups : forall (j turns : nat) n,
  (1 <= j)%nat -> (j <= S turns)%nat -> 0 <= n < 2 ^ (7 * Z.of_nat j) -> n < 2 ^ 64 ->
  (1 <= length (VarInt_loop turns n) <= j)%nat.
Proof.
  induction j as [|j IH]; intros turns n Hj Ht Hn H64; [lia|].
  destruct turns as [|turns].
  - cbn [VarInt_loop length]. lia.
  - cbn [VarInt_loop]. rewrite more_groups by lia.
    destruct (Z.leb_spec 128 n) as [Hge|Hlt]; [|cbn [length]; lia].
    cbn [length]. destruct j as [|j].
    + change (7 * Z.of_nat 1) with 7 in Hn. change (2 ^ 7) with 128 in Hn. lia.
    + assert (Hsh : 0 <= Z.shiftr n 7 < 2 ^ (7 * Z.of_nat (S j))).
      { rewrite Z.shiftr_div_pow2 by lia. split; [apply Z.div_pos; lia|].
        apply Z.div_lt_upper_bound; [lia|]. rewrite <- Z.pow_add_r by lia.
        replace (7 + 7 * Z.of_nat (S j)) with (7 * Z.of_nat (S (S j))) by lia. lia. }
      assert (Z.shiftr n 7 < 2 ^ 64).
      { rewrite Z.shiftr_div_pow2 by lia. apply Z.div_lt_upper_bound; lia. }
      specialize (IH turns (Z.shiftr n 7) ltac:(lia) ltac:(lia) Hsh ltac:(lia)). lia.
Qed.

Lemma VarInt_loop_bytes : forall turns n, Forall is_byte (VarInt_loop turns n).
Proof.
  induction turns as [|turns IH]; intros n; cbn [VarInt_loop].
  - constructor; [apply Z.mod_pos_bound; lia|constructor].
  - destruct (negb _); constructor; try apply Z.mod_pos_bound; try lia; auto.
Qed.

(** [SeparatedValue] over the bytes [WriteVarInt] wrote for a length of at
    most [j] groups: [acc] is the part of the length decoded so far. *)
Lemma decode_groups buf end_ : forall (j tv ts : nat) pt sft acc reads m,
  (1 <= j)%nat -> (j <= ts)%nat -> (j <= S tv)%nat ->
  0 <= m < 2 ^ (7 * Z.of_nat j) -> 0 <= sft -> sft + 7 * Z.of_nat j <= 35 ->
  0 <= acc < 2 ^ sft -> 0 <= pt ->
  bytes_at buf pt (length (VarInt_loop tv m)) = VarInt_loop tv m ->
  pt + Z.of_nat (length (VarInt_loop tv m)) + (acc + m * 2 ^ sft) <= end_ ->
  fst (SeparatedValue_loop ts buf pt end_ sft acc reads)
  = mkSlice (Some (pt + Z.of_nat (length (VarInt_loop tv m)))) (acc + m * 2 ^ sft).
Proof.
  induction j as [|j IH]; intros tv ts pt sft acc reads m Hj Hts Htv Hm Hsft Hlim Hacc Hpt
    Hbuf Hend; [lia|].
  destruct ts as [|ts]; [lia|].
  assert (Hm64 : m < 2 ^ 64).
  { assert (2 ^ (7 * Z.of_nat (S j)) <= 2 ^ 35) by (apply Z.pow_le_mono_r; lia). lia. }
  assert (Hpow : 0 < 2 ^ sft) by (apply Z.pow_pos_nonneg; lia).
  assert (Hpow' : 2 ^ sft <= 2 ^ 28) by (apply Z.pow_le_mono_r; lia).
  assert (Hb0 : rd buf pt = nth 0 (VarInt_loop tv m) 0).
  { rewrite <- Hbuf. rewrite BufferFacts.nth_bytes_at.
    - f_equal. cbn. lia.
    - destruct tv; cbn [VarInt_loop]; [cbn; lia|]. destruct (negb _); cbn; lia. }
  cbn [SeparatedValue_loop]. unfold MAX_VALUE_LEN_BIT.
  destruct (Z.ltb_spec sft 35) as [_|?]; [|lia].
  assert (Hlen1 : (1 <= length (VarInt_loop tv m))%nat).
  { destruct tv; cbn [VarInt_loop]; [cbn; lia|]. destruct (negb _); cbn; lia. }
  destruct (Z.geb_spec pt end_) as [?|_]; [nia|].
  destruct (Z.leb_spec 128 m) as [Hge|Hlt].
  - (* a continuation byte *)
    destruct tv as [|tv].
    { exfalso. destruct j as [|j]; [|lia].
      change (7 * Z.of_nat 1) with 7 in Hm. change (2 ^ 7) with 128 in Hm. lia. }
    cbn [VarInt_loop] in *. rewrite more_groups in * by lia.
    destruct (Z.leb_spec 128 m) as [_|?]; [|lia]. cbn [nth length] in *.
    rewrite Hb0.
    assert (Hlow : 0 <= Z.land m 127 < 128).
    { change 127 with (Z.ones 7). rewrite Z.land_ones by lia. apply Z.mod_pos_bound. lia. }
    assert (Hbyte : wrap8 (Z.lor 128 (Z.land m 127)) = 128 + Z.land m 127).
    { change 128 with (Z.shiftl 1 7) at 1. rewrite Z.lor_comm.
      rewrite VarintFacts.lor_shiftl_add by lia. change (2 ^ 7) with 128.
      rewrite BufferFacts.wrap8_small; lia. }
    rewrite Hbyte. rewrite VarintFacts.land128_byte by (unfold is_byte; lia).
    destruct (Z.ltb_spec (128 + Z.land m 127) 128) as [?|_]; [lia|]. cbn [negb].
    assert (Hpay : Z.land (128 + Z.land m 127) 127 = m mod 128).
    { change 127 with (Z.ones 7). rewrite !Z.land_ones by lia. change (2 ^ 7) with 128.
      rewrite <- Zplus_mod_idemp_l, Z.mod_same, Z.add_0_l by lia.
      apply Z.mod_mod. lia. }
    rewrite Hpay.
    pose proof (Z.mod_pos_bound m 128 ltac:(lia)) as Hmod.
    pose proof (Z.div_mod m 128 ltac:(lia)) as Hdm.
    rewrite Z.shiftl_mul_pow2 by lia.
    rewrite DivisorFacts.wrap64_small by nia.
    rewrite <- Z.shiftl_mul_pow2 by lia.
    rewrite VarintFacts.lor_shiftl_add by lia.
    destruct j as [|j].
    { change (7 * Z.of_nat 1) with 7 in Hm. change (2 ^ 7) with 128 in Hm. lia. }
    assert (Hsh : Z.shiftr m 7 = m / 128) by (now rewrite Z.shiftr_div_pow2 by lia).
    assert (Hq : 0 <= m / 128 < 2 ^ (7 * Z.of_nat (S j))).
    { split; [apply Z.div_pos; lia|].
      apply Z.div_lt_upper_bound; [lia|]. change 128 with (2 ^ 7).
      rewrite <- Z.pow_add_r by lia.
      replace (7 + 7 * Z.of_nat (S j)) with (7 * Z.of_nat (S (S j))) by lia. lia. }
    assert (Hnext : 2 ^ (sft + 7) = 128 * 2 ^ sft)
      by (rewrite Z.pow_add_r by lia; change (2 ^ 7) with 128; lia).
    rewrite Hsh in *.
    rewrite (IH tv ts (pt + 1) (sft + 7) (acc + m mod 128 * 2 ^ sft) _ (m / 128));
      try lia.
    + f_equal; [f_equal; lia|]. rewrite Hnext. nia.
    + rewrite Hnext. nia.
    + change (S (length (VarInt_loop tv (m / 128))))
        with (1 + length (VarInt_loop tv (m / 128)))%nat in Hbuf.
      rewrite CodecFacts.bytes_at_split in Hbuf.
      change (wrap8 (Z.lor 128 (Z.land m 127)) :: VarInt_loop tv (m / 128))
        with ([wrap8 (Z.lor 128 (Z.land m 127))] ++ VarInt_loop tv (m / 128)) in Hbuf.
      apply CodecFacts.app_inj_length in Hbuf; [|reflexivity].
      exact (proj2 Hbuf).
  - (* the last byte *)
    assert (Hone : VarInt_loop tv m = [m]).
    { destruct tv; cbn [VarInt_loop].
      - now rewrite BufferFacts.wrap8_small by lia.
      - rewrite more_groups by lia. destruct (Z.leb_spec 128 m); [lia|].
        now rewrite BufferFacts.wrap8_small by lia. }
    rewrite Hone in *. cbn [nth length] in *. rewrite Hb0.
    rewrite VarintFacts.land128_byte by (unfold is_byte; lia).
    destruct (Z.ltb_spec m 128) as [_|?]; [|lia]. cbn [negb].
    rewrite Z.shiftl_mul_pow2 by lia.
    rewrite DivisorFacts.wrap64_small by nia.
    rewrite <- Z.shiftl_mul_pow2 by lia.
    rewrite VarintFacts.lor_shiftl_add by lia.
    destruct (Z.gtb_spec (pt + 1 + (acc + m * 2 ^ sft)) end_) as [?|_]; [lia|].
    cbn [fst]. rewrite Z.shiftl_mul_pow2 by lia. reflexivity.
Qed.

(** The bytes [DumpVariedValue] hands to the writer. *)
Definition dumped (v : list Z) : list Z := VarInt (Z.of_nat (length v)) ++ v.

Lemma DumpVariedValue_dumped v (s s' : Sink) :
  DumpVariedValue (Z.of_nat (length v)) v s = (true, s') ->
  sk_data s' = sk_data s ++ dumped v.
Proof.
  unfold DumpVariedValue, WriteVarInt, dumped.
  destruct (write (VarInt (Z.of_nat (length v))) s) as [[|] s1] eqn:H1; cbn [negb];
    [|discriminate].
  apply ArtifactFacts.write_Sink in H1.
  destruct (Z.eqb_spec (Z.of_nat (length v)) 0) as [Hz|Hz].
  - intros H. injection H as <-. destruct v; [|cbn in Hz; lia].
    now rewrite app_nil_r.
  - intros H2. apply ArtifactFacts.write_Sink in H2. now rewrite H2, H1, <- app_assoc.
Qed.

(** A value of fewer than 2^35 bytes, dumped at offset [length pre] of a
    buffer, is what [SeparatedValue] finds there. *)
Lemma SeparatedValue_dumped pre v post end_ :
  Forall is_byte v -> Z.of_nat (length v) < 2 ^ 35 ->
  Z.of_nat (length (pre ++ dumped v)) <= end_ ->
  let buf := pre ++ dumped v ++ post in
  let p := Z.of_nat (length pre) + VarIntSize (Z.of_nat (length v)) in
  SeparatedValue buf (Z.of_nat (length pre)) end_ = mkSlice (Some p) (Z.of_nat (length v)) /\
  bytes_at buf p (length v) = v.
Proof.
  intros Hv Hlen Hend buf p. unfold dumped in *.
  set (n := Z.of_nat (length v)) in *.
  pose proof (ArtifactFacts.VarInt_length n) as Hsize. unfold VarInt in *.
  rewrite !length_app, !Nat2Z.inj_add in Hend.
  split.
  - unfold SeparatedValue, SeparatedValue_reads.
    rewrite (decode_groups buf end_ 5 10 6 (Z.of_nat (length pre)) 0 0 [] n);
      try lia.
    + rewrite Hsize. change (2 ^ 0) with 1. f_equal. lia.
    + unfold buf. rewrite ArtifactFacts.bytes_at_app2 by lia.
      rewrite Z.sub_diag, <- app_assoc.
      apply ArtifactFacts.bytes_at_app1; [reflexivity|apply VarInt_loop_bytes].
  - replace buf with ((pre ++ VarInt_loop 10 n) ++ v ++ post)
      by (unfold buf; now rewrite <- !app_assoc).
    unfold p. rewrite ArtifactFacts.bytes_at_app2
      by (rewrite length_app, Nat2Z.inj_add; fold n; lia).
    rewrite length_app, Nat2Z.inj_add, Hsize.
    replace (_ - _) with 0 by lia.
    apply ArtifactFacts.bytes_at_app1; [reflexivity|exact Hv].
Qed.

(** What [SeparatedValue] returns. *)
Lemma SeparatedValue_outcome buf pt end_ :
  VarintFacts.outcome_ok buf pt end_ (SeparatedValue buf pt end_).
Proof.
  unfold SeparatedValue, SeparatedValue_reads.
  pose proof (VarintFacts.loop_spec buf pt end_ 6 0 eq_refl ltac:(lia) (or_intror eq_refl))
    as H.
  cbn [Z.of_nat] in H. change (7 * 0) with 0 in H. rewrite Z.add_0_r in H.
  specialize (H ltac:(intros i Hi; lia)).
  change (VarintFacts.varint_value (bytes_at buf pt 0)) with 0 in H.
  change (VarintFacts.offsets pt 0) with (@nil Z) in H.
  destruct (SeparatedValue_loop 6 buf pt end_ 0 0 []) as [r reads]. exact (proj2 H).
Qed.

End PrefixFacts.

(** X6.  What [DumpVariedValue] writes, [SeparatedValue] reads back: for a
    value of fewer than 2^35 bytes that [DumpVariedValue] wrote to a sink,
    whatever is written behind it, the decoder started at the offset where
    the dump began, with the end of the dump or any later offset as its
    end, returns the slice of the value bytes, placed [VarIntSize(len)]
    bytes behind the offset where the dump began. *)
Theorem DumpVariedValue_read_back (v post : list Z) (s s' : Sink) (end_ : Z) :
  Forall HintFacts.is_byte v -> Z.of_nat (length v) < 2 ^ 35 ->
  DumpVariedValue (Z.of_nat (length v)) v s = (true, s') ->
  Z.of_nat (length (sk_data s')) <= end_ ->
  let start := Z.of_nat (length (sk_data s)) in
  let p := start + VarIntSize (Z.of_nat (length v)) in
  SeparatedValue (sk_data s' ++ post) start end_ = mkSlice (Some p) (Z.of_nat (length v)) /\
  bytes_at (sk_data s' ++ post) p (length v) = v.
Proof.
  intros Hv Hlen Hdump Hend start p. apply PrefixFacts.DumpVariedValue_dumped in Hdump.
  rewrite Hdump in Hend |- *. rewrite <- app_assoc.
  apply PrefixFacts.SeparatedValue_dumped; [exact Hv|exact Hlen|exact Hend].
Qed.

Lemma DumpVariedValue_read_back_witness :
  SeparatedValue ([9; 9; 130; 1] ++ repeat 7 130 ++ [5; 6; 7]) 2 136
  = mkSlice (Some 4) 130 /\
  bytes_at ([9; 9; 130; 1] ++ repeat 7 130 ++ [5; 6; 7]) 4 130 = repeat 7 130.
Proof.
  apply (DumpVariedValue_read_back (repeat 7 130) [5; 6; 7] (mkSink [9; 9] 200)
           (mkSink ([9; 9; 130; 1] ++ repeat 7 130) 68) 136).
  - apply Forall_forall. intros x Hx. apply repeat_spec in Hx. subst x.
    unfold HintFacts.is_byte. lia.
  - cbn. lia.
  - vm_compute. reflexivity.
  - vm_compute. discriminate.
Defined.

(** X7.  [WriteVarInt] hands the writer exactly [VarIntSize(n)] bytes, at
    least one and at most ten; for a length below 2^35, the largest
    [KeyOffReader] lets through, at most five, which is what [SeparatedValue] is
    prepared to read. *)
Theorem VarIntSize_counts_bytes (n : Z) :
  0 <= n < 2 ^ 64 ->
  Z.of_nat (length (VarInt n)) = VarIntSize n /\
  1 <= VarIntSize n <= 10 /\
  (n <= MAX_VALUE_LEN -> VarIntSize n <= 5).
Proof.
  intros Hn. pose proof (ArtifactFacts.VarInt_length n) as Hsize.
  split; [exact Hsize|]. rewrite <- Hsize. unfold VarInt. split.
  - pose proof (PrefixFacts.VarInt_loop_groups 10 10 n ltac:(lia) ltac:(lia)) as H.
    change (7 * Z.of_nat 10) with 70 in H. specialize (H ltac:(lia) ltac:(lia)). lia.
  - unfold MAX_VALUE_LEN, MAX_VALUE_LEN_BIT. intros Hmax.
    pose proof (PrefixFacts.VarInt_loop_groups 5 10 n ltac:(lia) ltac:(lia)) as H.
    change (7 * Z.of_nat 5) with 35 in H. specialize (H ltac:(lia) ltac:(lia)). lia.
Qed.

Lemma VarIntSize_counts_bytes_witness :
  Z.of_nat (length (VarInt 300)) = VarIntSize 300.
Proof. refine (proj1 (VarIntSize_counts_bytes 300 _)). lia. Defined.

(** ** Hashing and sizing *)

(** X8.  [HashKey] cuts three disjoint fields out of the 64-bit hash: the
    set is the hash modulo the number of sets (so it is a valid set
    index), the mark is bits 51 to 57 (so it is below 128 and never looks
    like an empty or reserved guide byte), the start offset is bits 58 to
    63 (so it is below 64). *)
Theorem HashKey_fields (Hash : list Z -> Z -> Z -> Z) (key : list Z) (len_ seed n : Z) :
  1 <= n < 2 ^ 64 ->
  let hash := wrap64 (Hash (bytes_at key 0 (Z.to_nat len_)) len_ seed) in
  HashKey Hash key len_ seed (Divisor.make n)
  = (hash mod n, (hash / 2 ^ 51) mod 128, hash / 2 ^ 58) /\
  0 <= hash mod n < n /\ 0 <= (hash / 2 ^ 51) mod 128 < 128 /\ 0 <= hash / 2 ^ 58 < 64.
Proof.
  intros Hn hash.
  assert (Hh : 0 <= hash < 2 ^ 64) by (apply Z.mod_pos_bound; lia).
  assert (Hmark : 0 <= (hash / 2 ^ 51) mod 128 < 128) by (apply Z.mod_pos_bound; lia).
  assert (Hsft : 0 <= hash / 2 ^ 58 < 64)
    by (split; [apply Z.div_pos; lia|apply Z.div_lt_upper_bound; lia]).
  split; [|split; [apply Z.mod_pos_bound; lia|split; assumption]].
  unfold HashKey. fold hash.
  rewrite (proj2 (DivisorFacts.div_mod_exact n hash ltac:(lia) Hh)).
  rewrite !Z.shiftr_div_pow2 by lia.
  change 127 with (Z.ones 7). rewrite Z.land_ones by lia. change (2 ^ 7) with 128.
  rewrite !BufferFacts.wrap8_small by lia. reflexivity.
Qed.

Lemma HashKey_fields_witness :
  HashKey toy_hash [107] 1 42 (Divisor.make 3)
  = (wrap64 (toy_hash (bytes_at [107] 0 (Z.to_nat 1)) 1 42) mod 3,
     (wrap64 (toy_hash (bytes_at [107] 0 (Z.to_nat 1)) 1 42) / 2 ^ 51) mod 128,
     wrap64 (toy_hash (bytes_at [107] 0 (Z.to_nat 1)) 1 42) / 2 ^ 58).
Proof. refine (proj1 (HashKey_fields toy_hash [107] 1 42 3 _)). lia. Defined.

(** X9.  [CalcSetCnt] sizes the table: for [item] records it gives an odd
    number of sets whose slots cover the records and the reserve of one
    slot per 16 records (rounded up), and exceed that by fewer than 128
    slots. *)
Theorem CalcSetCnt_sizing (item : Z) :
  0 <= item < 2 ^ 57 ->
  let reserved := (item + 15) / 16 in
  CalcSetCnt item mod 2 = 1 /\
  item + reserved <= 64 * CalcSetCnt item < item + reserved + 128.
Proof.
  intros Hi reserved. unfold CalcSetCnt, RESERVE_FACTOR.
  change (16 - 1) with 15.
  rewrite (DivisorFacts.wrap64_small (item + 15)) by lia. fold reserved.
  assert (Hres : item <= 16 * reserved < item + 16).
  { subst reserved. pose proof (Z.div_mod (item + 15) 16 ltac:(lia)).
    pose proof (Z.mod_pos_bound (item + 15) 16 ltac:(lia)). lia. }
  rewrite (DivisorFacts.wrap64_small (item + reserved + 63)) by lia.
  set (x := (item + reserved + 63) / 64).
  assert (Hx : item + reserved <= 64 * x < item + reserved + 64).
  { subst x. pose proof (Z.div_mod (item + reserved + 63) 64 ltac:(lia)).
    pose proof (Z.mod_pos_bound (item + reserved + 63) 64 ltac:(lia)). lia. }
  rewrite TerminationFacts.clear_low_bit by lia.
  pose proof (Z.div_mod x 2 ltac:(lia)) as Hx2.
  pose proof (Z.mod_pos_bound x 2 ltac:(lia)) as Hx2'.
  rewrite DivisorFacts.wrap64_small by lia.
  split; [|lia].
  rewrite Z.add_comm, Z.mul_comm, Z.mod_add by lia. reflexivity.
Qed.

Lemma CalcSetCnt_sizing_witness :
  CalcSetCnt 1000 mod 2 = 1 /\
  1000 + (1000 + 15) / 16 <= 64 * CalcSetCnt 1000 < 1000 + (1000 + 15) / 16 + 128.
Proof. apply (CalcSetCnt_sizing 1000). lia. Defined.

(** ** A loaded artifact *)

Module ViewFacts.

(** The view the loader makes of an artifact of fewer than 2^40 sets. *)
Lemma CreateView_geometry data v :
  CreateView data = Some v -> h_set_cnt (Header_at data) < 2 ^ 40 ->
  let hd := Header_at data in
  let n := h_set_cnt hd in
  1 <= n /\
  v_type v = h_type hd /\ v_key_len v = h_key_len hd /\ v_val_len v = h_val_len hd /\
  v_seed v = h_seed hd /\ v_item v = h_item hd /\
  1 <= v_key_len v <= 255 /\ 0 <= v_val_len v < 2 ^ 16 /\
  v_line_size v = v_key_len v + v_val_len v /\
  v_set_cnt v = Divisor.make n /\
  v_guide v = 64 /\ v_content v = 64 + 64 * n /\
  v_extend v = 64 + 64 * n + 64 * n * v_line_size v /\
  v_space_end v = Z.of_nat (length data) /\
  v_extend v + (if v_type v =? KV_SEPARATED then 64 * n else 0) <= v_space_end v /\
  LoaderFacts.lengths_fit_type hd.
Proof.
  intros Hv Hcnt hd n.
  assert (Hsome : CreateView data <> None) by (rewrite Hv; discriminate).
  apply LoaderFacts.CreateView_some in Hsome; [|exact Hcnt].
  destruct Hsome as (Hsize & Hmagic & Hnz & Hfit & Hleast).
  fold hd in Hmagic, Hnz, Hfit, Hleast, Hcnt. fold n in Hnz, Hcnt.
  assert (Hk : 0 <= h_key_len hd < 256) by apply VarintFacts.rd_byte.
  assert (Hvl : 0 <= h_val_len hd < 2 ^ 16) by apply LoaderFacts.load16_range.
  assert (Hs : 0 <= n < 2 ^ 64) by apply LoaderFacts.load64_range.
  assert (Hk1 : h_key_len hd <> 0).
  { destruct Hfit as [[_ H]|[[_ [H _]]|[_ [H _]]]]; exact H. }
  revert Hv. unfold CreateView. fold hd. fold n.
  rewrite Z.shiftl_mul_pow2 by lia. change (2 ^ 6) with 64.
  rewrite (DivisorFacts.wrap64_small (n * 64)) by lia.
  rewrite (DivisorFacts.wrap32_small (h_key_len hd + h_val_len hd)) by lia.
  assert (Hprod : 0 <= n * 64 * (h_key_len hd + h_val_len hd) < 2 ^ 63) by nia.
  rewrite (DivisorFacts.wrap64_small (64 + n * 64)) by lia.
  rewrite (DivisorFacts.wrap64_small (n * 64 * _)) by lia.
  rewrite (DivisorFacts.wrap64_small (64 + n * 64 + _)) by lia.
  rewrite (DivisorFacts.wrap64_small (64 + n * 64 + _ + n * 64)) by lia.
  intros Hv.
  repeat match type of Hv with
         | (if ?c then _ else _) = _ => destruct c eqn:?; [discriminate|]
         end.
  match type of Hv with Some ?w = _ => assert (E : v = w) by congruence end.
  rewrite E.
  cbn [v_type v_key_len v_val_len v_seed v_item v_line_size v_set_cnt v_guide v_content
       v_extend v_space_end].
  unfold LoaderFacts.least_size in Hleast. fold n in Hleast.
  repeat split; try lia; try exact Hfit.
  destruct (h_type hd =? KV_SEPARATED); lia.
Qed.

(** A handle that is not null was made from a file the loader accepted. *)
Lemma loaded_view data :
  Hashtable_not (Hashtable_load (Some data)) = false ->
  CreateView data = Some (m_view (Hashtable_load (Some data))) /\
  Hashtable_mem (Hashtable_load (Some data)) = data.
Proof.
  unfold Hashtable_load. destruct (CreateView data) as [v|]; [|discriminate].
  intros _. split; reflexivity.
Qed.

End ViewFacts.

(** X10.  The handle of an artifact of fewer than 2^40 sets that loaded:
    [type()], [key_len()], [val_len()] and [item()] return the fields of
    the header, the key length is at least 1, and guide, content and extend
    lie one behind the other from byte 64 on, one guide byte and one row of
    [key_len + val_len] bytes per slot, all within the file; a KV_SEPARATED
    file holds at least one byte of extend per slot. *)
Theorem loaded_handle_layout (data : list Z) :
  let h := Hashtable_load (Some data) in
  let hd := Header_at data in
  let slots := 64 * h_set_cnt hd in
  Hashtable_not h = false -> h_set_cnt hd < 2 ^ 40 ->
  (Hashtable_type h = h_type hd /\ Hashtable_key_len h = h_key_len hd /\
   Hashtable_val_len h = h_val_len hd /\ Hashtable_item h = h_item hd) /\
  (Hashtable_type h = KEY_SET \/ Hashtable_type h = KV_INLINE \/
   Hashtable_type h = KV_SEPARATED) /\
  1 <= Hashtable_key_len h <= 255 /\
  64 <= slots /\
  v_line_size (m_view h) = Hashtable_key_len h + Hashtable_val_len h /\
  v_guide (m_view h) = 64 /\
  v_content (m_view h) = v_guide (m_view h) + slots /\
  v_extend (m_view h) = v_content (m_view h) + slots * v_line_size (m_view h) /\
  v_extend (m_view h) <= v_space_end (m_view h) /\
  v_space_end (m_view h) = Z.of_nat (length data) /\
  (Hashtable_type h = KV_SEPARATED -> v_extend (m_view h) + slots <= v_space_end (m_view h)).
Proof.
  intros h hd slots Hnot Hcnt.
  destruct (ViewFacts.loaded_view data Hnot) as [Hv _]. fold h in Hv.
  destruct (ViewFacts.CreateView_geometry data (m_view h) Hv Hcnt)
    as (Hn & Hty & Hkl & Hvl & Hsd & Hit & Hk & Hvr & Hls & Hsc & Hg & Hc & He & Hse & Hfit
        & Hlen).
  fold hd in Hn, Hty, Hkl, Hvl, Hsd, Hit, Hsc, Hc, He, Hfit, Hlen.
  unfold Hashtable_type, Hashtable_key_len, Hashtable_val_len, Hashtable_item, slots.
  split; [repeat split; assumption|]. split.
  { rewrite Hty. destruct Hlen as [[H _]|[[H _]|[H _]]]; auto. }
  split; [exact Hk|]. split; [lia|]. split; [exact Hls|]. split; [exact Hg|].
  split; [lia|]. split; [lia|].
  split; [destruct (v_type (m_view h) =? KV_SEPARATED); lia|]. split; [exact Hse|].
  intros Hsep. rewrite Hsep, Z.eqb_refl in Hfit. lia.
Qed.

Lemma loaded_handle_layout_witness :
  Hashtable_key_len (Hashtable_load (Some keyset_with_values)) = 1 /\
  v_extend (m_view (Hashtable_load (Some keyset_with_values))) = 64 + 64 + 64 * 6.
Proof.
  pose proof (loaded_handle_layout keyset_with_values) as H. cbv zeta in H.
  specialize (H ltac:(vm_compute; reflexivity) ltac:(vm_compute; reflexivity)).
  destruct H as ((_ & Hk & _) & _ & _ & _ & Hls & Hg & Hc & He & _).
  split; [rewrite Hk; vm_compute; reflexivity|].
  rewrite He, Hc, Hg, Hls. vm_compute. reflexivity.
Defined.

(** ** [Search] along the chain of a key *)

Module SearchFacts.
Import MappingFacts TerminationFacts.

(** What [Search] makes of a slot: the key is there, the chain ends, or
    the slot holds another key. *)
Inductive Slot : Type := SHit | SStop | SPass.

Section Table.

Variable pack : View.
Variables mem key : list Z.
Variable n : Z.
Hypothesis Hn : 1 <= n < 2 ^ 40.
Hypothesis Hcnt : v_set_cnt pack = Divisor.make n.
Hypothesis Hls : 0 <= v_line_size pack < 2 ^ 17.
Variables mark sft : Z.
Hypothesis Hmark : 0 <= mark < 128.
Hypothesis Hsft : 0 <= sft < 64.

(** The row of slot [i]. *)
Definition row (i : Z) : Z := v_content pack + i * v_line_size pack.

Definition look (i : Z) : Slot :=
  let m := rd mem (v_guide pack + i) in
  if m =? mark then
    if Equal (bytes_at key 0 (Z.to_nat (v_key_len pack)))
             (bytes_at mem (row i) (Z.to_nat (v_key_len pack))) (v_key_len pack)
    then SHit else SPass
  else if 128 <=? m then SStop else SPass.

Definition outcome (i : Z) : option (option Z) :=
  match look i with
  | SHit => Some (Some (row i + v_key_len pack))
  | SStop => Some None
  | SPass => None
  end.

Lemma HANDLE_SLOT_look set pos : 0 <= set < n -> 0 <= pos < 64 ->
  HANDLE_SLOT pack mem key set mark pos = outcome (64 * set + pos).
Proof.
  intros Hset Hpos. unfold HANDLE_SLOT, outcome, look, row, line_of.
  rewrite Z.shiftl_mul_pow2 by lia. change (2 ^ 6) with 64.
  rewrite (DivisorFacts.wrap64_small (set * 64)) by lia.
  rewrite (DivisorFacts.wrap64_small ((set * 64 + pos) * v_line_size pack)) by nia.
  replace (v_guide pack + set * 64 + pos) with (v_guide pack + (64 * set + pos)) by lia.
  replace (set * 64 + pos) with (64 * set + pos) by lia.
  destruct (rd mem (v_guide pack + (64 * set + pos)) =? mark).
  - destruct (Equal _ _ _); reflexivity.
  - rewrite VarintFacts.land128_byte by apply VarintFacts.rd_byte.
    destruct (Z.ltb_spec (rd mem (v_guide pack + (64 * set + pos))) 128);
      destruct (Z.leb_spec 128 (rd mem (v_guide pack + (64 * set + pos))));
      try lia; reflexivity.
Qed.

(** The slot at position [p] of the chain that starts in [set]. *)
Definition chain (set : Z) (p : nat) : Z :=
  64 * set_after (Divisor.make n) (p / 64) set + off_of sft (p mod 64).

Lemma chain_range set p : 0 <= set < n -> 0 <= chain set p < 64 * n.
Proof.
  intros Hset. unfold chain.
  pose proof (set_after_range n Hn (p / 64) set Hset).
  pose proof (Z.mod_pos_bound (sft + Z.of_nat (p mod 64)) 64 ltac:(lia)).
  rewrite off_of_mod. lia.
Qed.

Lemma chain_next set p :
  chain (next_set set (Divisor.make n)) p = chain set (p + 64).
Proof.
  unfold chain. replace (p + 64)%nat with (p + 1 * 64)%nat by lia.
  rewrite Nat.div_add, Nat.Div0.mod_add by lia.
  replace (p / 64 + 1)%nat with (S (p / 64)) by lia. reflexivity.
Qed.

(** The first [m] positions from [p] on that do not let the search pass. *)
Fixpoint scan_chain (set : Z) (m p : nat) : option (option Z) :=
  match m with
  | O => None
  | S m' =>
      match outcome (chain set p) with
      | Some r => Some r
      | None => scan_chain set m' (S p)
      end
  end.

Lemma scan_chain_app set a : forall b p,
  scan_chain set (a + b) p
  = match scan_chain set a p with
    | Some r => Some r
    | None => scan_chain set b (p + a)
    end.
Proof.
  induction a as [|a IH]; intros b p.
  - cbn. now rewrite Nat.add_0_r.
  - cbn [Nat.add scan_chain]. destruct (outcome (chain set p)); [reflexivity|].
    rewrite IH. replace (S p + a)%nat with (p + S a)%nat by lia. reflexivity.
Qed.

Lemma scan_chain_next set m : forall p,
  scan_chain (next_set set (Divisor.make n)) m p = scan_chain set m (p + 64).
Proof.
  induction m as [|m IH]; intros p; [reflexivity|].
  cbn [scan_chain]. rewrite chain_next. destruct (outcome _); [reflexivity|].
  rewrite IH. reflexivity.
Qed.

(** The search ends at the first position that does not let it pass. *)
Lemma scan_chain_stop set : forall i m p r, (i < m)%nat ->
  (forall q, (q < i)%nat -> outcome (chain set (p + q)) = None) ->
  outcome (chain set (p + i)) = Some r ->
  scan_chain set m p = Some r.
Proof.
  induction i as [|i IH]; intros m p r Hi Hpass Hstop; (destruct m as [|m]; [lia|]).
  - cbn [scan_chain]. rewrite Nat.add_0_r in Hstop. now rewrite Hstop.
  - cbn [scan_chain]. rewrite <- (Nat.add_0_r p) at 1. rewrite (Hpass 0%nat) by lia.
    apply (IH m (S p) r); [lia| |].
    + intros q Hq. replace (S p + q)%nat with (p + S q)%nat by lia. apply Hpass. lia.
    + replace (S p + i)%nat with (p + S i)%nat by lia. exact Hstop.
Qed.

Lemma scan_chain_some set : forall m p r,
  scan_chain set m p = Some r ->
  exists i, (i < m)%nat /\
    (forall q, (q < i)%nat -> outcome (chain set (p + q)) = None) /\
    outcome (chain set (p + i)) = Some r.
Proof.
  induction m as [|m IH]; intros p r H; [discriminate|].
  cbn [scan_chain] in H. destruct (outcome (chain set p)) as [r'|] eqn:Ho.
  - injection H as ->. exists 0%nat. split; [lia|]. split; [intros q Hq; lia|].
    now rewrite Nat.add_0_r.
  - destruct (IH (S p) r H) as (i & Hi & Hpass & Hstop). exists (S i).
    split; [lia|]. split.
    + intros q Hq. destruct q as [|q]; [now rewrite Nat.add_0_r|].
      replace (p + S q)%nat with (S p + q)%nat by lia. apply Hpass. lia.
    + replace (p + S i)%nat with (S p + i)%nat by lia. exact Hstop.
Qed.

(** The slots of one set, as [Search] handles them. *)
Lemma walk_scan set : 0 <= set < n -> forall m c, (c + m <= 64)%nat ->
  ScanFacts.walk pack mem key set mark m (sft + Z.of_nat c) = scan_chain set m c.
Proof.
  intros Hset. induction m as [|m IH]; intros c Hc; [reflexivity|].
  cbn [ScanFacts.walk scan_chain].
  pose proof (Z.mod_pos_bound (sft + Z.of_nat c) 64 ltac:(lia)) as Hoff.
  fold (off_of sft c). rewrite off_of_mod.
  rewrite HANDLE_SLOT_look by lia.
  assert (Hch : chain set c = 64 * set + (sft + Z.of_nat c) mod 64).
  { unfold chain. rewrite Nat.div_small, Nat.mod_small by lia.
    cbn [set_after]. now rewrite off_of_mod. }
  rewrite Hch. destruct (outcome _); [reflexivity|].
  replace (sft + Z.of_nat c + 1) with (sft + Z.of_nat (S c)) by lia.
  apply IH. lia.
Qed.

(** [Search] visits the chain of the key, 64 positions for each unit of
    fuel. *)
Lemma Search_loop_chain : forall fuel set, 0 <= set < n ->
  Search_loop fuel pack mem key set mark sft = scan_chain set (64 * fuel) 0.
Proof.
  intros fuel set Hset. rewrite ScanFacts.Search_loop_walk by exact Hmark.
  revert set Hset. induction fuel as [|fuel IH]; intros set Hset; [reflexivity|].
  cbn [ScanFacts.walk_sets].
  replace (64 * S fuel)%nat with (64 + 64 * fuel)%nat by lia.
  rewrite scan_chain_app.
  pose proof (walk_scan set Hset 64 0 ltac:(lia)) as Hw.
  cbn [Z.of_nat] in Hw. rewrite Z.add_0_r in Hw. rewrite Hw.
  destruct (scan_chain set 64 0); [reflexivity|].
  rewrite Hcnt, IH by (rewrite next_set_mod by lia; apply Z.mod_pos_bound; lia).
  apply scan_chain_next.
Qed.

(** A terminator somewhere in the guide ends every chain. *)
Lemma stop_within set : 0 <= set < n ->
  (exists i, 0 <= i < 64 * n /\ 128 <= rd mem (v_guide pack + i)) ->
  exists p r, (p < 64 * Z.to_nat n)%nat /\
    (forall q, (q < p)%nat -> outcome (chain set q) = None) /\
    outcome (chain set p) = Some r.
Proof.
  intros Hset (i & Hi & Hterm).
  destruct (chain_covers n Hn set sft i Hset Hsft Hi) as (d & k & Hd & Hk & Hslot).
  rewrite (slot_of_small n Hn) in Hslot by (apply set_after_range; assumption).
  set (P := fun p : nat => outcome (chain set p) <> None).
  assert (Hdec : forall p, {P p} + {~ P p}).
  { intros p. unfold P. destruct (outcome (chain set p)); [left; discriminate|right; auto]. }
  assert (Hm : P (64 * d + k)%nat).
  { unfold P, chain. rewrite pos_div, pos_mod by assumption. rewrite Hslot.
    unfold outcome, look.
    destruct (Z.eqb_spec (rd mem (v_guide pack + i)) mark) as [?|_]; [lia|].
    destruct (Z.leb_spec 128 (rd mem (v_guide pack + i))); [discriminate|lia]. }
  destruct (first_such P Hdec _ Hm) as (p & Hp & HPp & Hmin).
  unfold P in HPp. destruct (outcome (chain set p)) as [r|] eqn:Hr; [|congruence].
  exists p, r. split; [lia|]. split; [|exact Hr].
  intros q Hq. specialize (Hmin q Hq). unfold P in Hmin.
  destruct (outcome (chain set q)); [exfalso; apply Hmin; discriminate|reflexivity].
Qed.

End Table.

(** [Search] through a view with the layout the loader gives. *)
Section Loaded.

Variable Hash : list Z -> Z -> Z -> Z.
Variable p : Pack.
Variable n : Z.
Hypothesis Hn : 1 <= n < 2 ^ 40.
Hypothesis Hcnt : v_set_cnt (pk_view p) = Divisor.make n.
Hypothesis Hls : 0 <= v_line_size (pk_view p) < 2 ^ 17.

Definition mark_of (key : list Z) : Z :=
  snd (fst (HashKey Hash key (v_key_len (pk_view p)) (v_seed (pk_view p))
                    (v_set_cnt (pk_view p)))).
Definition set_of (key : list Z) : Z :=
  fst (fst (HashKey Hash key (v_key_len (pk_view p)) (v_seed (pk_view p))
                    (v_set_cnt (pk_view p)))).
Definition sft_of (key : list Z) : Z :=
  snd (HashKey Hash key (v_key_len (pk_view p)) (v_seed (pk_view p))
               (v_set_cnt (pk_view p))).

Lemma Search_chain fuel key :
  Search Hash fuel p key
  = scan_chain (pk_view p) (pk_mem p) key n (mark_of key) (sft_of key) (set_of key)
               (64 * fuel) 0.
Proof.
  unfold Search, mark_of, sft_of, set_of.
  pose proof (ScanFacts.HashKey_mark Hash key (v_key_len (pk_view p)) (v_seed (pk_view p))
                (v_set_cnt (pk_view p))) as Hmark.
  pose proof (HashKey_sft Hash key (v_key_len (pk_view p)) (v_seed (pk_view p))
                (v_set_cnt (pk_view p))) as Hsft.
  pose proof (HashKey_set Hash key (v_key_len (pk_view p)) (v_seed (pk_view p)) n
                ltac:(lia)) as Hset.
  rewrite <- Hcnt in Hset.
  destruct (HashKey Hash key _ _ _) as [[set mark] sft]. cbn [fst snd] in *.
  apply Search_loop_chain; assumption.
Qed.

Lemma lookup_set_range key : 0 <= set_of key < n.
Proof. unfold set_of. rewrite Hcnt. apply HashKey_set. lia. Qed.

Lemma lookup_sft_range key : 0 <= sft_of key < 64.
Proof. apply HashKey_sft. Qed.

Lemma lookup_mark_range key : 0 <= mark_of key < 128.
Proof. apply ScanFacts.HashKey_mark. Qed.

(** A hit is a row that holds the key. *)
Lemma Search_hit fuel key field :
  Search Hash fuel p key = Some (Some field) ->
  exists i, 0 <= i < 64 * n /\
    rd (pk_mem p) (v_guide (pk_view p) + i) = mark_of key /\
    bytes_at (pk_mem p) (row (pk_view p) i) (Z.to_nat (v_key_len (pk_view p)))
    = bytes_at key 0 (Z.to_nat (v_key_len (pk_view p))) /\
    field = row (pk_view p) i + v_key_len (pk_view p).
Proof.
  rewrite Search_chain. intros H. apply scan_chain_some in H.
  destruct H as (i & _ & _ & Hout). cbn [Nat.add] in Hout.
  pose proof (chain_range n Hn (sft_of key) (set_of key) i (lookup_set_range key)) as Hr.
  set (c := chain n (sft_of key) (set_of key) i) in *.
  exists c. split; [exact Hr|]. unfold outcome, look in Hout.
  destruct (Z.eqb_spec (rd (pk_mem p) (v_guide (pk_view p) + c)) (mark_of key)) as [Hm|Hm].
  - destruct (Equal _ _ _) eqn:He; [|discriminate]. injection Hout as <-.
    split; [exact Hm|]. split; [|reflexivity].
    symmetry. apply CodecFacts.Equal_eq. exact He.
  - destruct (128 <=? _); discriminate.
Qed.

(** A miss ended at a guide byte with the high bit set. *)
Lemma Search_miss fuel key :
  Search Hash fuel p key = Some None ->
  exists i, 0 <= i < 64 * n /\ 128 <= rd (pk_mem p) (v_guide (pk_view p) + i).
Proof.
  rewrite Search_chain. intros H. apply scan_chain_some in H.
  destruct H as (i & _ & _ & Hout). cbn [Nat.add] in Hout.
  pose proof (chain_range n Hn (sft_of key) (set_of key) i (lookup_set_range key)) as Hr.
  set (c := chain n (sft_of key) (set_of key) i) in *.
  exists c. split; [exact Hr|]. unfold outcome, look in Hout.
  destruct (rd (pk_mem p) (v_guide (pk_view p) + c) =? mark_of key).
  - destruct (Equal _ _ _); discriminate.
  - destruct (Z.leb_spec 128 (rd (pk_mem p) (v_guide (pk_view p) + c))); [lia|discriminate].
Qed.

(** With a terminator in the guide, [Search] returns within one turn of
    its outer loop per set. *)
Lemma Search_returns fuel key : (Z.to_nat n <= fuel)%nat ->
  (exists i, 0 <= i < 64 * n /\ 128 <= rd (pk_mem p) (v_guide (pk_view p) + i)) ->
  exists r, Search Hash fuel p key = Some r.
Proof.
  intros Hfuel Hterm. rewrite Search_chain.
  destruct (stop_within (pk_view p) (pk_mem p) key n Hn (mark_of key) (sft_of key)
              (lookup_mark_range key) (lookup_sft_range key) (set_of key) (lookup_set_range key) Hterm)
    as (q & r & Hq & Hpass & Hstop).
  exists r. apply (scan_chain_stop (pk_view p) (pk_mem p) key n (mark_of key) (sft_of key)
                     (set_of key) q); [lia|exact Hpass|exact Hstop].
Qed.

(** Without a terminator in the guide and without the key in a row,
    [Search] does not return. *)
Lemma Search_spins fuel key :
  (forall i, 0 <= i < 64 * n -> rd (pk_mem p) (v_guide (pk_view p) + i) < 128) ->
  (forall i, 0 <= i < 64 * n ->
     bytes_at (pk_mem p) (row (pk_view p) i) (Z.to_nat (v_key_len (pk_view p)))
     <> bytes_at key 0 (Z.to_nat (v_key_len (pk_view p)))) ->
  Search Hash fuel p key = None.
Proof.
  intros Hfull Hkey. rewrite Search_chain.
  destruct (scan_chain _ _ _ _ _ _ _ _ _) as [r|] eqn:H; [exfalso|reflexivity].
  apply scan_chain_some in H. destruct H as (i & _ & _ & Hout). cbn [Nat.add] in Hout.
  pose proof (chain_range n Hn (sft_of key) (set_of key) i (lookup_set_range key)) as Hr.
  set (c := chain n (sft_of key) (set_of key) i) in *.
  unfold outcome, look in Hout. specialize (Hfull c Hr). specialize (Hkey c Hr).
  destruct (rd (pk_mem p) (v_guide (pk_view p) + c) =? mark_of key).
  - destruct (Equal _ _ _) eqn:He; [|discriminate].
    apply CodecFacts.Equal_eq in He. congruence.
  - destruct (Z.leb_spec 128 (rd (pk_mem p) (v_guide (pk_view p) + c))); [lia|discriminate].
Qed.

End Loaded.

End SearchFacts.

(** The single lookup through a loaded handle. *)
Module LookupFacts.

(** A null slice has length 0. *)
Lemma search_null_len Hash fuel t key s :
  search Hash fuel t key = Some s -> ptr s = None -> len s = 0.
Proof.
  unfold search. destruct key as [key|]; [|intros H; injection H as <-; reflexivity].
  destruct (Hashtable_not t); [intros H; injection H as <-; reflexivity|].
  destruct (Search Hash fuel (Hashtable_pack t) key) as [[field|]|]; [| |discriminate].
  - destruct (negb _); intros H; injection H as <-; [discriminate|].
    pose proof (PrefixFacts.SeparatedValue_outcome (Hashtable_mem t)
                  (v_extend (m_view t) + ReadOffsetField (Hashtable_mem t) field)
                  (v_space_end (m_view t))) as Ho.
    revert Ho. generalize (SeparatedValue (Hashtable_mem t)
                  (v_extend (m_view t) + ReadOffsetField (Hashtable_mem t) field)
                  (v_space_end (m_view t))).
    intros r Ho Hp. unfold VarintFacts.outcome_ok in Ho. rewrite Hp in Ho. exact (proj1 Ho).
  - intros H. injection H as <-. reflexivity.
Qed.

Section Handle.

Variable Hash : list Z -> Z -> Z -> Z.
Variable data : list Z.
Hypothesis Hnot : Hashtable_not (Hashtable_load (Some data)) = false.
Hypothesis Hcnt : h_set_cnt (Header_at data) < 2 ^ 40.

Let h := Hashtable_load (Some data).
Let n := h_set_cnt (Header_at data).

Lemma handle_pack : Hashtable_pack h = mkPack (m_view h) data.
Proof.
  unfold Hashtable_pack. f_equal. exact (proj2 (ViewFacts.loaded_view data Hnot)).
Qed.

Lemma handle_geometry :
  1 <= n < 2 ^ 40 /\
  v_set_cnt (m_view h) = Divisor.make n /\
  0 <= v_line_size (m_view h) < 2 ^ 17 /\
  v_line_size (m_view h) = v_key_len (m_view h) + v_val_len (m_view h) /\
  1 <= v_key_len (m_view h) <= 255 /\ 0 <= v_val_len (m_view h) < 2 ^ 16 /\
  v_guide (m_view h) = 64 /\ v_content (m_view h) = 64 + 64 * n /\
  v_extend (m_view h) = 64 + 64 * n + 64 * n * v_line_size (m_view h) /\
  v_space_end (m_view h) = Z.of_nat (length data) /\
  v_extend (m_view h) <= Z.of_nat (length data).
Proof.
  destruct (ViewFacts.loaded_view data Hnot) as [Hv _]. fold h in Hv.
  destruct (ViewFacts.CreateView_geometry data (m_view h) Hv Hcnt)
    as (Hn & _ & _ & _ & _ & _ & Hk & Hvr & Hls & Hsc & Hg & Hc & He & Hse & Hfit & _).
  fold n in Hn, Hsc, Hc, He, Hfit.
  repeat split; try assumption; try lia.
  destruct (v_type (m_view h) =? KV_SEPARATED); lia.
Qed.

(** A lookup that does not miss found a row holding the key. *)
Lemma search_found fuel key s : search Hash fuel h (Some key) = Some s ->
  ptr s <> None ->
  exists field, Search Hash fuel (Hashtable_pack h) key = Some (Some field) /\
    if v_type (m_view h) =? KV_SEPARATED
    then s = SeparatedValue data (v_extend (m_view h) + ReadOffsetField data field)
                            (v_space_end (m_view h))
    else s = mkSlice (Some field) (v_val_len (m_view h)).
Proof.
  unfold search. unfold h at 1. rewrite Hnot.
  assert (Hmem : Hashtable_mem h = data) by exact (proj2 (ViewFacts.loaded_view data Hnot)).
  rewrite Hmem.
  destruct (Search Hash fuel (Hashtable_pack h) key) as [[field|]|]; [| |discriminate].
  - intros Hs _. exists field. split; [reflexivity|].
    destruct (v_type (m_view h) =? KV_SEPARATED); cbn [negb] in Hs; congruence.
  - intros Hs Hp. injection Hs as <-. now contradiction Hp.
Qed.

End Handle.

End LookupFacts.

(** X11.  No false hits: when [search] through the handle of a loaded file
    whose header announces fewer than 2^40 sets (so that the size
    arithmetic of the loader did not wrap) returns a slice that is not
    null, one of the slots of the table has a mark (a byte below 128) in
    its guide byte and the bytes of the key in its row.  For KEY_SET and
    KV_INLINE the slice is the value field of that row, of [val_len]
    bytes. *)
Theorem search_hit_holds_key (Hash : list Z -> Z -> Z -> Z) (data key : list Z)
    (fuel : nat) (s : Slice Z) :
  let h := Hashtable_load (Some data) in
  let n := h_set_cnt (Header_at data) in
  Hashtable_not h = false -> n < 2 ^ 40 ->
  search Hash fuel h (Some key) = Some s -> ptr s <> None ->
  exists i, 0 <= i < 64 * n /\
    rd data (v_guide (m_view h) + i) < 128 /\
    bytes_at data (v_content (m_view h) + i * v_line_size (m_view h))
             (Z.to_nat (Hashtable_key_len h))
    = bytes_at key 0 (Z.to_nat (Hashtable_key_len h)) /\
    (Hashtable_type h <> KV_SEPARATED ->
     s = mkSlice (Some (v_content (m_view h) + i * v_line_size (m_view h)
                        + Hashtable_key_len h))
                 (Hashtable_val_len h)).
Proof.
  cbv zeta. intros Hnot Hcnt Hs Hp.
  destruct (LookupFacts.handle_geometry data Hnot Hcnt) as (Hn & Hsc & Hls & _).
  destruct (LookupFacts.search_found Hash data Hnot fuel key s Hs Hp)
    as (field & HS & Hslice).
  rewrite (LookupFacts.handle_pack data Hnot) in HS.
  set (h := Hashtable_load (Some data)) in *.
  destruct (SearchFacts.Search_hit Hash (mkPack (m_view h) data)
              (h_set_cnt (Header_at data)) Hn Hsc Hls fuel key field HS)
    as (i & Hi & Hm & Hk & Hf).
  cbn [pk_view pk_mem] in *.
  exists i. split; [exact Hi|]. split.
  { rewrite Hm.
    apply (SearchFacts.lookup_mark_range Hash (mkPack (m_view h) data) key). }
  split; [exact Hk|].
  unfold Hashtable_type. intros Hty.
  destruct (Z.eqb_spec (v_type (m_view h)) KV_SEPARATED) as [?|_]; [contradiction|].
  rewrite Hslice, Hf. reflexivity.
Qed.

Lemma search_hit_holds_key_witness :
  exists i, 0 <= i < 64 * h_set_cnt (Header_at two_values) /\
    rd two_values (v_guide (m_view (Hashtable_load (Some two_values))) + i) < 128 /\
    bytes_at two_values
      (v_content (m_view (Hashtable_load (Some two_values)))
       + i * v_line_size (m_view (Hashtable_load (Some two_values))))
      (Z.to_nat (Hashtable_key_len (Hashtable_load (Some two_values))))
    = bytes_at [107] 0 (Z.to_nat (Hashtable_key_len (Hashtable_load (Some two_values)))) /\
    (Hashtable_type (Hashtable_load (Some two_values)) <> KV_SEPARATED ->
     mkSlice (Some 139) 1
     = mkSlice (Some (v_content (m_view (Hashtable_load (Some two_values)))
                      + i * v_line_size (m_view (Hashtable_load (Some two_values)))
                      + Hashtable_key_len (Hashtable_load (Some two_values))))
               (Hashtable_val_len (Hashtable_load (Some two_values)))).
Proof.
  apply (search_hit_holds_key toy_hash two_values [107] 1 (mkSlice (Some 139) 1)).
  - vm_compute. reflexivity.
  - vm_compute. reflexivity.
  - vm_compute. reflexivity.
  - discriminate.
Defined.

(** X12.  Every slice [search] returns through the handle of a loaded file
    whose header announces fewer than 2^40 sets lies in the file: it is the
    null slice [{nullptr, 0}], or it starts behind the guide and ends at or
    before the last byte of the file, for all three table types.  (With a
    set count that makes the size arithmetic of the loader wrap, a slice
    behind the end of the file is returned.) *)
Theorem search_slice_in_file (Hash : list Z -> Z -> Z -> Z) (data : list Z)
    (key : option (list Z)) (fuel : nat) (s : Slice Z) :
  let h := Hashtable_load (Some data) in
  Hashtable_not h = false -> h_set_cnt (Header_at data) < 2 ^ 40 ->
  search Hash fuel h key = Some s ->
  match ptr s with
  | None => len s = 0
  | Some p =>
      v_content (m_view h) <= p /\ 0 <= len s /\ p + len s <= Z.of_nat (length data)
  end.
Proof.
  cbv zeta. intros Hnot Hcnt Hs.
  destruct key as [key|]; [|injection Hs as <-; reflexivity].
  destruct (ptr s) as [p|] eqn:Hp.
  2:{ exact (LookupFacts.search_null_len Hash fuel _ _ s Hs Hp). }
  destruct (LookupFacts.handle_geometry data Hnot Hcnt)
    as (Hn & Hsc & Hls & Hlsv & Hkl & Hvl & Hg & Hc & He & Hse & Hfit).
  destruct (LookupFacts.search_found Hash data Hnot fuel key s Hs
              ltac:(rewrite Hp; discriminate)) as (field & HS & Hslice).
  rewrite (LookupFacts.handle_pack data Hnot) in HS.
  set (h := Hashtable_load (Some data)) in *.
  destruct (SearchFacts.Search_hit Hash (mkPack (m_view h) data)
              (h_set_cnt (Header_at data)) Hn Hsc Hls fuel key field HS)
    as (i & Hi & _ & _ & Hf).
  cbn [pk_view pk_mem] in *. unfold SearchFacts.row in Hf.
  destruct (v_type (m_view h) =? KV_SEPARATED).
  - pose proof (PrefixFacts.SeparatedValue_outcome data
                  (v_extend (m_view h) + ReadOffsetField data field)
                  (v_space_end (m_view h))) as Ho.
    rewrite <- Hslice in Ho. unfold VarintFacts.outcome_ok in Ho. rewrite Hp in Ho.
    destruct Ho as (k & Hk & Hpk & _ & _ & _ & Hlen & Hend).
    assert (0 <= ReadOffsetField data field).
    { unfold ReadOffsetField. apply Z.lor_nonneg. split.
      - apply Z.mod_pos_bound. lia.
      - apply LoaderFacts.load32_range. }
    nia.
  - rewrite Hslice in Hp. cbn [ptr] in Hp. injection Hp as <-. rewrite Hslice. cbn [len].
    nia.
Qed.

Lemma search_slice_in_file_witness :
  v_content (m_view (Hashtable_load (Some two_values))) <= 139 /\ 0 <= 1 /\
  139 + 1 <= Z.of_nat (length two_values).
Proof.
  apply (search_slice_in_file toy_hash two_values (Some [107]) 1 (mkSlice (Some 139) 1)).
  - vm_compute. reflexivity.
  - vm_compute. reflexivity.
  - vm_compute. reflexivity.
Defined.

(** X13.  The single lookup through the handle of a loaded file whose
    header announces fewer than 2^40 sets returns whenever the guide of the
    table has a byte with the high bit set (an empty slot) in one of its
    slots: [Search] then leaves its outer loop after at most one turn per
    set. *)
Theorem search_returns (Hash : list Z -> Z -> Z -> Z) (data : list Z)
    (key : option (list Z)) (fuel : nat) :
  let h := Hashtable_load (Some data) in
  let n := h_set_cnt (Header_at data) in
  Hashtable_not h = false -> n < 2 ^ 40 -> (Z.to_nat n <= fuel)%nat ->
  (exists i, 0 <= i < 64 * n /\ 128 <= rd data (v_guide (m_view h) + i)) ->
  exists s, search Hash fuel h key = Some s.
Proof.
  cbv zeta. intros Hnot Hcnt Hfuel Hterm.
  destruct key as [key|]; [|exists null_slice; reflexivity].
  destruct (LookupFacts.handle_geometry data Hnot Hcnt) as (Hn & Hsc & Hls & _).
  unfold search. rewrite Hnot. rewrite (LookupFacts.handle_pack data Hnot).
  set (h := Hashtable_load (Some data)) in *.
  destruct (SearchFacts.Search_returns Hash (mkPack (m_view h) data)
              (h_set_cnt (Header_at data)) Hn Hsc Hls fuel key Hfuel Hterm) as [r Hr].
  rewrite Hr. destruct r as [field|]; [|now eexists].
  destruct (negb _); now eexists.
Qed.

Lemma search_returns_witness :
  exists s, search toy_hash 1 (Hashtable_load (Some two_values)) (Some [109]) = Some s.
Proof.
  apply (search_returns toy_hash two_values (Some [109]) 1).
  - vm_compute. reflexivity.
  - vm_compute. reflexivity.
  - vm_compute. lia.
  - exists 0. split; [vm_compute; split; [discriminate|reflexivity]|].
    vm_compute. discriminate.
Defined.

(** X14.  The loader does not look at the guide.  Through the handle of a
    loaded file whose header announces fewer than 2^40 sets and whose guide
    has no byte with the high bit set in any slot (a full table), the
    lookup of a key that no row holds does not return: the outer loop of
    [Search] goes round the sets for ever. *)
Theorem search_full_table_spins (Hash : list Z -> Z -> Z -> Z) (data key : list Z) :
  let h := Hashtable_load (Some data) in
  let n := h_set_cnt (Header_at data) in
  Hashtable_not h = false -> n < 2 ^ 40 ->
  (forall i, 0 <= i < 64 * n -> rd data (v_guide (m_view h) + i) < 128) ->
  (forall i, 0 <= i < 64 * n ->
     bytes_at data (v_content (m_view h) + i * v_line_size (m_view h))
              (Z.to_nat (Hashtable_key_len h))
     <> bytes_at key 0 (Z.to_nat (Hashtable_key_len h))) ->
  forall fuel, search Hash fuel h (Some key) = None.
Proof.
  cbv zeta. intros Hnot Hcnt Hfull Hkey fuel.
  destruct (LookupFacts.handle_geometry data Hnot Hcnt) as (Hn & Hsc & Hls & _).
  unfold search. rewrite Hnot. rewrite (LookupFacts.handle_pack data Hnot).
  set (h := Hashtable_load (Some data)) in *.
  rewrite (SearchFacts.Search_spins Hash (mkPack (m_view h) data)
             (h_set_cnt (Header_at data)) Hn Hsc Hls fuel key Hfull Hkey).
  reflexivity.
Qed.

(** A KEY_SET file of one set whose 64 slots all hold the key [k]. *)
Definition full_keyset : list Z :=
  Header_bytes (mkHeader SSHT_MAGIC KEY_SET 1 0 0 64 1) ++ repeat 0 64 ++ repeat 107 64.

Lemma search_full_table_spins_witness :
  search (fun _ _ _ => 0) 1000 (Hashtable_load (Some full_keyset)) (Some [108]) = None.
Proof.
  refine (search_full_table_spins (fun _ _ _ => 0) full_keyset [108] _ _ _ _ 1000%nat).
  - vm_compute. reflexivity.
  - vm_compute. reflexivity.
  - intros i Hi. change (h_set_cnt (Header_at full_keyset)) with 1 in Hi.
    change (v_guide (m_view (Hashtable_load (Some full_keyset)))) with 64.
    unfold rd. remember (Z.to_nat i) as k eqn:Ek.
    replace (Z.to_nat (64 + i)) with (64 + k)%nat by lia.
    assert (Hk : (k < 64)%nat) by lia. clear Ek Hi.
    do 64 (destruct k as [|k]; [vm_compute; reflexivity|]). lia.
  - intros i Hi. change (h_set_cnt (Header_at full_keyset)) with 1 in Hi.
    change (v_content (m_view (Hashtable_load (Some full_keyset)))) with 128.
    change (v_line_size (m_view (Hashtable_load (Some full_keyset)))) with 1.
    change (Z.to_nat (Hashtable_key_len (Hashtable_load (Some full_keyset)))) with 1%nat.
    remember (Z.to_nat i) as k eqn:Ek.
    replace (128 + i * 1) with (128 + Z.of_nat k) by lia.
    assert (Hk : (k < 64)%nat) by lia. clear Ek Hi.
    do 64 (destruct k as [|k]; [vm_compute; discriminate|]). lia.
Defined.

(** ** What a build leaves in the table *)

Module TableFacts.
Import MappingFacts TerminationFacts BufferFacts.

Lemma Equal_sym a b len_ : Equal a b len_ = Equal b a len_.
Proof.
  unfold Equal. rewrite (Z.eqb_sym (le_pack a)).
  assert (Hl : forall x y, list_eqb x y = list_eqb y x).
  { induction x as [|u x IH]; intros [|v y]; cbn [list_eqb]; try reflexivity.
    now rewrite (Z.eqb_sym u), IH. }
  now rewrite (Hl a b).
Qed.

(** The records the next [turns] reads of a reader return. *)
Fixpoint pull {R : Type} `{IDataReader R} (turns : nat) (r : R) : res (list Rec * R) :=
  match turns with
  | O => Done ([], r)
  | S turns' =>
      '(rec, r) <- read false r ;;
      '(recs, r) <- pull turns' r ;;
      Done (rec :: recs, r)
  end.

Section Table.

Variable Hash : list Z -> Z -> Z -> Z.
Variable header : Header.
Variable n : Z.
Hypothesis Hn : 1 <= n < 2 ^ 40.
Hypothesis Hkl : 1 <= h_key_len header <= 255.
Hypothesis Hvl : 0 <= h_val_len header < 2 ^ 16.

Local Abbreviation kl := (h_key_len header).
Local Abbreviation vl := (h_val_len header).
Local Abbreviation ls := (h_key_len header + h_val_len header).
Local Abbreviation set_of := (BuildFacts.set_of Hash header n).
Local Abbreviation mark_of := (BuildFacts.mark_of Hash header n).
Local Abbreviation sft_of := (BuildFacts.sft_of Hash header n).

(** The slot the chain of [key] reaches after [d] sets and [k] slots. *)
Definition slot_at (key : list Z) (d k : nat) : Z :=
  64 * set_after (Divisor.make n) d (set_of key) + off_of (sft_of key) k.

Lemma slot_at_range key d k : 0 <= slot_at key d k < 64 * n.
Proof.
  unfold slot_at.
  pose proof (set_after_range n Hn d (set_of key) (BuildFacts.set_of_range Hash header n Hn key)).
  pose proof (Z.mod_pos_bound (sft_of key + Z.of_nat k) 64 ltac:(lia)).
  rewrite off_of_mod. lia.
Qed.

Lemma off_of_range sft k : 0 <= off_of sft k < 64.
Proof. rewrite off_of_mod. apply Z.mod_pos_bound. lia. Qed.

(** An entry of the table: the bytes of a key and the bytes of its value
    field. *)
Definition Entry : Type := (list Z * list Z)%type.

(** The entry is found on the chain of its key, with its value behind the
    key. *)
Definition holds (guide space : list Z) (e : Entry) : Prop :=
  exists d k, (d < Z.to_nat n)%nat /\ (k < 64)%nat /\
    chain_clear header (Divisor.make n) (fst e) guide space (mark_of (fst e))
                (set_of (fst e)) (sft_of (fst e)) d k /\
    probe header (fst e) guide space (mark_of (fst e))
          (set_after (Divisor.make n) d (set_of (fst e))) (off_of (sft_of (fst e)) k) = KDup /\
    bytes_at space (slot_at (fst e) d k * ls + kl) (Z.to_nat vl) = snd e.

(** The table after the entries [es] were installed. *)
Record Table (guide space : list Z) (es : list Entry) : Prop := mkTable {
  tb_guide_len : Z.of_nat (length guide) = 64 * n;
  tb_space_len : Z.of_nat (length space) = 64 * n * ls;
  tb_quiet : quiescent n guide;
  tb_occupied : occupied guide = Z.of_nat (length es);
  tb_holds : forall e, In e es -> holds guide space e;
  tb_rows : forall i, 0 <= i < 64 * n -> rd guide i < 128 ->
    exists e, In e es /\ bytes_at space (i * ls) (Z.to_nat kl) = fst e /\
              bytes_at space (i * ls + kl) (Z.to_nat vl) = snd e;
  tb_keys : forall e, In e es -> bytes_at (fst e) 0 (Z.to_nat kl) = fst e;
  tb_nodup : NoDup (map fst es)
}.

Lemma Table_initial :
  Table (repeat 0xff (Z.to_nat (64 * n))) (repeat 0 (Z.to_nat (64 * n * ls))) [].
Proof.
  constructor.
  - rewrite repeat_length. lia.
  - rewrite repeat_length, Z2Nat.id; [reflexivity|nia].
  - intros i Hi. left. rewrite (BuildFacts.rd_repeat header) by lia. reflexivity.
  - rewrite BuildFacts.occupied_repeat_free. reflexivity.
  - intros e [].
  - intros i Hi Hocc. rewrite (BuildFacts.rd_repeat header) in Hocc by lia.
    change (wrap8 255) with 255 in Hocc. lia.
  - intros e [].
  - constructor.
Qed.

(** What the probe of a slot says about the table. *)
Lemma probe_dup_inv key guide space mark set off :
  0 <= set < n -> 0 <= off < 64 ->
  probe header key guide space mark set off = KDup ->
  rd guide (64 * set + off) = mark /\ rd guide (64 * set + off) < 128 /\
  bytes_at space ((64 * set + off) * ls) (Z.to_nat kl) = bytes_at key 0 (Z.to_nat kl).
Proof.
  intros Hset Hoff. unfold probe.
  rewrite (slot_of_small n Hn) by assumption.
  rewrite (BuildFacts.row_of_small header n Hn Hkl Hvl) by assumption.
  destruct (rd guide (64 * set + off) =? 255); [discriminate|].
  rewrite VarintFacts.land128_byte by apply VarintFacts.rd_byte.
  destruct (Z.ltb_spec (rd guide (64 * set + off)) 128) as [Hlt|Hge]; cbn [negb];
    [|discriminate].
  destruct (Z.eqb_spec (rd guide (64 * set + off)) mark) as [Hm|Hm]; cbn [andb];
    [|discriminate].
  destruct (Equal _ _ _) eqn:He; [|discriminate]. intros _.
  split; [exact Hm|]. split; [exact Hlt|]. now apply CodecFacts.Equal_eq.
Qed.

Lemma probe_dup key guide space mark set off :
  0 <= set < n -> 0 <= off < 64 -> 0 <= mark < 128 ->
  rd guide (64 * set + off) = mark ->
  bytes_at space ((64 * set + off) * ls) (Z.to_nat kl) = bytes_at key 0 (Z.to_nat kl) ->
  probe header key guide space mark set off = KDup.
Proof.
  intros Hset Hoff Hmark Hm Hk. unfold probe.
  rewrite (slot_of_small n Hn) by assumption.
  rewrite (BuildFacts.row_of_small header n Hn Hkl Hvl) by assumption.
  rewrite Hm. destruct (Z.eqb_spec mark 255) as [?|_]; [lia|].
  rewrite VarintFacts.land128_byte by (unfold HintFacts.is_byte; lia).
  destruct (Z.ltb_spec mark 128) as [_|?]; [|lia]. cbn [negb].
  rewrite Z.eqb_refl, Hk, Equal_refl. reflexivity.
Qed.

(** Mapping one record. *)
Section Step.

Variable rec : Rec.
Variable b : list Z.
Hypothesis Hkey : ptr (key rec) = Some b.
Hypothesis Hval : vl <> 0 -> exists vb, ptr (val rec) = Some vb.

Definition key_of (r : Rec) : list Z := slice_bytes (key r) kl.

Definition value_of (r : Rec) : list Z :=
  if vl =? 0 then [] else slice_bytes (val r) vl.

Definition entry_of (r : Rec) : Entry := (key_of r, value_of r).

Lemma key_of_canonical : bytes_at (key_of rec) 0 (Z.to_nat kl) = key_of rec.
Proof.
  unfold key_of. rewrite (BuildFacts.key_bytes header rec b Hkey). apply bytes_at_idem.
Qed.

(** The value field [fill_record] leaves in the row. *)
Lemma fill_record_value space space' set off :
  0 <= set < n -> 0 <= off < 64 -> Z.of_nat (length space) = 64 * n * ls ->
  fill_record header rec (row_of header set off) space tt = Done (space', tt) ->
  bytes_at space' ((64 * set + off) * ls + kl) (Z.to_nat vl) = value_of rec.
Proof.
  intros Hset Hoff Hlen.
  rewrite (BuildFacts.row_of_small header n Hn Hkl Hvl) by assumption.
  set (row := (64 * set + off) * ls).
  assert (Hrow : 0 <= row /\ row + ls <= 64 * n * ls) by (subst row; nia).
  unfold fill_record, value_of.
  destruct (Z.eqb_spec vl 0) as [Hz|Hz]; cbn [negb].
  - intros _. rewrite Hz. reflexivity.
  - intros H. injection H as <-.
    destruct (Hval Hz) as [vb Hvb]. unfold slice_bytes at 2 3. rewrite Hvb.
    apply bytes_at_store_bytes; [lia|].
    rewrite store_bytes_length; [lia|lia|].
    pose proof (ArtifactFacts.slice_bytes_length (key rec) kl ltac:(lia)). lia.
Qed.

Lemma Mapping_entry guide space es fuel :
  Table guide space es -> Z.of_nat (length es) < 64 * n -> (Z.to_nat n <= fuel)%nat ->
  (In (key_of rec) (map fst es) /\
   Mapping Hash unit header (Divisor.make n) (key_of rec) (fill_record header rec) fuel
           guide space tt = Done (false, guide, space, tt))
  \/
  (~ In (key_of rec) (map fst es) /\
   exists guide' space',
     Mapping Hash unit header (Divisor.make n) (key_of rec) (fill_record header rec) fuel
             guide space tt = Done (true, guide', space', tt) /\
     Table guide' space' (entry_of rec :: es)).
Proof.
  intros HT Hroom Hfuel. destruct HT as [Hgl Hsl Hq Hocc Hholds Hrows Hcanon Hnodup].
  set (key_ := key_of rec).
  rewrite Mapping_unfold. fold (set_of key_) (mark_of key_) (sft_of key_).
  pose proof (BuildFacts.set_of_range Hash header n Hn key_) as Hset.
  pose proof (BuildFacts.sft_of_range Hash header n key_) as Hsft.
  pose proof (BuildFacts.mark_of_range Hash header n key_) as Hmark.
  destruct (in_dec (list_eq_dec Z.eq_dec) key_ (map fst es)) as [Hin|Hnin].
  - (* the key is in the table *)
    left. split; [exact Hin|].
    apply in_map_iff in Hin. destruct Hin as (e & He & Hine).
    destruct (Hholds e Hine) as (d & k & Hd & Hk & Hclear & Hdup & _).
    rewrite He in Hclear, Hdup.
    rewrite (Mapping_loop_stop unit header (Divisor.make n) key_ (fill_record header rec)
               guide space tt (mark_of key_) (set_of key_) (sft_of key_) d k fuel);
      try lia; try assumption.
    + unfold finish. now rewrite Hdup.
    + rewrite Hdup. discriminate.
  - (* the key is new *)
    right. split; [exact Hnin|].
    assert (Hfree : has_free_slot n guide).
    { destruct (free_slot_by_count guide) as (i & Hi & Hf).
      - intros i Hi. apply Hq. lia.
      - lia.
      - exists i. split; [lia|exact Hf]. }
    destruct (stop_exists n Hn header key_ guide space (mark_of key_) (set_of key_)
                (sft_of key_) Hq Hset Hsft Hfree) as (d & k & Hd & Hk & Hclear & Hstop).
    pose proof (set_after_range n Hn d (set_of key_) Hset) as Hsd.
    pose proof (off_of_range (sft_of key_) k) as Hoff.
    set (set_d := set_after (Divisor.make n) d (set_of key_)) in *.
    set (off_k := off_of (sft_of key_) k) in *.
    set (e := 64 * set_d + off_k).
    assert (He : 0 <= e < 64 * n) by (subst e; lia).
    destruct Hstop as [Hempty|Hdup].
    2:{ exfalso. apply Hnin.
        destruct (probe_dup_inv key_ guide space (mark_of key_) set_d off_k Hsd Hoff Hdup)
          as (_ & Hlt & Hrow).
        destruct (Hrows e He Hlt) as (e' & Hin' & Hk' & _).
        apply in_map_iff. exists e'. split; [|exact Hin'].
        rewrite <- Hk'. fold e in Hrow. rewrite Hrow. apply key_of_canonical. }
    assert (Hfe : rd guide e = 0xff)
      by (apply (BuildFacts.probe_free_inv header n Hn key_ guide space (mark_of key_));
          assumption).
    destruct (BuildFacts.fill_record_spec header n Hn Hkl Hvl rec b Hkey space set_d off_k
                Hsd Hoff Hsl) as (space' & Hfill & Hlen' & Hframe & Hback).
    pose proof (fill_record_value space space' set_d off_k Hsd Hoff Hsl Hfill) as Hvalue.
    fold e in Hframe, Hback, Hvalue.
    exists (set_nth (Z.to_nat e) (mark_of key_) guide), space'. split.
    { rewrite (Mapping_loop_stop unit header (Divisor.make n) key_ (fill_record header rec)
                 guide space tt (mark_of key_) (set_of key_) (sft_of key_) d k fuel);
        try lia; try assumption.
      - unfold finish. fold set_d off_k. rewrite Hempty, Hfill. cbn [bind].
        rewrite (slot_of_small n Hn) by assumption. reflexivity.
      - fold set_d off_k. rewrite Hempty. discriminate. }
    constructor.
    + now rewrite set_nth_length.
    + now rewrite Hlen'.
    + intros i Hi. destruct (Z.eq_dec i e) as [->|Hne].
      * right. rewrite rd_set_nth_same by lia. rewrite wrap8_small; lia.
      * rewrite rd_set_nth_other by lia. now apply Hq.
    + unfold occupied in *. cbn [length].
      rewrite (filter_set_nth_count (fun x => wrap8 x <? 128)).
      * lia.
      * lia.
      * fold (rd guide e) in Hfe. unfold rd in Hfe. rewrite Hfe. reflexivity.
      * rewrite wrap8_small by lia. apply Z.ltb_lt. lia.
    + intros e' [<-|Hin].
      * (* the new entry *)
        exists d, k. cbn [entry_of fst snd]. fold key_.
        split; [assumption|]. split; [assumption|]. split; [|split].
        -- apply (BuildFacts.chain_clear_frame Hash header n Hn Hkl Hvl guide space space' e
                    (mark_of key_) He Hframe Hfe); [assumption|lia].
        -- fold set_d off_k. apply probe_dup; try assumption.
           ++ fold e. rewrite rd_set_nth_same by lia. apply wrap8_small. lia.
           ++ fold e. rewrite Hback. symmetry. apply key_of_canonical.
        -- unfold slot_at. fold set_d off_k e. exact Hvalue.
      * (* an entry that was there *)
        destruct (Hholds e' Hin) as (d' & k' & Hd' & Hk' & Hclear' & Hdup' & Hval').
        exists d', k'. split; [assumption|]. split; [assumption|].
        destruct (BuildFacts.chain_clear_free Hash header n guide space (fst e') d' k'
                    Hclear') as [H1 H2].
        assert (H3 : forall q, (q < S k')%nat -> (q < 64)%nat ->
          probe header (fst e') guide space (mark_of (fst e'))
                (set_after (Divisor.make n) d' (set_of (fst e')))
                (off_of (sft_of (fst e')) q) <> KEmpty).
        { intros q Hlt Hlt'. destruct (Nat.eq_dec q k') as [->|Hne].
          - rewrite Hdup'. discriminate.
          - apply H2; lia. }
        split; [|split].
        -- apply (BuildFacts.chain_clear_frame Hash header n Hn Hkl Hvl guide space space' e
                    (mark_of key_) He Hframe Hfe); [assumption|lia].
        -- rewrite (BuildFacts.chain_frame Hash header n Hn Hkl Hvl guide space space' e
                      (mark_of key_) He Hframe Hfe (fst e') d' (S k') H1 H3) by lia.
           exact Hdup'.
        -- rewrite <- Hval'. apply bytes_at_ext. intros i Hi.
           pose proof (slot_at_range (fst e') d' k') as Hr.
           assert (Hne : slot_at (fst e') d' k' <> e).
           { intros Heq.
             pose proof (set_after_range n Hn d' (set_of (fst e'))
                           (BuildFacts.set_of_range Hash header n Hn (fst e'))) as Hsd'.
             destruct (probe_dup_inv (fst e') guide space (mark_of (fst e')) _ _ Hsd'
                         (off_of_range (sft_of (fst e')) k') Hdup') as (_ & Hlt & _).
             unfold slot_at in Heq. rewrite Heq in Hlt. lia. }
           apply Hframe; [nia|].
           assert (slot_at (fst e') d' k' <= e - 1 \/ e + 1 <= slot_at (fst e') d' k')
             as [Hlo|Hhi] by lia.
           ++ left. nia.
           ++ right. nia.
    + intros i Hi Hocc'. destruct (Z.eq_dec i e) as [->|Hne].
      * exists (entry_of rec). split; [now left|]. split; [exact Hback|exact Hvalue].
      * rewrite rd_set_nth_other in Hocc' by lia.
        destruct (Hrows i Hi Hocc') as (e' & Hin & Hk' & Hv'). exists e'.
        split; [now right|]. split.
        -- rewrite <- Hk'. apply bytes_at_ext. intros j Hj.
           apply Hframe; [nia|].
           assert (i <= e - 1 \/ e + 1 <= i) as [Hlo|Hhi] by lia.
           ++ left. nia.
           ++ right. nia.
        -- rewrite <- Hv'. apply bytes_at_ext. intros j Hj.
           apply Hframe; [nia|].
           assert (i <= e - 1 \/ e + 1 <= i) as [Hlo|Hhi] by lia.
           ++ left. nia.
           ++ right. nia.
    + intros e' [<-|Hin]; [apply key_of_canonical|now apply Hcanon].
    + cbn [map entry_of fst]. constructor; assumption.
Qed.

End Step.

(** The test [Mapping] makes of every record. *)
Definition malformed (rec : Rec) : bool :=
  is_null (key rec) || negb (len (key rec) =? kl)
  || (negb (vl =? 0) && (is_null (val rec) || negb (len (val rec) =? vl))).

Definition wellformed (rec : Rec) : Prop := malformed rec = false.

Lemma wellformed_spec rec : wellformed rec ->
  (exists b, ptr (key rec) = Some b) /\ len (key rec) = kl /\
  (vl <> 0 -> (exists vb, ptr (val rec) = Some vb) /\ len (val rec) = vl).
Proof.
  unfold wellformed, malformed, is_null. intros H.
  apply orb_false_elim in H. destruct H as [H Hv].
  apply orb_false_elim in H. destruct H as [Hk Hl].
  split; [destruct (ptr (key rec)) as [b|]; [now exists b|discriminate]|].
  split; [destruct (Z.eqb_spec (len (key rec)) kl); [assumption|discriminate]|].
  intros Hnz. destruct (Z.eqb_spec vl 0) as [?|_]; [contradiction|]. cbn [negb andb] in Hv.
  apply orb_false_elim in Hv. destruct Hv as [Hp Hlv].
  split; [destruct (ptr (val rec)) as [vb|]; [now exists vb|discriminate]|].
  destruct (Z.eqb_spec (len (val rec)) vl); [assumption|discriminate].
Qed.

(** The table grew from [es] to [es'] by [k] of the records [recs], and
    holds the keys of all of them. *)
Definition grown (es es' : list Entry) (recs : list Rec) (k : Z) : Prop :=
  exists added, es' = added ++ es /\ Z.of_nat (length added) = k /\
    k <= Z.of_nat (length recs) /\
    (forall e, In e added -> exists rec, In rec recs /\ e = entry_of rec) /\
    (forall rec, In rec recs -> In (key_of rec) (map fst es')).

Section Records.

Context {R : Type} `{IDataReader R}.
Variable fuel : nat.
Hypothesis Hfuel : (Z.to_nat n <= fuel)%nat.

(** The pass of [Mapping] over one reader. *)
Lemma Mapping_records_pull : forall turns (r : R) guide space es cnt,
  Table guide space es -> Z.of_nat (length es) + Z.of_nat turns < 64 * n ->
  Z.of_nat turns <= cnt < 2 ^ 64 ->
  match pull turns r with
  | Done (recs, r') =>
      match Mapping_records Hash fuel header (Divisor.make n) turns guide space r cnt with
      | Done (cnt', guide', space', r'') =>
          Forall wellformed recs /\ r'' = r' /\
          exists es', Table guide' space' es' /\
                      grown es es' recs (cnt' - (cnt - Z.of_nat turns))
      | Throw BuildException => ~ Forall wellformed recs
      | _ => False
      end
  | Throw BuildException =>
      Mapping_records Hash fuel header (Divisor.make n) turns guide space r cnt
      = Throw BuildException
  | _ => True
  end.
Proof.
  induction turns as [|turns IH]; intros r guide space es cnt HT Hroom Hcnt.
  - cbn [pull Mapping_records]. split; [constructor|]. split; [reflexivity|].
    exists es. split; [exact HT|]. exists []. cbn [app length Z.of_nat].
    split; [reflexivity|]. split; [lia|]. split; [lia|].
    split; [intros e []|intros rec []].
  - cbn [pull Mapping_records].
    destruct (read false r) as [[rec r1]|e|] eqn:Hread; cbn [bind];
      [|destruct e; [reflexivity|exact I]|exact I].
    fold (malformed rec).
    destruct (malformed rec) eqn:Hmal.
    { destruct (pull turns r1) as [[recs r']|e|]; cbn [bind].
      - intros Hall. inversion Hall as [|? ? Hw _]; subst. unfold wellformed in Hw. congruence.
      - destruct e; [reflexivity|exact I].
      - exact I. }
    destruct (wellformed_spec rec Hmal) as ([b Hb] & Hlen & Hvalp).
    assert (Hval : vl <> 0 -> exists vb, ptr (val rec) = Some vb)
      by (intros Hnz; exact (proj1 (Hvalp Hnz))).
    fold (key_of rec).
    destruct (Mapping_entry rec b Hb Hval guide space es fuel HT ltac:(lia) Hfuel)
      as [[Hin Hmap]|[Hnin (guide' & space' & Hmap & HT')]]; rewrite Hmap; cbn [bind].
    + (* the key was there *)
      rewrite DivisorFacts.wrap64_small by lia.
      specialize (IH r1 guide space es (cnt - 1) HT ltac:(lia) ltac:(lia)).
      destruct (pull turns r1) as [[recs r']|e|]; cbn [bind]; [|exact IH|exact I].
      destruct (Mapping_records Hash fuel header (Divisor.make n) turns guide space r1
                  (cnt - 1)) as [[[[cnt' g''] s''] r'']|e|]; [|destruct e; [intros Hall; inversion Hall; subst; now apply IH|exact IH]|exact IH].
      * destruct IH as (Hall & Hr & es' & HT' & added & Hes & Hk & Hle & Hadded & Hkeys).
        split; [constructor; assumption|]. split; [exact Hr|].
        exists es'. split; [exact HT'|]. exists added.
        split; [exact Hes|]. split; [lia|]. split; [cbn [length]; lia|]. split.
        -- intros e' He'. destruct (Hadded e' He') as (rec' & Hin' & Heq).
           exists rec'. split; [now right|exact Heq].
        -- intros rec' [<-|Hin']; [|now apply Hkeys].
           rewrite Hes, map_app. apply in_or_app. now right.
    + (* the key is new *)
      specialize (IH r1 guide' space' (entry_of rec :: es) cnt HT'
                    ltac:(cbn [length]; lia) ltac:(lia)).
      destruct (pull turns r1) as [[recs r']|e|]; cbn [bind]; [|exact IH|exact I].
      destruct (Mapping_records Hash fuel header (Divisor.make n) turns guide' space' r1 cnt)
        as [[[[cnt' g''] s''] r'']|e|]; [|destruct e; [intros Hall; inversion Hall; subst; now apply IH|exact IH]|exact IH].
      * destruct IH as (Hall & Hr & es' & HT'' & added & Hes & Hk & Hle & Hadded & Hkeys).
        split; [constructor; assumption|]. split; [exact Hr|].
        exists es'. split; [exact HT''|]. exists (added ++ [entry_of rec]).
        split; [rewrite Hes, <- app_assoc; reflexivity|].
        split; [rewrite length_app, Nat2Z.inj_add; cbn [length Z.of_nat]; lia|].
        split; [cbn [length]; lia|]. split.
        -- intros e' He'. apply in_app_or in He'. destruct He' as [He'|[<-|[]]].
           ++ destruct (Hadded e' He') as (rec' & Hin' & Heq).
              exists rec'. split; [now right|exact Heq].
           ++ exists rec. split; [now left|reflexivity].
        -- intros rec' [<-|Hin']; [|now apply Hkeys].
           rewrite Hes, map_app. apply in_or_app. right. now left.
Qed.

End Records.

Lemma grown_app es es1 es2 recs1 recs2 k1 k2 :
  grown es es1 recs1 k1 -> grown es1 es2 recs2 k2 ->
  grown es es2 (recs1 ++ recs2) (k1 + k2).
Proof.
  intros (a1 & E1 & L1 & B1 & A1 & K1) (a2 & E2 & L2 & B2 & A2 & K2).
  exists (a2 ++ a1). split; [rewrite E2, E1, app_assoc; reflexivity|].
  split; [rewrite length_app, Nat2Z.inj_add; lia|].
  split; [rewrite length_app, Nat2Z.inj_add; lia|]. split.
  - intros e He. apply in_app_or in He. destruct He as [He|He].
    + destruct (A2 e He) as (rec & Hin & Heq). exists rec. split; [|exact Heq].
      apply in_or_app. now right.
    + destruct (A1 e He) as (rec & Hin & Heq). exists rec. split; [|exact Heq].
      apply in_or_app. now left.
  - intros rec Hin. apply in_app_or in Hin. destruct Hin as [Hin|Hin].
    + rewrite E2, map_app. apply in_or_app. right. now apply K1.
    + now apply K2.
Qed.

Lemma pull_ListReader : forall turns items p, (p + turns <= length items)%nat ->
  pull turns (mkListReader items p)
  = Done (firstn turns (skipn p items), mkListReader items (p + turns)).
Proof.
  induction turns as [|turns IH]; intros items p Hp.
  - cbn [pull firstn]. now rewrite Nat.add_0_r.
  - cbn [pull read ListReader_reader bind lr_items lr_pos].
    rewrite IH by lia. cbn [bind].
    rewrite (ArtifactFacts.skipn_nth null_rec items p) by lia. cbn [firstn].
    do 3 f_equal. lia.
Qed.

(** The passes over the readers of a build with values of one size. *)
Section Readers.

Hypothesis Hcnt : h_set_cnt header = n.
Variable fuel : nat.
Hypothesis Hfuel : (Z.to_nat n <= fuel)%nat.

Lemma Mapping_readers_spec : forall readers guide space item fail es,
  Table guide space es ->
  Z.of_nat (length es) + Z.of_nat (length (BuildFacts.all_items readers)) < 64 * n ->
  0 <= item -> item + Z.of_nat (length (BuildFacts.all_items readers)) < 2 ^ 64 ->
  match Mapping_readers Hash fuel header true readers guide space item fail with
  | Done (item', guide', space', fail', _) =>
      if fail' then fail = true \/ ~ Forall wellformed (BuildFacts.all_items readers)
      else fail = false /\ Forall wellformed (BuildFacts.all_items readers) /\
           exists es', Table guide' space' es' /\
                       grown es es' (BuildFacts.all_items readers) (item' - item)
  | _ => False
  end.
Proof.
  induction readers as [|reader readers IH]; intros guide space item fail es HT Hroom Hi Hsum.
  - cbn [Mapping_readers BuildFacts.all_items flat_map].
    destruct fail; [now left|]. split; [reflexivity|]. split; [constructor|].
    exists es. split; [exact HT|]. exists []. rewrite Z.sub_diag.
    repeat split; try reflexivity; try (cbn; lia); intros x [].
  - unfold BuildFacts.all_items in *. cbn [Mapping_readers flat_map] in *.
    rewrite length_app, Nat2Z.inj_add in Hroom, Hsum.
    unfold Mapping_reader. rewrite Hcnt.
    cbn [total reset ListReader_reader lr_items]. rewrite Nat2Z.id.
    pose proof (Mapping_records_pull fuel Hfuel (length (lr_items reader))
                  (mkListReader (lr_items reader) 0) guide space es
                  (Z.of_nat (length (lr_items reader))) HT ltac:(lia) ltac:(lia)) as Hrec.
    rewrite pull_ListReader in Hrec by lia. cbn [skipn] in Hrec.
    rewrite firstn_all in Hrec.
    destruct (Mapping_records Hash fuel header (Divisor.make n) (length (lr_items reader))
                guide space (mkListReader (lr_items reader) 0)
                (Z.of_nat (length (lr_items reader))))
      as [[[[cnt g'] s'] r']|e|]; [|destruct e; [|contradiction]|contradiction].
    + destruct Hrec as (Hall & _ & es1 & HT1 & Hg1).
      rewrite Z.sub_diag, Z.sub_0_r in Hg1.
      assert (Hc : 0 <= cnt <= Z.of_nat (length (lr_items reader))).
      { destruct Hg1 as (added & _ & Hl & Hle & _). lia. }
      assert (Hl1 : Z.of_nat (length es1) = Z.of_nat (length es) + cnt).
      { destruct Hg1 as (added & -> & Hl & _). rewrite length_app, Nat2Z.inj_add. lia. }
      rewrite DivisorFacts.wrap64_small by lia.
      specialize (IH g' s' (item + cnt) fail es1 HT1 ltac:(lia) ltac:(lia) ltac:(lia)).
      destruct (Mapping_readers Hash fuel header true readers g' s' (item + cnt) fail)
        as [[[[[item' g''] s''] fail'] rs']|e|]; cbn [bind]; try contradiction.
      destruct fail'.
      * destruct IH as [IH|IH]; [now left|]. right. intros Hw.
        apply Forall_app in Hw. now apply IH.
      * destruct IH as (Hf & Hall' & es2 & HT2 & Hg2).
        split; [exact Hf|]. split; [apply Forall_app; now split|].
        exists es2. split; [exact HT2|].
        replace (item' - item) with (cnt + (item' - (item + cnt))) by lia.
        exact (grown_app _ _ _ _ _ _ _ Hg1 Hg2).
    + specialize (IH guide space item true es HT ltac:(lia) ltac:(lia) ltac:(lia)).
      destruct (Mapping_readers Hash fuel header true readers guide space item true)
        as [[[[[item' g''] s''] fail'] rs']|e|]; cbn [bind]; try contradiction.
      right. intros Hw. apply Forall_app in Hw. now apply Hrec.
Qed.

End Readers.

End Table.

(** *** The sink of the builds *)

Lemma write_Sink_fits bs (s : Sink) :
  write bs s
  = if Z.of_nat (length bs) <=? sk_room s
    then (true, mkSink (sk_data s ++ bs) (sk_room s - Z.of_nat (length bs)))
    else (false, s).
Proof. reflexivity. Qed.

Lemma Header_bytes_length h : length (Header_bytes h) = 64%nat.
Proof.
  unfold Header_bytes. rewrite !length_app, !HintFacts.unpack_length, repeat_length.
  reflexivity.
Qed.

(** The table is written in full or the build fails. *)
Lemma write_table_Sink_room h guide space (s : Sink) :
  fst (write_table h guide space s)
  = (64 + Z.of_nat (length guide) + Z.of_nat (length space) <=? sk_room s).
Proof.
  unfold write_table. rewrite !write_Sink_fits, Header_bytes_length.
  change (Z.of_nat 64) with 64.
  destruct (Z.leb_spec 64 (sk_room s)) as [H1|H1]; cbn [negb fst].
  2:{ destruct (Z.leb_spec (64 + Z.of_nat (length guide) + Z.of_nat (length space))
                           (sk_room s)); [lia|reflexivity]. }
  rewrite write_Sink_fits. cbn [sk_room sk_data].
  destruct (Z.leb_spec (Z.of_nat (length guide)) (sk_room s - 64)) as [H2|H2];
    cbn [negb fst].
  2:{ destruct (Z.leb_spec (64 + Z.of_nat (length guide) + Z.of_nat (length space))
                           (sk_room s)); [lia|reflexivity]. }
  rewrite write_Sink_fits. cbn [sk_room sk_data].
  destruct (Z.leb_spec (Z.of_nat (length space)) (sk_room s - 64 - Z.of_nat (length guide)));
    destruct (Z.leb_spec (64 + Z.of_nat (length guide) + Z.of_nat (length space))
                         (sk_room s)); try lia; reflexivity.
Qed.

(** *** The build with values of one size *)

Lemma BuildWithFixedSizeValue_spec Hash fuel seed type key_len val_len
    (readers : list ListReader) (out : Sink) :
  readers <> [] -> 1 <= key_len <= 255 -> 0 <= val_len < 2 ^ 16 ->
  let items := BuildFacts.all_items readers in
  1 <= Z.of_nat (length items) < 2 ^ 40 ->
  let n := CalcSetCnt (Z.of_nat (length items)) in
  (Z.to_nat n <= fuel)%nat ->
  let header := mkHeader SSHT_MAGIC type key_len val_len seed 0 n in
  let size := 64 + 64 * n + 64 * n * (key_len + val_len) in
  exists status out',
    BuildWithFixedSizeValue Hash fuel seed type key_len val_len readers out
    = Done (status, out') /\
    match status with
    | BUILD_STATUS_BAD_INPUT => ~ Forall (wellformed header) items /\ out' = out
    | BUILD_STATUS_FAIL_TO_OUTPUT => Forall (wellformed header) items /\ sk_room out < size
    | BUILD_STATUS_OK =>
        Forall (wellformed header) items /\ size <= sk_room out /\
        exists guide space es,
          Table Hash header n guide space es /\
          grown header [] es items (Z.of_nat (length es)) /\
          sk_data out'
          = sk_data out ++ Header_bytes (with_item header (Z.of_nat (length es)))
                    ++ guide ++ space
    end.
Proof.
  intros Hne Hkl Hvl items Hitems n Hfuel header size.
  unfold BuildWithFixedSizeValue.
  rewrite BuildFacts.SumInputSize_items by (fold items; lia). fold items.
  assert (Hassert : negb (match readers with [] => true | _ => false end)
                    && negb (key_len =? 0) && negb (Z.of_nat (length items) =? 0) = true).
  { destruct readers; [congruence|]. cbn [negb andb].
    destruct (Z.eqb_spec key_len 0); [lia|].
    destruct (Z.eqb_spec (Z.of_nat (length items)) 0); [lia|reflexivity]. }
  rewrite Hassert. cbn [Assert bind]. fold n.
  pose proof (BuildFacts.CalcSetCnt_range (Z.of_nat (length items)) ltac:(lia)) as Hn.
  destruct (TerminationFacts.CalcSetCnt_slack (Z.of_nat (length items)) ltac:(lia))
    as (_ & Hroom & _).
  fold n in Hn, Hroom. fold header.
  rewrite Z.shiftl_mul_pow2 by lia. change (2 ^ 6) with 64.
  rewrite (DivisorFacts.wrap64_small (n * 64)) by lia.
  rewrite (DivisorFacts.wrap32_small (key_len + val_len)) by lia.
  rewrite (DivisorFacts.wrap64_small (n * 64 * (key_len + val_len))) by nia.
  pose proof (Table_initial Hash header n Hn Hkl Hvl) as HT.
  cbn [h_key_len h_val_len header] in HT.
  replace (64 * n) with (n * 64) in HT by lia.
  pose proof (Mapping_readers_spec Hash header n Hn Hkl Hvl eq_refl fuel Hfuel readers _ _ 0
                false [] HT ltac:(cbn [length]; fold items; lia) ltac:(lia)
                ltac:(fold items; lia)) as Hmap.
  fold items in Hmap.
  destruct (Mapping_readers Hash fuel header true readers _ _ 0 false)
    as [[[[[item g] s] fail] rs]|e|]; cbn [bind]; try contradiction.
  destruct fail.
  - exists BUILD_STATUS_BAD_INPUT, out. split; [reflexivity|].
    destruct Hmap as [Hf|Hw]; [discriminate|]. split; [exact Hw|reflexivity].
  - destruct Hmap as (_ & Hall & es & HTe & Hg). rewrite Z.sub_0_r in Hg.
    assert (Hitem : item = Z.of_nat (length es)).
    { destruct Hg as (added & -> & Hl & _). rewrite app_nil_r. lia. }
    pose proof (write_table_Sink_room (with_item header item) g s out) as Hw.
    rewrite (tb_guide_len _ _ _ _ _ _ HTe), (tb_space_len _ _ _ _ _ _ HTe) in Hw.
    cbn [h_key_len h_val_len header] in Hw. fold size in Hw.
    destruct (write_table (with_item header item) g s out) as [ok out'] eqn:Hwt.
    cbn [fst] in Hw. subst ok.
    destruct (Z.leb_spec size (sk_room out)) as [Hfit|Hfit]; cbn [negb].
    + exists BUILD_STATUS_OK, out'. split; [reflexivity|].
      split; [exact Hall|]. split; [exact Hfit|].
      exists g, s, es. split; [exact HTe|]. split; [rewrite <- Hitem; exact Hg|].
      rewrite <- Hitem. now apply ArtifactFacts.write_table_Sink.
    + exists BUILD_STATUS_FAIL_TO_OUTPUT, out'. split; [reflexivity|].
      split; [exact Hall|exact Hfit].
Qed.

End TableFacts.

(** ** The artifact a build wrote, loaded *)

Module FileFacts.
Import MappingFacts TerminationFacts BufferFacts TableFacts.

Lemma bytes_at_mid pre bs post : Forall HintFacts.is_byte bs ->
  bytes_at (pre ++ bs ++ post) (Z.of_nat (length pre)) (length bs) = bs.
Proof.
  intros Hb. rewrite ArtifactFacts.bytes_at_app2 by lia. rewrite Z.sub_diag.
  now apply ArtifactFacts.bytes_at_app1.
Qed.

(** The loader reads back the seed and the item count the builder wrote. *)
Lemma Header_at_bytes_seed h rest :
  0 <= h_seed h < 2 ^ 64 -> 0 <= h_item h < 2 ^ 64 ->
  h_seed (Header_at (Header_bytes h ++ rest)) = h_seed h /\
  h_item (Header_at (Header_bytes h ++ rest)) = h_item h.
Proof.
  intros Hs Hi. unfold Header_at. cbn [h_seed h_item]. unfold load64. split.
  - replace (Header_bytes h ++ rest)
      with ((le_bytes 4 (h_magic h) ++ [wrap8 (h_type h)] ++ [wrap8 (h_key_len h)]
             ++ le_bytes 2 (h_val_len h))
            ++ le_bytes 8 (h_seed h)
            ++ (le_bytes 8 (h_item h) ++ le_bytes 8 (h_set_cnt h) ++ repeat 0 32 ++ rest))
      by (unfold Header_bytes; rewrite <- !app_assoc; reflexivity).
    pose proof (bytes_at_mid
      (le_bytes 4 (h_magic h) ++ [wrap8 (h_type h)] ++ [wrap8 (h_key_len h)]
       ++ le_bytes 2 (h_val_len h))
      (le_bytes 8 (h_seed h))
      (le_bytes 8 (h_item h) ++ le_bytes 8 (h_set_cnt h) ++ repeat 0 32 ++ rest)
      (HintFacts.unpack_bytes 8 _)) as H.
    rewrite !length_app, !HintFacts.unpack_length in H. cbn [length Nat.add] in H.
    change (Z.of_nat 8) with 8 in H. rewrite H.
    apply HintFacts.pack_unpack. exact Hs.
  - replace (Header_bytes h ++ rest)
      with ((le_bytes 4 (h_magic h) ++ [wrap8 (h_type h)] ++ [wrap8 (h_key_len h)]
             ++ le_bytes 2 (h_val_len h) ++ le_bytes 8 (h_seed h))
            ++ le_bytes 8 (h_item h)
            ++ (le_bytes 8 (h_set_cnt h) ++ repeat 0 32 ++ rest))
      by (unfold Header_bytes; rewrite <- !app_assoc; reflexivity).
    pose proof (bytes_at_mid
      (le_bytes 4 (h_magic h) ++ [wrap8 (h_type h)] ++ [wrap8 (h_key_len h)]
       ++ le_bytes 2 (h_val_len h) ++ le_bytes 8 (h_seed h))
      (le_bytes 8 (h_item h))
      (le_bytes 8 (h_set_cnt h) ++ repeat 0 32 ++ rest)
      (HintFacts.unpack_bytes 8 _)) as H.
    rewrite !length_app, !HintFacts.unpack_length in H. cbn [length Nat.add] in H.
    change (Z.of_nat 16) with 16 in H. rewrite H.
    apply HintFacts.pack_unpack. exact Hi.
Qed.

Lemma HashKey_same Hash a b len_ seed set_cnt :
  bytes_at a 0 (Z.to_nat len_) = bytes_at b 0 (Z.to_nat len_) ->
  HashKey Hash a len_ seed set_cnt = HashKey Hash b len_ seed set_cnt.
Proof. intros H. unfold HashKey. now rewrite H. Qed.

Section File.

Variable Hash : list Z -> Z -> Z -> Z.
Variable header : Header.
Variable n : Z.
Hypothesis Hn : 1 <= n < 2 ^ 40.
Hypothesis Hkl : 1 <= h_key_len header <= 255.
Hypothesis Hvl : 0 <= h_val_len header < 2 ^ 16.
Hypothesis Hmagic : h_magic header = SSHT_MAGIC.
Hypothesis Hcnt : h_set_cnt header = n.
Hypothesis Hseed : 0 <= h_seed header < 2 ^ 64.
Hypothesis Hitem : 0 <= h_item header < 2 ^ 64.
Hypothesis Hfit : LoaderFacts.lengths_fit_type header.
Variables guide space ext : list Z.
Variable es : list Entry.
Hypothesis HT : Table Hash header n guide space es.
Hypothesis Hext : h_type header = KV_SEPARATED -> 64 * n <= Z.of_nat (length ext).

Local Abbreviation kl := (h_key_len header).
Local Abbreviation vl := (h_val_len header).
Local Abbreviation ls := (h_key_len header + h_val_len header).

Definition file : list Z := Header_bytes header ++ guide ++ space ++ ext.

Lemma file_length :
  Z.of_nat (length file) = 64 + 64 * n + 64 * n * ls + Z.of_nat (length ext).
Proof.
  unfold file. rewrite !length_app, !Nat2Z.inj_add, Header_bytes_length.
  rewrite (tb_guide_len _ _ _ _ _ _ HT), (tb_space_len _ _ _ _ _ _ HT). lia.
Qed.

Lemma type_range : 0 <= h_type header <= 2.
Proof.
  pose proof Hfit as H0.
  unfold LoaderFacts.lengths_fit_type, KEY_SET, KV_INLINE, KV_SEPARATED in H0.
  destruct H0 as [[H _]|[[H _]|[H _]]]; lia.
Qed.

Lemma file_header :
  h_magic (Header_at file) = SSHT_MAGIC /\ h_type (Header_at file) = h_type header /\
  h_key_len (Header_at file) = kl /\ h_val_len (Header_at file) = vl /\
  h_seed (Header_at file) = h_seed header /\ h_item (Header_at file) = h_item header /\
  h_set_cnt (Header_at file) = n.
Proof.
  unfold file.
  destruct (ArtifactFacts.Header_at_bytes header (guide ++ space ++ ext))
    as (Hm & Ht & Hk & Hv & Hc);
    try (rewrite ?Hmagic, ?Hcnt; unfold SSHT_MAGIC; lia).
  destruct (Header_at_bytes_seed header (guide ++ space ++ ext) Hseed Hitem) as (Hs & Hi).
  pose proof type_range as Hty.
  rewrite Hm, Ht, Hk, Hv, Hc, Hs, Hi.
  rewrite !wrap8_small by lia. repeat split; assumption.
Qed.

(** The artifact loads. *)
Lemma file_view : exists v,
  CreateView file = Some v /\
  v_type v = h_type header /\ v_key_len v = kl /\ v_val_len v = vl /\
  v_seed v = h_seed header /\ v_item v = h_item header /\
  v_line_size v = ls /\ v_set_cnt v = Divisor.make n /\
  v_guide v = 64 /\ v_content v = 64 + 64 * n /\
  v_extend v = 64 + 64 * n + 64 * n * ls /\ v_space_end v = Z.of_nat (length file).
Proof.
  destruct file_header as (Hm & Ht & Hk & Hv & Hs & Hi & Hc).
  assert (Hlt : h_set_cnt (Header_at file) < 2 ^ 40) by (rewrite Hc; lia).
  assert (Hsome : CreateView file <> None).
  { apply (LoaderFacts.CreateView_some file Hlt).
    pose proof file_length as Hlen.
    split; [nia|]. split; [exact Hm|]. split; [rewrite Hc; lia|]. split.
    - unfold LoaderFacts.lengths_fit_type in *. rewrite Ht, Hk, Hv. exact Hfit.
    - unfold LoaderFacts.least_size. rewrite Ht, Hk, Hv, Hc.
      destruct (Z.eqb_spec (h_type header) KV_SEPARATED) as [Hsep|_].
      + specialize (Hext Hsep). nia.
      + nia. }
  destruct (CreateView file) as [v|] eqn:Hview; [|congruence].
  destruct (ViewFacts.CreateView_geometry file v Hview Hlt)
    as (_ & Gt & Gk & Gv & Gs & Gi & _ & _ & Gl & Gc & Gg & Gco & Ge & Gse & _).
  exists v. split; [reflexivity|].
  rewrite Gl, Ge, Gl.
  rewrite Gt, Gk, Gv, Gs, Gi, Gc, Gg, Gco, Gse, Ht, Hk, Hv, Hs, Hi, Hc.
  repeat split; reflexivity.
Qed.

(** The guide and the rows of the table, in the file. *)
Lemma rd_file_guide i : 0 <= i < 64 * n -> rd file (64 + i) = rd guide i.
Proof.
  intros Hi. unfold file.
  rewrite ArtifactFacts.rd_app2 by (rewrite Header_bytes_length; lia).
  rewrite Header_bytes_length. replace (64 + i - Z.of_nat 64) with i by lia.
  apply CodecFacts.rd_app1. rewrite (tb_guide_len _ _ _ _ _ _ HT). lia.
Qed.

Lemma bytes_at_file_space a m : 0 <= a ->
  a + Z.of_nat m <= 64 * n * ls ->
  bytes_at file (64 + 64 * n + a) m = bytes_at space a m.
Proof.
  intros Ha Hfit'. apply bytes_at_ext. intros i Hi. unfold file.
  rewrite ArtifactFacts.rd_app2 by (rewrite Header_bytes_length; lia).
  rewrite ArtifactFacts.rd_app2
    by (rewrite Header_bytes_length, (tb_guide_len _ _ _ _ _ _ HT); lia).
  rewrite Header_bytes_length, (tb_guide_len _ _ _ _ _ _ HT).
  rewrite CodecFacts.rd_app1 by (rewrite (tb_space_len _ _ _ _ _ _ HT); lia).
  f_equal. lia.
Qed.

Lemma bytes_at_file_ext a m : 0 <= a ->
  bytes_at file (64 + 64 * n + 64 * n * ls + a) m = bytes_at ext a m.
Proof.
  intros Ha. apply bytes_at_ext. intros i Hi. unfold file.
  assert (0 <= 64 * n * ls) by nia.
  rewrite ArtifactFacts.rd_app2 by (rewrite Header_bytes_length; lia).
  rewrite ArtifactFacts.rd_app2
    by (rewrite Header_bytes_length, (tb_guide_len _ _ _ _ _ _ HT); lia).
  rewrite ArtifactFacts.rd_app2
    by (rewrite Header_bytes_length, (tb_guide_len _ _ _ _ _ _ HT),
          (tb_space_len _ _ _ _ _ _ HT); lia).
  rewrite Header_bytes_length, (tb_guide_len _ _ _ _ _ _ HT), (tb_space_len _ _ _ _ _ _ HT).
  f_equal. lia.
Qed.

Section Lookup.

Variable v : View.
Hypothesis Hview : CreateView file = Some v.

Lemma view_fields :
  v_type v = h_type header /\ v_key_len v = kl /\ v_val_len v = vl /\
  v_seed v = h_seed header /\ v_item v = h_item header /\
  v_line_size v = ls /\ v_set_cnt v = Divisor.make n /\
  v_guide v = 64 /\ v_content v = 64 + 64 * n /\
  v_extend v = 64 + 64 * n + 64 * n * ls /\ v_space_end v = Z.of_nat (length file).
Proof.
  destruct file_view as (v' & Hv' & H). rewrite Hview in Hv'. injection Hv' as <-. exact H.
Qed.

Section Key.

Variable b : list Z.
Variable key_ : list Z.
Hypothesis Hb : bytes_at b 0 (Z.to_nat kl) = bytes_at key_ 0 (Z.to_nat kl).

(** [Search] sees in a slot what [Mapping] saw there. *)
Lemma look_probe mark set off : 0 <= set < n -> 0 <= off < 64 -> 0 <= mark < 128 ->
  SearchFacts.look v file b mark (64 * set + off)
  = match probe header key_ guide space mark set off with
    | KDup => SearchFacts.SHit
    | KOther => SearchFacts.SPass
    | _ => SearchFacts.SStop
    end.
Proof.
  intros Hset Hoff Hmark.
  destruct view_fields as (_ & Vk & _ & _ & _ & Vl & _ & Vg & Vc & _).
  unfold SearchFacts.look, SearchFacts.row, probe.
  rewrite Vg, Vc, Vl, Vk.
  rewrite (slot_of_small n Hn) by assumption.
  rewrite (BuildFacts.row_of_small header n Hn Hkl Hvl) by assumption.
  rewrite rd_file_guide by lia.
  rewrite bytes_at_file_space by nia.
  rewrite Hb, (Equal_sym (bytes_at key_ 0 (Z.to_nat kl))).
  pose proof (VarintFacts.rd_byte guide (64 * set + off)) as Hbyte.
  unfold HintFacts.is_byte in Hbyte.
  destruct (Z.eqb_spec (rd guide (64 * set + off)) 255) as [E|E].
  - rewrite E. destruct (Z.eqb_spec 255 mark); [lia|]. reflexivity.
  - rewrite VarintFacts.land128_byte by apply VarintFacts.rd_byte.
    destruct (Z.ltb_spec (rd guide (64 * set + off)) 128) as [Hlt|Hge]; cbn [negb].
    + destruct (rd guide (64 * set + off) =? mark); cbn [andb].
      * destruct (Equal _ _ _); reflexivity.
      * destruct (Z.leb_spec 128 (rd guide (64 * set + off))); [lia|reflexivity].
    + destruct (Z.eqb_spec (rd guide (64 * set + off)) mark); [lia|].
      destruct (Z.leb_spec 128 (rd guide (64 * set + off))); [reflexivity|lia].
Qed.

Lemma hash_fields :
  SearchFacts.set_of Hash (mkPack v file) b = BuildFacts.set_of Hash header n key_ /\
  SearchFacts.mark_of Hash (mkPack v file) b = BuildFacts.mark_of Hash header n key_ /\
  SearchFacts.sft_of Hash (mkPack v file) b = BuildFacts.sft_of Hash header n key_.
Proof.
  destruct view_fields as (_ & Vk & _ & Vs & _ & _ & Vn & _).
  unfold SearchFacts.set_of, SearchFacts.mark_of, SearchFacts.sft_of,
    BuildFacts.set_of, BuildFacts.mark_of, BuildFacts.sft_of. cbn [pk_view].
  rewrite Vk, Vs, Vn, (HashKey_same Hash b key_ kl _ _ Hb). auto.
Qed.

(** [Search] follows the chain of [Mapping] up to the first slot that does
    not hold another key. *)
Lemma Search_stop d k fuel : (d < Z.to_nat n)%nat -> (k < 64)%nat -> (Z.to_nat n <= fuel)%nat ->
  chain_clear header (Divisor.make n) key_ guide space (BuildFacts.mark_of Hash header n key_)
              (BuildFacts.set_of Hash header n key_) (BuildFacts.sft_of Hash header n key_)
              d k ->
  probe header key_ guide space (BuildFacts.mark_of Hash header n key_)
        (set_after (Divisor.make n) d (BuildFacts.set_of Hash header n key_))
        (off_of (BuildFacts.sft_of Hash header n key_) k) <> KOther ->
  Search Hash fuel (mkPack v file) b
  = SearchFacts.outcome v file b (BuildFacts.mark_of Hash header n key_)
                        (slot_at Hash header n key_ d k).
Proof.
  intros Hd Hk Hfuel [Hsets Hslots] Hstop.
  destruct view_fields as (_ & _ & _ & _ & _ & Vl & Vn & _).
  destruct hash_fields as (Hs & Hm & Hf).
  rewrite (SearchFacts.Search_chain Hash (mkPack v file) n Hn Vn
             ltac:(cbn [pk_view]; rewrite Vl; lia)).
  cbn [pk_view pk_mem]. rewrite Hs, Hm, Hf.
  set (set := BuildFacts.set_of Hash header n key_) in *.
  set (mark := BuildFacts.mark_of Hash header n key_) in *.
  set (sft := BuildFacts.sft_of Hash header n key_) in *.
  pose proof (BuildFacts.set_of_range Hash header n Hn key_) as Hset.
  pose proof (BuildFacts.mark_of_range Hash header n key_) as Hmark.
  fold set in Hset. fold mark in Hmark.
  assert (Hlook : forall d' k', (k' < 64)%nat ->
    SearchFacts.look v file b mark (SearchFacts.chain n sft set (64 * d' + k'))
    = match probe header key_ guide space mark (set_after (Divisor.make n) d' set)
                  (off_of sft k') with
      | KDup => SearchFacts.SHit
      | KOther => SearchFacts.SPass
      | _ => SearchFacts.SStop
      end).
  { intros d' k' Hk'. unfold SearchFacts.chain.
    rewrite pos_div, pos_mod by assumption.
    apply look_probe;
      [apply set_after_range; assumption|apply off_of_range|assumption]. }
  assert (Hat : SearchFacts.chain n sft set (64 * d + k) = slot_at Hash header n key_ d k).
  { unfold SearchFacts.chain, slot_at. now rewrite pos_div, pos_mod by assumption. }
  destruct (SearchFacts.outcome v file b mark (slot_at Hash header n key_ d k))
    as [r|] eqn:Hout.
  - apply (SearchFacts.scan_chain_stop v file b n mark sft set (64 * d + k)); [lia| |].
    + intros q Hq. cbn [Nat.add].
      pose proof (Nat.div_mod_eq q 64) as Hdm.
      pose proof (Nat.mod_upper_bound q 64 ltac:(lia)) as Hmod.
      unfold SearchFacts.outcome. rewrite Hdm, Hlook by exact Hmod.
      destruct (Nat.lt_ge_cases (q / 64) d) as [Hlt|Hge].
      * now rewrite Hsets by assumption.
      * assert (Hqd : (q / 64 = d)%nat) by nia. rewrite Hqd. rewrite Hslots by lia.
        reflexivity.
    + cbn [Nat.add]. rewrite Hat. exact Hout.
  - exfalso. unfold SearchFacts.outcome in Hout. rewrite <- Hat, Hlook in Hout by exact Hk.
    destruct (probe header key_ guide space mark (set_after (Divisor.make n) d set)
                    (off_of sft k)); congruence.
Qed.

End Key.

(** A key of the table is found, with its value field behind it. *)
Lemma Search_entry e : In e es ->
  exists i, 0 <= i < 64 * n /\
    bytes_at file (64 + 64 * n + i * ls + kl) (Z.to_nat vl) = snd e /\
    forall b fuel, bytes_at b 0 (Z.to_nat kl) = fst e -> (Z.to_nat n <= fuel)%nat ->
      Search Hash fuel (mkPack v file) b = Some (Some (64 + 64 * n + i * ls + kl)).
Proof.
  intros Hin.
  destruct (tb_holds _ _ _ _ _ _ HT e Hin) as (d & k & Hd & Hk & Hclear & Hdup & Hval).
  pose proof (slot_at_range Hash header n Hn (fst e) d k) as Hr.
  exists (slot_at Hash header n (fst e) d k). split; [exact Hr|].
  destruct view_fields as (_ & Vk & _ & _ & _ & Vl & _ & _ & Vc & _).
  split.
  - replace (64 + 64 * n + slot_at Hash header n (fst e) d k * ls + kl)
      with (64 + 64 * n + (slot_at Hash header n (fst e) d k * ls + kl)) by lia.
    rewrite bytes_at_file_space by nia. exact Hval.
  - intros b fuel Hkey Hfuel.
    assert (Hb : bytes_at b 0 (Z.to_nat kl) = bytes_at (fst e) 0 (Z.to_nat kl))
      by (now rewrite (tb_keys _ _ _ _ _ _ HT e Hin)).
    rewrite (Search_stop b (fst e) Hb d k fuel Hd Hk Hfuel Hclear)
      by (rewrite Hdup; discriminate).
    unfold SearchFacts.outcome. unfold slot_at at 1.
    rewrite (look_probe b (fst e) Hb);
      [|apply set_after_range; [assumption|apply BuildFacts.set_of_range; assumption]
       |apply off_of_range|apply BuildFacts.mark_of_range].
    rewrite Hdup. unfold SearchFacts.row. rewrite Vc, Vl, Vk. reflexivity.
Qed.

(** A key that is not in the table is missed. *)
Lemma Search_absent b fuel :
  ~ In (bytes_at b 0 (Z.to_nat kl)) (map fst es) ->
  Z.of_nat (length es) < 64 * n -> (Z.to_nat n <= fuel)%nat ->
  Search Hash fuel (mkPack v file) b = Some None.
Proof.
  intros Hnin Hroom Hfuel.
  set (key_ := bytes_at b 0 (Z.to_nat kl)) in *.
  assert (Hb : bytes_at b 0 (Z.to_nat kl) = bytes_at key_ 0 (Z.to_nat kl))
    by (unfold key_; now rewrite bytes_at_idem).
  pose proof (BuildFacts.set_of_range Hash header n Hn key_) as Hset.
  pose proof (BuildFacts.sft_of_range Hash header n key_) as Hsft.
  pose proof (BuildFacts.mark_of_range Hash header n key_) as Hmark.
  assert (Hfree : has_free_slot n guide).
  { destruct (free_slot_by_count guide) as (i & Hi & Hf).
    - intros i Hi. apply (tb_quiet _ _ _ _ _ _ HT).
      rewrite (tb_guide_len _ _ _ _ _ _ HT) in Hi. lia.
    - rewrite (tb_occupied _ _ _ _ _ _ HT), (tb_guide_len _ _ _ _ _ _ HT). lia.
    - exists i. rewrite (tb_guide_len _ _ _ _ _ _ HT) in Hi. split; [lia|exact Hf]. }
  destruct (stop_exists n Hn header key_ guide space (BuildFacts.mark_of Hash header n key_)
              _ _ (tb_quiet _ _ _ _ _ _ HT) Hset Hsft Hfree)
    as (d & k & Hd & Hk & Hclear & Hstop).
  pose proof (set_after_range n Hn d _ Hset) as Hsd.
  pose proof (off_of_range (BuildFacts.sft_of Hash header n key_) k) as Hoff.
  destruct Hstop as [Hempty|Hdup].
  - rewrite (Search_stop b key_ Hb d k fuel Hd Hk Hfuel Hclear)
      by (rewrite Hempty; discriminate).
    unfold SearchFacts.outcome. unfold slot_at.
    rewrite (look_probe b key_ Hb) by assumption.
    now rewrite Hempty.
  - exfalso. apply Hnin.
    destruct (probe_dup_inv header n Hn Hkl Hvl key_ guide space _ _ _ Hsd Hoff Hdup)
      as (_ & Hlt & Hrow).
    assert (Hr : 0 <= 64 * set_after (Divisor.make n) d (BuildFacts.set_of Hash header n key_)
                      + off_of (BuildFacts.sft_of Hash header n key_) k < 64 * n) by lia.
    destruct (tb_rows _ _ _ _ _ _ HT _ Hr Hlt) as (e' & Hin' & Hk' & _).
    apply in_map_iff. exists e'. split; [|exact Hin'].
    rewrite <- Hk', Hrow. unfold key_. apply bytes_at_idem.
Qed.

(** The handle of the artifact. *)
Lemma file_handle : Hashtable_load (Some file) = mkHashtable (Some file) v.
Proof. unfold Hashtable_load. now rewrite Hview. Qed.

End Lookup.

End File.

End FileFacts.

(** ** Builds with values of one size, read back *)

Module FixedBuildFacts.
Import TableFacts FileFacts.

(** The item count of the header plays no part in the table. *)
Lemma Table_with_item Hash header n item guide space es :
  Table Hash header n guide space es ->
  Table Hash (with_item header item) n guide space es.
Proof.
  intros [H1 H2 H3 H4 H5 H6 H7 H8].
  constructor; [exact H1|exact H2|exact H3|exact H4|exact H5|exact H6|exact H7|exact H8].
Qed.

Lemma distinct_count {A : Type} (dec : forall x y : A, {x = y} + {x <> y}) (l l' : list A) :
  NoDup l -> (forall x, In x l <-> In x l') -> length l = length (nodup dec l').
Proof.
  intros Hnd Hin. apply Permutation_length. apply NoDup_Permutation.
  - exact Hnd.
  - apply NoDup_nodup.
  - intros x. rewrite nodup_In. apply Hin.
Qed.

Section Build.

Variable Hash : list Z -> Z -> Z -> Z.
Variables (fuel : nat) (seed type key_len val_len : Z).
Variable readers : list ListReader.
Variable room : Z.
Variable out : Sink.

Let items := BuildFacts.all_items readers.
Let n := CalcSetCnt (Z.of_nat (length items)).
Let header := mkHeader SSHT_MAGIC type key_len val_len seed 0 n.

Hypothesis Hne : readers <> [].
Hypothesis Hkl : 1 <= key_len <= 255.
Hypothesis Hvl : 0 <= val_len < 2 ^ 16.
Hypothesis Hitems : 1 <= Z.of_nat (length items) < 2 ^ 40.
Hypothesis Hfuel : (Z.to_nat n <= fuel)%nat.
Hypothesis Hseed : 0 <= seed < 2 ^ 64.
Hypothesis Htype : type = KEY_SET \/ (type = KV_INLINE /\ 0 < val_len).
Hypothesis Hbuild :
  BuildWithFixedSizeValue Hash fuel seed type key_len val_len readers (mkSink [] room)
  = Done (BUILD_STATUS_OK, out).

Lemma fixed_build_lookup :
  let h := Hashtable_load (Some (sk_data out)) in
  Hashtable_not h = false /\
  (v_type (m_view h) = type /\ v_key_len (m_view h) = key_len /\
   v_val_len (m_view h) = val_len) /\
  Forall (wellformed header) items /\
  v_item (m_view h)
  = Z.of_nat (length (nodup (list_eq_dec Z.eq_dec) (map (key_of header) items))) /\
  (forall b fuel', (Z.to_nat n <= fuel')%nat ->
     (forall r, In r items -> key_of header r <> bytes_at b 0 (Z.to_nat key_len)) ->
     search Hash fuel' h (Some b) = Some null_slice) /\
  (forall r, In r items ->
     exists r' p, In r' items /\ key_of header r' = key_of header r /\
       bytes_at (sk_data out) p (Z.to_nat val_len) = value_of header r' /\
       forall b fuel', bytes_at b 0 (Z.to_nat key_len) = key_of header r ->
         (Z.to_nat n <= fuel')%nat ->
         search Hash fuel' h (Some b) = Some (mkSlice (Some p) val_len)).
Proof.
  destruct (BuildWithFixedSizeValue_spec Hash fuel seed type key_len val_len readers
              (mkSink [] room) Hne Hkl Hvl Hitems Hfuel) as (status & out' & Hrun & Hspec).
  rewrite Hbuild in Hrun. injection Hrun as <- <-.
  destruct Hspec as (Hall & _ & guide & space & es & HT & Hg & Hdata).
  fold items n header in Hall, HT, Hg, Hdata. cbn [sk_data app] in Hdata.
  pose proof (BuildFacts.CalcSetCnt_range (Z.of_nat (length items)) ltac:(lia)) as Hn.
  destruct (TerminationFacts.CalcSetCnt_slack (Z.of_nat (length items)) ltac:(lia))
    as (_ & Hslack & _).
  fold n in Hn, Hslack.
  assert (Hes : Z.of_nat (length es) <= Z.of_nat (length items)).
  { destruct Hg as (added & _ & _ & Hle & _). lia. }
  set (h1 := with_item header (Z.of_nat (length es))) in *.
  assert (Hfit : LoaderFacts.lengths_fit_type h1).
  { unfold LoaderFacts.lengths_fit_type. cbn [h1 with_item header h_type h_key_len h_val_len].
    destruct Htype as [->|[-> Hv]]; [left|right; left]; repeat split; lia. }
  assert (Hnsep : h_type h1 = KV_SEPARATED -> 64 * n <= Z.of_nat (length (@nil Z))).
  { cbn [h1 with_item header h_type]. unfold KV_SEPARATED, KEY_SET, KV_INLINE in *.
    destruct Htype as [->|[-> _]]; discriminate. }
  pose proof (Table_with_item Hash header n (Z.of_nat (length es)) guide space es HT) as HT1.
  fold h1 in HT1.
  assert (Hfile : sk_data out = file h1 guide space []).
  { unfold file. rewrite app_nil_r. exact Hdata. }
  destruct (file_view Hash h1 n Hn Hkl Hvl eq_refl eq_refl Hseed
              ltac:(cbn [h1 with_item h_item]; lia) Hfit guide space [] es HT1 Hnsep)
    as (v & Hview & Vt & Vk & Vv & Vs & Vi & Vl & Vn & Vg & Vc & Ve & Vse).
  rewrite <- Hfile in Hview.
  assert (Hh : Hashtable_load (Some (sk_data out)) = mkHashtable (Some (sk_data out)) v)
    by (unfold Hashtable_load; now rewrite Hview).
  cbv zeta. rewrite Hh. cbn [m_view Hashtable_not m_data].
  split; [reflexivity|]. split; [repeat split; assumption|]. split; [exact Hall|].
  destruct Hg as (added & Hadd & _ & _ & Hfrom & Hkeys). rewrite app_nil_r in Hadd.
  subst added.
  split; [|split].
  - rewrite Vi. change (h_item h1) with (Z.of_nat (length es)). f_equal.
    transitivity (length (map fst es)); [symmetry; apply length_map|].
    apply distinct_count; [exact (tb_nodup _ _ _ _ _ _ HT)|].
    intros k. split.
    + intros Hk. apply in_map_iff in Hk. destruct Hk as (e & <- & He).
      destruct (Hfrom e He) as (r & Hr & ->). apply in_map_iff. exists r. now split.
    + intros Hk. apply in_map_iff in Hk. destruct Hk as (r & <- & Hr). now apply Hkeys.
  - intros b fuel' Hfuel' Habsent. unfold search. cbn [Hashtable_not m_data].
    unfold Hashtable_pack, Hashtable_mem. cbn [m_view m_data].
    rewrite Hfile in Hview |- *.
    rewrite (Search_absent Hash h1 n Hn Hkl Hvl eq_refl eq_refl Hseed
               ltac:(cbn [h1 with_item h_item]; lia) Hfit guide space [] es HT1 Hnsep
               v Hview b fuel'); try reflexivity; try lia.
    intros Hin. apply in_map_iff in Hin. destruct Hin as (e & He & Hine).
    destruct (Hfrom e Hine) as (r & Hr & ->). apply (Habsent r Hr). exact He.
  - intros r Hr. specialize (Hkeys r Hr). apply in_map_iff in Hkeys.
    destruct Hkeys as (e & He & Hine).
    destruct (Hfrom e Hine) as (r' & Hr' & ->). cbn [entry_of fst] in He.
    rewrite Hfile in Hview.
    destruct (Search_entry Hash h1 n Hn Hkl Hvl eq_refl eq_refl Hseed
                ltac:(cbn [h1 with_item h_item]; lia) Hfit guide space [] es HT1 Hnsep
                v Hview (entry_of header r') Hine)
      as (i & Hi & Hval & HS).
    exists r', (64 + 64 * n + i * (key_len + val_len) + key_len).
    split; [exact Hr'|]. split; [exact He|]. split.
    { rewrite Hfile. exact Hval. }
    intros b fuel' Hb Hfuel'.
    unfold search. cbn [Hashtable_not m_data].
    unfold Hashtable_pack, Hashtable_mem. cbn [m_view m_data].
    rewrite Hfile.
    rewrite (HS b fuel');
      [|cbn [entry_of fst]; rewrite He; exact Hb|exact Hfuel'].
    rewrite Vt, Vv. cbn [h1 with_item header h_type h_val_len h_key_len].
    unfold KV_SEPARATED, KEY_SET, KV_INLINE in *.
    destruct Htype as [->|[-> _]]; reflexivity.
Qed.

End Build.

(** [DetectKeyValueLen] on a reader over a list. *)
Lemma DetectKeyValueLen_ListReader (front : ListReader) (want_val : bool) :
  let rec0 := nth (lr_pos front) (lr_items front) null_rec in
  DetectKeyValueLen front want_val
  = if is_null (key rec0) || (len (key rec0) =? 0) || (len (key rec0) >? MAX_KEY_LEN)
    then Done (None, mkListReader (lr_items front) (S (lr_pos front)))
    else if want_val
         then if is_null (val rec0) || (len (val rec0) =? 0)
                 || (len (val rec0) >? MAX_INLINE_VALUE_LEN)
              then Done (None, mkListReader (lr_items front) (S (lr_pos front)))
              else Done (Some (wrap8 (len (key rec0)), wrap16 (len (val rec0))),
                         mkListReader (lr_items front) 0)
         else Done (Some (wrap8 (len (key rec0)), 0), mkListReader (lr_items front) 0).
Proof.
  cbv zeta. unfold DetectKeyValueLen. cbn [read ListReader_reader bind reset lr_items].
  destruct (_ || _ || _); [reflexivity|]. destruct want_val; [|reflexivity].
  destruct (_ || _ || _); reflexivity.
Qed.

(** A record that is not null is one of the records of its reader. *)
Lemma nth_not_null (front : ListReader) :
  is_null (key (nth (lr_pos front) (lr_items front) null_rec)) = false ->
  In (nth (lr_pos front) (lr_items front) null_rec) (lr_items front).
Proof.
  intros Hnull.
  destruct (Nat.ltb_spec (lr_pos front) (length (lr_items front))) as [Hp|Hp].
  - now apply nth_In.
  - rewrite nth_overflow in Hnull by lia. discriminate.
Qed.

(** What [BuildDict] wrote, when it returned OK. *)
Lemma BuildDict_artifact Hash fuel seed (readers : list ListReader) room out :
  let items := BuildFacts.all_items readers in
  let n := CalcSetCnt (Z.of_nat (length items)) in
  Z.of_nat (length items) < 2 ^ 40 ->
  Forall (fun r => 0 <= len (key r) /\ 0 <= len (val r)) items ->
  0 <= seed < 2 ^ 64 -> (Z.to_nat n <= fuel)%nat ->
  BuildDict Hash fuel seed readers (mkSink [] room) = Done (BUILD_STATUS_OK, out) ->
  let h := Hashtable_load (Some (sk_data out)) in
  let kl := v_key_len (m_view h) in
  let vl := v_val_len (m_view h) in
  Hashtable_not h = false /\ v_type (m_view h) = KV_INLINE /\
  1 <= kl <= 255 /\ 1 <= vl <= 65535 /\
  Forall (fun r => len (key r) = kl /\ len (val r) = vl /\
                   ptr (key r) <> None /\ ptr (val r) <> None) items /\
  v_item (m_view h)
  = Z.of_nat (length (nodup (list_eq_dec Z.eq_dec)
                            (map (fun r => slice_bytes (key r) kl) items))) /\
  (forall b fuel', (Z.to_nat n <= fuel')%nat ->
     (forall r, In r items -> slice_bytes (key r) kl <> bytes_at b 0 (Z.to_nat kl)) ->
     search Hash fuel' h (Some b) = Some null_slice) /\
  (forall r, In r items ->
     exists r' p, In r' items /\ slice_bytes (key r') kl = slice_bytes (key r) kl /\
       bytes_at (sk_data out) p (Z.to_nat vl) = slice_bytes (val r') vl /\
       forall b fuel', bytes_at b 0 (Z.to_nat kl) = slice_bytes (key r) kl ->
         (Z.to_nat n <= fuel')%nat ->
         search Hash fuel' h (Some b) = Some (mkSlice (Some p) vl)).
Proof.
  intros items n Hlen Hsize Hseed Hfuel. unfold BuildDict.
  destruct readers as [|front rest]; [discriminate|].
  rewrite DetectKeyValueLen_ListReader. cbv zeta.
  set (rec0 := nth (lr_pos front) (lr_items front) null_rec).
  destruct (is_null (key rec0)) eqn:Enull; [discriminate|]. cbn [orb].
  destruct (Z.eqb_spec (len (key rec0)) 0) as [E0|E0]; [discriminate|]. cbn [orb].
  destruct (Z.gtb_spec (len (key rec0)) MAX_KEY_LEN) as [Emax|Emax]; [discriminate|].
  destruct (is_null (val rec0)) eqn:Evnull; [discriminate|]. cbn [orb].
  destruct (Z.eqb_spec (len (val rec0)) 0) as [V0|V0]; [discriminate|]. cbn [orb].
  destruct (Z.gtb_spec (len (val rec0)) MAX_INLINE_VALUE_LEN) as [Vmax|Vmax];
    [discriminate|].
  cbn [bind].
  assert (Hrec0 : In rec0 items).
  { unfold items, BuildFacts.all_items. cbn [flat_map]. apply in_or_app. left.
    now apply nth_not_null. }
  assert (Hpos0 : 0 <= len (key rec0) /\ 0 <= len (val rec0)).
  { rewrite Forall_forall in Hsize. now apply Hsize. }
  unfold MAX_KEY_LEN in Emax. unfold MAX_INLINE_VALUE_LEN in Vmax.
  rewrite (BufferFacts.wrap8_small (len (key rec0))) by lia.
  unfold wrap16. rewrite (Z.mod_small (len (val rec0))) by lia.
  set (key_len := len (key rec0)). set (val_len := len (val rec0)).
  intros Hbuild.
  assert (Hitems : 1 <= Z.of_nat (length items) < 2 ^ 40).
  { split; [|exact Hlen]. destruct items; [destruct Hrec0|cbn [length]; lia]. }
  destruct (fixed_build_lookup Hash fuel seed KV_INLINE key_len val_len
              (mkListReader (lr_items front) 0 :: rest) room out
              ltac:(discriminate) ltac:(unfold key_len; lia) ltac:(unfold val_len; lia)
              Hitems Hfuel Hseed ltac:(right; split; [reflexivity|unfold val_len; lia])
              Hbuild)
    as (Hnot & (Vt & Vk & Vv) & Hall & Hcount & Habsent & Hfound).
  change (BuildFacts.all_items (mkListReader (lr_items front) 0 :: rest)) with items
    in Hall, Hcount, Habsent, Hfound.
  fold n in Hall, Hcount, Habsent, Hfound.
  set (h := Hashtable_load (Some (sk_data out))) in *.
  rewrite Vk, Vv.
  set (header := mkHeader SSHT_MAGIC KV_INLINE key_len val_len seed 0 n) in *.
  assert (Hvalue : forall r, value_of header r = slice_bytes (val r) val_len).
  { intros r. unfold value_of. cbn [header h_val_len].
    destruct (Z.eqb_spec val_len 0); [unfold val_len in *; lia|reflexivity]. }
  split; [exact Hnot|]. split; [exact Vt|].
  split; [unfold key_len; lia|]. split; [unfold val_len; lia|].
  split; [|split; [exact Hcount|split; [exact Habsent|]]].
  - rewrite Forall_forall in Hall |- *. intros r Hr.
    destruct (wellformed_spec header r (Hall r Hr)) as ([b Hb] & Hkl & Hv).
    cbn [header h_key_len h_val_len] in Hkl, Hv.
    destruct (Hv ltac:(unfold val_len; lia)) as ([vb Hvb] & Hvl).
    repeat split; try assumption; congruence.
  - intros r Hr. destruct (Hfound r Hr) as (r' & p & Hr' & Hk & Hval & HS).
    exists r', p. rewrite Hvalue in Hval. repeat split; assumption.
Qed.

(** What [BuildSet] wrote, when it returned OK. *)
Lemma BuildSet_artifact Hash fuel seed (readers : list ListReader) room out :
  let items := BuildFacts.all_items readers in
  let n := CalcSetCnt (Z.of_nat (length items)) in
  Z.of_nat (length items) < 2 ^ 40 ->
  Forall (fun r => 0 <= len (key r)) items ->
  0 <= seed < 2 ^ 64 -> (Z.to_nat n <= fuel)%nat ->
  BuildSet Hash fuel seed readers (mkSink [] room) = Done (BUILD_STATUS_OK, out) ->
  let h := Hashtable_load (Some (sk_data out)) in
  let kl := v_key_len (m_view h) in
  Hashtable_not h = false /\ v_type (m_view h) = KEY_SET /\ v_val_len (m_view h) = 0 /\
  1 <= kl <= 255 /\
  Forall (fun r => len (key r) = kl /\ ptr (key r) <> None) items /\
  v_item (m_view h)
  = Z.of_nat (length (nodup (list_eq_dec Z.eq_dec)
                            (map (fun r => slice_bytes (key r) kl) items))) /\
  (forall b fuel', (Z.to_nat n <= fuel')%nat ->
     (forall r, In r items -> slice_bytes (key r) kl <> bytes_at b 0 (Z.to_nat kl)) ->
     search Hash fuel' h (Some b) = Some null_slice) /\
  (forall r, In r items ->
     exists p, forall b fuel', bytes_at b 0 (Z.to_nat kl) = slice_bytes (key r) kl ->
       (Z.to_nat n <= fuel')%nat ->
       search Hash fuel' h (Some b) = Some (mkSlice (Some p) 0)).
Proof.
  intros items n Hlen Hsize Hseed Hfuel. unfold BuildSet.
  destruct readers as [|front rest]; [discriminate|].
  rewrite DetectKeyValueLen_ListReader. cbv zeta.
  set (rec0 := nth (lr_pos front) (lr_items front) null_rec).
  destruct (is_null (key rec0)) eqn:Enull; [discriminate|]. cbn [orb].
  destruct (Z.eqb_spec (len (key rec0)) 0) as [E0|E0]; [discriminate|]. cbn [orb].
  destruct (Z.gtb_spec (len (key rec0)) MAX_KEY_LEN) as [Emax|Emax]; [discriminate|].
  cbn [bind].
  assert (Hrec0 : In rec0 items).
  { unfold items, BuildFacts.all_items. cbn [flat_map]. apply in_or_app. left.
    now apply nth_not_null. }
  assert (Hpos0 : 0 <= len (key rec0)).
  { rewrite Forall_forall in Hsize. now apply Hsize. }
  unfold MAX_KEY_LEN in Emax.
  rewrite (BufferFacts.wrap8_small (len (key rec0))) by lia.
  set (key_len := len (key rec0)).
  intros Hbuild.
  assert (Hitems : 1 <= Z.of_nat (length items) < 2 ^ 40).
  { split; [|exact Hlen]. destruct items; [destruct Hrec0|cbn [length]; lia]. }
  destruct (fixed_build_lookup Hash fuel seed KEY_SET key_len 0
              (mkListReader (lr_items front) 0 :: rest) room out
              ltac:(discriminate) ltac:(unfold key_len; lia) ltac:(lia)
              Hitems Hfuel Hseed ltac:(now left) Hbuild)
    as (Hnot & (Vt & Vk & Vv) & Hall & Hcount & Habsent & Hfound).
  change (BuildFacts.all_items (mkListReader (lr_items front) 0 :: rest)) with items
    in Hall, Hcount, Habsent, Hfound.
  fold n in Hall, Hcount, Habsent, Hfound.
  set (h := Hashtable_load (Some (sk_data out))) in *.
  rewrite Vk.
  set (header := mkHeader SSHT_MAGIC KEY_SET key_len 0 seed 0 n) in *.
  split; [exact Hnot|]. split; [exact Vt|]. split; [exact Vv|].
  split; [unfold key_len; lia|].
  split; [|split; [exact Hcount|split; [exact Habsent|]]].
  - rewrite Forall_forall in Hall |- *. intros r Hr.
    destruct (wellformed_spec header r (Hall r Hr)) as ([b Hb] & Hkl & _).
    cbn [header h_key_len] in Hkl. split; [exact Hkl|congruence].
  - intros r Hr. destruct (Hfound r Hr) as (r' & p & _ & _ & _ & HS).
    exists p. exact HS.
Qed.

(** A record with a key and a value of the lengths of the table. *)
Lemma wellformed_iff header r : h_val_len header <> 0 ->
  wellformed header r <->
  (ptr (key r) <> None /\ len (key r) = h_key_len header /\
   ptr (val r) <> None /\ len (val r) = h_val_len header).
Proof.
  intros Hv. unfold wellformed, malformed, is_null.
  destruct (Z.eqb_spec (h_val_len header) 0) as [?|_]; [contradiction|]. cbn [negb andb].
  destruct (ptr (key r)) as [kb|], (ptr (val r)) as [vb|];
    destruct (Z.eqb_spec (len (key r)) (h_key_len header)),
             (Z.eqb_spec (len (val r)) (h_val_len header));
    cbn [negb orb andb]; split; try discriminate; try congruence;
    try (intros (H1 & H2 & H3 & H4); congruence);
    repeat split; try discriminate; assumption.
Qed.

End FixedBuildFacts.

(** X15.  What [BuildDict] stores, [search] returns.  When the build of
    fewer than 2^40 records returns OK, the artifact it wrote loads as
    KV_INLINE, every record has the key and value length of the table, and
    the lookup of the key of any record returns, within one turn per set, a
    slice of [val_len] bytes in the file that holds the value of a record
    with that key (of that record itself when no other has its key). The
    readers are mapped one after the other. *)
Theorem BuildDict_values_read_back (Hash : list Z -> Z -> Z -> Z) (fuel : nat) (seed : Z)
    (readers : list ListReader) (room : Z) (out : Sink) :
  let items := BuildFacts.all_items readers in
  let n := CalcSetCnt (Z.of_nat (length items)) in
  Z.of_nat (length items) < 2 ^ 40 ->
  Forall (fun r => 0 <= len (key r) /\ 0 <= len (val r)) items ->
  0 <= seed < 2 ^ 64 -> (Z.to_nat n <= fuel)%nat ->
  BuildDict Hash fuel seed readers (mkSink [] room) = Done (BUILD_STATUS_OK, out) ->
  let h := Hashtable_load (Some (sk_data out)) in
  let kl := Hashtable_key_len h in
  let vl := Hashtable_val_len h in
  Hashtable_not h = false /\ Hashtable_type h = KV_INLINE /\
  forall r, In r items ->
    len (key r) = kl /\ len (val r) = vl /\
    exists r' p, In r' items /\ slice_bytes (key r') kl = slice_bytes (key r) kl /\
      bytes_at (sk_data out) p (Z.to_nat vl) = slice_bytes (val r') vl /\
      forall b fuel', bytes_at b 0 (Z.to_nat kl) = slice_bytes (key r) kl ->
        (Z.to_nat n <= fuel')%nat ->
        search Hash fuel' h (Some b) = Some (mkSlice (Some p) vl).
Proof.
  intros items n Hlen Hsize Hseed Hfuel Hbuild.
  destruct (FixedBuildFacts.BuildDict_artifact Hash fuel seed readers room out Hlen Hsize
              Hseed Hfuel Hbuild) as (Hnot & Hty & _ & _ & Hall & _ & _ & Hfound).
  cbv zeta. unfold Hashtable_type, Hashtable_key_len, Hashtable_val_len.
  split; [exact Hnot|]. split; [exact Hty|].
  intros r Hr. rewrite Forall_forall in Hall. destruct (Hall r Hr) as (Hk & Hv & _).
  split; [exact Hk|]. split; [exact Hv|]. exact (Hfound r Hr).
Qed.

(** The records of the examples: two keys with a value each. *)
Definition two_records : list ListReader :=
  [mkListReader [rec_of [107] [1]; rec_of [108] [2]] 0].

Lemma BuildDict_values_read_back_witness :
  exists out,
    BuildDict toy_hash 1 42 two_records (mkSink [] 4096) = Done (BUILD_STATUS_OK, out) /\
    Hashtable_not (Hashtable_load (Some (sk_data out))) = false /\
    Hashtable_type (Hashtable_load (Some (sk_data out))) = KV_INLINE.
Proof.
  eexists. split; [vm_compute; reflexivity|].
  pose proof (BuildDict_values_read_back toy_hash 1 42 two_records 4096) as H.
  cbv zeta in H.
  specialize (H _ ltac:(cbn; lia) ltac:(repeat constructor; cbn; lia) ltac:(lia)
                ltac:(vm_compute; lia) ltac:(vm_compute; reflexivity)).
  split; [exact (proj1 H)|exact (proj1 (proj2 H))].
Defined.

(** X16.  A key that no record of the input carries is not found in the
    artifact [BuildDict] wrote: [search] returns the null slice. *)
Theorem BuildDict_other_keys_miss (Hash : list Z -> Z -> Z -> Z) (fuel : nat) (seed : Z)
    (readers : list ListReader) (room : Z) (out : Sink) :
  let items := BuildFacts.all_items readers in
  let n := CalcSetCnt (Z.of_nat (length items)) in
  Z.of_nat (length items) < 2 ^ 40 ->
  Forall (fun r => 0 <= len (key r) /\ 0 <= len (val r)) items ->
  0 <= seed < 2 ^ 64 -> (Z.to_nat n <= fuel)%nat ->
  BuildDict Hash fuel seed readers (mkSink [] room) = Done (BUILD_STATUS_OK, out) ->
  let h := Hashtable_load (Some (sk_data out)) in
  let kl := Hashtable_key_len h in
  forall b fuel', (Z.to_nat n <= fuel')%nat ->
    (forall r, In r items -> slice_bytes (key r) kl <> bytes_at b 0 (Z.to_nat kl)) ->
    search Hash fuel' h (Some b) = Some null_slice.
Proof.
  intros items n Hlen Hsize Hseed Hfuel Hbuild.
  destruct (FixedBuildFacts.BuildDict_artifact Hash fuel seed readers room out Hlen Hsize
              Hseed Hfuel Hbuild) as (_ & _ & _ & _ & _ & _ & Habsent & _).
  exact Habsent.
Qed.

Lemma BuildDict_other_keys_miss_witness :
  exists out,
    BuildDict toy_hash 1 42 two_records (mkSink [] 4096) = Done (BUILD_STATUS_OK, out) /\
    search toy_hash 1 (Hashtable_load (Some (sk_data out))) (Some [109]) = Some null_slice.
Proof.
  eexists. split; [vm_compute; reflexivity|].
  pose proof (BuildDict_other_keys_miss toy_hash 1 42 two_records 4096) as H.
  cbv zeta in H.
  specialize (H _ ltac:(cbn; lia) ltac:(repeat constructor; cbn; lia) ltac:(lia)
                ltac:(vm_compute; lia) ltac:(vm_compute; reflexivity)).
  apply H; [vm_compute; lia|].
  intros r [<-|[<-|[]]]; vm_compute; discriminate.
Defined.

(** X17.  [item()] of the artifact [BuildDict] wrote is the number of
    distinct keys of the input: a key carried by several records is stored
    once. *)
Theorem BuildDict_item_counts_keys (Hash : list Z -> Z -> Z -> Z) (fuel : nat) (seed : Z)
    (readers : list ListReader) (room : Z) (out : Sink) :
  let items := BuildFacts.all_items readers in
  let n := CalcSetCnt (Z.of_nat (length items)) in
  Z.of_nat (length items) < 2 ^ 40 ->
  Forall (fun r => 0 <= len (key r) /\ 0 <= len (val r)) items ->
  0 <= seed < 2 ^ 64 -> (Z.to_nat n <= fuel)%nat ->
  BuildDict Hash fuel seed readers (mkSink [] room) = Done (BUILD_STATUS_OK, out) ->
  let h := Hashtable_load (Some (sk_data out)) in
  Hashtable_item h
  = Z.of_nat (length (nodup (list_eq_dec Z.eq_dec)
                            (map (fun r => slice_bytes (key r) (Hashtable_key_len h))
                                 items))).
Proof.
  intros items n Hlen Hsize Hseed Hfuel Hbuild.
  destruct (FixedBuildFacts.BuildDict_artifact Hash fuel seed readers room out Hlen Hsize
              Hseed Hfuel Hbuild) as (_ & _ & _ & _ & _ & Hcount & _).
  exact Hcount.
Qed.

(** Three records, two of them with the same key. *)
Definition repeated_key : list ListReader :=
  [mkListReader [rec_of [107] [1]; rec_of [108] [2]; rec_of [107] [3]] 0].

Lemma BuildDict_item_counts_keys_witness :
  exists out,
    BuildDict toy_hash 1 42 repeated_key (mkSink [] 4096) = Done (BUILD_STATUS_OK, out) /\
    Hashtable_item (Hashtable_load (Some (sk_data out))) = 2.
Proof.
  eexists. split; [vm_compute; reflexivity|].
  pose proof (BuildDict_item_counts_keys toy_hash 1 42 repeated_key 4096) as H.
  cbv zeta in H.
  specialize (H _ ltac:(cbn; lia) ltac:(repeat constructor; cbn; lia) ltac:(lia)
                ltac:(vm_compute; lia) ltac:(vm_compute; reflexivity)).
  rewrite H. vm_compute. reflexivity.
Defined.

(** X18.  The artifact [BuildSet] wrote is a membership test for the keys
    of the input: it loads as KEY_SET, and [search] returns a slice that is
    not null (of length 0) for every key of the input and the null slice
    for every other key. *)
Theorem BuildSet_membership (Hash : list Z -> Z -> Z -> Z) (fuel : nat) (seed : Z)
    (readers : list ListReader) (room : Z) (out : Sink) :
  let items := BuildFacts.all_items readers in
  let n := CalcSetCnt (Z.of_nat (length items)) in
  Z.of_nat (length items) < 2 ^ 40 ->
  Forall (fun r => 0 <= len (key r)) items ->
  0 <= seed < 2 ^ 64 -> (Z.to_nat n <= fuel)%nat ->
  BuildSet Hash fuel seed readers (mkSink [] room) = Done (BUILD_STATUS_OK, out) ->
  let h := Hashtable_load (Some (sk_data out)) in
  let kl := Hashtable_key_len h in
  Hashtable_not h = false /\ Hashtable_type h = KEY_SET /\
  forall b fuel', (Z.to_nat n <= fuel')%nat ->
    exists s, search Hash fuel' h (Some b) = Some s /\ len s = 0 /\
      (ptr s <> None <->
       exists r, In r items /\ slice_bytes (key r) kl = bytes_at b 0 (Z.to_nat kl)).
Proof.
  intros items n Hlen Hsize Hseed Hfuel Hbuild.
  destruct (FixedBuildFacts.BuildSet_artifact Hash fuel seed readers room out Hlen Hsize
              Hseed Hfuel Hbuild) as (Hnot & Hty & _ & _ & _ & _ & Habsent & Hfound).
  cbv zeta. unfold Hashtable_type, Hashtable_key_len.
  split; [exact Hnot|]. split; [exact Hty|].
  intros b fuel' Hfuel'.
  set (kl := v_key_len (m_view (Hashtable_load (Some (sk_data out))))) in *.
  destruct (in_dec (list_eq_dec Z.eq_dec) (bytes_at b 0 (Z.to_nat kl))
                   (map (fun r => slice_bytes (key r) kl) items)) as [Hin|Hnin].
  - apply in_map_iff in Hin. destruct Hin as (r & Hk & Hr).
    destruct (Hfound r Hr) as (p & HS).
    exists (mkSlice (Some p) 0). split; [apply HS; [now symmetry|exact Hfuel']|].
    split; [reflexivity|]. split; [intros _; now exists r|discriminate].
  - exists null_slice. split.
    + apply Habsent; [exact Hfuel'|]. intros r Hr Heq. apply Hnin.
      apply in_map_iff. exists r. now split.
    + split; [reflexivity|]. split; [intros H; now contradiction H|].
      intros (r & Hr & Heq). exfalso. apply Hnin. apply in_map_iff. exists r. now split.
Qed.

Lemma BuildSet_membership_witness :
  exists out,
    BuildSet toy_hash 1 42 two_records (mkSink [] 4096) = Done (BUILD_STATUS_OK, out) /\
    Hashtable_not (Hashtable_load (Some (sk_data out))) = false /\
    Hashtable_type (Hashtable_load (Some (sk_data out))) = KEY_SET.
Proof.
  eexists. split; [vm_compute; reflexivity|].
  pose proof (BuildSet_membership toy_hash 1 42 two_records 4096) as H.
  cbv zeta in H.
  specialize (H _ ltac:(cbn; lia) ltac:(repeat constructor; cbn; lia) ltac:(lia)
                ltac:(vm_compute; lia) ltac:(vm_compute; reflexivity)).
  split; [exact (proj1 H)|exact (proj1 (proj2 H))].
Defined.

(** X19.  The status [BuildDict] returns.  With the lengths of the first
    record of the first reader as the lengths of the table, the build
    returns BAD_INPUT and writes nothing exactly when that record or any
    other lacks a key or a value or has another length (or the first key is
    longer than 255 bytes, the first value longer than 65535); otherwise it
    returns FAIL_TO_OUTPUT exactly when the sink takes fewer bytes than the
    header, the guide and the rows need, and OK after writing that many
    bytes. It never fails to return. *)
Theorem BuildDict_status (Hash : list Z -> Z -> Z -> Z) (fuel : nat) (seed : Z)
    (front : ListReader) (rest : list ListReader) (out : Sink) :
  let readers := front :: rest in
  let items := BuildFacts.all_items readers in
  let first := nth (lr_pos front) (lr_items front) null_rec in
  let n := CalcSetCnt (Z.of_nat (length items)) in
  let size := 64 + 64 * n + 64 * n * (len (key first) + len (val first)) in
  let good :=
    ptr (key first) <> None /\ 1 <= len (key first) <= MAX_KEY_LEN /\
    ptr (val first) <> None /\ 1 <= len (val first) <= MAX_INLINE_VALUE_LEN /\
    Forall (fun r => ptr (key r) <> None /\ len (key r) = len (key first) /\
                     ptr (val r) <> None /\ len (val r) = len (val first)) items in
  Z.of_nat (length items) < 2 ^ 40 ->
  Forall (fun r => 0 <= len (key r) /\ 0 <= len (val r)) items ->
  (Z.to_nat n <= fuel)%nat ->
  exists status out',
    BuildDict Hash fuel seed readers out = Done (status, out') /\
    match status with
    | BUILD_STATUS_BAD_INPUT => ~ good /\ out' = out
    | BUILD_STATUS_FAIL_TO_OUTPUT => good /\ sk_room out < size
    | BUILD_STATUS_OK =>
        good /\ size <= sk_room out /\
        Z.of_nat (length (sk_data out')) = Z.of_nat (length (sk_data out)) + size
    end.
Proof.
  intros readers items first n size good Hlen Hsize Hfuel.
  unfold BuildDict, readers. rewrite FixedBuildFacts.DetectKeyValueLen_ListReader.
  cbv zeta. fold first. unfold is_null.
  destruct (ptr (key first)) as [kb|] eqn:Ekey; cbn [orb bind];
    [|exists BUILD_STATUS_BAD_INPUT, out; split; [reflexivity|];
      split; [intros (H & _); now apply H|reflexivity]].
  assert (Hfirst : In first items).
  { unfold items, BuildFacts.all_items. cbn [flat_map]. apply in_or_app. left.
    apply FixedBuildFacts.nth_not_null. fold first. unfold is_null. now rewrite Ekey. }
  assert (Hpos0 : 0 <= len (key first) /\ 0 <= len (val first)).
  { rewrite Forall_forall in Hsize. now apply Hsize. }
  unfold MAX_KEY_LEN, MAX_INLINE_VALUE_LEN in *.
  destruct (Z.eqb_spec (len (key first)) 0) as [E0|E0]; cbn [orb bind];
    [exists BUILD_STATUS_BAD_INPUT, out; split; [reflexivity|];
     split; [intros (_ & H & _); lia|reflexivity]|].
  destruct (Z.gtb_spec (len (key first)) 255) as [Emax|Emax]; cbn [orb bind];
    [exists BUILD_STATUS_BAD_INPUT, out; split; [reflexivity|];
     split; [intros (_ & H & _); lia|reflexivity]|].
  destruct (ptr (val first)) as [vb|] eqn:Eval; cbn [orb bind];
    [|exists BUILD_STATUS_BAD_INPUT, out; split; [reflexivity|];
      split; [intros (_ & _ & H & _); now apply H|reflexivity]].
  destruct (Z.eqb_spec (len (val first)) 0) as [V0|V0]; cbn [orb bind];
    [exists BUILD_STATUS_BAD_INPUT, out; split; [reflexivity|];
     split; [intros (_ & _ & _ & H & _); lia|reflexivity]|].
  destruct (Z.gtb_spec (len (val first)) 65535) as [Vmax|Vmax]; cbn [orb bind];
    [exists BUILD_STATUS_BAD_INPUT, out; split; [reflexivity|];
     split; [intros (_ & _ & _ & H & _); lia|reflexivity]|].
  rewrite (BufferFacts.wrap8_small (len (key first))) by lia.
  unfold wrap16. rewrite (Z.mod_small (len (val first))) by lia.
  assert (Hitems : 1 <= Z.of_nat (length items) < 2 ^ 40).
  { split; [|exact Hlen]. destruct items; [destruct Hfirst|cbn [length]; lia]. }
  destruct (TableFacts.BuildWithFixedSizeValue_spec Hash fuel seed KV_INLINE
              (len (key first)) (len (val first))
              (mkListReader (lr_items front) 0 :: rest) out
              ltac:(discriminate) ltac:(lia) ltac:(lia) Hitems Hfuel)
    as (status & out' & Hrun & Hspec).
  change (BuildFacts.all_items (mkListReader (lr_items front) 0 :: rest)) with items
    in Hrun, Hspec.
  fold n in Hrun, Hspec. exists status, out'. split; [exact Hrun|].
  set (header := mkHeader SSHT_MAGIC KV_INLINE (len (key first)) (len (val first)) seed 0 n)
    in *.
  assert (Hgood : Forall (TableFacts.wellformed header) items <-> good).
  { unfold good. split.
    - intros Hall. split; [discriminate|]. split; [lia|]. split; [discriminate|].
      split; [lia|]. rewrite Forall_forall in Hall |- *. intros r Hr.
      apply (FixedBuildFacts.wellformed_iff header r V0). now apply Hall.
    - intros (_ & _ & _ & _ & Hall). rewrite Forall_forall in Hall |- *. intros r Hr.
      apply (FixedBuildFacts.wellformed_iff header r V0). now apply Hall. }
  destruct status.
  - destruct Hspec as (Hall & Hroom & guide & space & es & HT & _ & Hdata).
    split; [now apply Hgood|]. split; [exact Hroom|].
    rewrite Hdata, !length_app, TableFacts.Header_bytes_length.
    pose proof (TableFacts.tb_guide_len _ _ _ _ _ _ HT) as Hg.
    pose proof (TableFacts.tb_space_len _ _ _ _ _ _ HT) as Hs.
    cbn [header h_key_len h_val_len] in Hs. unfold size. lia.
  - destruct Hspec as (Hall & ->). split; [|reflexivity]. intros Hg. apply Hall.
    now apply Hgood.
  - destruct Hspec as (Hall & Hroom). split; [now apply Hgood|exact Hroom].
Qed.

Lemma BuildDict_status_witness :
  exists status out',
    BuildDict toy_hash 1 42 two_records (mkSink [] 100) = Done (status, out') /\
    status = BUILD_STATUS_FAIL_TO_OUTPUT.
Proof.
  destruct (BuildDict_status toy_hash 1 42
              (mkListReader [rec_of [107] [1]; rec_of [108] [2]] 0) [] (mkSink [] 100)
              ltac:(cbn; lia) ltac:(repeat constructor; cbn; lia) ltac:(vm_compute; lia))
    as (status & out' & Hrun & Hspec).
  exists status, out'. split; [exact Hrun|].
  destruct status; [|exfalso|reflexivity].
  - destruct Hspec as (_ & Hroom & _). vm_compute in Hroom. now contradiction Hroom.
  - destruct Hspec as (Hbad & _). apply Hbad. cbn [nth lr_pos lr_items rec_of key val ptr len].
    unfold MAX_KEY_LEN, MAX_INLINE_VALUE_LEN. cbn [length Z.of_nat Pos.of_succ_nat].
    split; [discriminate|]. split; [lia|]. split; [discriminate|]. split; [lia|].
    constructor; [|constructor; [|constructor]];
      (split; [discriminate|split; [reflexivity|split; [discriminate|reflexivity]]]).
Defined.

(** ** The build with values of varied length *)

Module VariedBuildFacts.
Import MappingFacts TerminationFacts BufferFacts TableFacts FileFacts.

Lemma VarIntSize_range n : 0 <= n < 2 ^ 64 -> 1 <= VarIntSize n <= 10.
Proof.
  intros Hn. rewrite <- ArtifactFacts.VarInt_length. unfold VarInt.
  pose proof (PrefixFacts.VarInt_loop_groups 10 10 n ltac:(lia) ltac:(lia)) as H.
  change (7 * Z.of_nat 10) with 70 in H. specialize (H ltac:(lia) ltac:(lia)). lia.
Qed.

Lemma OffsetField_length offset : length (OffsetField offset) = 6%nat.
Proof. unfold OffsetField. rewrite length_app, !HintFacts.unpack_length. reflexivity. Qed.

Lemma OffsetField_bytes offset : Forall HintFacts.is_byte (OffsetField offset).
Proof. unfold OffsetField. apply Forall_app. split; apply HintFacts.unpack_bytes. Qed.

(** [ReadOffsetField] on a field that holds the six bytes of an offset. *)
Lemma ReadOffsetField_bytes buf field offset :
  0 <= offset <= MAX_OFFSET ->
  bytes_at buf field 6 = OffsetField offset ->
  ReadOffsetField buf field = offset.
Proof.
  unfold MAX_OFFSET, OFFSET_FIELD_SIZE. intros Hoff Hback.
  change 6%nat with (4 + 2)%nat in Hback. rewrite CodecFacts.bytes_at_split in Hback.
  unfold OffsetField in Hback.
  apply CodecFacts.app_inj_length in Hback;
    [|now rewrite VarintFacts.bytes_at_length, HintFacts.unpack_length].
  change (Z.of_nat 4) with 4 in Hback. destruct Hback as [Hlo Hhi].
  assert (Hw32 : 0 <= wrap32 offset < 2 ^ 32) by (apply Z.mod_pos_bound; lia).
  assert (Hw16 : 0 <= wrap16 (Z.shiftr offset 32) < 2 ^ 16) by (apply Z.mod_pos_bound; lia).
  unfold ReadOffsetField, load16, load32. rewrite Hlo, Hhi.
  rewrite !HintFacts.pack_unpack by (cbn [Z.of_nat]; lia).
  rewrite Z.shiftl_mul_pow2 by lia.
  rewrite DivisorFacts.wrap64_small by lia.
  rewrite Z.lor_comm, <- (Z.shiftl_mul_pow2 _ 32) by lia.
  rewrite VarintFacts.lor_shiftl_add by lia.
  unfold wrap32, wrap16. rewrite Z.shiftr_div_pow2 by lia.
  assert (Hq : 0 <= offset / 2 ^ 32 < 2 ^ 16).
  { split; [apply Z.div_pos; lia|apply Z.div_lt_upper_bound; lia]. }
  rewrite (Z.mod_small (offset / 2 ^ 32)) by lia.
  pose proof (Z.div_mod offset (2 ^ 32) ltac:(lia)). lia.
Qed.

(** The bytes of the value of a record. *)
Definition value_bytes (r : Rec) : list Z := slice_bytes (val r) (len (val r)).

(** A value [KeyOffReader] passes on. *)
Definition dumpable (r : Rec) : Prop :=
  0 <= len (val r) <= MAX_VALUE_LEN /\ (len (val r) <> 0 -> ptr (val r) <> None).

Lemma value_bytes_length r : dumpable r -> Z.of_nat (length (value_bytes r)) = len (val r).
Proof.
  intros [Hl Hp]. unfold value_bytes, slice_bytes.
  destruct (ptr (val r)) as [bs|].
  - rewrite VarintFacts.bytes_at_length. lia.
  - destruct (Z.eq_dec (len (val r)) 0) as [->|Hn]; [reflexivity|].
    now contradiction (Hp Hn).
Qed.

Lemma value_bytes_bytes r : Forall HintFacts.is_byte (value_bytes r).
Proof.
  unfold value_bytes, slice_bytes. destruct (ptr (val r)); [|constructor].
  apply LoaderFacts.bytes_at_bytes.
Qed.

(** The records [KeyOffReader] hands to [Mapping]: the key of each record
    with the offset its value will have in the extend blob. *)
Fixpoint wrapped (off : Z) (items : list Rec) : list Rec :=
  match items with
  | [] => []
  | r :: items' =>
      mkRec (key r) (mkSlice (Some (OffsetField off)) OFFSET_FIELD_SIZE)
      :: wrapped (off + (VarIntSize (len (val r)) + len (val r))) items'
  end.

(** Every record is passed on: its offset fits the field and its value is
    one [KeyOffReader] takes. *)
Fixpoint admissible (off : Z) (items : list Rec) : Prop :=
  match items with
  | [] => True
  | r :: items' =>
      off <= MAX_OFFSET /\ dumpable r /\
      admissible (off + (VarIntSize (len (val r)) + len (val r))) items'
  end.

Lemma extend_size_cons r items :
  ArtifactFacts.extend_size (r :: items)
  = VarIntSize (len (val r)) + len (val r) + ArtifactFacts.extend_size items.
Proof. reflexivity. Qed.

Lemma wrapped_app : forall a b off,
  wrapped off (a ++ b) = wrapped off a ++ wrapped (off + ArtifactFacts.extend_size a) b.
Proof.
  induction a as [|r a IH]; intros b off.
  - cbn [app wrapped ArtifactFacts.extend_size]. now rewrite Z.add_0_r.
  - cbn [app wrapped]. rewrite IH, extend_size_cons. do 3 f_equal. lia.
Qed.

Lemma admissible_app : forall a b off,
  admissible off (a ++ b) <->
  admissible off a /\ admissible (off + ArtifactFacts.extend_size a) b.
Proof.
  induction a as [|r a IH]; intros b off.
  - cbn [app admissible ArtifactFacts.extend_size]. rewrite Z.add_0_r. tauto.
  - cbn [app admissible]. rewrite IH, extend_size_cons.
    replace (off + (VarIntSize (len (val r)) + len (val r)) + ArtifactFacts.extend_size a)
      with (off + (VarIntSize (len (val r)) + len (val r) + ArtifactFacts.extend_size a))
      by lia.
    tauto.
Qed.

Lemma wrapped_length : forall items off, length (wrapped off items) = length items.
Proof. induction items as [|r items IH]; intros off; cbn [wrapped length]; [|rewrite IH]; reflexivity. Qed.

Lemma extend_size_nonneg : forall items off, admissible off items ->
  0 <= ArtifactFacts.extend_size items.
Proof.
  induction items as [|r items IH]; intros off; cbn [admissible]; [cbn; lia|].
  intros (_ & [Hl _] & Hadm). rewrite extend_size_cons. specialize (IH _ Hadm).
  unfold MAX_VALUE_LEN, MAX_VALUE_LEN_BIT in Hl.
  pose proof (VarIntSize_range (len (val r)) ltac:(lia)). lia.
Qed.

(** What [KeyOffReader] over a list hands out in [turns] reads. *)
Lemma pull_KeyOffReader : forall turns items p base off field,
  (p + turns <= length items)%nat -> 0 <= off ->
  Forall (fun r => 0 <= len (val r)) items ->
  match pull turns (mkKeyOffReader (mkListReader items p) base off field) with
  | Done (recs, r') =>
      let part := firstn turns (skipn p items) in
      admissible off part /\ recs = wrapped off part /\
      m_core r' = mkListReader items (p + turns) /\
      m_offset r' = off + ArtifactFacts.extend_size part
  | Throw BuildException => True
  | _ => False
  end.
Proof.
  induction turns as [|turns IH]; intros items p base off field Hp Hoff Hpos.
  - cbn [pull firstn wrapped admissible ArtifactFacts.extend_size m_core m_offset].
    rewrite Nat.add_0_r, Z.add_0_r. repeat split.
  - cbn [pull read KeyOffReader_reader KeyOffReader_read m_core m_offset m_base
         ListReader_reader bind lr_items lr_pos].
    set (rec := nth p items null_rec).
    rewrite (ArtifactFacts.skipn_nth null_rec items p) by lia. fold rec.
    cbn [firstn wrapped admissible].
    assert (Hrec : 0 <= len (val rec)).
    { rewrite Forall_forall in Hpos. apply Hpos. apply nth_In. lia. }
    destruct (Z.gtb_spec off MAX_OFFSET) as [?|Hmax]; cbn [orb]; [exact I|].
    destruct (Z.gtb_spec (len (val rec)) MAX_VALUE_LEN) as [?|Hvmax]; cbn [orb]; [exact I|].
    destruct (negb (len (val rec) =? 0) && _) eqn:Enull; [exact I|]. cbn [bind].
    assert (Hdump : dumpable rec).
    { split; [lia|]. intros Hne. destruct (Z.eqb_spec (len (val rec)) 0); [lia|].
      cbn [negb andb] in Enull. destruct (ptr (val rec)); [discriminate|discriminate]. }
    unfold MAX_OFFSET, OFFSET_FIELD_SIZE, MAX_VALUE_LEN, MAX_VALUE_LEN_BIT in Hmax, Hvmax.
    pose proof (VarIntSize_range (len (val rec)) ltac:(lia)) as Hvs.
    rewrite (DivisorFacts.wrap64_small (VarIntSize (len (val rec)) + len (val rec))) by lia.
    rewrite DivisorFacts.wrap64_small by lia.
    specialize (IH items (S p) base (off + (VarIntSize (len (val rec)) + len (val rec)))
                  (OffsetField off) ltac:(lia) ltac:(lia) Hpos).
    destruct (pull turns _) as [[recs r']|[]|]; try exact IH; try contradiction.
    cbn [bind]. cbv zeta in IH. destruct IH as (Hadm & -> & Hcore & Hoffset).
    cbv zeta. rewrite extend_size_cons.
    split; [split; [unfold MAX_OFFSET, OFFSET_FIELD_SIZE; lia|split; assumption]|].
    split; [reflexivity|]. split; [rewrite Hcore; f_equal; lia|]. rewrite Hoffset. lia.
Qed.

Section Offsets.

Variable Hash : list Z -> Z -> Z -> Z.
Variable header : Header.
Variable n : Z.
Hypothesis Hn : 1 <= n < 2 ^ 40.
Hypothesis Hkl : 1 <= h_key_len header <= 255.
Hypothesis Hvl : 0 <= h_val_len header < 2 ^ 16.
Hypothesis Hcnt : h_set_cnt header = n.
Variable fuel : nat.
Hypothesis Hfuel : (Z.to_nat n <= fuel)%nat.

(** The mapping passes of the varied build install the wrapped records. *)
Lemma Mapping_offsets_table : forall (readers : list ListReader) guide space item offset es,
  Table Hash header n guide space es ->
  Z.of_nat (length es) + Z.of_nat (length (BuildFacts.all_items readers)) < 64 * n ->
  0 <= item -> item + Z.of_nat (length (BuildFacts.all_items readers)) < 2 ^ 64 ->
  0 <= offset ->
  Forall (fun r => 0 <= len (val r)) (BuildFacts.all_items readers) ->
  match Mapping_offsets Hash fuel header true readers guide space item offset with
  | Done None => True
  | Done (Some (item', guide', space', offset', readers')) =>
      admissible offset (BuildFacts.all_items readers) /\
      offset' = offset + ArtifactFacts.extend_size (BuildFacts.all_items readers) /\
      map lr_items readers' = map lr_items readers /\
      Forall (wellformed header) (wrapped offset (BuildFacts.all_items readers)) /\
      exists es', Table Hash header n guide' space' es' /\
                  grown header es es' (wrapped offset (BuildFacts.all_items readers))
                        (item' - item)
  | _ => False
  end.
Proof.
  induction readers as [|reader readers IH];
    intros guide space item offset es HT Hroom Hitem Hsum Hoff Hpos.
  - cbn [Mapping_offsets BuildFacts.all_items flat_map wrapped admissible map
         ArtifactFacts.extend_size].
    split; [exact I|]. split; [lia|]. split; [reflexivity|]. split; [constructor|].
    exists es. split; [exact HT|]. exists []. rewrite Z.sub_diag. cbn [app length].
    repeat split; try lia; intros ? [].
  - unfold BuildFacts.all_items in *. cbn [Mapping_offsets flat_map] in *.
    rewrite length_app in *. apply Forall_app in Hpos. destruct Hpos as [Hpos1 Hpos2].
    unfold Mapping_reader, KeyOffReader_new. rewrite Hcnt.
    cbn [total KeyOffReader_reader ListReader_reader reset m_core lr_items].
    rewrite Nat2Z.id.
    set (items := lr_items reader) in *.
    pose proof (pull_KeyOffReader (length items) items 0 offset offset (repeat 0 6)
                  ltac:(lia) Hoff Hpos1) as Hpull.
    pose proof (Mapping_records_pull Hash header n Hn Hkl Hvl fuel Hfuel (length items)
                  (mkKeyOffReader (mkListReader items 0) offset offset (repeat 0 6))
                  guide space es (Z.of_nat (length items)) HT ltac:(lia) ltac:(lia))
      as Hrec.
    destruct (pull (length items) _) as [[recs r']|[]|]; try contradiction.
    + cbv zeta in Hpull. cbn [skipn] in Hpull. rewrite firstn_all in Hpull.
      destruct Hpull as (Hadm & -> & Hcore & Hoffset).
      destruct (Mapping_records Hash fuel header (Divisor.make n) (length items)
                  guide space _ (Z.of_nat (length items)))
        as [[[[cnt g'] sp'] r'']|[]|]; try exact I; try contradiction.
      destruct Hrec as (Hwf & -> & es1 & HT1 & Hg1).
      rewrite Z.sub_diag, Z.sub_0_r in Hg1.
      assert (Hk : 0 <= cnt <= Z.of_nat (length items)).
      { destruct Hg1 as (added & _ & Hlen & Hle & _). rewrite wrapped_length in Hle. lia. }
      assert (Hes1 : Z.of_nat (length es1) = Z.of_nat (length es) + cnt).
      { destruct Hg1 as (added & -> & Hlen & _). rewrite length_app. lia. }
      rewrite DivisorFacts.wrap64_small by lia.
      pose proof (extend_size_nonneg items offset Hadm) as Hext.
      specialize (IH g' sp' (item + cnt) (m_offset r') es1 HT1 ltac:(lia) ltac:(lia)
                    ltac:(lia) ltac:(lia) Hpos2).
      destruct (Mapping_offsets Hash fuel header true readers g' sp' (item + cnt)
                  (m_offset r'))
        as [[[[[[item' g''] sp''] off''] rs'']|]|[]|]; cbn [bind]; try exact I;
        try contradiction.
      destruct IH as (Hadm' & -> & Hitems' & Hwf' & es2 & HT2 & Hg2).
      rewrite Hoffset in *. rewrite wrapped_app.
      split; [apply admissible_app; split; assumption|].
      split; [rewrite ArtifactFacts.extend_size_app; lia|].
      split; [cbn [map]; rewrite Hcore, Hitems'; reflexivity|].
      split; [apply Forall_app; split; assumption|].
      exists es2. split; [exact HT2|].
      replace (item' - item) with (cnt + (item' - (item + cnt))) by lia.
      now apply (grown_app header es es1 es2).
    + rewrite Hrec. exact I.
Qed.

End Offsets.

(** What the value passes of the varied build write: every value behind
    its length. *)
Lemma dump_records_dumped : forall turns items p (s : Sink) r' s',
  (p + turns <= length items)%nat -> Forall dumpable items ->
  dump_records turns (mkListReader items p) s = Done (true, r', s') ->
  sk_data s'
  = sk_data s ++ concat (map (fun r => PrefixFacts.dumped (value_bytes r))
                             (firstn turns (skipn p items))).
Proof.
  induction turns as [|turns IH]; intros items p s r' s' Hp Hall.
  - cbn [dump_records firstn map concat]. intros H. injection H as _ <-.
    now rewrite app_nil_r.
  - cbn [dump_records read ListReader_reader bind lr_items lr_pos].
    set (rec := nth p items null_rec).
    rewrite (ArtifactFacts.skipn_nth null_rec items p) by lia. fold rec.
    cbn [firstn map concat].
    assert (Hrec : dumpable rec).
    { rewrite Forall_forall in Hall. apply Hall. apply nth_In. lia. }
    fold (value_bytes rec). rewrite <- (value_bytes_length rec Hrec).
    destruct (DumpVariedValue _ (value_bytes rec) s) as [ok s1] eqn:Edump.
    destruct ok; cbn [negb]; [|discriminate].
    apply PrefixFacts.DumpVariedValue_dumped in Edump.
    intros Hrest. apply IH in Hrest; [|lia|exact Hall].
    rewrite Hrest, Edump, <- app_assoc. reflexivity.
Qed.

Lemma dump_readers_dumped : forall (readers : list ListReader) (s s' : Sink),
  Forall dumpable (BuildFacts.all_items readers) ->
  dump_readers readers s = Done (true, s') ->
  sk_data s'
  = sk_data s ++ concat (map (fun r => PrefixFacts.dumped (value_bytes r))
                             (BuildFacts.all_items readers)).
Proof.
  induction readers as [|reader readers IH]; intros s s' Hall.
  - cbn [dump_readers BuildFacts.all_items flat_map map concat]. intros H.
    injection H as <-. now rewrite app_nil_r.
  - unfold BuildFacts.all_items in *. cbn [dump_readers flat_map] in *.
    apply Forall_app in Hall. destruct Hall as [Hall1 Hall2].
    cbn [total reset ListReader_reader lr_items]. rewrite Nat2Z.id.
    destruct (dump_records (length (lr_items reader)) _ s) as [[[ok r1] s1]|e|] eqn:Erec;
      cbn [bind]; try discriminate.
    destruct ok; cbn [negb]; [|discriminate].
    apply dump_records_dumped in Erec; [|lia|exact Hall1].
    cbn [skipn] in Erec. rewrite firstn_all in Erec.
    intros Hrest. apply IH in Hrest; [|exact Hall2].
    rewrite Hrest, Erec, map_app, concat_app, <- app_assoc. reflexivity.
Qed.

Lemma admissible_dumpable : forall items off, admissible off items -> Forall dumpable items.
Proof.
  induction items as [|r items IH]; intros off; cbn [admissible]; [constructor|].
  intros (_ & Hd & Hadm). constructor; [exact Hd|]. exact (IH _ Hadm).
Qed.

Lemma dumped_length r : dumpable r ->
  Z.of_nat (length (PrefixFacts.dumped (value_bytes r)))
  = VarIntSize (len (val r)) + len (val r).
Proof.
  intros Hd. unfold PrefixFacts.dumped.
  rewrite length_app, Nat2Z.inj_add, ArtifactFacts.VarInt_length, value_bytes_length by exact Hd.
  reflexivity.
Qed.

Lemma dumps_length : forall items, Forall dumpable items ->
  Z.of_nat (length (concat (map (fun r => PrefixFacts.dumped (value_bytes r)) items)))
  = ArtifactFacts.extend_size items.
Proof.
  induction items as [|r items IH]; intros Hall; [reflexivity|].
  inversion Hall as [|? ? Hd Hall']; subst.
  cbn [map concat]. rewrite length_app, Nat2Z.inj_add, dumped_length, IH by assumption.
  reflexivity.
Qed.

Lemma NoDup_map_eq {A B : Type} (f : A -> B) : forall l a b,
  NoDup (map f l) -> In a l -> In b l -> f a = f b -> a = b.
Proof.
  induction l as [|x l IH]; intros a b Hnd Ha Hb Hf; [destruct Ha|].
  cbn [map] in Hnd. inversion Hnd as [|? ? Hx Hnd']; subst.
  destruct Ha as [->|Ha], Hb as [->|Hb].
  - reflexivity.
  - exfalso. apply Hx. rewrite Hf. now apply in_map.
  - exfalso. apply Hx. rewrite <- Hf. now apply in_map.
  - now apply IH.
Qed.

(** When every record was installed, the keys are distinct and the table
    holds the entry of every record. *)
Lemma grown_all header es recs :
  NoDup (map fst es) -> grown header [] es recs (Z.of_nat (length recs)) ->
  NoDup (map (key_of header) recs) /\
  (forall rec, In rec recs -> In (entry_of header rec) es) /\
  length es = length recs.
Proof.
  intros Hnd (added & Hes & Hlen & _ & Hfrom & Hkeys). rewrite app_nil_r in Hes. subst added.
  apply Nat2Z.inj in Hlen.
  assert (Hdistinct : NoDup (map (key_of header) recs)).
  { apply (NoDup_incl_NoDup (l := map fst es));
      [exact Hnd|rewrite !length_map; apply Nat.eq_le_incl; symmetry; exact Hlen|].
    intros k Hk. apply in_map_iff in Hk. destruct Hk as (e & <- & He).
    destruct (Hfrom e He) as (rec & Hrec & ->). apply in_map_iff. exists rec. now split. }
  split; [exact Hdistinct|]. split; [|exact Hlen].
  intros rec Hrec. specialize (Hkeys rec Hrec). apply in_map_iff in Hkeys.
  destruct Hkeys as (e & He & Hine). destruct (Hfrom e Hine) as (rec' & Hrec' & ->).
  cbn [entry_of fst] in He.
  now rewrite <- (NoDup_map_eq (key_of header) recs rec' rec Hdistinct Hrec' Hrec He).
Qed.

(** The table and the bytes of a varied build that returned OK. *)
Lemma varied_build_table Hash fuel seed (readers : list ListReader) room out :
  let items := BuildFacts.all_items readers in
  let n := CalcSetCnt (Z.of_nat (length items)) in
  Z.of_nat (length items) < 2 ^ 40 ->
  Forall (fun r => 0 <= len (key r) /\ 0 <= len (val r)) items ->
  (Z.to_nat n <= fuel)%nat ->
  BuildDictWithVariedValue Hash fuel seed readers (mkSink [] room)
  = Done (BUILD_STATUS_OK, out) ->
  exists key_len guide space es,
    let header := mkHeader SSHT_MAGIC KV_SEPARATED key_len OFFSET_FIELD_SIZE seed 0 n in
    1 <= key_len <= 255 /\ 1 <= Z.of_nat (length items) /\
    Table Hash header n guide space es /\
    admissible 0 items /\ Forall (wellformed header) (wrapped 0 items) /\
    grown header [] es (wrapped 0 items) (Z.of_nat (length items)) /\
    sk_data out
    = Header_bytes (with_item header (Z.of_nat (length items))) ++ guide ++ space
      ++ concat (map (fun r => PrefixFacts.dumped (value_bytes r)) items).
Proof.
  intros items n Hlen Hsize Hfuel. unfold BuildDictWithVariedValue.
  destruct readers as [|front rest]; [discriminate|].
  rewrite FixedBuildFacts.DetectKeyValueLen_ListReader. cbv zeta.
  set (rec0 := nth (lr_pos front) (lr_items front) null_rec).
  destruct (is_null (key rec0)) eqn:Enull; [discriminate|]. cbn [orb].
  destruct (Z.eqb_spec (len (key rec0)) 0) as [E0|E0]; [discriminate|]. cbn [orb].
  destruct (Z.gtb_spec (len (key rec0)) MAX_KEY_LEN) as [Emax|Emax]; [discriminate|].
  cbn [bind].
  assert (Hrec0 : In rec0 items).
  { unfold items, BuildFacts.all_items. cbn [flat_map]. apply in_or_app. left.
    now apply FixedBuildFacts.nth_not_null. }
  assert (Hpos0 : 0 <= len (key rec0)).
  { rewrite Forall_forall in Hsize. now apply Hsize. }
  unfold MAX_KEY_LEN in Emax.
  rewrite (BufferFacts.wrap8_small (len (key rec0))) by lia.
  set (key_len := len (key rec0)).
  assert (Hkl : 1 <= key_len <= 255) by (unfold key_len; lia).
  assert (Hitems : 1 <= Z.of_nat (length items) < 2 ^ 40).
  { split; [|exact Hlen]. destruct items; [destruct Hrec0|cbn [length]; lia]. }
  set (readers := mkListReader (lr_items front) 0 :: rest).
  change (BuildFacts.all_items readers) with items.
  rewrite BuildFacts.SumInputSize_items
    by (change (BuildFacts.all_items readers) with items; lia).
  change (BuildFacts.all_items readers) with items. fold n.
  pose proof (BuildFacts.CalcSetCnt_range (Z.of_nat (length items)) ltac:(lia)) as Hn.
  destruct (TerminationFacts.CalcSetCnt_slack (Z.of_nat (length items)) ltac:(lia))
    as (_ & Hroom & _).
  fold n in Hn, Hroom.
  set (header := mkHeader SSHT_MAGIC KV_SEPARATED key_len OFFSET_FIELD_SIZE seed 0 n).
  rewrite Z.shiftl_mul_pow2 by lia. change (2 ^ 6) with 64.
  rewrite (DivisorFacts.wrap64_small (n * 64)) by lia.
  unfold OFFSET_FIELD_SIZE in *.
  rewrite (DivisorFacts.wrap32_small (key_len + 6)) by lia.
  rewrite (DivisorFacts.wrap64_small (n * 64 * (key_len + 6))) by nia.
  assert (Hvl : 0 <= h_val_len header < 2 ^ 16) by (cbn [header h_val_len]; lia).
  pose proof (Table_initial Hash header n Hn Hkl Hvl) as HT.
  cbn [h_key_len h_val_len header] in HT.
  replace (64 * n) with (n * 64) in HT by lia.
  pose proof (Mapping_offsets_table Hash header n Hn Hkl Hvl eq_refl fuel Hfuel readers
                _ _ 0 0 [] HT
                ltac:(cbn [length]; change (BuildFacts.all_items readers) with items; lia)
                ltac:(lia)
                ltac:(change (BuildFacts.all_items readers) with items; lia)
                ltac:(lia)) as Hmap.
  change (BuildFacts.all_items readers) with items in Hmap.
  specialize (Hmap ltac:(eapply Forall_impl; [|exact Hsize]; cbv beta; intros ? [_ ?];
                         assumption)).
  destruct (Mapping_offsets Hash fuel header true readers _ _ 0 0)
    as [[[[[[item g] s] off] rs]|]|e|]; cbn [bind]; try contradiction; try discriminate.
  destruct Hmap as (Hadm & _ & Hrs & Hwf & es & HTe & Hg). rewrite Z.sub_0_r in Hg.
  destruct (Z.eqb_spec item (Z.of_nat (length items))) as [->|?]; cbn [negb];
    [|discriminate].
  destruct (write_table (with_item header (Z.of_nat (length items))) g s (mkSink [] room))
    as [ok out1] eqn:Hwt.
  destruct ok; cbn [negb]; [|discriminate].
  apply ArtifactFacts.write_table_Sink in Hwt. cbn [sk_data app] in Hwt.
  destruct (dump_readers rs out1) as [[ok out2]|e|] eqn:Hdump; cbn [bind]; try discriminate.
  destruct ok; cbn [negb]; [|discriminate].
  intros Hout. injection Hout as <-.
  assert (Hrs' : BuildFacts.all_items rs = items).
  { unfold items, BuildFacts.all_items. rewrite !flat_map_concat_map. now rewrite Hrs. }
  apply dump_readers_dumped in Hdump;
    [|rewrite Hrs'; now apply (admissible_dumpable items 0)].
  rewrite Hrs', Hwt in Hdump.
  exists key_len, g, s, es. cbv zeta. fold header.
  split; [exact Hkl|]. split; [lia|]. split; [exact HTe|]. split; [exact Hadm|].
  split; [exact Hwf|]. split; [exact Hg|].
  rewrite Hdump, <- !app_assoc. reflexivity.
Qed.

Lemma wrapped_split l1 r l2 off :
  wrapped off (l1 ++ r :: l2)
  = wrapped off l1
    ++ mkRec (key r) (mkSlice (Some (OffsetField (off + ArtifactFacts.extend_size l1)))
                              OFFSET_FIELD_SIZE)
    :: wrapped (off + ArtifactFacts.extend_size l1 + (VarIntSize (len (val r)) + len (val r)))
               l2.
Proof. rewrite wrapped_app. reflexivity. Qed.

Lemma wrapped_keys header : forall items off,
  map (key_of header) (wrapped off items)
  = map (fun r => slice_bytes (key r) (h_key_len header)) items.
Proof.
  induction items as [|r items IH]; intros off; [reflexivity|].
  cbn [wrapped map]. now rewrite IH.
Qed.

(** What a varied build that returned OK wrote, loaded, when its values
    take at least one byte per slot. *)
Lemma varied_build_lookup Hash fuel seed (readers : list ListReader) room out :
  let items := BuildFacts.all_items readers in
  let n := CalcSetCnt (Z.of_nat (length items)) in
  Z.of_nat (length items) < 2 ^ 40 ->
  Forall (fun r => 0 <= len (key r) /\ 0 <= len (val r)) items ->
  0 <= seed < 2 ^ 64 -> (Z.to_nat n <= fuel)%nat ->
  BuildDictWithVariedValue Hash fuel seed readers (mkSink [] room)
  = Done (BUILD_STATUS_OK, out) ->
  64 * n <= ArtifactFacts.extend_size items ->
  let h := Hashtable_load (Some (sk_data out)) in
  let kl := v_key_len (m_view h) in
  Hashtable_not h = false /\ v_type (m_view h) = KV_SEPARATED /\ 1 <= kl <= 255 /\
  v_item (m_view h) = Z.of_nat (length items) /\
  Forall (fun r => ptr (key r) <> None /\ len (key r) = kl) items /\
  Forall dumpable items /\
  NoDup (map (fun r => slice_bytes (key r) kl) items) /\
  (forall b fuel', (Z.to_nat n <= fuel')%nat ->
     (forall r, In r items -> slice_bytes (key r) kl <> bytes_at b 0 (Z.to_nat kl)) ->
     search Hash fuel' h (Some b) = Some null_slice) /\
  (forall r, In r items ->
     exists p,
       bytes_at (sk_data out) p (Z.to_nat (len (val r))) = value_bytes r /\
       forall b fuel', bytes_at b 0 (Z.to_nat kl) = slice_bytes (key r) kl ->
         (Z.to_nat n <= fuel')%nat ->
         search Hash fuel' h (Some b) = Some (mkSlice (Some p) (len (val r)))).
Proof.
  intros items n Hlen Hsize Hseed Hfuel Hbuild Hmin.
  destruct (varied_build_table Hash fuel seed readers room out Hlen Hsize Hfuel Hbuild)
    as (key_len & guide & space & es & Hkl & Hit & HT & Hadm & Hwf & Hg & Hdata).
  fold items n in Hit, HT, Hadm, Hwf, Hg, Hdata. cbv zeta in HT, Hwf, Hg, Hdata.
  unfold OFFSET_FIELD_SIZE in HT, Hwf, Hg, Hdata.
  set (header := mkHeader SSHT_MAGIC KV_SEPARATED key_len 6 seed 0 n) in *.
  pose proof (BuildFacts.CalcSetCnt_range (Z.of_nat (length items)) ltac:(lia)) as Hn.
  destruct (TerminationFacts.CalcSetCnt_slack (Z.of_nat (length items)) ltac:(lia))
    as (_ & Hslack & _).
  fold n in Hn, Hslack.
  pose proof (admissible_dumpable items 0 Hadm) as Hdump.
  set (dump := fun r => PrefixFacts.dumped (value_bytes r)) in *.
  set (ext := concat (map dump items)) in *.
  assert (Hextlen : Z.of_nat (length ext) = ArtifactFacts.extend_size items)
    by (apply dumps_length; exact Hdump).
  set (h1 := with_item header (Z.of_nat (length items))) in *.
  assert (Hvl : 0 <= h_val_len h1 < 2 ^ 16) by (cbn; lia).
  assert (Hfit : LoaderFacts.lengths_fit_type h1).
  { unfold LoaderFacts.lengths_fit_type. cbn [h1 with_item header h_type h_key_len h_val_len].
    right; right. repeat split; lia. }
  assert (Hext : h_type h1 = KV_SEPARATED -> 64 * n <= Z.of_nat (length ext))
    by (intros _; lia).
  pose proof (FixedBuildFacts.Table_with_item Hash header n (Z.of_nat (length items))
                guide space es HT) as HT1.
  fold h1 in HT1.
  assert (Hfile : sk_data out = file h1 guide space ext) by exact Hdata.
  destruct (file_view Hash h1 n Hn Hkl Hvl eq_refl eq_refl Hseed
              ltac:(cbn [h1 with_item h_item]; lia) Hfit guide space ext es HT1 Hext)
    as (v & Hview & Vt & Vk & Vv & Vs & Vi & Vl & Vn & Vg & Vc & Ve & Vse).
  assert (Hh : Hashtable_load (Some (sk_data out)) = mkHashtable (Some (sk_data out)) v)
    by (unfold Hashtable_load; rewrite Hfile; now rewrite Hview).
  cbv zeta. rewrite Hh. cbn [m_view Hashtable_not m_data]. rewrite Vk.
  change (h_key_len h1) with key_len.
  rewrite <- (wrapped_length items 0) in Hg.
  destruct (grown_all header es (wrapped 0 items) (tb_nodup _ _ _ _ _ _ HT) Hg)
    as (Hdistinct & Hentries & Hcount).
  rewrite wrapped_keys in Hdistinct. cbn [header h_key_len] in Hdistinct.
  split; [reflexivity|]. split; [exact Vt|]. split; [exact Hkl|]. split; [exact Vi|].
  split; [|split; [exact Hdump|split; [exact Hdistinct|split]]].
  - rewrite Forall_forall. intros r Hr.
    destruct (in_split r items Hr) as (l1 & l2 & Hsplit).
    rewrite Forall_forall in Hwf.
    specialize (Hwf (mkRec (key r)
                       (mkSlice (Some (OffsetField (0 + ArtifactFacts.extend_size l1))) 6))).
    rewrite Hsplit, wrapped_split in Hwf.
    specialize (Hwf ltac:(apply in_or_app; right; left; reflexivity)).
    destruct (wellformed_spec header _ Hwf) as ([b Hb] & Hl & _). cbn [key] in Hb, Hl.
    split; [congruence|exact Hl].
  - intros b fuel' Hfuel' Habsent. unfold search. cbn [Hashtable_not m_data].
    unfold Hashtable_pack, Hashtable_mem. cbn [m_view m_data].
    rewrite Hfile.
    rewrite (Search_absent Hash h1 n Hn Hkl Hvl eq_refl eq_refl Hseed
               ltac:(cbn [h1 with_item h_item]; lia) Hfit guide space ext es HT1 Hext
               v Hview b fuel'); try reflexivity.
    + intros Hin. destruct Hg as (added & Hadd & _ & _ & Hfrom & _).
      rewrite app_nil_r in Hadd. subst added.
      apply in_map_iff in Hin. destruct Hin as (e & He & Hine).
      destruct (Hfrom e Hine) as (w & Hw & ->). cbn [entry_of fst] in He.
      assert (Hk : In (key_of header w) (map (key_of header) (wrapped 0 items)))
        by now apply in_map.
      rewrite wrapped_keys in Hk. apply in_map_iff in Hk. destruct Hk as (r & Hkr & Hr).
      apply (Habsent r Hr). cbn [header h_key_len] in Hkr. rewrite Hkr. exact He.
    + rewrite wrapped_length in Hcount.
      assert (Z.of_nat (length es) = Z.of_nat (length items)); [|lia].
      f_equal. exact Hcount.
    + exact Hfuel'.
  - intros r Hr. destruct (in_split r items Hr) as (l1 & l2 & Hsplit).
    set (off := ArtifactFacts.extend_size l1).
    set (w := mkRec (key r) (mkSlice (Some (OffsetField (0 + off))) 6)).
    assert (Hw : In w (wrapped 0 items)).
    { rewrite Hsplit, wrapped_split. apply in_or_app. right. left. reflexivity. }
    pose proof (Hentries w Hw) as Hent.
    assert (Hadm1 : admissible 0 l1 /\ admissible (0 + off) (r :: l2)).
    { apply admissible_app. now rewrite <- Hsplit. }
    destruct Hadm1 as [Hadm1 Hadm2]. cbn [admissible] in Hadm2.
    destruct Hadm2 as (Hoffmax & Hdr & _).
    pose proof (extend_size_nonneg l1 0 Hadm1) as Hoff0. fold off in Hoff0.
    rewrite Z.add_0_l in Hoffmax. subst w. rewrite Z.add_0_l in Hent.
    assert (Hentry : entry_of header
                       (mkRec (key r) (mkSlice (Some (OffsetField off)) 6))
                     = (slice_bytes (key r) key_len, OffsetField off)).
    { unfold entry_of, key_of, value_of. cbn [header h_key_len h_val_len key val].
      cbn [Z.eqb]. unfold slice_bytes at 2. cbn [ptr].
      change (Z.to_nat 6) with 6%nat. rewrite <- (OffsetField_length off).
      now rewrite CodecFacts.bytes_at_all by apply OffsetField_bytes. }
    rewrite Hentry in Hent.
    destruct (Search_entry Hash h1 n Hn Hkl Hvl eq_refl eq_refl Hseed
                ltac:(cbn [h1 with_item h_item]; lia) Hfit guide space ext es HT1 Hext
                v Hview _ Hent)
      as (i & Hi & Hval & HS).
    cbn [fst snd] in Hval, HS. change (h_key_len h1) with key_len in Hval, HS.
    change (h_val_len h1) with 6 in Hval. change (Z.to_nat 6) with 6%nat in Hval.
    set (field := 64 + 64 * n + i * (key_len + 6) + key_len) in *.
    pose proof (ReadOffsetField_bytes _ field off ltac:(lia) Hval) as Hread.
    (* the file around the value *)
    set (vb := value_bytes r).
    set (pre := Header_bytes h1 ++ guide ++ space ++ concat (map dump l1)).
    set (post := concat (map dump l2)).
    assert (Hparts : file h1 guide space ext = pre ++ PrefixFacts.dumped vb ++ post).
    { unfold file, ext, pre, post. rewrite Hsplit, map_app, concat_app. cbn [map concat].
      unfold dump at 2. fold vb. rewrite <- !app_assoc. reflexivity. }
    assert (Hdl1 : Forall dumpable l1) by exact (admissible_dumpable l1 0 Hadm1).
    assert (Hpre : Z.of_nat (length pre) = 64 + 64 * n + 64 * n * (key_len + 6) + off).
    { unfold pre. rewrite !length_app, !Nat2Z.inj_add, Header_bytes_length.
      rewrite (tb_guide_len _ _ _ _ _ _ HT), (tb_space_len _ _ _ _ _ _ HT).
      unfold dump. rewrite (dumps_length l1 Hdl1). cbn [header h_key_len h_val_len].
      fold off. lia. }
    pose proof (value_bytes_length r Hdr) as Hvlen. fold vb in Hvlen.
    destruct Hdr as [Hvr _]. unfold MAX_VALUE_LEN, MAX_VALUE_LEN_BIT in Hvr.
    destruct (PrefixFacts.SeparatedValue_dumped pre vb post
                (Z.of_nat (length (file h1 guide space ext)))
                (value_bytes_bytes r) ltac:(lia)
                ltac:(rewrite Hparts, !length_app, !Nat2Z.inj_add; lia))
      as [Hsep Hbytes].
    cbv zeta in Hsep, Hbytes. rewrite <- Hparts in Hsep, Hbytes.
    rewrite Hpre, Hvlen in Hsep. rewrite Hpre, Hvlen in Hbytes.
    exists (64 + 64 * n + 64 * n * (key_len + 6) + off + VarIntSize (len (val r))).
    split.
    { rewrite Hfile. rewrite <- Hvlen at 2. rewrite Nat2Z.id. exact Hbytes. }
    intros b fuel' Hb Hfuel'.
    unfold search. cbn [Hashtable_not m_data].
    unfold Hashtable_pack, Hashtable_mem. cbn [m_view m_data].
    rewrite Hfile.
    rewrite (HS b fuel' Hb Hfuel').
    rewrite Vt, Ve, Vse. cbn [h1 with_item header h_type h_key_len h_val_len].
    change (negb (KV_SEPARATED =? KV_SEPARATED)) with false. cbv iota.
    fold header. fold h1. fold field. rewrite Hread. f_equal. exact Hsep.
Qed.

End VariedBuildFacts.

(** X20.  What [BuildDictWithVariedValue] stores, [search] returns.  When
    the build of fewer than 2^40 records returns OK and the values take, with
    their length prefixes, at least one byte per slot of the table (what the
    loader asks of a KV_SEPARATED file), the artifact loads as KV_SEPARATED
    and the lookup of the key of any record returns, within one turn per
    set, a slice of the length of the value of that record, over bytes of
    the file that are the bytes of that value. *)
Theorem BuildDictWithVariedValue_values_read_back (Hash : list Z -> Z -> Z -> Z)
    (fuel : nat) (seed : Z) (readers : list ListReader) (room : Z) (out : Sink) :
  let items := BuildFacts.all_items readers in
  let n := CalcSetCnt (Z.of_nat (length items)) in
  Z.of_nat (length items) < 2 ^ 40 ->
  Forall (fun r => 0 <= len (key r) /\ 0 <= len (val r)) items ->
  0 <= seed < 2 ^ 64 -> (Z.to_nat n <= fuel)%nat ->
  BuildDictWithVariedValue Hash fuel seed readers (mkSink [] room)
  = Done (BUILD_STATUS_OK, out) ->
  64 * n <= ArtifactFacts.extend_size items ->
  let h := Hashtable_load (Some (sk_data out)) in
  let kl := Hashtable_key_len h in
  Hashtable_not h = false /\ Hashtable_type h = KV_SEPARATED /\
  forall r, In r items ->
    len (key r) = kl /\
    exists p,
      bytes_at (sk_data out) p (Z.to_nat (len (val r)))
      = slice_bytes (val r) (len (val r)) /\
      forall b fuel', bytes_at b 0 (Z.to_nat kl) = slice_bytes (key r) kl ->
        (Z.to_nat n <= fuel')%nat ->
        search Hash fuel' h (Some b) = Some (mkSlice (Some p) (len (val r))).
Proof.
  intros items n Hlen Hsize Hseed Hfuel Hbuild Hmin.
  destruct (VariedBuildFacts.varied_build_lookup Hash fuel seed readers room out Hlen Hsize
              Hseed Hfuel Hbuild Hmin)
    as (Hnot & Hty & _ & _ & Hall & _ & _ & _ & Hfound).
  cbv zeta. unfold Hashtable_type, Hashtable_key_len.
  split; [exact Hnot|]. split; [exact Hty|].
  intros r Hr. rewrite Forall_forall in Hall. destruct (Hall r Hr) as (_ & Hk).
  split; [exact Hk|]. exact (Hfound r Hr).
Qed.

(** One record whose value fills the 64 bytes the loader asks for. *)
Definition one_long_value : list ListReader :=
  [mkListReader [rec_of [107] (repeat 7 63)] 0].

Lemma BuildDictWithVariedValue_values_read_back_witness :
  exists out,
    BuildDictWithVariedValue toy_hash 1 42 one_long_value (mkSink [] 4096)
    = Done (BUILD_STATUS_OK, out) /\
    Hashtable_not (Hashtable_load (Some (sk_data out))) = false /\
    Hashtable_type (Hashtable_load (Some (sk_data out))) = KV_SEPARATED.
Proof.
  eexists. split; [vm_compute; reflexivity|].
  pose proof (BuildDictWithVariedValue_values_read_back toy_hash 1 42 one_long_value 4096)
    as H.
  cbv zeta in H.
  specialize (H _ ltac:(cbn; lia) ltac:(repeat constructor; cbn; lia) ltac:(lia)
                ltac:(vm_compute; lia) ltac:(vm_compute; reflexivity)
                ltac:(vm_compute; discriminate)).
  split; [exact (proj1 H)|exact (proj1 (proj2 H))].
Defined.

(** X21.  In the loaded artifact of [BuildDictWithVariedValue], [item()] is
    the number of records of the input, and a key that no record carries is
    not found: [search] returns the null slice. *)
Theorem BuildDictWithVariedValue_other_keys_miss (Hash : list Z -> Z -> Z -> Z)
    (fuel : nat) (seed : Z) (readers : list ListReader) (room : Z) (out : Sink) :
  let items := BuildFacts.all_items readers in
  let n := CalcSetCnt (Z.of_nat (length items)) in
  Z.of_nat (length items) < 2 ^ 40 ->
  Forall (fun r => 0 <= len (key r) /\ 0 <= len (val r)) items ->
  0 <= seed < 2 ^ 64 -> (Z.to_nat n <= fuel)%nat ->
  BuildDictWithVariedValue Hash fuel seed readers (mkSink [] room)
  = Done (BUILD_STATUS_OK, out) ->
  64 * n <= ArtifactFacts.extend_size items ->
  let h := Hashtable_load (Some (sk_data out)) in
  let kl := Hashtable_key_len h in
  Hashtable_item h = Z.of_nat (length items) /\
  forall b fuel', (Z.to_nat n <= fuel')%nat ->
    (forall r, In r items -> slice_bytes (key r) kl <> bytes_at b 0 (Z.to_nat kl)) ->
    search Hash fuel' h (Some b) = Some null_slice.
Proof.
  intros items n Hlen Hsize Hseed Hfuel Hbuild Hmin.
  destruct (VariedBuildFacts.varied_build_lookup Hash fuel seed readers room out Hlen Hsize
              Hseed Hfuel Hbuild Hmin)
    as (_ & _ & _ & Hitem & _ & _ & _ & Habsent & _).
  split; [exact Hitem|exact Habsent].
Qed.

Lemma BuildDictWithVariedValue_other_keys_miss_witness :
  exists out,
    BuildDictWithVariedValue toy_hash 1 42 one_long_value (mkSink [] 4096)
    = Done (BUILD_STATUS_OK, out) /\
    search toy_hash 1 (Hashtable_load (Some (sk_data out))) (Some [109]) = Some null_slice.
Proof.
  eexists. split; [vm_compute; reflexivity|].
  pose proof (BuildDictWithVariedValue_other_keys_miss toy_hash 1 42 one_long_value 4096)
    as H.
  cbv zeta in H.
  specialize (H _ ltac:(cbn; lia) ltac:(repeat constructor; cbn; lia) ltac:(lia)
                ltac:(vm_compute; lia) ltac:(vm_compute; reflexivity)
                ltac:(vm_compute; discriminate)).
  apply (proj2 H); [vm_compute; lia|].
  intros r [<-|[]]; vm_compute; discriminate.
Defined.

(** X22.  The bytes [BuildDictWithVariedValue] writes when it returns OK:
    the 64-byte header, one guide byte and one row of key and 6-byte offset
    per slot, then every value behind its length prefix, in the order of
    the input.  The keys of the input are then pairwise distinct and no
    value is longer than 2^35 - 1 bytes. *)
Theorem BuildDictWithVariedValue_layout (Hash : list Z -> Z -> Z -> Z)
    (fuel : nat) (seed : Z) (readers : list ListReader) (room : Z) (out : Sink) :
  let items := BuildFacts.all_items readers in
  let n := CalcSetCnt (Z.of_nat (length items)) in
  Z.of_nat (length items) < 2 ^ 40 ->
  Forall (fun r => 0 <= len (key r) /\ 0 <= len (val r)) items ->
  (Z.to_nat n <= fuel)%nat ->
  BuildDictWithVariedValue Hash fuel seed readers (mkSink [] room)
  = Done (BUILD_STATUS_OK, out) ->
  exists key_len,
    1 <= key_len <= MAX_KEY_LEN /\
    Forall (fun r => len (key r) = key_len /\ len (val r) <= MAX_VALUE_LEN) items /\
    NoDup (map (fun r => slice_bytes (key r) key_len) items) /\
    Z.of_nat (length (sk_data out))
    = 64 + 64 * n + 64 * n * (key_len + OFFSET_FIELD_SIZE) + ArtifactFacts.extend_size items /\
    skipn (Z.to_nat (64 + 64 * n + 64 * n * (key_len + OFFSET_FIELD_SIZE))) (sk_data out)
    = concat (map (fun r => VarInt (len (val r)) ++ slice_bytes (val r) (len (val r)))
                  items).
Proof.
  intros items n Hlen Hsize Hfuel Hbuild.
  destruct (VariedBuildFacts.varied_build_table Hash fuel seed readers room out Hlen Hsize
              Hfuel Hbuild)
    as (key_len & guide & space & es & Hkl & Hit & HT & Hadm & Hwf & Hg & Hdata).
  fold items n in Hit, HT, Hadm, Hwf, Hg, Hdata. cbv zeta in HT, Hwf, Hg, Hdata.
  set (header := mkHeader SSHT_MAGIC KV_SEPARATED key_len OFFSET_FIELD_SIZE seed 0 n) in *.
  pose proof (VariedBuildFacts.admissible_dumpable items 0 Hadm) as Hdump.
  rewrite <- (VariedBuildFacts.wrapped_length items 0) in Hg.
  destruct (VariedBuildFacts.grown_all header es (VariedBuildFacts.wrapped 0 items)
              (TableFacts.tb_nodup _ _ _ _ _ _ HT) Hg) as (Hdistinct & _ & _).
  rewrite VariedBuildFacts.wrapped_keys in Hdistinct. cbn [header h_key_len] in Hdistinct.
  pose proof (TableFacts.tb_guide_len _ _ _ _ _ _ HT) as Hgl.
  pose proof (TableFacts.tb_space_len _ _ _ _ _ _ HT) as Hsl.
  cbn [header h_key_len h_val_len] in Hsl.
  exists key_len. split; [exact Hkl|]. split; [|split; [exact Hdistinct|split]].
  - rewrite Forall_forall. intros r Hr.
    destruct (in_split r items Hr) as (l1 & l2 & Hsplit).
    rewrite Forall_forall in Hwf, Hdump.
    specialize (Hwf (mkRec (key r)
                       (mkSlice (Some (OffsetField (0 + ArtifactFacts.extend_size l1)))
                                OFFSET_FIELD_SIZE))).
    rewrite Hsplit, VariedBuildFacts.wrapped_split in Hwf.
    specialize (Hwf ltac:(apply in_or_app; right; left; reflexivity)).
    destruct (TableFacts.wellformed_spec header _ Hwf) as (_ & Hl & _). cbn [key] in Hl.
    split; [exact Hl|]. destruct (Hdump r Hr) as [Hv _]. lia.
  - rewrite Hdata, !length_app, !Nat2Z.inj_add, TableFacts.Header_bytes_length.
    rewrite (VariedBuildFacts.dumps_length items Hdump). lia.
  - rewrite Hdata.
    replace (Header_bytes (with_item header (Z.of_nat (length items))) ++ guide ++ space
             ++ concat (map (fun r => PrefixFacts.dumped (VariedBuildFacts.value_bytes r))
                            items))
      with ((Header_bytes (with_item header (Z.of_nat (length items))) ++ guide ++ space)
            ++ concat (map (fun r => PrefixFacts.dumped (VariedBuildFacts.value_bytes r))
                           items))
      by (rewrite <- !app_assoc; reflexivity).
    rewrite skipn_app, skipn_all2, app_nil_l.
    + replace (_ - _)%nat with 0%nat.
      * cbn [skipn]. f_equal. apply map_ext_in. intros r Hr.
        unfold PrefixFacts.dumped. rewrite Forall_forall in Hdump.
        now rewrite (VariedBuildFacts.value_bytes_length r (Hdump r Hr)).
      * rewrite !length_app, TableFacts.Header_bytes_length. lia.
    + rewrite !length_app, TableFacts.Header_bytes_length. lia.
Qed.

Lemma BuildDictWithVariedValue_layout_witness :
  exists out,
    BuildDictWithVariedValue toy_hash 1 42 one_long_value (mkSink [] 4096)
    = Done (BUILD_STATUS_OK, out) /\
    Z.of_nat (length (sk_data out)) = 64 + 64 + 64 * (1 + 6) + 64.
Proof.
  eexists. split; [vm_compute; reflexivity|].
  destruct (BuildDictWithVariedValue_layout toy_hash 1 42 one_long_value 4096 _
              ltac:(cbn; lia) ltac:(repeat constructor; cbn; lia)
              ltac:(vm_compute; lia) ltac:(vm_compute; reflexivity))
    as (key_len & _ & Hall & _ & Hsize & _).
  inversion Hall as [|? ? [Hk _] _]; subst. rewrite Hsize. vm_compute. reflexivity.
Defined.

(** ** [batch_fetch] *)

Module FetchFacts.
Import BufferFacts.

Lemma fold_left_ext_in {A B : Type} (f g : A -> B -> A) : forall l a,
  (forall x a', In x l -> f a' x = g a' x) -> fold_left f l a = fold_left g l a.
Proof.
  induction l as [|x l IH]; intros a H; [reflexivity|]. cbn [fold_left].
  rewrite (H x a (or_introl eq_refl)). apply IH. intros y a' Hy. apply H. now right.
Qed.

Section Regions.

Variable V : Z -> option (list Z).
Variable vl : Z.
Hypothesis Hvl : 0 <= vl.
Hypothesis HV : forall x bs, V x = Some bs ->
  length bs = Z.to_nat vl /\ Forall HintFacts.is_byte bs.

(** The copy of one value into its place of [data]. *)
Definition put (o : list Z) (x : Z) : list Z :=
  match V x with
  | None => o
  | Some bs => store_bytes o (x * vl) bs
  end.

Lemma put_length o x : 0 <= x -> (x + 1) * vl <= Z.of_nat (length o) ->
  length (put o x) = length o.
Proof.
  intros Hx Hfit. unfold put. destruct (V x) as [bs|] eqn:E; [|reflexivity].
  destruct (HV x bs E) as [Hl _]. apply store_bytes_length; [nia|]. rewrite Hl. nia.
Qed.

Lemma rd_put_out o x a : 0 <= x -> (x + 1) * vl <= Z.of_nat (length o) -> 0 <= a ->
  a < x * vl \/ (x + 1) * vl <= a -> rd (put o x) a = rd o a.
Proof.
  intros Hx Hfit Ha Hout. unfold put. destruct (V x) as [bs|] eqn:E; [|reflexivity].
  destruct (HV x bs E) as [Hl _]. apply rd_store_bytes_out; try nia; rewrite Hl; nia.
Qed.

Lemma bytes_at_put o x : 0 <= x -> (x + 1) * vl <= Z.of_nat (length o) ->
  bytes_at (put o x) (x * vl) (Z.to_nat vl)
  = match V x with Some bs => bs | None => bytes_at o (x * vl) (Z.to_nat vl) end.
Proof.
  intros Hx Hfit. unfold put. destruct (V x) as [bs|] eqn:E; [|reflexivity].
  destruct (HV x bs E) as [Hl Hb]. rewrite <- Hl.
  apply CodecFacts.bytes_at_store_same; [nia|rewrite Hl; nia|exact Hb].
Qed.

(** Values copied to pairwise distinct places, in any order. *)
Lemma puts_spec : forall done data,
  NoDup done ->
  (forall x, In x done -> 0 <= x /\ (x + 1) * vl <= Z.of_nat (length data)) ->
  let r := fold_left put done data in
  length r = length data /\
  (forall a, 0 <= a -> (forall x, In x done -> a < x * vl \/ (x + 1) * vl <= a) ->
     rd r a = rd data a) /\
  (forall x, In x done ->
     bytes_at r (x * vl) (Z.to_nat vl)
     = match V x with Some bs => bs | None => bytes_at data (x * vl) (Z.to_nat vl) end).
Proof.
  induction done as [|x done IH]; intros data Hnd Hin; cbn [fold_left].
  - split; [reflexivity|]. split; [reflexivity|]. intros x [].
  - inversion Hnd as [|? ? Hx Hnd']; subst.
    destruct (Hin x (or_introl eq_refl)) as [Hx0 Hxfit].
    pose proof (put_length data x Hx0 Hxfit) as Hlen1.
    destruct (IH (put data x) Hnd') as (Hlen & Hout & Hreg).
    { intros y Hy. rewrite Hlen1. apply Hin. now right. }
    assert (Hfar : forall y a, In y done -> x * vl <= a < (x + 1) * vl ->
              a < y * vl \/ (y + 1) * vl <= a).
    { intros y a Hy Ha. assert (y <> x) by (intros ->; contradiction).
      destruct (Hin y (or_intror Hy)) as [Hy0 _]. nia. }
    split; [now rewrite Hlen|]. split.
    + intros a Ha Hfree. rewrite Hout; [|exact Ha|intros y Hy; apply Hfree; now right].
      apply rd_put_out; try assumption. apply Hfree. now left.
    + intros y [<-|Hy].
      * rewrite <- (bytes_at_put data x Hx0 Hxfit). apply bytes_at_ext. intros i Hi.
        apply Hout; [nia|]. intros y Hy. apply (Hfar y); [exact Hy|]. nia.
      * rewrite (Hreg y Hy). destruct (V y) as [bs|]; [reflexivity|].
        apply bytes_at_ext. intros i Hi. destruct (Hin y (or_intror Hy)) as [Hy0 _].
        apply rd_put_out; try assumption; [nia|].
        assert (y <> x) by (intros ->; contradiction). nia.
Qed.

End Regions.

(** The lengths in the view of a loaded handle are those of two header
    fields of one and two bytes. *)
Lemma loaded_lengths file :
  Hashtable_not (Hashtable_load (Some file)) = false ->
  0 <= v_key_len (m_view (Hashtable_load (Some file))) < 256 /\
  0 <= v_val_len (m_view (Hashtable_load (Some file))) < 2 ^ 16.
Proof.
  unfold Hashtable_load, CreateView.
  repeat match goal with
         | |- context [if ?c then _ else _] => destruct c; cbn [Hashtable_not m_data];
                                                try discriminate
         end.
  intros _. cbn [m_view v_key_len v_val_len Header_at h_key_len h_val_len].
  split; [apply VarintFacts.rd_byte|apply LoaderFacts.load16_range].
Qed.

End FetchFacts.

(** X23.  [batch_fetch] copies what the single lookups find.  For a loaded
    KV_INLINE artifact, a patch that is absent, the handle itself or a
    compatible loaded handle, and a batch of keys laid out [key_len] bytes
    apart whose single lookups return: with enough fuel the call returns
    the number of keys found, and the [val_len] bytes of [data] for key [i]
    are the value found (in the patch first, in the base otherwise), the
    default value when the key is found nowhere, or what they were when
    there is no default; the rest of [data] is untouched. *)
Theorem batch_fetch_agrees (Hash : list Z -> Z -> Z -> Z) (file : list Z)
    (patch : PatchArg) (batch : Z) (keys data : list Z) (dft : option (list Z))
    (expected : list Ptr) :
  let h := Hashtable_load (Some file) in
  let kl := Hashtable_key_len h in
  let vl := Hashtable_val_len h in
  Hashtable_not h = false ->
  Hashtable_type h = KV_INLINE ->
  compatible h patch ->
  0 <= batch < 2 ^ 32 -> batch * kl < 2 ^ 32 -> batch * vl < 2 ^ 32 ->
  batch * vl <= Z.of_nat (length data) ->
  Z.of_nat (length expected) = batch ->
  (forall i, (i < length expected)%nat ->
     overlay Hash h patch (skipn (Z.to_nat (Z.of_nat i * kl)) keys) (nth i expected PNull)) ->
  exists n, forall fuel, (n < fuel)%nat ->
    exists data',
      batch_fetch Hash fuel h batch (Some keys) (Some data) dft patch
      = Some (Z.of_nat (length (filter non_null expected)), Some data') /\
      length data' = length data /\
      (forall a, batch * vl <= a -> rd data' a = rd data a) /\
      forall i, (i < length expected)%nat ->
        bytes_at data' (Z.of_nat i * vl) (Z.to_nat vl)
        = match nth i expected PNull with
          | PNull =>
              match dft with
              | Some d => bytes_at d 0 (Z.to_nat vl)
              | None => bytes_at data (Z.of_nat i * vl) (Z.to_nat vl)
              end
          | p => Ptr_bytes (Hashtable_pack h) patch p (Z.to_nat vl)
          end.
Proof.
  intros h kl vl Hnot Hty Hcompat Hbatch Hkeys Hvals Hdata Hexp Hov.
  unfold Hashtable_type in Hty. unfold Hashtable_key_len in kl.
  unfold Hashtable_val_len in vl.
  destruct (FetchFacts.loaded_lengths file Hnot) as [Hkl Hvl]. fold h kl vl in Hkl, Hvl.
  set (base := Hashtable_pack h).
  set (patch' := match PatchArg_ref patch with PatchOther p => Some p | _ => None end).
  set (get_key := fun idx => skipn (Z.to_nat (wrap32 (idx * kl))) keys).
  set (dftp := match dft with None => PNull | Some d => PExt d end).
  set (sub := fun p => match p with PNull => dftp | _ => p end).
  set (res := fun x => (non_null (nth (Z.to_nat x) expected PNull),
                        sub (nth (Z.to_nat x) expected PNull))).
  destruct (ScanFacts.Hashtable_load_view (Some file)) as [[Hnull _]|[_ [Hline Hlegal]]];
    [fold h in Hnull; congruence|]. fold h in Hline, Hlegal.
  assert (Hnsep : v_type (m_view h) <> KV_SEPARATED) by (rewrite Hty; discriminate).
  assert (Hshape : forall w,
            v_key_len (pk_view (pack_at base patch' w)) = v_key_len (pk_view base) /\
            v_line_size (pk_view (pack_at base patch' w)) = v_line_size (pk_view base)).
  { intros w. unfold pack_at, patch'. destruct w; [split; reflexivity|].
    destruct patch as [| |t]; cbn [PatchArg_ref]; try (split; reflexivity).
    destruct Hcompat as [[tfile ->] [Ht [Hk Hv]]].
    destruct (ScanFacts.Hashtable_load_view tfile) as [[_ Hdft]|[_ [Htl _]]].
    - rewrite Hdft in Ht. cbn [v_type View_default] in Ht. congruence.
    - cbn [Hashtable_pack pk_view]. unfold base. cbn [Hashtable_pack pk_view].
      split; [exact Hk|]. rewrite Htl, Hline, Hk, Hv. reflexivity. }
  assert (Hbase : forall key p,
            (exists s, returns Hash h key s /\ p = stored InBase s) ->
            exists fuel r,
              Search Hash fuel base key = Some r /\
              (non_null p, sub p)
              = match r with Some field => (true, PIn InBase field) | None => (false, dftp) end).
  { intros key p [s [[fuel Hs] ->]]. exists fuel, (ptr s).
    split; [exact (ScanFacts.search_Search Hash fuel h key s Hnot Hnsep Hs)|].
    unfold stored. destruct (ptr s); reflexivity. }
  assert (Hwrapk : forall idx, 0 <= idx < batch -> wrap32 (idx * kl) = idx * kl)
    by (intros idx Hidx; apply DivisorFacts.wrap32_small; nia).
  assert (Hwrapv : forall idx, 0 <= idx < batch -> wrap32 (idx * vl) = idx * vl)
    by (intros idx Hidx; apply DivisorFacts.wrap32_small; nia).
  assert (Hfound : forall idx, 0 <= idx < batch ->
            ScanFacts.found Hash base patch' get_key dftp idx (res idx)).
  { intros idx Hidx. specialize (Hov (Z.to_nat idx) ltac:(lia)).
    rewrite Z2Nat.id in Hov by lia.
    unfold ScanFacts.found, ScanFacts.in_base, patch', res, get_key.
    rewrite (Hwrapk idx Hidx).
    unfold overlay in Hov.
    destruct patch as [| |t]; cbn [PatchArg_ref]; try (apply Hbase; exact Hov).
    destruct Hcompat as [[tfile ->] [Ht [Hk Hv]]].
    destruct (ScanFacts.Hashtable_load_view tfile) as [[_ Hdft]|[Htnot _]].
    { rewrite Hdft in Ht. cbn [v_type View_default] in Ht. congruence. }
    destruct Hov as [s [[fuel Hs] Hp]].
    pose proof (ScanFacts.search_Search Hash fuel _ _ s Htnot ltac:(congruence) Hs) as HS.
    destruct (ptr s) as [field|].
    - left. exists fuel, field. split; [exact HS|]. now rewrite Hp.
    - right. split; [exists fuel; exact HS|]. apply Hbase. exact Hp. }
  destruct (ScanFacts.finite_choice
              (fun x m => ScanFacts.run Hash base patch' get_key dftp m
                            (init_pipeline Hash base patch' get_key State_default x)
                          = Some (res x)) (Z.to_nat batch)) as [need Hneed].
  { intros x Hx. apply ScanFacts.found_runs; try (intros w; apply Hshape).
    apply Hfound. lia. }
  set (fill := fun (idx : Z) (val : Ptr) (o : list Z) =>
                 match val with
                 | PNull => o
                 | _ => store_bytes o (wrap32 (idx * vl)) (Ptr_bytes base patch val (Z.to_nat vl))
                 end).
  destruct (ScanFacts.pipeline_spec Hash (list Z) batch base patch' get_key fill dftp data
              res Hbatch need)
    as [n Hn].
  { intros idx Hidx. apply Hneed. lia. }
  exists n. intros fuel Hfuel. destruct (Hn fuel Hfuel) as [done [Hnd [Hin Hpipe]]].
  set (V := fun x => match snd (res x) with
                     | PNull => None
                     | p => Some (Ptr_bytes base patch p (Z.to_nat vl))
                     end).
  assert (HV : forall x bs, V x = Some bs ->
            length bs = Z.to_nat vl /\ Forall HintFacts.is_byte bs).
  { intros x bs. unfold V. destruct (snd (res x)) as [|w off|bytes];
      [discriminate| |]; intros E; injection E as <-; unfold Ptr_bytes.
    - destruct w; [|destruct patch];
        (split; [apply VarintFacts.bytes_at_length|apply LoaderFacts.bytes_at_bytes]).
    - split; [apply VarintFacts.bytes_at_length|apply LoaderFacts.bytes_at_bytes]. }
  assert (Hfold : fold_left (fun o x => fill x (snd (res x)) o) done data
                  = fold_left (FetchFacts.put V vl) done data).
  { apply FetchFacts.fold_left_ext_in. intros x o Hx. apply Hin in Hx.
    unfold fill, FetchFacts.put, V. rewrite (Hwrapv x Hx).
    destruct (snd (res x)); reflexivity. }
  destruct (FetchFacts.puts_spec V vl ltac:(lia) HV done data Hnd) as (Hlen & Hout & Hreg).
  { intros x Hx. apply Hin in Hx. nia. }
  cbv zeta in Hlen, Hout, Hreg. rewrite <- Hfold in Hlen, Hout, Hreg.
  exists (fold_left (fun o x => fill x (snd (res x)) o) done data).
  split; [|split; [exact Hlen|split]].
  - unfold batch_fetch. rewrite Hnot. fold h. rewrite Hty.
    change (negb (KV_INLINE =? KV_INLINE)) with false. cbn [orb].
    unfold BatchProcess. fold base.
    assert (Hcheck :
      (v_type (pk_view base) =? KV_SEPARATED)
      || match PatchRef_view base (PatchArg_ref patch) with
         | None => false
         | Some p =>
             negb (v_type p =? v_type (pk_view base))
             || negb (v_key_len p =? v_key_len (pk_view base))
             || negb (v_val_len p =? v_val_len (pk_view base))
         end = false).
    { destruct (Z.eqb_spec (v_type (pk_view base)) KV_SEPARATED) as [He|_];
        [exfalso; exact (Hnsep He)|].
      cbn [orb]. destruct patch as [| |t]; cbn [PatchArg_ref PatchRef_view].
      - reflexivity.
      - now rewrite !Z.eqb_refl.
      - destruct Hcompat as [_ [Ht [Hk Hv]]]. unfold base. cbn [Hashtable_pack pk_view].
        rewrite Ht, Hk, Hv, !Z.eqb_refl. reflexivity. }
    rewrite Hcheck. fold patch'. fold kl vl. fold get_key. fold dftp. fold fill.
    rewrite Hpipe. rewrite <- Hexp in Hin.
    f_equal. f_equal. f_equal. unfold res. cbn [fst].
    apply ScanFacts.hits_counted; assumption.
  - intros a Ha. apply Hout; [nia|]. intros x Hx. apply Hin in Hx. right. nia.
  - intros i Hi. rewrite (Hreg (Z.of_nat i)) by (apply Hin; lia).
    unfold V, res. cbn [snd]. rewrite Nat2Z.id.
    destruct (nth i expected PNull) as [|w off|bytes]; cbn [sub]; try reflexivity.
    unfold dftp. destruct dft as [d|]; reflexivity.
Qed.

Lemma batch_fetch_agrees_witness :
  exists n, forall fuel, (n < fuel)%nat ->
    exists data',
      batch_fetch toy_hash fuel (Hashtable_load (Some two_values)) 3
                  (Some [107; 108; 109]) (Some [0; 0; 0; 0]) (Some [77])
                  (OtherPatch (Hashtable_load (Some one_patched)))
      = Some (2, Some data') /\
      length data' = 4%nat.
Proof.
  destruct (batch_fetch_agrees toy_hash two_values
              (OtherPatch (Hashtable_load (Some one_patched))) 3
              [107; 108; 109] [0; 0; 0; 0] (Some [77])
              [PIn InBase 139; PIn InPatch 169; PNull]) as [n Hn].
  - vm_compute. reflexivity.
  - vm_compute. reflexivity.
  - split; [exists (Some one_patched); reflexivity|]. vm_compute. auto.
  - lia.
  - vm_compute. reflexivity.
  - vm_compute. reflexivity.
  - vm_compute. discriminate.
  - reflexivity.
  - intros i Hi. unfold overlay, returns.
    destruct i as [|[|[|i]]]; cbn [nth]; [| | |cbn in Hi; lia].
    + exists null_slice. split; [exists 1%nat; vm_compute; reflexivity|]. cbn [ptr null_slice].
      exists (mkSlice (Some 139) 1). split; [exists 1%nat; vm_compute; reflexivity|reflexivity].
    + exists (mkSlice (Some 169) 1). split; [exists 1%nat; vm_compute; reflexivity|reflexivity].
    + exists null_slice. split; [exists 1%nat; vm_compute; reflexivity|]. cbn [ptr null_slice].
      exists null_slice. split; [exists 1%nat; vm_compute; reflexivity|reflexivity].
  - exists n. intros fuel Hfuel. destruct (Hn fuel Hfuel) as (data' & Hrun & Hlen & _).
    exists data'. split; [exact Hrun|exact Hlen].
Defined.

(** ** The derive of a table with values of fixed size *)

Module DeriveFacts.
Import MappingFacts TerminationFacts BufferFacts TableFacts FileFacts.

(** The bytes behind a pointer into a buffer. *)
Lemma bytes_at_skipn mem a n : 0 <= a ->
  bytes_at (skipn (Z.to_nat a) mem) 0 n = bytes_at mem a n.
Proof.
  intros Ha. apply bytes_at_ext. intros i Hi. unfold rd. rewrite nth_skipn.
  do 2 f_equal. lia.
Qed.

(** One [memcpy] of a row is the copy of its key and of its value. *)
Lemma store_bytes_app buf a k v : 0 <= a ->
  store_bytes buf a (k ++ v)
  = store_bytes (store_bytes buf a k) (a + Z.of_nat (length k)) v.
Proof.
  intros Ha. unfold store_bytes.
  replace (Z.to_nat (a + Z.of_nat (length k))) with (Z.to_nat a + length k)%nat by lia.
  set (p := Z.to_nat a). rewrite length_app.
  destruct (Nat.le_gt_cases p (length buf)) as [Hle|Hgt].
  - assert (Hf : length (firstn p buf) = p) by (rewrite length_firstn; lia).
    rewrite (app_assoc (firstn p buf) k).
    assert (Hfk : length (firstn p buf ++ k) = (p + length k)%nat)
      by (rewrite length_app, Hf; reflexivity).
    rewrite firstn_app, Hfk, Nat.sub_diag.
    rewrite (firstn_all2 (firstn p buf ++ k)) by (rewrite Hfk; lia).
    cbn [firstn]. rewrite app_nil_r.
    rewrite skipn_app, Hfk.
    rewrite (skipn_all2 (firstn p buf ++ k)) by (rewrite Hfk; lia). cbn [app].
    replace (p + length k + length v - (p + length k))%nat with (length v) by lia.
    rewrite skipn_skipn. rewrite <- !app_assoc.
    do 3 f_equal. f_equal. lia.
  - rewrite (firstn_all2 buf) by lia.
    rewrite (skipn_all2 buf (n := (p + length k)%nat)) by lia.
    rewrite (skipn_all2 buf (n := (p + (length k + length v))%nat)) by lia.
    rewrite !app_nil_r.
    rewrite firstn_all2 by (rewrite length_app; lia).
    rewrite skipn_all2 by (rewrite length_app; lia).
    rewrite <- !app_assoc, app_nil_r. reflexivity.
Qed.

Section Ext.

Variable Hash : list Z -> Z -> Z -> Z.
Variable St : Type.
Variable header : Header.
Variable set_cnt : Divisor.t.
Variables key1 key2 : list Z.
Variables fill1 fill2 : Fill St.
Hypothesis Hkey :
  bytes_at key1 0 (Z.to_nat (h_key_len header)) = bytes_at key2 0 (Z.to_nat (h_key_len header)).
Hypothesis Hfill : forall line space st, 0 <= line -> fill1 line space st = fill2 line space st.

Lemma Mapping_set_ext : forall turns guide space st set mark sft j,
  Mapping_set St header key1 fill1 turns guide space st set mark sft j
  = Mapping_set St header key2 fill2 turns guide space st set mark sft j.
Proof.
  induction turns as [|turns IH]; intros guide space st set mark sft j; [reflexivity|].
  cbn [Mapping_set]. rewrite Hkey, IH.
  rewrite Hfill by (apply Z.mod_pos_bound; lia). reflexivity.
Qed.

Lemma Mapping_loop_ext : forall fuel guide space st set mark sft,
  Mapping_loop St header set_cnt key1 fill1 fuel guide space st set mark sft
  = Mapping_loop St header set_cnt key2 fill2 fuel guide space st set mark sft.
Proof.
  induction fuel as [|fuel IH]; intros guide space st set mark sft; [reflexivity|].
  cbn [Mapping_loop]. rewrite Mapping_set_ext.
  generalize (Mapping_set St header key2 fill2 65 guide space st set mark sft sft).
  intros [[x|]|e|]; cbn [bind]; [reflexivity|apply IH|reflexivity|reflexivity].
Qed.

(** [Mapping] looks at the [key_len] bytes behind the key and runs the
    callback on a row of the table. *)
Lemma Mapping_ext fuel guide space st :
  Mapping Hash St header set_cnt key1 fill1 fuel guide space st
  = Mapping Hash St header set_cnt key2 fill2 fuel guide space st.
Proof.
  rewrite !Mapping_unfold.
  rewrite (HashKey_same Hash key1 key2 (h_key_len header) (h_seed header) set_cnt Hkey).
  apply Mapping_loop_ext.
Qed.

End Ext.

(** Membership of a key in a list of keys. *)
Definition inb (k : list Z) (K : list (list Z)) : bool :=
  if in_dec (list_eq_dec Z.eq_dec) k K then true else false.

Lemma inb_true k K : inb k K = true <-> In k K.
Proof. unfold inb. destruct (in_dec _ k K); split; intros; try discriminate; tauto. Qed.

Lemma inb_false k K : inb k K = false <-> ~ In k K.
Proof. unfold inb. destruct (in_dec _ k K); split; intros; try discriminate; tauto. Qed.

Section Base.

Variable Hash : list Z -> Z -> Z -> Z.

(** The base: a table in a loaded file. *)
Variable hb : Header.
Variable nb : Z.
Hypothesis Hnb : 1 <= nb < 2 ^ 40.
Hypothesis Hkl : 1 <= h_key_len hb <= 255.
Hypothesis Hvl : 0 <= h_val_len hb < 2 ^ 16.
Variables guide_b space_b ext : list Z.
Variable es_b : list Entry.
Hypothesis HTb : Table Hash hb nb guide_b space_b es_b.
Variable vb : View.
Hypothesis Vg : v_guide vb = 64.
Hypothesis Vc : v_content vb = 64 + 64 * nb.
Hypothesis Vl : v_line_size vb = h_key_len hb + h_val_len hb.

Local Abbreviation kl := (h_key_len hb).
Local Abbreviation vl := (h_val_len hb).
Local Abbreviation ls := (h_key_len hb + h_val_len hb).
Local Abbreviation mem := (file hb guide_b space_b ext).
Local Abbreviation base := (mkPack vb (file hb guide_b space_b ext)).

(** The table under construction. *)
Variable h' : Header.
Variable n' : Z.
Hypothesis Hn' : 1 <= n' < 2 ^ 40.
Hypothesis Hkl' : h_key_len h' = h_key_len hb.
Hypothesis Hvl' : h_val_len h' = h_val_len hb.
Variable fuel : nat.
Hypothesis Hfuel : (Z.to_nat n' <= fuel)%nat.

Definition slot_key (j : Z) : list Z := bytes_at space_b (j * ls) (Z.to_nat kl).
Definition slot_val (j : Z) : list Z := bytes_at space_b (j * ls + kl) (Z.to_nat vl).

(** The row of slot [j] of the base, seen as a record. *)
Definition rec_at (j : Z) : Rec :=
  let line := 64 + 64 * nb + j * ls in
  mkRec (mkSlice (Some (skipn (Z.to_nat line) mem)) kl)
        (mkSlice (Some (skipn (Z.to_nat (line + kl)) mem)) vl).

Lemma entry_of_rec_at j : 0 <= j < 64 * nb ->
  entry_of h' (rec_at j) = (slot_key j, slot_val j).
Proof.
  intros Hj. unfold entry_of, key_of, value_of, rec_at, slot_key, slot_val, slice_bytes.
  cbn [key val ptr]. rewrite Hkl', Hvl'.
  rewrite !bytes_at_skipn by nia.
  rewrite (bytes_at_file_space Hash hb nb Hnb guide_b space_b ext es_b HTb (j * ls))
    by (try rewrite Z2Nat.id; nia).
  destruct (Z.eqb_spec vl 0) as [Hz|Hz].
  - rewrite Hz. reflexivity.
  - replace (64 + 64 * nb + j * ls + kl) with (64 + 64 * nb + (j * ls + kl)) by lia.
    rewrite (bytes_at_file_space Hash hb nb Hnb guide_b space_b ext es_b HTb (j * ls + kl))
      by (try rewrite Z2Nat.id; nia).
    reflexivity.
Qed.

(** The copy of the row of slot [j] is the fill of that record. *)
Lemma fill_row_record j out space st : 0 <= j < 64 * nb -> 0 <= out ->
  fill_row base (64 + 64 * nb + j * ls) out space st
  = fill_record h' (rec_at j) out space st.
Proof.
  intros Hj Hout. unfold fill_row, fill_record, rec_at, slice_bytes.
  cbn [pk_mem pk_view key val ptr]. rewrite Vl, Hkl', Hvl'.
  rewrite !bytes_at_skipn by nia.
  replace (Z.to_nat ls) with (Z.to_nat kl + Z.to_nat vl)%nat by lia.
  rewrite CodecFacts.bytes_at_split, store_bytes_app by exact Hout.
  rewrite VarintFacts.bytes_at_length, Z2Nat.id by lia.
  destruct (Z.eqb_spec vl 0) as [Hz|Hz]; cbn [negb]; [|reflexivity].
  rewrite Hz. change (Z.to_nat 0) with 0%nat.
  unfold bytes_at at 2. cbn [seq map]. unfold store_bytes at 1. cbn [length app].
  rewrite Nat.add_0_r, firstn_skipn. reflexivity.
Qed.

Variable K0 : list (list Z).

(** A slot of the base whose key is not among the keys [K0]. *)
Definition fresh_at (j : Z) : bool :=
  (rd guide_b j <? 128) && negb (inb (slot_key j) K0).

Fixpoint fresh (turns : nat) (i : Z) : Z :=
  match turns with
  | O => 0
  | S turns' => (if fresh_at i then 1 else 0) + fresh turns' (i + 1)
  end.

Lemma fresh_nonneg : forall turns i, 0 <= fresh turns i.
Proof.
  induction turns as [|turns IH]; intros i; cbn [fresh]; [lia|].
  specialize (IH (i + 1)). destruct (fresh_at i); lia.
Qed.

(** The third pass of the derive: the rows of the base whose key is not
    in the table are installed, the others are skipped. *)
Lemma Mapping_base_spec : forall turns i guide space es cnt,
  0 <= i -> i + Z.of_nat turns <= 64 * nb ->
  Table Hash h' n' guide space es -> incl K0 (map fst es) ->
  Z.of_nat (length es) + fresh turns i < 64 * n' ->
  0 <= cnt -> cnt + Z.of_nat turns < 2 ^ 64 ->
  exists cnt' guide' space' added,
    Mapping_base Hash fuel base h' (Divisor.make n') turns i guide space cnt
    = Done (cnt', guide', space') /\
    Table Hash h' n' guide' space' (added ++ es) /\
    cnt' = cnt + Z.of_nat (length added) /\
    Z.of_nat (length added) <= fresh turns i /\
    (forall e, In e added -> In e es_b) /\
    (forall j, i <= j < i + Z.of_nat turns -> rd guide_b j < 128 ->
       In (slot_key j) (map fst (added ++ es))).
Proof.
  induction turns as [|turns IH]; intros i guide space es cnt Hi Hend HT HK Hroom Hc Hcs.
  - exists cnt, guide, space, []. cbn [Mapping_base app length].
    split; [reflexivity|]. split; [exact HT|]. split; [lia|]. split; [cbn [fresh]; lia|].
    split; [intros ? []|]. intros j Hj. lia.
  - cbn [Mapping_base fresh] in *. cbn [pk_view pk_mem]. rewrite Vg, Vc, Vl.
    rewrite (DivisorFacts.wrap64_small (i * ls)) by nia.
    rewrite (rd_file_guide Hash hb nb guide_b space_b ext es_b HTb i) by lia.
    rewrite VarintFacts.land128_byte by apply VarintFacts.rd_byte.
    pose proof (fresh_nonneg turns (i + 1)) as Hf0.
    assert (Hkl2 : 1 <= h_key_len h' <= 255) by (rewrite Hkl'; exact Hkl).
    assert (Hvl2 : 0 <= h_val_len h' < 2 ^ 16) by (rewrite Hvl'; exact Hvl).
    destruct (Z.ltb_spec (rd guide_b i) 128) as [Hocc|Hocc].
    + (* an occupied slot *)
      destruct (tb_rows _ _ _ _ _ _ HTb i ltac:(lia) Hocc) as (e & Hine & Hke & Hve).
      fold (slot_key i) in Hke. fold (slot_val i) in Hve.
      assert (He : entry_of h' (rec_at i) = e).
      { rewrite entry_of_rec_at by lia. rewrite Hke, Hve. now destruct e. }
      rewrite (Mapping_ext Hash unit h' (Divisor.make n')
                 (skipn (Z.to_nat (64 + 64 * nb + i * ls)) mem) (key_of h' (rec_at i))
                 (fill_row base (64 + 64 * nb + i * ls)) (fill_record h' (rec_at i))).
      2:{ unfold key_of, rec_at, slice_bytes. cbn [key ptr]. now rewrite bytes_at_idem. }
      2:{ intros line sp st Hline. apply fill_row_record; [lia|exact Hline]. }
      destruct (Mapping_entry Hash h' n' Hn' Hkl2 Hvl2 (rec_at i) _ eq_refl
                  ltac:(intros _; eexists; reflexivity) guide space es fuel HT
                  ltac:(destruct (fresh_at i); lia) Hfuel)
        as [[Hin Hrun]|[Hnin (guide1 & space1 & Hrun & HT1)]]; rewrite Hrun; cbn [bind].
      * (* its key is in the table *)
        destruct (IH (i + 1) guide space es cnt ltac:(lia) ltac:(lia) HT HK
                    ltac:(destruct (fresh_at i); lia) Hc ltac:(lia))
          as (cnt' & guide' & space' & added & Hrun' & HT' & Hcnt' & Hbound & Hfrom & Hcov).
        exists cnt', guide', space', added.
        split; [exact Hrun'|]. split; [exact HT'|]. split; [exact Hcnt'|].
        split; [destruct (fresh_at i); lia|]. split; [exact Hfrom|].
        intros j Hj Hoj. destruct (Z.eq_dec j i) as [->|Hne]; [|apply Hcov; [lia|exact Hoj]].
        rewrite map_app. apply in_or_app. right.
        rewrite Hke, <- He. exact Hin.
      * (* its key is new *)
        rewrite He in HT1.
        assert (Hfr : fresh_at i = true).
        { unfold fresh_at. destruct (Z.ltb_spec (rd guide_b i) 128) as [_|?]; [|lia].
          cbn [andb]. apply negb_true_iff. apply inb_false. intros HinK. apply Hnin.
          assert (Hk : key_of h' (rec_at i) = fst e) by (rewrite <- He; reflexivity).
          rewrite Hk, <- Hke. now apply HK. }
        rewrite Hfr in Hroom.
        rewrite (DivisorFacts.wrap64_small (cnt + 1)) by lia.
        destruct (IH (i + 1) guide1 space1 (e :: es) (cnt + 1) ltac:(lia) ltac:(lia) HT1
                    ltac:(intros k Hk; cbn [map]; right; now apply HK)
                    ltac:(cbn [length]; lia) ltac:(lia) ltac:(lia))
          as (cnt' & guide' & space' & added & Hrun' & HT' & Hcnt' & Hbound & Hfrom & Hcov).
        exists cnt', guide', space', (added ++ [e]).
        rewrite <- app_assoc. cbn [app].
        split; [exact Hrun'|]. split; [exact HT'|].
        split; [rewrite length_app; cbn [length]; lia|].
        split; [rewrite length_app, Hfr; cbn [length]; lia|]. split.
        -- intros e' He'. apply in_app_or in He'. destruct He' as [He'|[<-|[]]];
             [now apply Hfrom|exact Hine].
        -- intros j Hj Hoj. destruct (Z.eq_dec j i) as [->|Hne];
             [|apply Hcov; [lia|exact Hoj]].
           rewrite map_app. apply in_or_app. right. cbn [map]. left. now rewrite Hke.
    + (* an empty slot *)
      assert (Hfr : fresh_at i = false).
      { unfold fresh_at. destruct (Z.ltb_spec (rd guide_b i) 128) as [?|_]; [lia|reflexivity]. }
      rewrite Hfr in Hroom.
      destruct (IH (i + 1) guide space es cnt ltac:(lia) ltac:(lia) HT HK ltac:(lia) Hc
                  ltac:(lia))
        as (cnt' & guide' & space' & added & Hrun' & HT' & Hcnt' & Hbound & Hfrom & Hcov).
      exists cnt', guide', space', added.
      split; [exact Hrun'|]. split; [exact HT'|]. split; [exact Hcnt'|].
      split; [rewrite Hfr; lia|]. split; [exact Hfrom|].
      intros j Hj Hoj. destruct (Z.eq_dec j i) as [->|Hne]; [lia|apply Hcov; [lia|exact Hoj]].
Qed.

End Base.

(** A record whose key [CountHit] accepts. *)
Definition keyed (key_len : Z) (r : Rec) : Prop :=
  is_null (key r) = false /\ len (key r) = key_len.

Lemma keyed_dec key_len r :
  is_null (key r) || negb (len (key r) =? key_len) = false <-> keyed key_len r.
Proof.
  unfold keyed. destruct (is_null (key r)); cbn [orb].
  - split; [discriminate|intros [H _]; discriminate].
  - destruct (Z.eqb_spec (len (key r)) key_len) as [He|He]; cbn [negb]; split.
    + intros _. split; [reflexivity|exact He].
    + reflexivity.
    + discriminate.
    + intros [_ H]. contradiction.
Qed.

(** The number of records whose key is among [K]. *)
Definition hits (key_len : Z) (K : list (list Z)) (recs : list Rec) : Z :=
  Z.of_nat (length (filter (fun r => inb (slice_bytes (key r) key_len) K) recs)).

Lemma hits_range key_len K recs : 0 <= hits key_len K recs <= Z.of_nat (length recs).
Proof.
  unfold hits.
  pose proof (filter_length_le (fun r => inb (slice_bytes (key r) key_len) K) recs). lia.
Qed.

Lemma hits_app key_len K a b : hits key_len K (a ++ b) = hits key_len K a + hits key_len K b.
Proof. unfold hits. rewrite filter_app, length_app. lia. Qed.

Lemma slice_bytes_idem s n : is_null s = false ->
  bytes_at (slice_bytes s n) 0 (Z.to_nat n) = slice_bytes s n.
Proof.
  unfold slice_bytes, is_null. destruct (ptr s) as [bs|]; [|discriminate].
  intros _. apply bytes_at_idem.
Qed.

Section Count.

Variable Hash : list Z -> Z -> Z -> Z.
Variable hb : Header.
Variable nb : Z.
Hypothesis Hnb : 1 <= nb < 2 ^ 40.
Hypothesis Hkl : 1 <= h_key_len hb <= 255.
Hypothesis Hvl : 0 <= h_val_len hb < 2 ^ 16.
Hypothesis Hmagic : h_magic hb = SSHT_MAGIC.
Hypothesis Hcnt : h_set_cnt hb = nb.
Hypothesis Hseed : 0 <= h_seed hb < 2 ^ 64.
Hypothesis Hitem : 0 <= h_item hb < 2 ^ 64.
Hypothesis Hfit : LoaderFacts.lengths_fit_type hb.
Variables guide_b space_b ext : list Z.
Variable es_b : list Entry.
Hypothesis HTb : Table Hash hb nb guide_b space_b es_b.
Hypothesis Hext : h_type hb = KV_SEPARATED -> 64 * nb <= Z.of_nat (length ext).
Hypothesis Hroomb : Z.of_nat (length es_b) < 64 * nb.
Variable vb : View.
Hypothesis Hview : CreateView (file hb guide_b space_b ext) = Some vb.
Variable fuel : nat.
Hypothesis Hfuel : (Z.to_nat nb <= fuel)%nat.

Local Abbreviation kl := (h_key_len hb).
Local Abbreviation base := (mkPack vb (file hb guide_b space_b ext)).
Local Abbreviation Kb := (map fst es_b).
Local Abbreviation hits := (hits (h_key_len hb) (map fst es_b)).

(** The lookup in the base tells the keys of the base from the others. *)
Lemma Search_base b :
  exists r, Search Hash fuel base b = Some r /\
    match r with Some _ => true | None => false end
    = inb (bytes_at b 0 (Z.to_nat kl)) Kb.
Proof.
  destruct (in_dec (list_eq_dec Z.eq_dec) (bytes_at b 0 (Z.to_nat kl)) Kb) as [Hin|Hnin].
  - pose proof Hin as Hin'. apply in_map_iff in Hin'. destruct Hin' as (e & He & Hine).
    destruct (Search_entry Hash hb nb Hnb Hkl Hvl Hmagic Hcnt Hseed Hitem Hfit
                guide_b space_b ext es_b HTb Hext vb Hview e Hine) as (i & _ & _ & HS).
    eexists. split; [apply HS; [now symmetry|exact Hfuel]|].
    symmetry. now apply inb_true.
  - exists None. split.
    + apply (Search_absent Hash hb nb Hnb Hkl Hvl Hmagic Hcnt Hseed Hitem Hfit
               guide_b space_b ext es_b HTb Hext vb Hview b fuel Hnin Hroomb Hfuel).
    + symmetry. now apply inb_false.
Qed.

Lemma CountHit_loop_spec : forall turns items p hit,
  (p + turns <= length items)%nat -> 0 <= hit -> hit + Z.of_nat turns < 2 ^ 64 ->
  let part := firstn turns (skipn p items) in
  match CountHit_loop Hash fuel base turns (mkListReader items p) hit with
  | Done (hit', r') =>
      Forall (keyed kl) part /\ hit' = hit + hits part /\
      r' = mkListReader items (p + turns)
  | Throw BuildException => ~ Forall (keyed kl) part
  | _ => False
  end.
Proof.
  destruct (view_fields Hash hb nb Hnb Hkl Hvl Hmagic Hcnt Hseed Hitem Hfit
              guide_b space_b ext es_b HTb Hext vb Hview) as (_ & Vk & _).
  induction turns as [|turns IH]; intros items p hit Hp Hh Hsum; cbv zeta.
  - cbn [CountHit_loop firstn]. split; [constructor|]. split; [unfold hits; cbn; lia|].
    now rewrite Nat.add_0_r.
  - cbn [CountHit_loop read ListReader_reader bind lr_items lr_pos pk_view].
    set (rec := nth p items null_rec).
    rewrite (ArtifactFacts.skipn_nth null_rec items p) by lia. fold rec.
    cbn [firstn]. rewrite Vk.
    destruct (is_null (key rec) || negb (len (key rec) =? kl)) eqn:Ek.
    + intros Hall. inversion Hall as [|? ? Hk _]; subst.
      apply keyed_dec in Hk. congruence.
    + apply keyed_dec in Ek.
      destruct (Search_base (slice_bytes (key rec) kl)) as (r & Hr & Hin).
      rewrite Hr. rewrite slice_bytes_idem in Hin by exact (proj1 Ek).
      set (hit1 := match r with Some _ => wrap64 (hit + 1) | None => hit end).
      assert (Hhit1 : hit1 = hit + hits [rec]).
      { unfold hit1, hits. cbn [filter]. rewrite <- Hin. destruct r; cbn [length].
        - rewrite DivisorFacts.wrap64_small by lia. lia.
        - lia. }
      pose proof (hits_range kl Kb [rec]) as Hr1. cbn [length] in Hr1.
      specialize (IH items (S p) hit1 ltac:(lia) ltac:(lia) ltac:(lia)).
      cbv zeta in IH.
      destruct (CountHit_loop Hash fuel base turns (mkListReader items (S p)) hit1)
        as [[hit' r']|[]|]; try contradiction.
      * destruct IH as (Hall & -> & ->). split; [constructor; assumption|].
        split; [|f_equal; lia].
        change (rec :: firstn turns (skipn (S p) items))
          with ([rec] ++ firstn turns (skipn (S p) items)).
        rewrite hits_app. lia.
      * intros Hall. inversion Hall; subst. contradiction.
Qed.

(** The first pass of the derive over readers held in memory. *)
Lemma CountHit_threads_spec : forall (readers : list ListReader) dirty fail,
  0 <= dirty -> dirty + Z.of_nat (length (BuildFacts.all_items readers)) < 2 ^ 64 ->
  match CountHit_threads Hash fuel base readers dirty fail with
  | Done (dirty', fail', readers') =>
      readers' = map reset readers /\
      if fail' then fail = true \/ ~ Forall (keyed kl) (BuildFacts.all_items readers)
      else fail = false /\ Forall (keyed kl) (BuildFacts.all_items readers) /\
           dirty' = dirty + hits (BuildFacts.all_items readers)
  | _ => False
  end.
Proof.
  induction readers as [|reader readers IH]; intros dirty fail Hd Hsum.
  - cbn [CountHit_threads map BuildFacts.all_items flat_map]. split; [reflexivity|].
    destruct fail; [now left|]. split; [reflexivity|]. split; [constructor|].
    unfold hits. cbn. lia.
  - unfold BuildFacts.all_items in *. cbn [CountHit_threads flat_map map] in *.
    rewrite length_app in Hsum.
    unfold CountHit. cbn [total reset ListReader_reader lr_items]. rewrite Nat2Z.id.
    pose proof (CountHit_loop_spec (length (lr_items reader)) (lr_items reader) 0 0
                  ltac:(lia) ltac:(lia) ltac:(lia)) as Hloop.
    cbv zeta in Hloop. cbn [skipn] in Hloop. rewrite firstn_all in Hloop.
    pose proof (hits_range kl Kb (lr_items reader)) as Hr.
    destruct (CountHit_loop Hash fuel base (length (lr_items reader))
                (mkListReader (lr_items reader) 0) 0) as [[hit r']|[]|];
      cbn [bind]; try contradiction.
    + destruct Hloop as (Hall & -> & ->). cbn [lr_items]. rewrite Z.add_0_l.
      rewrite DivisorFacts.wrap64_small by lia.
      specialize (IH (dirty + hits (lr_items reader)) fail ltac:(lia) ltac:(lia)).
      destruct (CountHit_threads Hash fuel base readers _ fail)
        as [[[dirty' fail'] rs']|e|]; cbn [bind]; try contradiction.
      destruct IH as (-> & IH). split; [reflexivity|].
      destruct fail'.
      * destruct IH as [IH|IH]; [now left|right]. intros Hx. apply Forall_app in Hx.
        now apply IH.
      * destruct IH as (-> & Hall' & ->). split; [reflexivity|].
        split; [apply Forall_app; split; assumption|]. rewrite hits_app. lia.
    + specialize (IH dirty true Hd ltac:(lia)).
      destruct (CountHit_threads Hash fuel base readers dirty true)
        as [[[dirty' fail'] rs']|e|]; cbn [bind]; try contradiction.
      destruct IH as (-> & _). split; [reflexivity|]. right. intros Hx.
      apply Forall_app in Hx. now apply Hloop.
Qed.

End Count.

(** The slots of a table of [n] sets. *)
Definition slots (n : Z) : list Z := map Z.of_nat (seq 0 (Z.to_nat (64 * n))).

Lemma filter_split {A : Type} (f g : A -> bool) : forall l,
  (length (filter (fun x => f x && negb (g x)) l)
   + length (filter (fun x => f x && g x) l))%nat
  = length (filter f l).
Proof.
  induction l as [|x l IH]; [reflexivity|]. cbn [filter].
  destruct (f x), (g x); cbn [andb negb length]; lia.
Qed.

Section Counting.

Variable Hash : list Z -> Z -> Z -> Z.
Variable hb : Header.
Variable nb : Z.
Hypothesis Hnb : 1 <= nb < 2 ^ 40.
Hypothesis Hkl : 1 <= h_key_len hb <= 255.
Hypothesis Hvl : 0 <= h_val_len hb < 2 ^ 16.
Variables guide_b space_b : list Z.
Variable es_b : list Entry.
Hypothesis HTb : Table Hash hb nb guide_b space_b es_b.

Local Abbreviation Kb := (map fst es_b).
Local Abbreviation occ := (fun j => rd guide_b j <? 128).

(** As many slots are occupied as the table has entries. *)
Lemma occupied_slots :
  length (filter occ (slots nb)) = length es_b.
Proof.
  pose proof (tb_occupied _ _ _ _ _ _ HTb) as Hocc. unfold occupied in Hocc.
  apply Nat2Z.inj in Hocc. rewrite <- Hocc.
  pose proof (tb_guide_len _ _ _ _ _ _ HTb) as Hgl.
  unfold slots. replace (Z.to_nat (64 * nb)) with (length guide_b) by lia.
  transitivity (length (filter (fun b => wrap8 b <? 128)
                               (map (fun x => nth (Z.to_nat x) guide_b 0)
                                    (map Z.of_nat (seq 0 (length guide_b)))))).
  - symmetry.
    apply (ScanFacts.filter_length_map (fun b => wrap8 b <? 128)
                                       (fun x => nth (Z.to_nat x) guide_b 0)).
  - now rewrite ScanFacts.map_nth_seq.
Qed.

(** Every entry sits in an occupied slot. *)
Lemma key_has_slot e : In e es_b ->
  exists j, In j (slots nb) /\ occ j = true /\ slot_key hb space_b j = fst e.
Proof.
  intros Hin.
  destruct (tb_holds _ _ _ _ _ _ HTb e Hin) as (d & k & Hd & Hk & _ & Hdup & _).
  pose proof (set_after_range nb Hnb d _ (BuildFacts.set_of_range Hash hb nb Hnb (fst e)))
    as Hsd.
  pose proof (off_of_range (BuildFacts.sft_of Hash hb nb (fst e)) k) as Hoff.
  destruct (probe_dup_inv hb nb Hnb Hkl Hvl (fst e) guide_b space_b _ _ _ Hsd Hoff Hdup)
    as (_ & Hlt & Hrow).
  eexists. split; [|split; [apply Z.ltb_lt; exact Hlt|]].
  - unfold slots. apply in_map_iff.
    exists (Z.to_nat (64 * set_after (Divisor.make nb) d (BuildFacts.set_of Hash hb nb (fst e))
                      + off_of (BuildFacts.sft_of Hash hb nb (fst e)) k)).
    split; [lia|]. apply in_seq. lia.
  - unfold slot_key. rewrite Hrow. exact (tb_keys _ _ _ _ _ _ HTb e Hin).
Qed.

Variable K0 : list (list Z).

Lemma fresh_filter : forall turns i,
  fresh hb guide_b space_b K0 turns i
  = Z.of_nat (length (filter (fresh_at hb guide_b space_b K0)
                             (map (fun q => i + Z.of_nat q) (seq 0 turns)))).
Proof.
  induction turns as [|turns IH]; intros i; [reflexivity|].
  cbn [fresh seq map filter]. rewrite Z.add_0_r, IH.
  rewrite <- seq_shift, map_map.
  rewrite (map_ext (fun q => i + Z.of_nat (S q)) (fun q => i + 1 + Z.of_nat q))
    by (intros q; lia).
  destruct (fresh_at hb guide_b space_b K0 i); cbn [length]; lia.
Qed.

Lemma fresh_slots :
  fresh hb guide_b space_b K0 (Z.to_nat (64 * nb)) 0
  = Z.of_nat (length (filter (fresh_at hb guide_b space_b K0) (slots nb))).
Proof.
  rewrite fresh_filter. unfold slots.
  rewrite (map_ext (fun q => 0 + Z.of_nat q) Z.of_nat) by (intros q; lia). reflexivity.
Qed.

(** The table the derive allocates has room for the keys of the patch and
    the rows of the base that the patch does not override. *)
Lemma derive_room (P : list (list Z)) :
  NoDup K0 -> incl K0 P ->
  Z.of_nat (length K0) + fresh hb guide_b space_b K0 (Z.to_nat (64 * nb)) 0
  + Z.of_nat (length (filter (fun k => inb k Kb) P))
  <= Z.of_nat (length P) + Z.of_nat (length es_b).
Proof.
  intros Hnd Hincl. rewrite fresh_slots.
  set (A := filter (fun j => occ j && inb (slot_key hb space_b j) K0) (slots nb)).
  pose proof (filter_split occ (fun j => inb (slot_key hb space_b j) K0) (slots nb)) as Hsplit.
  fold A in Hsplit. rewrite occupied_slots in Hsplit.
  change (filter (fun x => occ x && negb (inb (slot_key hb space_b x) K0)) (slots nb))
    with (filter (fresh_at hb guide_b space_b K0) (slots nb)) in Hsplit.
  set (M := filter (fun k => inb k Kb) K0).
  set (N := filter (fun k => negb (inb k Kb)) K0).
  assert (HM : (length M <= length A)%nat).
  { rewrite <- (length_map (slot_key hb space_b) A).
    apply NoDup_incl_length; [apply NoDup_filter; exact Hnd|].
    intros k Hk. apply filter_In in Hk. destruct Hk as [HkK HkB].
    apply inb_true in HkB. apply in_map_iff in HkB. destruct HkB as (e & He & Hine).
    destruct (key_has_slot e Hine) as (j & Hj & Hoj & Hkj).
    apply in_map_iff. exists j. split; [congruence|].
    apply filter_In. split; [exact Hj|]. rewrite Hoj. cbn [andb].
    apply inb_true. rewrite Hkj, He. exact HkK. }
  assert (HN : (length N <= length (filter (fun k => negb (inb k Kb)) P))%nat).
  { apply NoDup_incl_length; [apply NoDup_filter; exact Hnd|].
    intros k Hk. apply filter_In in Hk. destruct Hk as [HkK HkB].
    apply filter_In. split; [now apply Hincl|exact HkB]. }
  assert (E1 : (length (filter (fresh_at hb guide_b space_b K0) (slots nb)) + length A
                = length es_b)%nat) by exact Hsplit.
  assert (E2 : (length M + length N = length K0)%nat)
    by exact (filter_length (fun k => inb k Kb) K0).
  assert (E3 : (length (filter (fun k => inb k Kb) P)
                + length (filter (fun k => negb (inb k Kb)) P) = length P)%nat)
    by exact (filter_length (fun k => inb k Kb) P).
  lia.
Qed.

End Counting.

(** Readers that were reset are mapped from their first record. *)
Lemma Mapping_readers_reset Hash fuel header : forall (readers : list ListReader)
    guide space item fail,
  Mapping_readers Hash fuel header false (map reset readers) guide space item fail
  = Mapping_readers Hash fuel header true (map reset readers) guide space item fail.
Proof.
  induction readers as [|reader readers IH]; intros guide space item fail; [reflexivity|].
  cbn [map Mapping_readers reset ListReader_reader lr_items].
  generalize (Mapping_reader Hash fuel header guide space (mkListReader (lr_items reader) 0)).
  intros [[[[cnt g] s] r]|[]|]; try reflexivity; cbn [bind]; now rewrite IH.
Qed.

Lemma all_items_reset (readers : list ListReader) :
  BuildFacts.all_items (map reset readers) = BuildFacts.all_items readers.
Proof.
  unfold BuildFacts.all_items. induction readers as [|r readers IH]; [reflexivity|].
  cbn [map flat_map]. f_equal. exact IH.
Qed.

Lemma value_make n : Divisor.value (Divisor.make n) = n.
Proof.
  unfold Divisor.value, Divisor.make. destruct (n =? 0); [reflexivity|].
  destruct (Divisor.shrink 64 _ _ n) as [m sft].
  destruct (m =? n); [reflexivity|]. destruct (_ <=? m); reflexivity.
Qed.

Section Rebuild.

Variable Hash : list Z -> Z -> Z -> Z.
Variable hb : Header.
Variable nb : Z.
Hypothesis Hnb : 1 <= nb < 2 ^ 40.
Hypothesis Hkl : 1 <= h_key_len hb <= 255.
Hypothesis Hvl : 0 <= h_val_len hb < 2 ^ 16.
Hypothesis Hmagic : h_magic hb = SSHT_MAGIC.
Hypothesis Hcnt : h_set_cnt hb = nb.
Hypothesis Hseed : 0 <= h_seed hb < 2 ^ 64.
Hypothesis Htype : h_type hb = KEY_SET \/ h_type hb = KV_INLINE.
Hypothesis Hfit : LoaderFacts.lengths_fit_type hb.
Variables guide_b space_b ext : list Z.
Variable es_b : list Entry.
Hypothesis HTb : Table Hash hb nb guide_b space_b es_b.
Hypothesis Hitemb : h_item hb = Z.of_nat (length es_b).
Hypothesis Hroomb : Z.of_nat (length es_b) < 64 * nb.
Variable vb : View.
Hypothesis Hview : CreateView (file hb guide_b space_b ext) = Some vb.

Variable readers : list ListReader.
Variable seed' : Z.
Variable fuel : nat.
Variables out out' : Sink.

Local Abbreviation kl := (h_key_len hb).
Local Abbreviation vl := (h_val_len hb).
Local Abbreviation base := (mkPack vb (file hb guide_b space_b ext)).

Let items := BuildFacts.all_items readers.
Let dirty := hits (h_key_len hb) (map fst es_b) items.
Let total := Z.of_nat (length items) + Z.of_nat (length es_b) - dirty.
Let n' := CalcSetCnt total.
Let h' := mkHeader SSHT_MAGIC (h_type hb) (h_key_len hb) (h_val_len hb) seed' 0 n'.

Hypothesis Hsize : Z.of_nat (length items) + Z.of_nat (length es_b) < 2 ^ 40.
Hypothesis Hfuelb : (Z.to_nat nb <= fuel)%nat.
Hypothesis Hfuel' : (Z.to_nat n' <= fuel)%nat.
Let size := 64 + 64 * n' + 64 * n' * (kl + vl).

(** How a fixed-size derive ends: the status it returns or the exception it
    throws, and the table it wrote. *)
Lemma Rebuild_spec :
  readers <> [] ->
  match RebuildWithFixedSizeValue Hash fuel seed' base readers out with
  | Done (BUILD_STATUS_BAD_INPUT, out1) =>
      out1 = out /\
      (~ Forall (keyed kl) items \/
       (dirty <= Z.of_nat (length es_b) /\ ~ Forall (wellformed h') items))
  | Done (BUILD_STATUS_FAIL_TO_OUTPUT, out1) =>
      dirty <= Z.of_nat (length es_b) /\ Forall (wellformed h') items /\
      sk_room out < size
  | Done (BUILD_STATUS_OK, out1) =>
      1 <= n' < 2 ^ 40 /\ dirty <= Z.of_nat (length es_b) /\
      Forall (wellformed h') items /\ size <= sk_room out /\
      exists guide' space' es_p added,
        Table Hash h' n' guide' space' (added ++ es_p) /\
        Z.of_nat (length (added ++ es_p)) < 64 * n' /\
        grown h' [] es_p items (Z.of_nat (length es_p)) /\
        (forall e, In e added -> In e es_b) /\
        (forall e, In e es_b -> In (fst e) (map fst (added ++ es_p))) /\
        sk_data out1
        = sk_data out ++ Header_bytes (with_item h' (Z.of_nat (length (added ++ es_p))))
                   ++ guide' ++ space'
  | Throw e =>
      e = InternalException /\ Forall (keyed kl) items /\ Z.of_nat (length es_b) < dirty
  | Hang => False
  end.
Proof.
  intros Hne.
  assert (Hitem : 0 <= h_item hb < 2 ^ 64) by (rewrite Hitemb; lia).
  assert (Hext : h_type hb = KV_SEPARATED -> 64 * nb <= Z.of_nat (length ext)).
  { unfold KV_SEPARATED, KEY_SET, KV_INLINE in *. destruct Htype as [->| ->]; discriminate. }
  destruct (view_fields Hash hb nb Hnb Hkl Hvl Hmagic Hcnt Hseed Hitem Hfit
              guide_b space_b ext es_b HTb Hext vb Hview)
    as (Vt & Vk & Vv & Vs & Vi & Vl & Vn & Vg & Vc & Ve & Vse).
  pose proof (hits_range (h_key_len hb) (map fst es_b) items) as Hdirty. fold dirty in Hdirty.
  unfold RebuildWithFixedSizeValue. cbn [pk_view].
  assert (Hassert : negb (match readers with [] => true | _ => false end)
                    && ((v_type vb =? KEY_SET) || (v_type vb =? KV_INLINE)) = true).
  { destruct readers; [congruence|]. cbn [negb andb]. rewrite Vt.
    destruct Htype as [->| ->]; reflexivity. }
  rewrite Hassert. cbn [Assert bind].
  pose proof (CountHit_threads_spec Hash hb nb Hnb Hkl Hvl Hmagic Hcnt Hseed Hitem Hfit
                guide_b space_b ext es_b HTb Hext Hroomb vb Hview fuel Hfuelb readers 0 false
                ltac:(lia) ltac:(fold items; lia)) as Hcount.
  destruct (CountHit_threads Hash fuel base readers 0 false)
    as [[[dirty0 fail] readers']|e|]; cbn [bind]; try contradiction.
  destruct Hcount as (-> & Hcount).
  destruct fail.
  { destruct Hcount as [Hf|Hk]; [discriminate|]. split; [reflexivity|]. left. exact Hk. }
  destruct Hcount as (_ & Hkeyed & ->).
  fold items in Hkeyed. fold items. fold dirty. rewrite Z.add_0_l.
  rewrite Vi, Hitemb.
  destruct (Z.leb_spec dirty (Z.of_nat (length es_b))) as [Hle|Hgt]; cbn [Assert bind].
  2:{ split; [reflexivity|]. split; [exact Hkeyed|exact Hgt]. }
  rewrite BuildFacts.SumInputSize_items by (rewrite all_items_reset; fold items; lia).
  rewrite all_items_reset. fold items.
  rewrite (DivisorFacts.wrap64_small (Z.of_nat (length items) + Z.of_nat (length es_b)))
    by lia.
  rewrite (DivisorFacts.wrap64_small
             (Z.of_nat (length items) + Z.of_nat (length es_b) - dirty)) by lia.
  fold total. fold n'. rewrite Vt, Vk, Vv, Vl, Vn. fold h'.
  assert (Htotal : 0 <= total < 2 ^ 40) by (unfold total; lia).
  pose proof (BuildFacts.CalcSetCnt_range total Htotal) as Hn'.
  destruct (TerminationFacts.CalcSetCnt_slack total ltac:(lia)) as (_ & Hslack & _).
  fold n' in Hn', Hslack.
  rewrite Z.shiftl_mul_pow2 by lia. change (2 ^ 6) with 64.
  rewrite (DivisorFacts.wrap64_small (n' * 64)) by lia.
  rewrite (DivisorFacts.wrap64_small (n' * 64 * (kl + vl))) by nia.
  assert (Hkl2 : 1 <= h_key_len h' <= 255) by exact Hkl.
  assert (Hvl2 : 0 <= h_val_len h' < 2 ^ 16) by exact Hvl.
  pose proof (Table_initial Hash h' n' Hn' Hkl2 Hvl2) as HT0.
  cbn [h_key_len h_val_len h'] in HT0.
  replace (64 * n') with (n' * 64) in HT0 by lia.
  rewrite Mapping_readers_reset.
  pose proof (Mapping_readers_spec Hash h' n' Hn' Hkl2 Hvl2 eq_refl fuel Hfuel'
                (map reset readers) _ _ 0 false [] HT0
                ltac:(cbn [length]; rewrite all_items_reset; fold items; lia) ltac:(lia)
                ltac:(rewrite all_items_reset; fold items; lia)) as Hmap.
  rewrite all_items_reset in Hmap. fold items in Hmap.
  destruct (Mapping_readers Hash fuel h' true (map reset readers) _ _ 0 false)
    as [[[[[item1 g1] s1] fail1] rs1]|e|]; cbn [bind]; try contradiction.
  destruct fail1.
  { destruct Hmap as [Hf|Hw]; [discriminate|]. split; [reflexivity|]. right.
    split; [exact Hle|exact Hw]. }
  destruct Hmap as (_ & Hwf & es_p & HTp & Hg). rewrite Z.sub_0_r in Hg.
  assert (Hitem1 : item1 = Z.of_nat (length es_p)).
  { destruct Hg as (addedp & -> & Hl & _). rewrite app_nil_r. lia. }
  subst item1.
  (* the rows of the base *)
  rewrite value_make.
  rewrite Z.shiftl_mul_pow2 by lia. change (2 ^ 6) with 64.
  rewrite (DivisorFacts.wrap64_small (nb * 64)) by lia.
  replace (nb * 64) with (64 * nb) by lia.
  set (Kp := map fst es_p).
  assert (HKp : NoDup Kp) by exact (tb_nodup _ _ _ _ _ _ HTp).
  set (P := map (key_of h') items).
  assert (HinclKP : incl Kp P).
  { destruct Hg as (addedp & Hadd & _ & _ & Hfrom & _). rewrite app_nil_r in Hadd.
    subst addedp. intros k Hk. apply in_map_iff in Hk. destruct Hk as (e & <- & He).
    destruct (Hfrom e He) as (r & Hr & ->). apply in_map_iff. exists r. now split. }
  pose proof (derive_room Hash hb nb Hnb Hkl Hvl guide_b space_b es_b HTb Kp P HKp HinclKP)
    as Hroom.
  assert (HP : Z.of_nat (length (filter (fun k => inb k (map fst es_b)) P)) = dirty).
  { unfold P, dirty, hits. rewrite ScanFacts.filter_length_map. reflexivity. }
  rewrite HP in Hroom. unfold P in Hroom. rewrite length_map in Hroom.
  assert (HlenKp : Z.of_nat (length Kp) = Z.of_nat (length es_p)).
  { unfold Kp. f_equal. apply length_map. }
  destruct (Mapping_base_spec Hash hb nb Hnb Hkl Hvl guide_b space_b ext es_b HTb vb
              Vg Vc Vl h' n' Hn' eq_refl eq_refl fuel Hfuel' Kp (Z.to_nat (64 * nb)) 0
              g1 s1 es_p 0 ltac:(lia) ltac:(lia) HTp ltac:(intros k Hk; exact Hk)
              ltac:(fold total in Hroom; lia) ltac:(lia) ltac:(lia))
    as (cnt' & guide' & space' & added & Hbase & HT' & Hcnt' & Hbound & Hfrom & Hcov).
  rewrite Hbase. cbn [bind]. rewrite Hcnt', Z.add_0_l.
  assert (Hadded : Z.of_nat (length added) + Z.of_nat (length es_p) < 64 * n')
    by (fold total in Hroom; lia).
  rewrite DivisorFacts.wrap64_small by lia.
  match goal with
  | |- context [write_table ?h ?g ?s ?o] =>
      pose proof (write_table_Sink_room h g s o) as Hw
  end.
  rewrite (tb_guide_len _ _ _ _ _ _ HT'), (tb_space_len _ _ _ _ _ _ HT') in Hw.
  cbn [h_key_len h_val_len h'] in Hw. fold size in Hw.
  destruct (write_table _ guide' space' out) as [ok out1] eqn:Hwt.
  cbn [fst] in Hw. subst ok.
  destruct (Z.leb_spec size (sk_room out)) as [Hsz|Hsz]; cbn [negb].
  2:{ split; [exact Hle|]. split; [exact Hwf|exact Hsz]. }
  apply ArtifactFacts.write_table_Sink in Hwt.
  split; [exact Hn'|]. split; [exact Hle|]. split; [exact Hwf|]. split; [exact Hsz|].
  exists guide', space', es_p, added.
  split; [exact HT'|]. split; [rewrite length_app; lia|].
  split; [exact Hg|]. split; [exact Hfrom|]. split.
  - intros e He. destruct (key_has_slot Hash hb nb Hnb Hkl Hvl guide_b space_b es_b HTb e He)
      as (j & Hj & Hoj & Hkj).
    rewrite <- Hkj. apply Hcov.
    + unfold slots in Hj. apply in_map_iff in Hj. destruct Hj as (q & <- & Hq).
      apply in_seq in Hq. lia.
    + apply Z.ltb_lt. exact Hoj.
  - rewrite Hwt, length_app, Nat2Z.inj_add.
    now rewrite (Z.add_comm (Z.of_nat (length es_p))).
Qed.

Hypothesis Hrun :
  RebuildWithFixedSizeValue Hash fuel seed' base readers out = Done (BUILD_STATUS_OK, out').

(** The table and the bytes of a fixed-size derive that returned OK. *)
Lemma Rebuild_table :
  1 <= n' < 2 ^ 40 /\ dirty <= Z.of_nat (length es_b) /\
  Forall (wellformed h') items /\
  exists guide' space' es_p added,
    Table Hash h' n' guide' space' (added ++ es_p) /\
    Z.of_nat (length (added ++ es_p)) < 64 * n' /\
    grown h' [] es_p items (Z.of_nat (length es_p)) /\
    (forall e, In e added -> In e es_b) /\
    (forall e, In e es_b -> In (fst e) (map fst (added ++ es_p))) /\
    sk_data out'
    = sk_data out ++ Header_bytes (with_item h' (Z.of_nat (length (added ++ es_p))))
               ++ guide' ++ space'.
Proof.
  assert (Hne : readers <> []).
  { intros ->. revert Hrun. unfold RebuildWithFixedSizeValue. cbn [negb andb Assert bind].
    discriminate. }
  pose proof (Rebuild_spec Hne) as Hspec. rewrite Hrun in Hspec.
  destruct Hspec as (H1 & H2 & H3 & _ & H5).
  split; [exact H1|]. split; [exact H2|]. split; [exact H3|exact H5].
Qed.

Hypothesis Hseed' : 0 <= seed' < 2 ^ 64.
Hypothesis Hout : sk_data out = [].

(** The derived artifact, loaded. *)
Lemma Rebuild_lookup :
  let h2 := Hashtable_load (Some (sk_data out')) in
  Hashtable_not h2 = false /\
  (v_type (m_view h2) = h_type hb /\ v_key_len (m_view h2) = h_key_len hb /\
   v_val_len (m_view h2) = h_val_len hb) /\
  Forall (wellformed h') items /\
  v_item (m_view h2)
  = Z.of_nat (length (nodup (list_eq_dec Z.eq_dec)
                            (map (key_of h') items ++ map fst es_b))) /\
  (forall r, In r items ->
     exists r' p, In r' items /\ key_of h' r' = key_of h' r /\
       bytes_at (sk_data out') p (Z.to_nat vl) = value_of h' r' /\
       forall b fuel', bytes_at b 0 (Z.to_nat kl) = key_of h' r ->
         (Z.to_nat n' <= fuel')%nat ->
         search Hash fuel' h2 (Some b) = Some (mkSlice (Some p) vl)) /\
  (forall e, In e es_b -> (forall r, In r items -> key_of h' r <> fst e) ->
     exists p, bytes_at (sk_data out') p (Z.to_nat vl) = snd e /\
       forall b fuel', bytes_at b 0 (Z.to_nat kl) = fst e ->
         (Z.to_nat n' <= fuel')%nat ->
         search Hash fuel' h2 (Some b) = Some (mkSlice (Some p) vl)) /\
  (forall b fuel', (Z.to_nat n' <= fuel')%nat ->
     (forall r, In r items -> key_of h' r <> bytes_at b 0 (Z.to_nat kl)) ->
     ~ In (bytes_at b 0 (Z.to_nat kl)) (map fst es_b) ->
     search Hash fuel' h2 (Some b) = Some null_slice).
Proof.
  destruct Rebuild_table
    as (Hn' & _ & Hwf & guide' & space' & es_p & added & HT & Hroom & Hg & Hfrom & Hcov & Hdata).
  rewrite Hout in Hdata. cbn [app] in Hdata.
  set (es' := added ++ es_p) in *.
  set (h1 := with_item h' (Z.of_nat (length es'))) in *.
  assert (Hkl1 : 1 <= h_key_len h1 <= 255) by exact Hkl.
  assert (Hvl1 : 0 <= h_val_len h1 < 2 ^ 16) by exact Hvl.
  assert (Hitem1 : 0 <= h_item h1 < 2 ^ 64) by (cbn [h1 with_item h_item]; lia).
  assert (Hfit1 : LoaderFacts.lengths_fit_type h1).
  { unfold LoaderFacts.lengths_fit_type in *. cbn [h1 with_item h' h_type h_key_len h_val_len].
    unfold KV_SEPARATED, KEY_SET, KV_INLINE in *.
    destruct Htype as [Ht|Ht]; rewrite Ht in *.
    - left. split; [reflexivity|lia].
    - right. left. destruct Hfit as [[H _]|[[_ [_ H]]|[H _]]]; try discriminate.
      repeat split; lia. }
  assert (Hnsep : h_type h1 = KV_SEPARATED -> 64 * n' <= Z.of_nat (length (@nil Z))).
  { cbn [h1 with_item h' h_type]. unfold KV_SEPARATED, KEY_SET, KV_INLINE in *.
    destruct Htype as [->| ->]; discriminate. }
  pose proof (FixedBuildFacts.Table_with_item Hash h' n' (Z.of_nat (length es')) guide' space'
                es' HT) as HT1.
  fold h1 in HT1.
  assert (Hfile : sk_data out' = file h1 guide' space' []).
  { unfold file. rewrite app_nil_r. exact Hdata. }
  destruct (file_view Hash h1 n' Hn' Hkl1 Hvl1 eq_refl eq_refl Hseed' Hitem1 Hfit1
              guide' space' [] es' HT1 Hnsep)
    as (v & Hview2 & Vt & Vk & Vv & Vs & Vi & Vl & Vn & Vg & Vc & Ve & Vse).
  assert (Hh : Hashtable_load (Some (sk_data out')) = mkHashtable (Some (sk_data out')) v)
    by (unfold Hashtable_load; rewrite Hfile; now rewrite Hview2).
  cbv zeta. rewrite Hh. cbn [m_view Hashtable_not m_data].
  assert (Hsearch : forall e, In e es' ->
            exists p, bytes_at (sk_data out') p (Z.to_nat vl) = snd e /\
              forall b fuel', bytes_at b 0 (Z.to_nat kl) = fst e ->
                (Z.to_nat n' <= fuel')%nat ->
                search Hash fuel' (mkHashtable (Some (sk_data out')) v) (Some b)
                = Some (mkSlice (Some p) vl)).
  { intros e He.
    destruct (Search_entry Hash h1 n' Hn' Hkl1 Hvl1 eq_refl eq_refl Hseed' Hitem1 Hfit1
                guide' space' [] es' HT1 Hnsep v Hview2 e He) as (i & Hi & Hval & HS).
    exists (64 + 64 * n' + i * (kl + vl) + kl). split.
    { rewrite Hfile. exact Hval. }
    intros b fuel' Hb Hfuel2. unfold search. cbn [Hashtable_not m_data].
    unfold Hashtable_pack, Hashtable_mem. cbn [m_view m_data]. rewrite Hfile.
    rewrite (HS b fuel' Hb Hfuel2). rewrite Vt, Vv.
    cbn [h1 with_item h' h_type h_val_len h_key_len].
    unfold KV_SEPARATED, KEY_SET, KV_INLINE in *.
    destruct Htype as [->| ->]; reflexivity. }
  destruct Hg as (addedp & Hadd & _ & _ & Hfromp & Hkeys). rewrite app_nil_r in Hadd.
  subst addedp.
  split; [reflexivity|]. split; [repeat split; assumption|]. split; [exact Hwf|].
  split; [|split; [|split]].
  - rewrite Vi. change (h_item h1) with (Z.of_nat (length es')). f_equal.
    transitivity (length (map fst es')); [symmetry; apply length_map|].
    apply FixedBuildFacts.distinct_count; [exact (tb_nodup _ _ _ _ _ _ HT)|].
    intros k. split.
    + intros Hk. apply in_map_iff in Hk. destruct Hk as (e & <- & He).
      apply in_or_app. apply in_app_or in He. destruct He as [He|He].
      * right. apply in_map. now apply Hfrom.
      * left. destruct (Hfromp e He) as (r & Hr & ->). apply in_map_iff.
        exists r. now split.
    + intros Hk. apply in_app_or in Hk. destruct Hk as [Hk|Hk].
      * apply in_map_iff in Hk. destruct Hk as (r & <- & Hr). unfold es'.
        rewrite map_app. apply in_or_app. right. now apply Hkeys.
      * apply in_map_iff in Hk. destruct Hk as (e & <- & He). now apply Hcov.
  - intros r Hr. specialize (Hkeys r Hr). apply in_map_iff in Hkeys.
    destruct Hkeys as (e & He & Hine).
    destruct (Hfromp e Hine) as (r' & Hr' & ->). cbn [entry_of fst] in He.
    destruct (Hsearch (entry_of h' r') ltac:(apply in_or_app; right; exact Hine))
      as (p & Hval & HS).
    exists r', p. split; [exact Hr'|]. split; [exact He|]. split; [exact Hval|].
    intros b fuel' Hb Hfuel2. apply HS; [|exact Hfuel2]. cbn [entry_of fst].
    now rewrite He.
  - intros e He Hnot.
    destruct (Hsearch e) as (p & Hval & HS); [|exists p; split; [exact Hval|exact HS]].
    pose proof (Hcov e He) as Hk. apply in_map_iff in Hk. destruct Hk as (e1 & Hk1 & Hin1).
    apply in_app_or in Hin1. destruct Hin1 as [Hin1|Hin1].
    + assert (e1 = e); [|subst e1; apply in_or_app; now left].
      apply (VariedBuildFacts.NoDup_map_eq fst es_b e1 e (tb_nodup _ _ _ _ _ _ HTb) (Hfrom e1 Hin1) He Hk1).
    + exfalso. destruct (Hfromp e1 Hin1) as (r & Hr & ->). now apply (Hnot r Hr).
  - intros b fuel' Hfuel2 Hnp Hnb'. unfold search. cbn [Hashtable_not m_data].
    unfold Hashtable_pack, Hashtable_mem. cbn [m_view m_data]. rewrite Hfile.
    rewrite (Search_absent Hash h1 n' Hn' Hkl1 Hvl1 eq_refl eq_refl Hseed' Hitem1 Hfit1
               guide' space' [] es' HT1 Hnsep v Hview2 b fuel'); try reflexivity;
      try assumption.
    intros Hin. apply in_map_iff in Hin. destruct Hin as (e & He & Hine).
    apply in_app_or in Hine. destruct Hine as [Hine|Hine].
    + apply Hnb'. change (h_key_len h1) with kl in He. rewrite <- He. apply in_map.
      now apply Hfrom.
    + destruct (Hfromp e Hine) as (r & Hr & ->). apply (Hnp r Hr). exact He.
Qed.

End Rebuild.

(** [CalcSetCnt] written out: it grows with the number of items. *)
Lemma CalcSetCnt_value item : 0 <= item < 2 ^ 57 ->
  CalcSetCnt item = 2 * ((item + (item + 15) / 16 + 63) / 64 / 2) + 1.
Proof.
  intros Hi. unfold CalcSetCnt, RESERVE_FACTOR. change (16 - 1) with 15.
  rewrite (DivisorFacts.wrap64_small (item + 15)) by lia.
  assert (Hres : item <= 16 * ((item + 15) / 16) < item + 16).
  { pose proof (Z.div_mod (item + 15) 16 ltac:(lia)).
    pose proof (Z.mod_pos_bound (item + 15) 16 ltac:(lia)). lia. }
  rewrite (DivisorFacts.wrap64_small (item + (item + 15) / 16 + 63)) by lia.
  set (x := (item + (item + 15) / 16 + 63) / 64).
  assert (Hx : item + (item + 15) / 16 <= 64 * x < item + (item + 15) / 16 + 64).
  { subst x. pose proof (Z.div_mod (item + (item + 15) / 16 + 63) 64 ltac:(lia)).
    pose proof (Z.mod_pos_bound (item + (item + 15) / 16 + 63) 64 ltac:(lia)). lia. }
  rewrite clear_low_bit by lia.
  pose proof (Z.div_mod x 2 ltac:(lia)) as Hx2.
  pose proof (Z.mod_pos_bound x 2 ltac:(lia)) as Hx2'.
  rewrite DivisorFacts.wrap64_small by lia. reflexivity.
Qed.

Lemma CalcSetCnt_mono a b : 0 <= a <= b -> b < 2 ^ 57 -> CalcSetCnt a <= CalcSetCnt b.
Proof.
  intros Ha Hb. rewrite !CalcSetCnt_value by lia.
  assert (H1 : (a + 15) / 16 <= (b + 15) / 16) by (apply Z.div_le_mono; lia).
  assert (H2 : (a + (a + 15) / 16 + 63) / 64 <= (b + (b + 15) / 16 + 63) / 64)
    by (apply Z.div_le_mono; lia).
  pose proof (Z.div_le_mono _ _ 2 ltac:(lia) H2) as H3. lia.
Qed.

(** A table built by [BuildWithFixedSizeValue], loaded, and a second one
    derived from it with the records of [patch_readers]. *)
Section Derive.

Variable Hash : list Z -> Z -> Z -> Z.
Variable fuel : nat.
Variables seed0 seed1 type key_len val_len : Z.
Variables base_readers patch_readers : list ListReader.
Variables room0 room1 : Z.
Variables out0 out1 : Sink.

Let olds := BuildFacts.all_items base_readers.
Let news := BuildFacts.all_items patch_readers.
Let n0 := CalcSetCnt (Z.of_nat (length olds)).
Let bound := CalcSetCnt (Z.of_nat (length olds) + Z.of_nat (length news)).
Let header := mkHeader SSHT_MAGIC type key_len val_len seed0 0 n0.

Hypothesis Hne : base_readers <> [].
Hypothesis Hkl : 1 <= key_len <= 255.
Hypothesis Hvl : 0 <= val_len < 2 ^ 16.
Hypothesis Holds : 1 <= Z.of_nat (length olds).
Hypothesis Hsize : Z.of_nat (length olds) + Z.of_nat (length news) < 2 ^ 40.
Hypothesis Hfuel : (Z.to_nat bound <= fuel)%nat.
Hypothesis Hseed0 : 0 <= seed0 < 2 ^ 64.
Hypothesis Hseed1 : 0 <= seed1 < 2 ^ 64.
Hypothesis Htype : type = KEY_SET \/ (type = KV_INLINE /\ 0 < val_len).
Hypothesis Hbuild :
  BuildWithFixedSizeValue Hash fuel seed0 type key_len val_len base_readers
    (mkSink [] room0)
  = Done (BUILD_STATUS_OK, out0).
Hypothesis Hderive :
  derive Hash fuel seed1 (Hashtable_load (Some (sk_data out0))) patch_readers
    (mkSink [] room1)
  = Done (BUILD_STATUS_OK, out1).

Lemma derive_lookup :
  let h := Hashtable_load (Some (sk_data out0)) in
  let h1 := Hashtable_load (Some (sk_data out1)) in
  (v_key_len (m_view h) = key_len /\ v_val_len (m_view h) = val_len) /\
  Hashtable_not h1 = false /\
  (v_type (m_view h1) = type /\ v_key_len (m_view h1) = key_len /\
   v_val_len (m_view h1) = val_len) /\
  Forall (wellformed header) news /\
  v_item (m_view h1)
  = Z.of_nat (length (nodup (list_eq_dec Z.eq_dec)
                            (map (key_of header) (news ++ olds)))) /\
  (forall r, In r news ->
     exists r' p, In r' news /\ key_of header r' = key_of header r /\
       bytes_at (sk_data out1) p (Z.to_nat val_len) = value_of header r' /\
       forall b fuel', bytes_at b 0 (Z.to_nat key_len) = key_of header r ->
         (Z.to_nat bound <= fuel')%nat ->
         search Hash fuel' h1 (Some b) = Some (mkSlice (Some p) val_len)) /\
  (forall b fuel', (Z.to_nat bound <= fuel')%nat ->
     (forall r, In r news -> key_of header r <> bytes_at b 0 (Z.to_nat key_len)) ->
     ((forall r, In r olds -> key_of header r <> bytes_at b 0 (Z.to_nat key_len)) /\
      search Hash fuel' h (Some b) = Some null_slice /\
      search Hash fuel' h1 (Some b) = Some null_slice) \/
     (exists r p0 p1, In r olds /\
        key_of header r = bytes_at b 0 (Z.to_nat key_len) /\
        search Hash fuel' h (Some b) = Some (mkSlice (Some p0) val_len) /\
        search Hash fuel' h1 (Some b) = Some (mkSlice (Some p1) val_len) /\
        bytes_at (sk_data out0) p0 (Z.to_nat val_len) = value_of header r /\
        bytes_at (sk_data out1) p1 (Z.to_nat val_len) = value_of header r)).
Proof.
  assert (Hb0 : n0 <= bound).
  { apply CalcSetCnt_mono; lia. }
  assert (Hfuel0 : (Z.to_nat n0 <= fuel)%nat) by lia.
  destruct (BuildWithFixedSizeValue_spec Hash fuel seed0 type key_len val_len base_readers
              (mkSink [] room0) Hne Hkl Hvl ltac:(fold olds; lia) Hfuel0)
    as (status & out' & Hrun & Hspec).
  rewrite Hbuild in Hrun. injection Hrun as <- <-.
  destruct Hspec as (Hall & _ & guide & space & es & HT & Hg & Hdata).
  fold olds n0 header in Hall, HT, Hg, Hdata. cbn [sk_data app] in Hdata.
  pose proof (BuildFacts.CalcSetCnt_range (Z.of_nat (length olds)) ltac:(lia)) as Hn.
  destruct (TerminationFacts.CalcSetCnt_slack (Z.of_nat (length olds)) ltac:(lia))
    as (_ & Hslack & _).
  fold n0 in Hn, Hslack.
  destruct Hg as (added & Hadd & _ & Hes & Hfrom & Hkeys). rewrite app_nil_r in Hadd.
  subst added.
  set (h1 := with_item header (Z.of_nat (length es))) in *.
  assert (Hitem1 : 0 <= h_item h1 < 2 ^ 64) by (cbn [h1 with_item h_item]; lia).
  assert (Hfit : LoaderFacts.lengths_fit_type h1).
  { unfold LoaderFacts.lengths_fit_type. cbn [h1 with_item header h_type h_key_len h_val_len].
    destruct Htype as [->|[-> Hv]]; [left|right; left]; repeat split; lia. }
  assert (Hnsep : h_type h1 = KV_SEPARATED -> 64 * n0 <= Z.of_nat (length (@nil Z))).
  { cbn [h1 with_item header h_type]. unfold KV_SEPARATED, KEY_SET, KV_INLINE in *.
    destruct Htype as [->|[-> _]]; discriminate. }
  assert (Htype1 : h_type h1 = KEY_SET \/ h_type h1 = KV_INLINE).
  { cbn [h1 with_item header h_type]. destruct Htype as [->|[-> _]]; [now left|now right]. }
  pose proof (FixedBuildFacts.Table_with_item Hash header n0 (Z.of_nat (length es)) guide
                space es HT) as HT1.
  fold h1 in HT1.
  assert (Hfile : sk_data out0 = file h1 guide space []).
  { unfold file. rewrite app_nil_r. exact Hdata. }
  destruct (file_view Hash h1 n0 Hn Hkl Hvl eq_refl eq_refl Hseed0 Hitem1 Hfit
              guide space [] es HT1 Hnsep)
    as (v & Hview & Vt & Vk & Vv & Vs & Vi & Vl & Vn & Vg & Vc & Ve & Vse).
  assert (Hh : Hashtable_load (Some (sk_data out0)) = mkHashtable (Some (sk_data out0)) v)
    by (unfold Hashtable_load; rewrite Hfile; now rewrite Hview).
  assert (Hrun : RebuildWithFixedSizeValue Hash fuel seed1
                   (mkPack v (file h1 guide space [])) patch_readers (mkSink [] room1)
                 = Done (BUILD_STATUS_OK, out1)).
  { revert Hderive. rewrite Hh. unfold derive. cbn [Hashtable_not m_data m_view orb].
    destruct patch_readers as [|front rest]; [discriminate|].
    rewrite Vt. cbn [h1 with_item header h_type].
    unfold Hashtable_pack, Hashtable_mem. cbn [m_data m_view]. rewrite Hfile.
    destruct Htype as [->|[-> _]]; intros Hd; exact Hd. }
  pose proof (hits_range key_len (map fst es) news) as Hhits.
  set (total := Z.of_nat (length news) + Z.of_nat (length es) - hits key_len (map fst es) news)
    in *.
  assert (Hb1 : CalcSetCnt total <= bound).
  { apply CalcSetCnt_mono; unfold total; lia. }
  pose proof (Rebuild_lookup Hash h1 n0 Hn Hkl Hvl eq_refl eq_refl Hseed0 Htype1 Hfit
                guide space [] es HT1 eq_refl ltac:(lia) v Hview patch_readers seed1 fuel
                (mkSink [] room1) out1 ltac:(fold news; lia) Hfuel0
                ltac:(fold news; cbn [h1 with_item header h_key_len]; fold total; lia)
                Hrun Hseed1 eq_refl) as HR.
  cbv zeta in HR. fold news in HR.
  cbn [h1 with_item header h_key_len h_val_len h_type] in HR. fold total in HR.
  destruct HR as (Hnot & Hlens & Hwf & Hcount & Hnew & Hbase & Habsent).
  cbv zeta. split; [rewrite Hh; cbn [m_view]; split; [exact Vk|exact Vv]|].
  split; [exact Hnot|]. split; [exact Hlens|]. split; [exact Hwf|].
  split; [|split].
  - rewrite Hcount. f_equal. apply Permutation_length. apply NoDup_Permutation.
    + apply NoDup_nodup.
    + apply NoDup_nodup.
    + intros k. rewrite !nodup_In, map_app, !in_app_iff.
      split; (intros [Hk|Hk]; [left; exact Hk|right]).
      * apply in_map_iff in Hk. destruct Hk as (e & <- & He).
        destruct (Hfrom e He) as (r & Hr & ->). apply in_map_iff. exists r. now split.
      * apply in_map_iff in Hk. destruct Hk as (r & <- & Hr). now apply Hkeys.
  - intros r Hr. destruct (Hnew r Hr) as (r' & p & Hr' & Hk & Hval & HS).
    exists r', p. split; [exact Hr'|]. split; [exact Hk|]. split; [exact Hval|].
    intros b fuel' Hb Hfuel2. apply HS; [exact Hb|lia].
  - intros b fuel' Hfuel2 Hnp.
    destruct (in_dec (list_eq_dec Z.eq_dec) (bytes_at b 0 (Z.to_nat key_len)) (map fst es))
      as [Hin|Hnin].
    + right. apply in_map_iff in Hin. destruct Hin as (e & He & Hine).
      destruct (Hfrom e Hine) as (r & Hr & ->). cbn [entry_of fst] in He.
      destruct (Search_entry Hash h1 n0 Hn Hkl Hvl eq_refl eq_refl Hseed0 Hitem1 Hfit
                  guide space [] es HT1 Hnsep v Hview (entry_of header r) Hine)
        as (i & Hi & Hval0 & HS0).
      destruct (Hbase (entry_of header r) Hine) as (p1 & Hval1 & HS1).
      { intros r1 Hr1 Heq. apply (Hnp r1 Hr1). rewrite <- He. exact Heq. }
      exists r, (64 + 64 * n0 + i * (key_len + val_len) + key_len), p1.
      split; [exact Hr|]. split; [exact He|]. split; [|split; [|split]].
      * rewrite Hh. unfold search. cbn [Hashtable_not m_data].
        unfold Hashtable_pack, Hashtable_mem. cbn [m_view m_data]. rewrite Hfile.
        rewrite (HS0 b fuel' (eq_sym He) ltac:(lia)). rewrite Vt, Vv.
        cbn [h1 with_item header h_type h_val_len h_key_len].
        unfold KV_SEPARATED, KEY_SET, KV_INLINE in *.
        destruct Htype as [->|[-> _]]; reflexivity.
      * apply HS1; [exact (eq_sym He)|lia].
      * rewrite Hfile. exact Hval0.
      * exact Hval1.
    + left. split; [|split].
      * intros r Hr Heq. apply Hnin. rewrite <- Heq. now apply Hkeys.
      * rewrite Hh. unfold search. cbn [Hashtable_not m_data].
        unfold Hashtable_pack, Hashtable_mem. cbn [m_view m_data]. rewrite Hfile.
        rewrite (Search_absent Hash h1 n0 Hn Hkl Hvl eq_refl eq_refl Hseed0 Hitem1 Hfit
                   guide space [] es HT1 Hnsep v Hview b fuel' Hnin ltac:(lia) ltac:(lia)).
        reflexivity.
      * apply Habsent; [lia|exact Hnp|exact Hnin].
Qed.

End Derive.

Lemma hits_ext key_len K K' recs :
  (forall k, In k K <-> In k K') -> hits key_len K recs = hits key_len K' recs.
Proof.
  intros HK. unfold hits. f_equal. f_equal. apply filter_ext. intros r.
  unfold inb.
  destruct (in_dec (list_eq_dec Z.eq_dec) (slice_bytes (key r) key_len) K) as [H|H],
           (in_dec (list_eq_dec Z.eq_dec) (slice_bytes (key r) key_len) K') as [H'|H'];
    try reflexivity; exfalso; [apply H'|apply H]; now apply HK.
Qed.

(** How [derive] ends on a table built by [BuildWithFixedSizeValue]. *)
Section DeriveStatus.

Variable Hash : list Z -> Z -> Z -> Z.
Variable fuel : nat.
Variables seed0 seed1 type key_len val_len : Z.
Variables base_readers patch_readers : list ListReader.
Variable room0 : Z.
Variables out0 out : Sink.

Let olds := BuildFacts.all_items base_readers.
Let news := BuildFacts.all_items patch_readers.
Let n0 := CalcSetCnt (Z.of_nat (length olds)).
Let bound := CalcSetCnt (Z.of_nat (length olds) + Z.of_nat (length news)).
Let header := mkHeader SSHT_MAGIC type key_len val_len seed0 0 n0.
Let kept := hits key_len (map (key_of header) olds) news.
Let item0 :=
  Z.of_nat (length (nodup (list_eq_dec Z.eq_dec) (map (key_of header) olds))).
Let n1 := CalcSetCnt (Z.of_nat (length news) + item0 - kept).
Let size := 64 + 64 * n1 + 64 * n1 * (key_len + val_len).

Hypothesis Hne : base_readers <> [].
Hypothesis Hpatch : patch_readers <> [].
Hypothesis Hkl : 1 <= key_len <= 255.
Hypothesis Hvl : 0 <= val_len < 2 ^ 16.
Hypothesis Holds : 1 <= Z.of_nat (length olds).
Hypothesis Hsize : Z.of_nat (length olds) + Z.of_nat (length news) < 2 ^ 40.
Hypothesis Hfuel : (Z.to_nat bound <= fuel)%nat.
Hypothesis Hseed0 : 0 <= seed0 < 2 ^ 64.
Hypothesis Htype : type = KEY_SET \/ (type = KV_INLINE /\ 0 < val_len).
Hypothesis Hbuild :
  BuildWithFixedSizeValue Hash fuel seed0 type key_len val_len base_readers
    (mkSink [] room0)
  = Done (BUILD_STATUS_OK, out0).

Lemma derive_outcome :
  (v_key_len (m_view (Hashtable_load (Some (sk_data out0)))) = key_len /\
   v_val_len (m_view (Hashtable_load (Some (sk_data out0)))) = val_len /\
   v_item (m_view (Hashtable_load (Some (sk_data out0)))) = item0) /\
  match derive Hash fuel seed1 (Hashtable_load (Some (sk_data out0))) patch_readers out with
  | Done (BUILD_STATUS_BAD_INPUT, out1) =>
      out1 = out /\
      (~ Forall (keyed key_len) news \/
       (kept <= item0 /\ ~ Forall (wellformed header) news))
  | Done (BUILD_STATUS_FAIL_TO_OUTPUT, out1) =>
      kept <= item0 /\ Forall (wellformed header) news /\ sk_room out < size
  | Done (BUILD_STATUS_OK, out1) =>
      kept <= item0 /\ Forall (wellformed header) news /\ size <= sk_room out /\
      Z.of_nat (length (sk_data out1)) = Z.of_nat (length (sk_data out)) + size
  | Throw e => e = InternalException /\ Forall (keyed key_len) news /\ item0 < kept
  | Hang => False
  end.
Proof.
  assert (Hb0 : n0 <= bound).
  { apply CalcSetCnt_mono; lia. }
  assert (Hfuel0 : (Z.to_nat n0 <= fuel)%nat) by lia.
  destruct (BuildWithFixedSizeValue_spec Hash fuel seed0 type key_len val_len base_readers
              (mkSink [] room0) Hne Hkl Hvl ltac:(fold olds; lia) Hfuel0)
    as (status & out' & Hrun & Hspec).
  rewrite Hbuild in Hrun. injection Hrun as <- <-.
  destruct Hspec as (Hall & _ & guide & space & es & HT & Hg & Hdata).
  fold olds n0 header in Hall, HT, Hg, Hdata. cbn [sk_data app] in Hdata.
  pose proof (BuildFacts.CalcSetCnt_range (Z.of_nat (length olds)) ltac:(lia)) as Hn.
  destruct (TerminationFacts.CalcSetCnt_slack (Z.of_nat (length olds)) ltac:(lia))
    as (_ & Hslack & _).
  fold n0 in Hn, Hslack.
  destruct Hg as (added & Hadd & _ & Hes & Hfrom & Hkeys). rewrite app_nil_r in Hadd.
  subst added.
  set (h1 := with_item header (Z.of_nat (length es))) in *.
  assert (Hitem1 : 0 <= h_item h1 < 2 ^ 64) by (cbn [h1 with_item h_item]; lia).
  assert (Hfit : LoaderFacts.lengths_fit_type h1).
  { unfold LoaderFacts.lengths_fit_type. cbn [h1 with_item header h_type h_key_len h_val_len].
    destruct Htype as [->|[-> Hv]]; [left|right; left]; repeat split; lia. }
  assert (Hnsep : h_type h1 = KV_SEPARATED -> 64 * n0 <= Z.of_nat (length (@nil Z))).
  { cbn [h1 with_item header h_type]. unfold KV_SEPARATED, KEY_SET, KV_INLINE in *.
    destruct Htype as [->|[-> _]]; discriminate. }
  assert (Htype1 : h_type h1 = KEY_SET \/ h_type h1 = KV_INLINE).
  { cbn [h1 with_item header h_type]. destruct Htype as [->|[-> _]]; [now left|now right]. }
  pose proof (FixedBuildFacts.Table_with_item Hash header n0 (Z.of_nat (length es)) guide
                space es HT) as HT1.
  fold h1 in HT1.
  assert (Hfile : sk_data out0 = file h1 guide space []).
  { unfold file. rewrite app_nil_r. exact Hdata. }
  destruct (file_view Hash h1 n0 Hn Hkl Hvl eq_refl eq_refl Hseed0 Hitem1 Hfit
              guide space [] es HT1 Hnsep)
    as (v & Hview & Vt & Vk & Vv & Vs & Vi & Vl & Vn & Vg & Vc & Ve & Vse).
  assert (Hh : Hashtable_load (Some (sk_data out0)) = mkHashtable (Some (sk_data out0)) v)
    by (unfold Hashtable_load; rewrite Hfile; now rewrite Hview).
  assert (Hmem : forall k, In k (map fst es) <-> In k (map (key_of header) olds)).
  { intros k. split; intros Hk; apply in_map_iff in Hk.
    - destruct Hk as (e & <- & He). destruct (Hfrom e He) as (r & Hr & ->).
      apply in_map_iff. exists r. now split.
    - destruct Hk as (r & <- & Hr). now apply Hkeys. }
  assert (Hitem0 : Z.of_nat (length es) = item0).
  { unfold item0. f_equal. transitivity (length (map fst es)); [symmetry; apply length_map|].
    apply FixedBuildFacts.distinct_count; [exact (tb_nodup _ _ _ _ _ _ HT)|exact Hmem]. }
  assert (Hkept : hits key_len (map fst es) news = kept).
  { unfold kept. apply hits_ext. exact Hmem. }
  split.
  { rewrite Hh. cbn [m_view]. split; [exact Vk|]. split; [exact Vv|].
    rewrite Vi. exact Hitem0. }
  assert (Hd : derive Hash fuel seed1 (Hashtable_load (Some (sk_data out0))) patch_readers out
               = RebuildWithFixedSizeValue Hash fuel seed1
                   (mkPack v (file h1 guide space [])) patch_readers out).
  { rewrite Hh. unfold derive. cbn [Hashtable_not m_data m_view orb].
    destruct patch_readers as [|front rest]; [congruence|].
    rewrite Vt. cbn [h1 with_item header h_type].
    unfold Hashtable_pack, Hashtable_mem. cbn [m_data m_view]. rewrite Hfile.
    destruct Htype as [->|[-> _]]; reflexivity. }
  rewrite Hd.
  pose proof (hits_range key_len (map fst es) news) as Hhits.
  pose proof (Rebuild_spec Hash h1 n0 Hn Hkl Hvl eq_refl eq_refl Hseed0 Htype1 Hfit
                guide space [] es HT1 eq_refl ltac:(lia) v Hview patch_readers seed1 fuel
                out ltac:(fold news; lia) Hfuel0) as HR.
  fold news in HR. cbn [h1 with_item header h_key_len h_val_len h_type] in HR.
  rewrite Hkept, Hitem0 in HR. fold n1 in HR. fold size in HR.
  assert (Hb1 : n1 <= bound).
  { apply CalcSetCnt_mono; unfold n1; lia. }
  specialize (HR ltac:(lia) Hpatch).
  destruct (RebuildWithFixedSizeValue Hash fuel seed1 (mkPack v (file h1 guide space []))
              patch_readers out) as [[[| |] out1]|e|].
  - destruct HR as (Hn1 & Hle & Hwf & Hsz & guide' & space' & es_p & added' & HT' & _ & _ & _
                    & _ & Hout).
    split; [exact Hle|]. split; [exact Hwf|]. split; [exact Hsz|].
    rewrite Hout, !length_app, !Nat2Z.inj_add, Header_bytes_length.
    rewrite (tb_guide_len _ _ _ _ _ _ HT'), (tb_space_len _ _ _ _ _ _ HT').
    cbn [h_key_len h_val_len]. unfold size. change (Z.of_nat 64) with 64. lia.
  - destruct HR as (-> & [Hk|(Hle & Hw)]).
    + split; [reflexivity|]. left. exact Hk.
    + split; [reflexivity|]. right. split; [exact Hle|exact Hw].
  - destruct HR as (Hle & Hwf & Hsz). split; [exact Hle|]. split; [exact Hwf|exact Hsz].
  - destruct HR as (-> & Hk & Hlt). split; [reflexivity|]. split; [exact Hk|exact Hlt].
  - exact HR.
Qed.

End DeriveStatus.

(** A dictionary built by [BuildDict] and one derived from it. *)
Lemma BuildDict_derive Hash fuel seed0 seed1 (base_readers patch_readers : list ListReader)
    room0 room1 out0 out1 :
  let olds := BuildFacts.all_items base_readers in
  let news := BuildFacts.all_items patch_readers in
  let bound := CalcSetCnt (Z.of_nat (length olds) + Z.of_nat (length news)) in
  Z.of_nat (length olds) + Z.of_nat (length news) < 2 ^ 40 ->
  Forall (fun r => 0 <= len (key r) /\ 0 <= len (val r)) olds ->
  0 <= seed0 < 2 ^ 64 -> 0 <= seed1 < 2 ^ 64 -> (Z.to_nat bound <= fuel)%nat ->
  BuildDict Hash fuel seed0 base_readers (mkSink [] room0) = Done (BUILD_STATUS_OK, out0) ->
  let h := Hashtable_load (Some (sk_data out0)) in
  derive Hash fuel seed1 h patch_readers (mkSink [] room1) = Done (BUILD_STATUS_OK, out1) ->
  let h1 := Hashtable_load (Some (sk_data out1)) in
  let kl := v_key_len (m_view h) in
  let vl := v_val_len (m_view h) in
  Hashtable_not h1 = false /\
  (v_type (m_view h1) = KV_INLINE /\ v_key_len (m_view h1) = kl /\
   v_val_len (m_view h1) = vl) /\
  Forall (fun r => len (key r) = kl /\ len (val r) = vl /\
                   ptr (key r) <> None /\ ptr (val r) <> None) news /\
  v_item (m_view h1)
  = Z.of_nat (length (nodup (list_eq_dec Z.eq_dec)
                            (map (fun r => slice_bytes (key r) kl) (news ++ olds)))) /\
  (forall r, In r news ->
     exists r' p, In r' news /\ slice_bytes (key r') kl = slice_bytes (key r) kl /\
       bytes_at (sk_data out1) p (Z.to_nat vl) = slice_bytes (val r') vl /\
       forall b fuel', bytes_at b 0 (Z.to_nat kl) = slice_bytes (key r) kl ->
         (Z.to_nat bound <= fuel')%nat ->
         search Hash fuel' h1 (Some b) = Some (mkSlice (Some p) vl)) /\
  (forall b fuel', (Z.to_nat bound <= fuel')%nat ->
     (forall r, In r news -> slice_bytes (key r) kl <> bytes_at b 0 (Z.to_nat kl)) ->
     (search Hash fuel' h (Some b) = Some null_slice /\
      search Hash fuel' h1 (Some b) = Some null_slice) \/
     (exists p0 p1,
        search Hash fuel' h (Some b) = Some (mkSlice (Some p0) vl) /\
        search Hash fuel' h1 (Some b) = Some (mkSlice (Some p1) vl) /\
        bytes_at (sk_data out1) p1 (Z.to_nat vl)
        = bytes_at (sk_data out0) p0 (Z.to_nat vl))).
Proof.
  intros olds news bound Hsize Hpos Hseed0 Hseed1 Hfuel. unfold BuildDict.
  destruct base_readers as [|front rest]; [discriminate|].
  rewrite FixedBuildFacts.DetectKeyValueLen_ListReader. cbv zeta.
  set (rec0 := nth (lr_pos front) (lr_items front) null_rec).
  destruct (is_null (key rec0)) eqn:Enull; [discriminate|]. cbn [orb].
  destruct (Z.eqb_spec (len (key rec0)) 0) as [E0|E0]; [discriminate|]. cbn [orb].
  destruct (Z.gtb_spec (len (key rec0)) MAX_KEY_LEN) as [Emax|Emax]; [discriminate|].
  destruct (is_null (val rec0)) eqn:Evnull; [discriminate|]. cbn [orb].
  destruct (Z.eqb_spec (len (val rec0)) 0) as [V0|V0]; [discriminate|]. cbn [orb].
  destruct (Z.gtb_spec (len (val rec0)) MAX_INLINE_VALUE_LEN) as [Vmax|Vmax];
    [discriminate|].
  cbn [bind].
  assert (Hrec0 : In rec0 olds).
  { unfold olds, BuildFacts.all_items. cbn [flat_map]. apply in_or_app. left.
    now apply FixedBuildFacts.nth_not_null. }
  assert (Hpos0 : 0 <= len (key rec0) /\ 0 <= len (val rec0)).
  { rewrite Forall_forall in Hpos. now apply Hpos. }
  unfold MAX_KEY_LEN in Emax. unfold MAX_INLINE_VALUE_LEN in Vmax.
  rewrite (BufferFacts.wrap8_small (len (key rec0))) by lia.
  unfold wrap16. rewrite (Z.mod_small (len (val rec0))) by lia.
  set (key_len := len (key rec0)). set (val_len := len (val rec0)).
  intros Hbuild Hderive.
  assert (Holds : 1 <= Z.of_nat (length olds)).
  { destruct olds; [destruct Hrec0|cbn [length]; lia]. }
  destruct (derive_lookup Hash fuel seed0 seed1 KV_INLINE key_len val_len
              (mkListReader (lr_items front) 0 :: rest) patch_readers room0 room1 out0 out1
              ltac:(discriminate) ltac:(unfold key_len; lia) ltac:(unfold val_len; lia)
              Holds Hsize Hfuel Hseed0 Hseed1
              ltac:(right; split; [reflexivity|unfold val_len; lia]) Hbuild Hderive)
    as ((Bk & Bv) & Hnot & (Vt & Vk & Vv) & Hwf & Hcount & Hnew & Hkeep).
  change (BuildFacts.all_items (mkListReader (lr_items front) 0 :: rest)) with olds
    in Hwf, Hcount, Hnew, Hkeep.
  fold news bound in Hwf, Hcount, Hnew, Hkeep.
  set (h := Hashtable_load (Some (sk_data out0))) in *.
  set (h1 := Hashtable_load (Some (sk_data out1))) in *.
  cbv zeta. rewrite Bk, Bv.
  set (header := mkHeader SSHT_MAGIC KV_INLINE key_len val_len seed0 0
                   (CalcSetCnt (Z.of_nat (length olds)))) in *.
  assert (Hvalue : forall r, value_of header r = slice_bytes (val r) val_len).
  { intros r. unfold value_of. cbn [header h_val_len].
    destruct (Z.eqb_spec val_len 0); [unfold val_len in *; lia|reflexivity]. }
  split; [exact Hnot|]. split; [repeat split; assumption|].
  split; [|split; [exact Hcount|split]].
  - rewrite Forall_forall in Hwf |- *. intros r Hr.
    destruct (wellformed_spec header r (Hwf r Hr)) as ([b Hb] & Hkl & Hv).
    cbn [header h_key_len h_val_len] in Hkl, Hv.
    destruct (Hv ltac:(unfold val_len; lia)) as ([vb Hvb] & Hvl).
    repeat split; try assumption; congruence.
  - intros r Hr. destruct (Hnew r Hr) as (r' & p & Hr' & Hk & Hval & HS).
    exists r', p. rewrite Hvalue in Hval. repeat split; assumption.
  - intros b fuel' Hfuel2 Hnp.
    destruct (Hkeep b fuel' Hfuel2 Hnp) as [(_ & H0 & H1)|(r & p0 & p1 & _ & _ & H0 & H1 & V0' & V1)].
    + left. split; [exact H0|exact H1].
    + right. exists p0, p1. split; [exact H0|]. split; [exact H1|].
      rewrite V1. symmetry. exact V0'.
Qed.

(** A key set built by [BuildSet] and one derived from it. *)
Lemma BuildSet_derive Hash fuel seed0 seed1 (base_readers patch_readers : list ListReader)
    room0 room1 out0 out1 :
  let olds := BuildFacts.all_items base_readers in
  let news := BuildFacts.all_items patch_readers in
  let bound := CalcSetCnt (Z.of_nat (length olds) + Z.of_nat (length news)) in
  Z.of_nat (length olds) + Z.of_nat (length news) < 2 ^ 40 ->
  Forall (fun r => 0 <= len (key r)) olds ->
  0 <= seed0 < 2 ^ 64 -> 0 <= seed1 < 2 ^ 64 -> (Z.to_nat bound <= fuel)%nat ->
  BuildSet Hash fuel seed0 base_readers (mkSink [] room0) = Done (BUILD_STATUS_OK, out0) ->
  let h := Hashtable_load (Some (sk_data out0)) in
  derive Hash fuel seed1 h patch_readers (mkSink [] room1) = Done (BUILD_STATUS_OK, out1) ->
  let h1 := Hashtable_load (Some (sk_data out1)) in
  let kl := v_key_len (m_view h) in
  Hashtable_not h1 = false /\
  (v_type (m_view h1) = KEY_SET /\ v_key_len (m_view h1) = kl /\
   v_val_len (m_view h1) = 0) /\
  Forall (fun r => len (key r) = kl /\ ptr (key r) <> None) news /\
  v_item (m_view h1)
  = Z.of_nat (length (nodup (list_eq_dec Z.eq_dec)
                            (map (fun r => slice_bytes (key r) kl) (news ++ olds)))) /\
  (forall b fuel', (Z.to_nat bound <= fuel')%nat ->
     exists s, search Hash fuel' h1 (Some b) = Some s /\ len s = 0 /\
       (ptr s <> None <->
        exists r, In r (news ++ olds) /\
          slice_bytes (key r) kl = bytes_at b 0 (Z.to_nat kl))).
Proof.
  intros olds news bound Hsize Hpos Hseed0 Hseed1 Hfuel. unfold BuildSet.
  destruct base_readers as [|front rest]; [discriminate|].
  rewrite FixedBuildFacts.DetectKeyValueLen_ListReader. cbv zeta.
  set (rec0 := nth (lr_pos front) (lr_items front) null_rec).
  destruct (is_null (key rec0)) eqn:Enull; [discriminate|]. cbn [orb].
  destruct (Z.eqb_spec (len (key rec0)) 0) as [E0|E0]; [discriminate|]. cbn [orb].
  destruct (Z.gtb_spec (len (key rec0)) MAX_KEY_LEN) as [Emax|Emax]; [discriminate|].
  cbn [bind].
  assert (Hrec0 : In rec0 olds).
  { unfold olds, BuildFacts.all_items. cbn [flat_map]. apply in_or_app. left.
    now apply FixedBuildFacts.nth_not_null. }
  assert (Hpos0 : 0 <= len (key rec0)).
  { rewrite Forall_forall in Hpos. now apply Hpos. }
  unfold MAX_KEY_LEN in Emax.
  rewrite (BufferFacts.wrap8_small (len (key rec0))) by lia.
  set (key_len := len (key rec0)).
  intros Hbuild Hderive.
  assert (Holds : 1 <= Z.of_nat (length olds)).
  { destruct olds; [destruct Hrec0|cbn [length]; lia]. }
  destruct (derive_lookup Hash fuel seed0 seed1 KEY_SET key_len 0
              (mkListReader (lr_items front) 0 :: rest) patch_readers room0 room1 out0 out1
              ltac:(discriminate) ltac:(unfold key_len; lia) ltac:(lia)
              Holds Hsize Hfuel Hseed0 Hseed1 ltac:(now left) Hbuild Hderive)
    as ((Bk & Bv) & Hnot & (Vt & Vk & Vv) & Hwf & Hcount & Hnew & Hkeep).
  change (BuildFacts.all_items (mkListReader (lr_items front) 0 :: rest)) with olds
    in Hwf, Hcount, Hnew, Hkeep.
  fold news bound in Hwf, Hcount, Hnew, Hkeep.
  set (h := Hashtable_load (Some (sk_data out0))) in *.
  set (h1 := Hashtable_load (Some (sk_data out1))) in *.
  cbv zeta. rewrite Bk.
  set (header := mkHeader SSHT_MAGIC KEY_SET key_len 0 seed0 0
                   (CalcSetCnt (Z.of_nat (length olds)))) in *.
  split; [exact Hnot|]. split; [repeat split; assumption|].
  split; [|split; [exact Hcount|]].
  - rewrite Forall_forall in Hwf |- *. intros r Hr.
    destruct (wellformed_spec header r (Hwf r Hr)) as ([b Hb] & Hkl & _).
    cbn [header h_key_len] in Hkl. split; [exact Hkl|congruence].
  - intros b fuel' Hfuel2.
    destruct (in_dec (list_eq_dec Z.eq_dec) (bytes_at b 0 (Z.to_nat key_len))
                     (map (fun r => slice_bytes (key r) key_len) news)) as [Hin|Hnin].
    + apply in_map_iff in Hin. destruct Hin as (r & Hk & Hr).
      destruct (Hnew r Hr) as (r' & p & _ & _ & _ & HS).
      exists (mkSlice (Some p) 0). split; [apply HS; [now symmetry|exact Hfuel2]|].
      split; [reflexivity|]. split; [|discriminate].
      intros _. exists r. split; [apply in_or_app; now left|exact Hk].
    + destruct (Hkeep b fuel' Hfuel2) as [(Hno & _ & H1)|(r & p0 & p1 & Hr & Hk & _ & H1 & _)].
      { intros r Hr Heq. apply Hnin. apply in_map_iff. exists r. now split. }
      * exists null_slice. split; [exact H1|]. split; [reflexivity|].
        split; [intros H; now contradiction H|].
        intros (r & Hr & Heq). exfalso. apply in_app_or in Hr. destruct Hr as [Hr|Hr].
        -- apply Hnin. apply in_map_iff. exists r. now split.
        -- now apply (Hno r Hr).
      * exists (mkSlice (Some p1) 0). split; [exact H1|]. split; [reflexivity|].
        split; [|discriminate]. intros _. exists r.
        split; [apply in_or_app; now right|exact Hk].
Qed.

(** How [derive] ends on a dictionary built by [BuildDict]. *)
Lemma BuildDict_derive_outcome Hash fuel seed0 seed1
    (base_readers patch_readers : list ListReader) room0 out0 (out : Sink) :
  let olds := BuildFacts.all_items base_readers in
  let news := BuildFacts.all_items patch_readers in
  let bound := CalcSetCnt (Z.of_nat (length olds) + Z.of_nat (length news)) in
  Z.of_nat (length olds) + Z.of_nat (length news) < 2 ^ 40 ->
  Forall (fun r => 0 <= len (key r) /\ 0 <= len (val r)) olds ->
  0 <= seed0 < 2 ^ 64 -> (Z.to_nat bound <= fuel)%nat ->
  patch_readers <> [] ->
  BuildDict Hash fuel seed0 base_readers (mkSink [] room0) = Done (BUILD_STATUS_OK, out0) ->
  let h := Hashtable_load (Some (sk_data out0)) in
  let kl := v_key_len (m_view h) in
  let vl := v_val_len (m_view h) in
  let keyed := Forall (fun r => ptr (key r) <> None /\ len (key r) = kl) news in
  let good :=
    Forall (fun r => ptr (key r) <> None /\ len (key r) = kl /\
                     ptr (val r) <> None /\ len (val r) = vl) news in
  let kept :=
    Z.of_nat (length (filter
      (fun r => if in_dec (list_eq_dec Z.eq_dec) (slice_bytes (key r) kl)
                          (map (fun o => slice_bytes (key o) kl) olds)
                then true else false) news)) in
  let n1 := CalcSetCnt (Z.of_nat (length news) + v_item (m_view h) - kept) in
  let size := 64 + 64 * n1 + 64 * n1 * (kl + vl) in
  match derive Hash fuel seed1 h patch_readers out with
  | Done (BUILD_STATUS_BAD_INPUT, out1) =>
      out1 = out /\ (~ keyed \/ (kept <= v_item (m_view h) /\ ~ good))
  | Done (BUILD_STATUS_FAIL_TO_OUTPUT, out1) =>
      kept <= v_item (m_view h) /\ good /\ sk_room out < size
  | Done (BUILD_STATUS_OK, out1) =>
      kept <= v_item (m_view h) /\ good /\ size <= sk_room out /\
      Z.of_nat (length (sk_data out1)) = Z.of_nat (length (sk_data out)) + size
  | Throw e => e = InternalException /\ keyed /\ v_item (m_view h) < kept
  | Hang => False
  end.
Proof.
  intros olds news bound Hsize Hpos Hseed0 Hfuel Hpatch. unfold BuildDict.
  destruct base_readers as [|front rest]; [discriminate|].
  rewrite FixedBuildFacts.DetectKeyValueLen_ListReader. cbv zeta.
  set (rec0 := nth (lr_pos front) (lr_items front) null_rec).
  destruct (is_null (key rec0)) eqn:Enull; [discriminate|]. cbn [orb].
  destruct (Z.eqb_spec (len (key rec0)) 0) as [E0|E0]; [discriminate|]. cbn [orb].
  destruct (Z.gtb_spec (len (key rec0)) MAX_KEY_LEN) as [Emax|Emax]; [discriminate|].
  destruct (is_null (val rec0)) eqn:Evnull; [discriminate|]. cbn [orb].
  destruct (Z.eqb_spec (len (val rec0)) 0) as [V0|V0]; [discriminate|]. cbn [orb].
  destruct (Z.gtb_spec (len (val rec0)) MAX_INLINE_VALUE_LEN) as [Vmax|Vmax];
    [discriminate|].
  cbn [bind].
  assert (Hrec0 : In rec0 olds).
  { unfold olds, BuildFacts.all_items. cbn [flat_map]. apply in_or_app. left.
    now apply FixedBuildFacts.nth_not_null. }
  assert (Hpos0 : 0 <= len (key rec0) /\ 0 <= len (val rec0)).
  { rewrite Forall_forall in Hpos. now apply Hpos. }
  unfold MAX_KEY_LEN in Emax. unfold MAX_INLINE_VALUE_LEN in Vmax.
  rewrite (BufferFacts.wrap8_small (len (key rec0))) by lia.
  unfold wrap16. rewrite (Z.mod_small (len (val rec0))) by lia.
  set (key_len := len (key rec0)). set (val_len := len (val rec0)).
  intros Hbuild.
  assert (Holds : 1 <= Z.of_nat (length olds)).
  { destruct olds; [destruct Hrec0|cbn [length]; lia]. }
  destruct (derive_outcome Hash fuel seed0 seed1 KV_INLINE key_len val_len
              (mkListReader (lr_items front) 0 :: rest) patch_readers room0 out0 out
              ltac:(discriminate) Hpatch ltac:(unfold key_len; lia) ltac:(unfold val_len; lia)
              Holds Hsize Hfuel Hseed0
              ltac:(right; split; [reflexivity|unfold val_len; lia]) Hbuild)
    as ((Bk & Bv & Bi) & Hout).
  change (BuildFacts.all_items (mkListReader (lr_items front) 0 :: rest)) with olds
    in Bi, Hout.
  fold news in Hout.
  cbv zeta. rewrite Bk, Bv, Bi.
  set (header := mkHeader SSHT_MAGIC KV_INLINE key_len val_len seed0 0
                   (CalcSetCnt (Z.of_nat (length olds)))) in *.
  assert (Hkeyed : Forall (keyed key_len) news <->
                   Forall (fun r => ptr (key r) <> None /\ len (key r) = key_len) news).
  { rewrite !Forall_forall. unfold keyed, is_null.
    split; intros H r Hr; specialize (H r Hr); destruct (ptr (key r));
      destruct H as [H1 H2]; split; try assumption; try reflexivity; try discriminate;
      congruence. }
  assert (Hgood : Forall (wellformed header) news <->
                  Forall (fun r => ptr (key r) <> None /\ len (key r) = key_len /\
                                   ptr (val r) <> None /\ len (val r) = val_len) news).
  { rewrite !Forall_forall.
    split; intros H r Hr; specialize (H r Hr);
      apply (FixedBuildFacts.wellformed_iff header r
               ltac:(cbn [header h_val_len]; unfold val_len; lia)); exact H. }
  change (hits key_len (map (key_of header) olds) news)
    with (Z.of_nat (length (filter
            (fun r => if in_dec (list_eq_dec Z.eq_dec) (slice_bytes (key r) key_len)
                                (map (fun o => slice_bytes (key o) key_len) olds)
                      then true else false) news))) in Hout.
  set (kept := Z.of_nat (length (filter _ news))) in *.
  destruct (derive Hash fuel seed1 (Hashtable_load (Some (sk_data out0))) patch_readers out)
    as [[[| |] out1]|e|].
  - destruct Hout as (Hle & Hwf & Hsz & Hlen).
    split; [exact Hle|]. split; [now apply Hgood|]. split; [exact Hsz|exact Hlen].
  - destruct Hout as (-> & [Hk|(Hle & Hw)]).
    + split; [reflexivity|]. left. intros H. apply Hk. now apply Hkeyed.
    + split; [reflexivity|]. right. split; [exact Hle|].
      intros H. apply Hw. now apply Hgood.
  - destruct Hout as (Hle & Hwf & Hsz). split; [exact Hle|].
    split; [now apply Hgood|exact Hsz].
  - destruct Hout as (-> & Hk & Hlt). split; [reflexivity|].
    split; [now apply Hkeyed|exact Hlt].
  - exact Hout.
Qed.

End DeriveFacts.

(** ** Derived tables *)

(** A patch for the two records of the examples: a new value for the key
    [l] and a key [n] they do not have. *)
Definition one_patch : list ListReader :=
  [mkListReader [rec_of [108] [9]; rec_of [110] [5]] 0].

(** X24.  What [derive] takes from the new records.  For a dictionary built
    by [BuildDict] (returning OK, into an empty sink) and loaded, and a
    [derive] from it that returns OK into an empty sink, base and new
    records being fewer than 2^40 together and the readers run one after
    the other: the derived artifact loads as KV_INLINE with the key and
    value length of the base, every new record has these lengths, and the
    lookup of the key of any new record returns, within as many turns of
    the outer loop of [Search] as [CalcSetCnt] gives sets for the base and
    new records together, a slice of [val_len] bytes in the derived file
    that holds the value of a new record with that key, whatever the base
    had for it. *)
Theorem derive_patch_values (Hash : list Z -> Z -> Z -> Z) (fuel : nat) (seed0 seed1 : Z)
    (base_readers patch_readers : list ListReader) (room0 room1 : Z) (out0 out1 : Sink) :
  let olds := BuildFacts.all_items base_readers in
  let news := BuildFacts.all_items patch_readers in
  let bound := CalcSetCnt (Z.of_nat (length olds) + Z.of_nat (length news)) in
  Z.of_nat (length olds) + Z.of_nat (length news) < 2 ^ 40 ->
  Forall (fun r => 0 <= len (key r) /\ 0 <= len (val r)) olds ->
  0 <= seed0 < 2 ^ 64 -> 0 <= seed1 < 2 ^ 64 -> (Z.to_nat bound <= fuel)%nat ->
  BuildDict Hash fuel seed0 base_readers (mkSink [] room0) = Done (BUILD_STATUS_OK, out0) ->
  let h := Hashtable_load (Some (sk_data out0)) in
  derive Hash fuel seed1 h patch_readers (mkSink [] room1) = Done (BUILD_STATUS_OK, out1) ->
  let h1 := Hashtable_load (Some (sk_data out1)) in
  let kl := Hashtable_key_len h in
  let vl := Hashtable_val_len h in
  Hashtable_not h1 = false /\ Hashtable_type h1 = KV_INLINE /\
  Hashtable_key_len h1 = kl /\ Hashtable_val_len h1 = vl /\
  forall r, In r news ->
    len (key r) = kl /\ len (val r) = vl /\
    exists r' p, In r' news /\ slice_bytes (key r') kl = slice_bytes (key r) kl /\
      bytes_at (sk_data out1) p (Z.to_nat vl) = slice_bytes (val r') vl /\
      forall b fuel', bytes_at b 0 (Z.to_nat kl) = slice_bytes (key r) kl ->
        (Z.to_nat bound <= fuel')%nat ->
        search Hash fuel' h1 (Some b) = Some (mkSlice (Some p) vl).
Proof.
  intros olds news bound Hsize Hpos Hseed0 Hseed1 Hfuel Hbuild h Hderive.
  destruct (DeriveFacts.BuildDict_derive Hash fuel seed0 seed1 base_readers patch_readers
              room0 room1 out0 out1 Hsize Hpos Hseed0 Hseed1 Hfuel Hbuild Hderive)
    as (Hnot & (Vt & Vk & Vv) & Hall & _ & Hnew & _).
  cbv zeta. unfold Hashtable_type, Hashtable_key_len, Hashtable_val_len.
  split; [exact Hnot|]. split; [exact Vt|]. split; [exact Vk|]. split; [exact Vv|].
  intros r Hr. rewrite Forall_forall in Hall. destruct (Hall r Hr) as (Hk & Hv & _).
  split; [exact Hk|]. split; [exact Hv|]. exact (Hnew r Hr).
Qed.

Lemma derive_patch_values_witness :
  exists out0 out1,
    BuildDict toy_hash 1 42 two_records (mkSink [] 4096) = Done (BUILD_STATUS_OK, out0) /\
    derive toy_hash 1 7 (Hashtable_load (Some (sk_data out0))) one_patch (mkSink [] 4096)
    = Done (BUILD_STATUS_OK, out1) /\
    Hashtable_not (Hashtable_load (Some (sk_data out1))) = false /\
    Hashtable_type (Hashtable_load (Some (sk_data out1))) = KV_INLINE.
Proof.
  eexists. eexists. split; [vm_compute; reflexivity|].
  split; [vm_compute; reflexivity|].
  pose proof (derive_patch_values toy_hash 1 42 7 two_records one_patch 4096 4096) as H.
  cbv zeta in H.
  specialize (H _ _ ltac:(cbn; lia) ltac:(repeat constructor; cbn; lia) ltac:(lia) ltac:(lia)
                ltac:(vm_compute; lia) ltac:(vm_compute; reflexivity)
                ltac:(vm_compute; reflexivity)).
  split; [exact (proj1 H)|exact (proj1 (proj2 H))].
Defined.

(** X25.  What [derive] keeps of the base.  Under the conditions of X24,
    for a key that no new record carries the derived table answers as the
    base does (within the same number of turns): both lookups return the
    null slice, or each returns a slice of [val_len] bytes in its own file
    and the two hold the same bytes. *)
Theorem derive_keeps_base (Hash : list Z -> Z -> Z -> Z) (fuel : nat) (seed0 seed1 : Z)
    (base_readers patch_readers : list ListReader) (room0 room1 : Z) (out0 out1 : Sink) :
  let olds := BuildFacts.all_items base_readers in
  let news := BuildFacts.all_items patch_readers in
  let bound := CalcSetCnt (Z.of_nat (length olds) + Z.of_nat (length news)) in
  Z.of_nat (length olds) + Z.of_nat (length news) < 2 ^ 40 ->
  Forall (fun r => 0 <= len (key r) /\ 0 <= len (val r)) olds ->
  0 <= seed0 < 2 ^ 64 -> 0 <= seed1 < 2 ^ 64 -> (Z.to_nat bound <= fuel)%nat ->
  BuildDict Hash fuel seed0 base_readers (mkSink [] room0) = Done (BUILD_STATUS_OK, out0) ->
  let h := Hashtable_load (Some (sk_data out0)) in
  derive Hash fuel seed1 h patch_readers (mkSink [] room1) = Done (BUILD_STATUS_OK, out1) ->
  let h1 := Hashtable_load (Some (sk_data out1)) in
  let kl := Hashtable_key_len h in
  let vl := Hashtable_val_len h in
  forall b fuel', (Z.to_nat bound <= fuel')%nat ->
    (forall r, In r news -> slice_bytes (key r) kl <> bytes_at b 0 (Z.to_nat kl)) ->
    (search Hash fuel' h (Some b) = Some null_slice /\
     search Hash fuel' h1 (Some b) = Some null_slice) \/
    (exists p0 p1,
       search Hash fuel' h (Some b) = Some (mkSlice (Some p0) vl) /\
       search Hash fuel' h1 (Some b) = Some (mkSlice (Some p1) vl) /\
       bytes_at (sk_data out1) p1 (Z.to_nat vl) = bytes_at (sk_data out0) p0 (Z.to_nat vl)).
Proof.
  intros olds news bound Hsize Hpos Hseed0 Hseed1 Hfuel Hbuild h Hderive.
  destruct (DeriveFacts.BuildDict_derive Hash fuel seed0 seed1 base_readers patch_readers
              room0 room1 out0 out1 Hsize Hpos Hseed0 Hseed1 Hfuel Hbuild Hderive)
    as (_ & _ & _ & _ & _ & Hkeep).
  exact Hkeep.
Qed.

Lemma derive_keeps_base_witness :
  exists out0 out1,
    BuildDict toy_hash 1 42 two_records (mkSink [] 4096) = Done (BUILD_STATUS_OK, out0) /\
    derive toy_hash 1 7 (Hashtable_load (Some (sk_data out0))) one_patch (mkSink [] 4096)
    = Done (BUILD_STATUS_OK, out1) /\
    exists p0 p1,
      search toy_hash 1 (Hashtable_load (Some (sk_data out0))) (Some [107])
      = Some (mkSlice (Some p0) 1) /\
      search toy_hash 1 (Hashtable_load (Some (sk_data out1))) (Some [107])
      = Some (mkSlice (Some p1) 1) /\
      bytes_at (sk_data out1) p1 1 = bytes_at (sk_data out0) p0 1.
Proof.
  eexists. eexists. split; [vm_compute; reflexivity|].
  split; [vm_compute; reflexivity|].
  pose proof (derive_keeps_base toy_hash 1 42 7 two_records one_patch 4096 4096) as H.
  cbv zeta in H.
  specialize (H _ _ ltac:(cbn; lia) ltac:(repeat constructor; cbn; lia) ltac:(lia) ltac:(lia)
                ltac:(vm_compute; lia) ltac:(vm_compute; reflexivity)
                ltac:(vm_compute; reflexivity) [107] 1%nat ltac:(vm_compute; lia)).
  destruct H as [[H0 _]|H].
  - intros r [<-|[<-|[]]]; vm_compute; discriminate.
  - vm_compute in H0. discriminate.
  - exact H.
Defined.

(** X26.  [item()] of the derived dictionary, under the conditions of X24,
    is the number of distinct keys of the base records and the new records
    taken together: a key that both carry is stored once. *)
Theorem derive_item_counts_keys (Hash : list Z -> Z -> Z -> Z) (fuel : nat)
    (seed0 seed1 : Z) (base_readers patch_readers : list ListReader) (room0 room1 : Z)
    (out0 out1 : Sink) :
  let olds := BuildFacts.all_items base_readers in
  let news := BuildFacts.all_items patch_readers in
  let bound := CalcSetCnt (Z.of_nat (length olds) + Z.of_nat (length news)) in
  Z.of_nat (length olds) + Z.of_nat (length news) < 2 ^ 40 ->
  Forall (fun r => 0 <= len (key r) /\ 0 <= len (val r)) olds ->
  0 <= seed0 < 2 ^ 64 -> 0 <= seed1 < 2 ^ 64 -> (Z.to_nat bound <= fuel)%nat ->
  BuildDict Hash fuel seed0 base_readers (mkSink [] room0) = Done (BUILD_STATUS_OK, out0) ->
  let h := Hashtable_load (Some (sk_data out0)) in
  derive Hash fuel seed1 h patch_readers (mkSink [] room1) = Done (BUILD_STATUS_OK, out1) ->
  Hashtable_item (Hashtable_load (Some (sk_data out1)))
  = Z.of_nat (length (nodup (list_eq_dec Z.eq_dec)
                            (map (fun r => slice_bytes (key r) (Hashtable_key_len h))
                                 (news ++ olds)))).
Proof.
  intros olds news bound Hsize Hpos Hseed0 Hseed1 Hfuel Hbuild h Hderive.
  destruct (DeriveFacts.BuildDict_derive Hash fuel seed0 seed1 base_readers patch_readers
              room0 room1 out0 out1 Hsize Hpos Hseed0 Hseed1 Hfuel Hbuild Hderive)
    as (_ & _ & _ & Hcount & _).
  exact Hcount.
Qed.

Lemma derive_item_counts_keys_witness :
  exists out0 out1,
    BuildDict toy_hash 1 42 two_records (mkSink [] 4096) = Done (BUILD_STATUS_OK, out0) /\
    derive toy_hash 1 7 (Hashtable_load (Some (sk_data out0))) one_patch (mkSink [] 4096)
    = Done (BUILD_STATUS_OK, out1) /\
    Hashtable_item (Hashtable_load (Some (sk_data out1))) = 3.
Proof.
  eexists. eexists. split; [vm_compute; reflexivity|].
  split; [vm_compute; reflexivity|].
  pose proof (derive_item_counts_keys toy_hash 1 42 7 two_records one_patch 4096 4096) as H.
  cbv zeta in H.
  specialize (H _ _ ltac:(cbn; lia) ltac:(repeat constructor; cbn; lia) ltac:(lia) ltac:(lia)
                ltac:(vm_compute; lia) ltac:(vm_compute; reflexivity)
                ltac:(vm_compute; reflexivity)).
  rewrite H. vm_compute. reflexivity.
Defined.

(** X27.  A key set derived from a key set is the union.  For a set built
    by [BuildSet] (returning OK, into an empty sink) and loaded, and a
    [derive] from it that returns OK into an empty sink, base and new
    records being fewer than 2^40 together and the readers run one after
    the other: the derived artifact loads as KEY_SET with the key length of
    the base, and [search] in it returns, within as many turns of the outer
    loop of [Search] as [CalcSetCnt] gives sets for the base and new
    records together, a slice of length 0 whose pointer is not null exactly
    for the keys of the base records and of the new records. *)
Theorem derive_set_membership (Hash : list Z -> Z -> Z -> Z) (fuel : nat) (seed0 seed1 : Z)
    (base_readers patch_readers : list ListReader) (room0 room1 : Z) (out0 out1 : Sink) :
  let olds := BuildFacts.all_items base_readers in
  let news := BuildFacts.all_items patch_readers in
  let bound := CalcSetCnt (Z.of_nat (length olds) + Z.of_nat (length news)) in
  Z.of_nat (length olds) + Z.of_nat (length news) < 2 ^ 40 ->
  Forall (fun r => 0 <= len (key r)) olds ->
  0 <= seed0 < 2 ^ 64 -> 0 <= seed1 < 2 ^ 64 -> (Z.to_nat bound <= fuel)%nat ->
  BuildSet Hash fuel seed0 base_readers (mkSink [] room0) = Done (BUILD_STATUS_OK, out0) ->
  let h := Hashtable_load (Some (sk_data out0)) in
  derive Hash fuel seed1 h patch_readers (mkSink [] room1) = Done (BUILD_STATUS_OK, out1) ->
  let h1 := Hashtable_load (Some (sk_data out1)) in
  let kl := Hashtable_key_len h in
  Hashtable_not h1 = false /\ Hashtable_type h1 = KEY_SET /\ Hashtable_key_len h1 = kl /\
  forall b fuel', (Z.to_nat bound <= fuel')%nat ->
    exists s, search Hash fuel' h1 (Some b) = Some s /\ len s = 0 /\
      (ptr s <> None <->
       exists r, In r (news ++ olds) /\
         slice_bytes (key r) kl = bytes_at b 0 (Z.to_nat kl)).
Proof.
  intros olds news bound Hsize Hpos Hseed0 Hseed1 Hfuel Hbuild h Hderive.
  destruct (DeriveFacts.BuildSet_derive Hash fuel seed0 seed1 base_readers patch_readers
              room0 room1 out0 out1 Hsize Hpos Hseed0 Hseed1 Hfuel Hbuild Hderive)
    as (Hnot & (Vt & Vk & _) & _ & _ & Hmem).
  cbv zeta. unfold Hashtable_type, Hashtable_key_len.
  split; [exact Hnot|]. split; [exact Vt|]. split; [exact Vk|]. exact Hmem.
Qed.

Lemma derive_set_membership_witness :
  exists out0 out1,
    BuildSet toy_hash 1 42 two_records (mkSink [] 4096) = Done (BUILD_STATUS_OK, out0) /\
    derive toy_hash 1 7 (Hashtable_load (Some (sk_data out0))) one_patch (mkSink [] 4096)
    = Done (BUILD_STATUS_OK, out1) /\
    Hashtable_not (Hashtable_load (Some (sk_data out1))) = false /\
    Hashtable_type (Hashtable_load (Some (sk_data out1))) = KEY_SET.
Proof.
  eexists. eexists. split; [vm_compute; reflexivity|].
  split; [vm_compute; reflexivity|].
  pose proof (derive_set_membership toy_hash 1 42 7 two_records one_patch 4096 4096) as H.
  cbv zeta in H.
  specialize (H _ _ ltac:(cbn; lia) ltac:(repeat constructor; cbn; lia) ltac:(lia) ltac:(lia)
                ltac:(vm_compute; lia) ltac:(vm_compute; reflexivity)
                ltac:(vm_compute; reflexivity)).
  split; [exact (proj1 H)|exact (proj1 (proj2 H))].
Defined.

(** New records that carry one key of the base three times. *)
Definition thrice_patch : list ListReader :=
  [mkListReader [rec_of [107] [5]; rec_of [107] [6]; rec_of [107] [7]] 0].

(** X28.  How [derive] ends on a dictionary built by [BuildDict] (returning
    OK, into an empty sink) and loaded, for at least one reader of new
    records, base and new records being fewer than 2^40 together, the
    readers run one after the other and every [while (true)] loop given as
    many turns as [CalcSetCnt] gives sets for the base and new records
    together.  With [kept] the number of new records whose key is a key of
    the base: it returns BAD_INPUT and writes nothing when a new record
    lacks a key of the key length of the base, or when [kept] is at most
    the item count of the base and a new record lacks a value of the value
    length of the base; it throws [InternalException] - the [Assert(dirty <=
    base.item)] - when every new record has such a key and [kept] exceeds
    the item count of the base, which new records repeating a key of the
    base bring about; otherwise it returns FAIL_TO_OUTPUT when the sink
    takes fewer bytes than header, guide and rows of a table for
    [new + item - kept] entries need, and OK after writing that many
    bytes.  It does not hang. *)
Theorem derive_status (Hash : list Z -> Z -> Z -> Z) (fuel : nat) (seed0 seed1 : Z)
    (base_readers : list ListReader) (front : ListReader) (rest : list ListReader)
    (room0 : Z) (out0 out : Sink) :
  let patch_readers := front :: rest in
  let olds := BuildFacts.all_items base_readers in
  let news := BuildFacts.all_items patch_readers in
  let bound := CalcSetCnt (Z.of_nat (length olds) + Z.of_nat (length news)) in
  Z.of_nat (length olds) + Z.of_nat (length news) < 2 ^ 40 ->
  Forall (fun r => 0 <= len (key r) /\ 0 <= len (val r)) olds ->
  0 <= seed0 < 2 ^ 64 -> (Z.to_nat bound <= fuel)%nat ->
  BuildDict Hash fuel seed0 base_readers (mkSink [] room0) = Done (BUILD_STATUS_OK, out0) ->
  let h := Hashtable_load (Some (sk_data out0)) in
  let kl := Hashtable_key_len h in
  let vl := Hashtable_val_len h in
  let keyed := Forall (fun r => ptr (key r) <> None /\ len (key r) = kl) news in
  let good :=
    Forall (fun r => ptr (key r) <> None /\ len (key r) = kl /\
                     ptr (val r) <> None /\ len (val r) = vl) news in
  let kept :=
    Z.of_nat (length (filter
      (fun r => if in_dec (list_eq_dec Z.eq_dec) (slice_bytes (key r) kl)
                          (map (fun o => slice_bytes (key o) kl) olds)
                then true else false) news)) in
  let n1 := CalcSetCnt (Z.of_nat (length news) + Hashtable_item h - kept) in
  let size := 64 + 64 * n1 + 64 * n1 * (kl + vl) in
  match derive Hash fuel seed1 h patch_readers out with
  | Done (BUILD_STATUS_BAD_INPUT, out1) =>
      out1 = out /\ (~ keyed \/ (kept <= Hashtable_item h /\ ~ good))
  | Done (BUILD_STATUS_FAIL_TO_OUTPUT, out1) =>
      kept <= Hashtable_item h /\ good /\ sk_room out < size
  | Done (BUILD_STATUS_OK, out1) =>
      kept <= Hashtable_item h /\ good /\ size <= sk_room out /\
      Z.of_nat (length (sk_data out1)) = Z.of_nat (length (sk_data out)) + size
  | Throw e => e = InternalException /\ keyed /\ Hashtable_item h < kept
  | Hang => False
  end.
Proof.
  intros patch_readers olds news bound Hsize Hpos Hseed0 Hfuel Hbuild.
  exact (DeriveFacts.BuildDict_derive_outcome Hash fuel seed0 seed1 base_readers
           patch_readers room0 out0 out Hsize Hpos Hseed0 Hfuel ltac:(discriminate) Hbuild).
Qed.

Lemma derive_status_witness :
  exists out0,
    BuildDict toy_hash 1 42 two_records (mkSink [] 4096) = Done (BUILD_STATUS_OK, out0) /\
    derive toy_hash 1 7 (Hashtable_load (Some (sk_data out0))) thrice_patch (mkSink [] 4096)
    = Throw InternalException /\
    Hashtable_item (Hashtable_load (Some (sk_data out0))) < 3.
Proof.
  eexists. split; [vm_compute; reflexivity|].
  pose proof (derive_status toy_hash 1 42 7 two_records
                (mkListReader [rec_of [107] [5]; rec_of [107] [6]; rec_of [107] [7]] 0) []
                4096) as H.
  cbv zeta in H.
  specialize (H _ (mkSink [] 4096) ltac:(cbn; lia) ltac:(repeat constructor; cbn; lia)
                ltac:(lia) ltac:(vm_compute; lia) ltac:(vm_compute; reflexivity)).
  match type of H with
  | match ?d with _ => _ end =>
      assert (E : d = Throw InternalException) by (vm_compute; reflexivity)
  end.
  split; [exact E|]. rewrite E in H. destruct H as (_ & _ & Hlt).
  vm_compute in Hlt |- *. exact Hlt.
Defined.
